(* ===== verification/_CoqProject ===== *)
-Q . S2P
Prelude.v
IoBuffer.v
IoQueue.v
Padding.v
Addr.v
Ss.v
Socks4.v
Socks5.v
Hkdf.v
Crypter.v
Cipher.v
Conn.v
Relay.v
RelayInv.v
RelayFlow.v
Dns.v
Resolver.v
CliRelay.v
CliFlow.v
Http.v
Server.v
SsServer.v
HttpServer.v
Cli.v
CliUpstream.v
CliHandshake.v
Tunnel.v
TunnelRelay.v
ContentServer.v
Config.v
Stream.v
SslSocket.v
SessionCache.v
Utils.v
