(* ===== verification/Prelude.v ===== *)
(** * Verification of yass

    yass is a proxy in two halves.  The client (src/src/cli) accepts applications
    on the local side, speaks SOCKS4, SOCKS4A, SOCKS5 or HTTP with them, and carries
    each connection to the server (src/src/server) with one of the cipher
    methods: shadowsocks with an AEAD or a stream cipher, plain SOCKS, or HTTP.  The
    server recovers the destination, connects to it and relays.  Both halves are
    event-driven: a completion handler of asio runs, changes the state of one
    connection and registers the next handler.  The parsers, buffers and ciphers
    they share are in src/src/net and src/src/crypto.

    ** Files, from the bottom up

    - Prelude.v (this file): bytes, checked memory accesses, the option monad, the
      shared lemmas, hints and tactics, and [Asio]: operations of asio that are under way.
    - IoBuffer.v: [GrowableIOBuffer] of net/io_buffer.cpp.
    - IoQueue.v: the circular queue of buffers, net/io_queue.hpp.
    - Padding.v: [AddPadding] and [RemovePadding] of net/padding.cpp and the
      loops of the connections around them.
    - Addr.v: the address part of requests, [address_type_header] of net/ss.hpp and
      net/socks5.hpp, and the wire format it implements.
    - Ss.v, Socks4.v, Socks5.v: requests, parsers and replies, net/ss_request*.hpp,
      net/socks4*.hpp, net/socks5*.hpp.
    - Hkdf.v: net/hmac_sha1.cpp and net/hkdf_sha1.cpp against RFC 2104 and RFC 5869.
    - Crypter.v: the packet crypters of src/src/crypto, their three backends, the
      factories and the table of cipher methods.
    - Cipher.v: net/cipher.cpp: keys, salt, frames, the incremental decoder
      [process_bytes].
    - Conn.v: reading into a buffer and [EncryptData].
    - Relay.v: [ServerConnection] after the handshake, the two pipes between client
      and channel, with [stream] of net/stream.hpp; CliRelay.v: [CliConnection] from
      where its request is queued.  RelayInv.v: the invariant they share; RelayFlow.v,
      CliFlow.v: its proof for each, against the interface [Codec] of a method, and
      the methods that fulfil it.
    - Dns.v: queries and the parser of responses, net/dns_message*.hpp, against the
      format of RFC 1035.
    - Resolver.v: resolution over TLS and HTTPS, net/dns_addrinfo_helper.cpp,
      net/dot_request.cpp, net/doh_request.cpp and net/dot_resolver.cpp.
    - Http.v: request rewriting and proxy authorization, net/http_parser.cpp.
    - Server.v, SsServer.v, HttpServer.v: [ServerConnection] up to the relay, for
      SOCKS, shadowsocks and HTTP clients, server/server_connection.cpp.
    - Cli.v, CliUpstream.v: [CliConnection], its local and its upstream side,
      cli/cli_connection.cpp; CliHandshake.v: the invariant of its SOCKS5 handshake
      with the upstream server.
    - Tunnel.v: application, client and server composed; TunnelRelay.v: the relays
      of the two halves as one machine.
    - ContentServer.v: [ContentServer] of net/content_server.hpp, which accepts the
      connections of either half, and net/protocol.cpp.
    - Config.v: the flags, the configuration file and the checks of src/src/config.
    - Stream.v: [stream] of net/stream.hpp as a whole: connecting to a host, and the waits
      for its socket under the limit of the rate.
    - SslSocket.v: the TLS sockets of both sides, net/ssl_socket.cpp and
      net/ssl_server_socket.cpp, with the mapping of errors of net/openssl_util.cpp.
    - SessionCache.v: the TLS sessions that are kept, net/ssl_client_session_cache.cpp, and
      the functions of net/ssl_socket.cpp that keep and use them.
    - Utils.v: paths, the writing of files and the text of a number of bytes, core/utils.cpp.

    Every file holds a Module of its own name.  Objects are Records with the members
    of the class, under the names of the source; a member function is a Definition
    of its name.  The result is in [option] where the code can abort ([CHECK],
    [LOG(FATAL)]) or leave an object (an access outside of an allocation, a null
    reference): [None] is that outcome.  The build is that for release: [DCHECK] and
    [DLOG(FATAL)] do nothing, and that no handler aborts is said of that build.  Error codes are values.  Integers
    are [Z] with the width of the source written out where it matters, sizes and
    positions [nat]; a byte is [Byte.byte].  The sockets are not state: what they
    accept and deliver is an argument (the events of a run, the [env] of a
    handler), so a theorem about all of these is a theorem about all schedules.

    ** What the theorems show

    - The data path.  [shadowsocks_stream_roundtrip]: for every method and
      every cutting of the ciphertext the receiver gets the chunks that were sent;
      [tampered_frame_rejected]: nothing after a forged frame, however the stream is cut;
      [padding_stream_roundtrip]; [IoQueue_refines_list].  Of packets
      [packet_roundtrip] and [packet_nonce_reuse].
    - The messages.  [ss_request_roundtrip], [socks5_request_roundtrip],
      [socks4_request_roundtrip] and the soundness of each parser on every input
      ([ss_parse_sound], [socks5_parse_sound], [socks4_parse_sound]), with the reads
      outside of the range where there are some ([ss_parse_bounds]).
    - Keys.  [crypto_hkdf_rfc5869], [derive_key_bytes_to_key].
    - The handshakes.  [server_socks5_handshake], [server_socks4_handshake],
      [server_ss_handshake], [server_http_handshake], [client_socks5_handshake],
      [client_http_request]: what a peer that follows the protocol
      is sent, the destination that is connected to and the payload that is kept;
      [server_socks5_auth], [server_http_authorization]: nobody else gets through;
      [client_socks5_upstream_order]: an invariant over all runs.
    - The relay.  [relay_transparent], [relay_shadowsocks]: after every sequence of
      events the bytes sent and queued on one side are those read on the other, as
      they are or in frames, and the half-close comes last; [relay_awake]: no wake-up
      is lost, and what is queued is delivered.  [client_relay_transparent],
      [client_relay_shadowsocks]: the same of the client behind an HTTPS and a
      shadowsocks server; [client_https_reply].
    - Name resolution.  [dns_response_parse]: the parser accepts exactly the
      responses of the format; [dns_request_query]; [request_answered],
      [request_called_once], [resolver_result], [resolver_answers_once]: a
      resolution has one answer, which is what the responses state.
    - The composition.  [tunnel_shadowsocks], [tunnel_socks5]: the destination and
      the bytes the application gives to the client are those the server gets;
      [tunnel_transparent]: and so it goes on, in both directions, under every
      interleaving of the two halves, each with a random source of its own.
    - The listening server.  [server_invariant], [server_attended], [server_limit],
      [server_delegate], [server_stop]: the book-keeping of connections and
      addresses over all sequences of events; [alpn_select_first],
      [client_hello_own]: the choice of a protocol.
    - The upstream stream.  [connect_answered_once]: over all sequences of events nothing
      overflows and the callback is called once; [connect_first_reachable]: the
      endpoints are tried in order; [waits_not_lost]: a wait that is delayed, yielded or
      handed to the socket ends in its callback; [rate_limit_delay]: the delay is what the
      limit asks for, once.
    - TLS sockets.  [tls_handshake_once]: over all sequences of events and answers of BoringSSL
      the callbacks of the handshake are called once at most and, as long as nobody else cancels the waits, a
      handshake that is not over
      has a wait that goes on with it; [tls_waits_not_lost]: the same of the waits of
      the user; [tls_read_equivalent]: where both sides read alike, and where not.
    - TLS sessions.  [session_cache_sound]: a session given out is the server's, has not expired
      and, where it is for a single use, was not given out before; [session_resumed]: the
      session of a connection is that of the next one.
    - Utilities.  [path_parts]: [Dirname] and [Basename] against a description of paths, but for the empty one;
      [expand_user_absolute]; [write_file_result]: what the file holds, whatever fails;
      [human_readable_bounds]: the unit, the number and its error.
    - The configuration.  [rate_flag_text]: which texts are rates;
      [config_roundtrip]: what is saved is read back; [arguments_all_or_nothing]: the
      arguments of the front ends are taken exactly if all are acceptable.
    - What the code does otherwise than it means to: the theorems of the kinds
      error and bounds, e.g. [server_ss_split_refused],
      [server_socks5_truncated_aborts], [server_http_overflow],
      [client_socks5_pipelined_lost], [dns_cname_loop], [dns_name_overrun],
      [resolver_late_answer], [server_limit_exceeded], [client_hello_crossed],
      [client_hello_freed], [save_config_answer], [save_config_appends],
      [tls_shutdown_lost], [path_parts_empty].

    ** Parameters, bounds and fuel

    Code outside of the repository is a parameter, always a class: [Sha1],
    [KeyLib] (MD5 and base64), [RandLib] with the laws [RandLaws] (what [RAND_bytes] draws for the
    salt of a connection at one end; the two ends of a tunnel have one each), [CryptoLib] with the laws
    [CryptoLaws], [Allocator] (the content of fresh memory), [HttpLib] (the HTTP
    parsers and GURL), [HttpResponseLib], [ConfigLib] (jsoncpp, abseil's string functions, GURL) with the laws
    [ConfigLaws], [AddressLib] (asio's addresses), [LRUCache] (the container of the sessions) with the
    laws [LRULaws]; the answers of BoringSSL are arguments.
    Witnesses instantiate them with concrete functions.  The loops of
    the code that are not structural carry fuel: [process_bytes] and the frame loop of
    Cipher.v get one more than the bytes they hold, each round consuming at least
    one; the pipe of CliUpstream.v gets a number of rounds above what its
    [env] can deliver, and [pipe_loop_progress] shows that a round that goes on
    uses something up; the loops of Relay.v and CliRelay.v get one or two rounds more
    than the answers of the sockets in their [env].  The loop of a TLS handshake gets two rounds, which are
    enough by [handshake_loop_total].  The parser of Dns.v has an outcome of its own for
    running on, since it does: [dns_response_parse] gives fuel that is enough for a
    well-formed response, [dns_cname_loop] a response for which none is.  Sizes that
    the code keeps in [int] are assumed below the limits it checks itself; each
    theorem states them, but for the indices of IoQueue.v, which stay in [int] below 2^29 buffers.

    ** Not modelled

    HTTP/2 (an adapter of nghttp2 or oghttp2 does the work), the settings of TLS sockets and
    contexts, certificates, asio and the sockets, the system resolver, the
    transparent redirection and the reuse of a kept HTTP connection, the registry and the
    preferences of macOS as a place of the configuration, the builds with TBB, the workers around it, and the
    graphical front ends: glue over
    libraries and operating systems, whose own text is not in the repository or has
    no state to speak of. *)

From Stdlib Require Import ZArith Lia.
From Stdlib Require Export Strings.Byte.
From Stdlib Require Strings.String Numbers.DecimalString.
Export (notations) Strings.String.
From stdpp Require Import base list numbers option.

(** ** Bytes: [uint8_t], [unsigned char], [std::byte] *)

(** The value of a byte, and the conversion of an integer to [uint8_t]
    (reduction modulo 256, the C++ conversion to an unsigned type). *)
Definition u8 (b : byte) : Z := Z.of_N (Byte.to_N b).

Definition to_u8 (z : Z) : byte :=
  match Byte.of_N (Z.to_N (z mod 256)%Z) with Some b => b | None => x00 end.

#[export] Instance byte_eq_decision : EqDecision byte := Byte.byte_eq_dec.
#[export] Instance byte_inhabited : Inhabited byte := populate x00.

(** Two bytes in network order as the code reads them:
    [(p[0] << 8) | p[1]]. *)
Definition be16 (hi lo : byte) : Z := Z.lor (Z.shiftl (u8 hi) 8) (u8 lo).

(** The two bytes of a [uint16_t] in network order ([htons] then [memcpy],
    or the explicit [>> 8] and [& 0xff]). *)
Definition be16_bytes (v : Z) : list byte :=
  [to_u8 (Z.land (Z.shiftr v 8) 255); to_u8 (Z.land v 255)].

(** ** Memory: byte arrays with checked reads and [memcpy] *)

(** Reading one byte or [n] bytes at position [i] of an object; [None] is a
    read that leaves the object. *)
Definition rd (m : list byte) (i : nat) : option byte := m !! i.

Definition rd_slice (m : list byte) (i n : nat) : option (list byte) :=
  if decide (i + n <= length m) then Some (take n (drop i m)) else None.

(** [memcpy (m + off, bs, |bs|)] on an object that is large enough. *)
Definition splice {A} (off : nat) (bs m : list A) : list A :=
  take off m ++ bs ++ drop (off + length bs) m.

(** ** Lemmas on bytes *)

Lemma u8_range b : (0 <= u8 b < 256)%Z.
Proof. unfold u8. pose proof (Byte.to_N_bounded b). lia. Qed.

Lemma u8_to_u8 z : u8 (to_u8 z) = (z mod 256)%Z.
Proof.
  unfold u8, to_u8. pose proof (Z.mod_pos_bound z 256 ltac:(lia)).
  destruct (Byte.of_N _) as [b|] eqn:E.
  - apply Byte.to_of_N in E. rewrite E. lia.
  - apply Byte.of_N_None_iff in E. lia.
Qed.

Lemma u8_inj a b : u8 a = u8 b → a = b.
Proof.
  unfold u8. intros H%N2Z.inj.
  pose proof (Byte.of_to_N a). pose proof (Byte.of_to_N b). congruence.
Qed.

Lemma to_u8_u8 b : to_u8 (u8 b) = b.
Proof. apply u8_inj. rewrite u8_to_u8, Z.mod_small; [done|apply u8_range]. Qed.

Lemma u8_to_u8_small z : (0 <= z < 256)%Z → u8 (to_u8 z) = z.
Proof. intros. rewrite u8_to_u8. by apply Z.mod_small. Qed.

(** Disjoint [|] is [+]: the shape in which the code assembles integers. *)
Lemma lor_shiftl_add a b n :
  (0 <= n)%Z → (0 <= b < 2 ^ n)%Z → Z.lor (Z.shiftl a n) b = (a * 2 ^ n + b)%Z.
Proof.
  intros Hn Hb. rewrite <- Z.shiftl_mul_pow2 by done. symmetry.
  apply Z.add_nocarry_lor, Z.bits_inj'. intros k Hk.
  rewrite Z.land_spec, Z.bits_0. destruct (decide (k < n)%Z).
  - rewrite Z.shiftl_spec_low by lia. done.
  - destruct Hb as [Hb0 Hb].
    rewrite (Z.bounded_iff_bits_nonneg n b) in Hb by lia.
    rewrite (Hb k) by lia. apply andb_false_r.
Qed.

Lemma be16_spec hi lo : be16 hi lo = (256 * u8 hi + u8 lo)%Z.
Proof.
  unfold be16. pose proof (u8_range lo).
  rewrite lor_shiftl_add by (simpl; lia). simpl. lia.
Qed.

Lemma be16_range hi lo : (0 <= be16 hi lo < 65536)%Z.
Proof. rewrite be16_spec. pose proof (u8_range hi). pose proof (u8_range lo). lia. Qed.

Lemma land_255 z : Z.land z 255 = (z mod 256)%Z.
Proof. change 255%Z with (Z.ones 8). by rewrite Z.land_ones by lia. Qed.

Lemma u8_be16_hi v : u8 (to_u8 (Z.land (Z.shiftr v 8) 255)) = (v / 256 mod 256)%Z.
Proof.
  rewrite land_255, u8_to_u8, Z.mod_mod by lia.
  by rewrite Z.shiftr_div_pow2 by lia.
Qed.

Lemma u8_be16_lo v : u8 (to_u8 (Z.land v 255)) = (v mod 256)%Z.
Proof. by rewrite land_255, u8_to_u8, Z.mod_mod by lia. Qed.

(** A port written in network order is read back. *)
Lemma be16_roundtrip v :
  (0 <= v < 65536)%Z →
  be16 (to_u8 (Z.land (Z.shiftr v 8) 255)) (to_u8 (Z.land v 255)) = v.
Proof.
  intros Hv. rewrite be16_spec, u8_be16_hi, u8_be16_lo.
  rewrite (Z.mod_small (v / 256)) by (split; [apply Z.div_pos|apply Z.div_lt_upper_bound]; lia).
  symmetry. apply Z.div_mod. lia.
Qed.

(** ** Lemmas on slices *)

(** The length of a list expression built from slices, normalised. *)
Ltac len :=
  repeat first
    [ rewrite length_app in * | rewrite length_take in * | rewrite length_drop in *
    | rewrite length_replicate in * | rewrite length_insert in *
    | rewrite length_map in * | rewrite length_fmap in * | rewrite length_seq in *
    | progress simpl length in * ];
  try lia.

(** Equality of two list expressions built from [++], [take] and [drop], by
    comparing them position by position. *)
Ltac slice_step :=
  match goal with
  | |- context [(?a ++ ?b) !! ?i] =>
      destruct (decide (i < length a)) as [?Hlt|?Hge];
      [ rewrite (lookup_app_l a b i) by assumption
      | rewrite (lookup_app_r a b i) by lia ]
  | |- context [take ?n ?l !! ?i] => rewrite (lookup_take l i n)
  | |- context [drop ?n ?l !! ?i] => rewrite (lookup_drop l n i)
  | |- context [decide (?i < ?n)] => destruct (decide (i < n))
  end.

Ltac slice_end :=
  len;
  first
    [ reflexivity
    | f_equal; lia
    | symmetry; apply lookup_ge_None_2; len
    | apply lookup_ge_None_2; len
    | exfalso; lia
    | transitivity (None : option byte); [| symmetry]; apply lookup_ge_None_2; len ].

Ltac slice_solve := apply list_eq; intros ?i; repeat slice_step; slice_end.

Lemma rd_slice_Some m i n bs :
  rd_slice m i n = Some bs → bs = take n (drop i m) ∧ length bs = n ∧ i + n <= length m.
Proof.
  unfold rd_slice. intros. case_decide; simplify_eq. split_and!; [done|len|done].
Qed.

Lemma rd_slice_app pre bs suf :
  rd_slice (pre ++ bs ++ suf) (length pre) (length bs) = Some bs.
Proof.
  unfold rd_slice. rewrite decide_True by (len).
  by rewrite drop_app_length, take_app_length.
Qed.

Lemma rd_slice_app' pre bs suf i n :
  i = length pre → n = length bs → rd_slice (pre ++ bs ++ suf) i n = Some bs.
Proof. intros -> ->. apply rd_slice_app. Qed.

Lemma rd_slice_prefix bs suf n : n = length bs → rd_slice (bs ++ suf) 0 n = Some bs.
Proof. intros ->. apply (rd_slice_app []). Qed.

Lemma rd_app pre b suf i : i = length pre → rd (pre ++ b :: suf) i = Some b.
Proof. intros ->. unfold rd. by rewrite list_lookup_middle. Qed.

(** Reads inside a slice that is known. *)
Lemma rd_in_slice m i n bs j b :
  rd_slice m i n = Some bs → bs !! (j - i) = Some b → i <= j → rd m j = Some b.
Proof.
  intros (-> & _ & _)%rd_slice_Some Hb Hij. apply lookup_take_Some in Hb as [Hb _].
  rewrite lookup_drop in Hb. unfold rd. rewrite <- Hb. f_equal. lia.
Qed.

Lemma rd_slice_in_slice m i n pre bs suf j k :
  rd_slice m i n = Some (pre ++ bs ++ suf) → j = i + length pre → k = length bs →
  rd_slice m j k = Some bs.
Proof.
  intros (E & Hl & Hi)%rd_slice_Some -> ->. unfold rd_slice.
  rewrite decide_True by (len). f_equal.
  assert (bs = take (length bs) (drop (length pre) (pre ++ bs ++ suf))) as Hb
    by by rewrite drop_app_length, take_app_length.
  rewrite Hb at 2. rewrite E, skipn_firstn_comm, drop_drop, take_take. f_equal. len.
Qed.

(** Adjacent reads are one read. *)
Lemma rd_slice_join m i j n k a b :
  rd_slice m i n = Some a → rd_slice m j k = Some b → j = i + n →
  rd_slice m i (n + k) = Some (a ++ b).
Proof.
  intros (-> & _ & ?)%rd_slice_Some (-> & _ & ?)%rd_slice_Some ->.
  unfold rd_slice. rewrite decide_True by lia. f_equal.
  rewrite <- (drop_drop m n i). symmetry. apply take_take_drop.
Qed.

Lemma rd_slice_1 m i b : rd m i = Some b ↔ rd_slice m i 1 = Some [b].
Proof.
  unfold rd. split.
  - intros H. unfold rd_slice. pose proof (lookup_lt_Some _ _ _ H).
    rewrite decide_True by lia. by rewrite (drop_S _ b) by done.
  - intros H. eapply rd_in_slice; [done| |lia]. by rewrite Nat.sub_diag.
Qed.

Lemma rd_slice_0 m i : i <= length m → rd_slice m i 0 = Some [].
Proof. intros. unfold rd_slice. by rewrite decide_True by lia. Qed.

Lemma rd_slice_total m i n :
  i + n <= length m → ∃ bs, rd_slice m i n = Some bs ∧ length bs = n.
Proof. intros. unfold rd_slice. rewrite decide_True by done. eexists; split; [done|len]. Qed.

Lemma rd_slice_None m i n : rd_slice m i n = None → length m < i + n.
Proof. unfold rd_slice. case_decide; [done|lia]. Qed.

Lemma rd_None m i : rd m i = None → length m <= i.
Proof. apply lookup_ge_None_1. Qed.

Lemma rd_total m i : i < length m → ∃ b, rd m i = Some b.
Proof. intros. by apply lookup_lt_is_Some. Qed.

Lemma length_splice {A} off (bs m : list A) :
  off + length bs <= length m → length (splice off bs m) = length m.
Proof. intros. unfold splice. len. Qed.

Lemma splice_0 {A} (bs m : list A) :
  splice 0 bs m = bs ++ drop (length bs) m.
Proof. done. Qed.

(** Writing in the middle of a known layout. *)
Lemma splice_app {A} (pre old suf bs : list A) off :
  off = length pre → length bs = length old →
  splice off bs (pre ++ old ++ suf) = pre ++ bs ++ suf.
Proof.
  intros -> Hlen. unfold splice. rewrite take_app_length, Hlen.
  rewrite drop_app, drop_ge, Nat.add_comm, Nat.add_sub by lia.
  by rewrite drop_app_length.
Qed.

Lemma splice_app_r {A} (a b rest : list A) off :
  off = length a → splice off b (a ++ rest) = a ++ b ++ drop (length b) rest.
Proof.
  intros ->. unfold splice. by rewrite take_app_length, drop_app_add.
Qed.

Lemma take_splice {A} off (bs m : list A) :
  off + length bs <= length m →
  take (off + length bs) (splice off bs m) = take off m ++ bs.
Proof.
  intros. unfold splice. rewrite app_assoc. apply take_app_length'. len.
Qed.

Lemma drop_take_splice {A} off (bs m : list A) :
  off + length bs <= length m →
  take (length bs) (drop off (splice off bs m)) = bs.
Proof.
  intros. unfold splice. rewrite drop_app_length' by (len).
  apply take_app_length.
Qed.

(** ** Automation shared by the components *)

Create HintDb yass discriminated.
Create Rewrite HintDb yass.
#[export] Hint Resolve u8_range be16_range rd_slice_app : yass.
#[export] Hint Rewrite u8_to_u8 to_u8_u8 land_255 @length_splice using lia : yass.

(** Case analysis on the guards of an executable definition. *)
Ltac guards :=
  repeat (case_match || case_decide || simplify_option_eq); try done; try lia.

(** ** Byte strings of ASCII text *)

Definition str (s : String.string) : list byte := String.list_byte_of_string s.
Arguments str s%_string_scope.

Definition crlf : list byte := [x0d; x0a].

(** The decimal digits of an integer that is not negative. *)
Definition decimal (z : Z) : list byte :=
  String.list_byte_of_string (DecimalString.NilZero.string_of_uint (N.to_uint (Z.to_N z))).

(** ** Operations of asio

    Operations that end in a handler are counted: [waiting] are those under way, which a cancel or the closing of the socket
    ends; [queued] are the results of those that are complete and whose handlers are yet to run, which no cancel
    reaches. *)

Module Asio.

Record op (A : Type) := mkOp { waiting : nat; queued : list A }.
Arguments mkOp {A}. Arguments waiting {A}. Arguments queued {A}.

Definition idle {A} : op A := mkOp 0 [].
Definition start {A} (o : op A) : op A := mkOp (S (waiting o)) (queued o).
Definition cancel {A} (o : op A) : op A := mkOp 0 (queued o).
Definition complete {A} (o : op A) (a : A) : op A := mkOp (waiting o - 1) (queued o ++ [a]).
Definition dequeue {A} (o : op A) : op A := mkOp (waiting o) (tail (queued o)).
(** [expires_after] cancels what waits for the timer. *)
Definition rearm {A} (o : op A) : op A := start (cancel o).

Definition out {A} (o : op A) : nat := waiting o + length (queued o).

Lemma out_complete {A} (o : op A) a : 0 < waiting o → out (complete o a) = out o.
Proof. intros. unfold out. cbn. rewrite length_app. cbn. lia. Qed.

Lemma out_dequeue {A} (o : op A) : queued o ≠ [] → S (out (dequeue o)) = out o.
Proof. unfold out. destruct (queued o) eqn:E; [done|]. cbn. rewrite E. cbn. lia. Qed.

End Asio.
