(* ===== verification/IoBuffer.v ===== *)
(** * IoBuffer: [net::GrowableIOBuffer] (src/src/net/io_buffer.{hpp,cpp})

    The reference-counted growable buffer every component of the proxy moves
    data in.  The state is the allocation ([real_data_]), the logical capacity
    and the offset; [data_] and [size_] are functions of these.  [None] is the
    abort of a failed [CHECK] or an access outside the allocation.  What
    [realloc] leaves in fresh memory is not specified: it is a parameter, the
    class [Allocator]. *)

From Stdlib Require Import ZArith Lia.
From stdpp Require Import base list numbers option.
From S2P Require Import Prelude.

(** The byte that fresh memory holds at a given position. *)
Class Allocator := fresh_byte : nat → byte.

Module IoBuffer.

Record GrowableIOBuffer := mkBuf {
  real_data : list byte;
  capacity : nat;
  offset : nat;
}.

(** [MakeRefCounted<GrowableIOBuffer>()]. *)
Definition make : GrowableIOBuffer := mkBuf [] 0 0.

(** [offset_ <= capacity_] and the allocation holds the capacity. *)
Definition wf (b : GrowableIOBuffer) : Prop :=
  offset b <= capacity b <= length (real_data b).

Arguments wf : simpl never.

#[export] Instance wf_dec b : Decision (wf b).
Proof. unfold wf. apply _. Defined.

Section Ops.
Context `{Allocator}.

Definition set_offset (b : GrowableIOBuffer) (o : Z) : option GrowableIOBuffer :=
  if (o <? 0)%Z then None
  else if (Z.of_nat (capacity b) <? o)%Z then None
  else Some (mkBuf (real_data b) (capacity b) (Z.to_nat o)).

(** [realloc]: the common prefix is kept, the rest is fresh. *)
Definition realloc (m : list byte) (n : nat) : list byte :=
  take n m ++ map fresh_byte (seq (length m) (n - length m)).

Definition SetCapacity (b : GrowableIOBuffer) (c : Z) : option GrowableIOBuffer :=
  if (c <? 0)%Z then None
  else if (c <=? Z.of_nat (capacity b))%Z then
    set_offset (mkBuf (real_data b) (Z.to_nat c) (offset b)) (Z.of_nat (offset b))
  else
    let b' := mkBuf (realloc (real_data b) (Z.to_nat c)) (Z.to_nat c) (offset b) in
    if (c <? Z.of_nat (offset b))%Z then set_offset b' c
    else set_offset b' (Z.of_nat (offset b)).

Definition RemainingCapacity (b : GrowableIOBuffer) : nat := capacity b - offset b.

(** [IOBuffer::size()]: [size_] is [capacity_ - offset_] after [set_offset]. *)
Definition size (b : GrowableIOBuffer) : nat := capacity b - offset b.

Definition empty (b : GrowableIOBuffer) : bool := size b =? 0.

(** [IOBuffer::span()]: the bytes from [data()] on. *)
Definition span (b : GrowableIOBuffer) : list byte :=
  take (size b) (drop (offset b) (real_data b)).

Definition everything (b : GrowableIOBuffer) : list byte :=
  take (capacity b) (real_data b).

Definition span_before_offset (b : GrowableIOBuffer) : list byte :=
  take (offset b) (everything b).

(** [memcpy(StartOfBuffer() + pos, bs, |bs|)], and the same from [data()]. *)
Definition write_at (b : GrowableIOBuffer) (pos : nat) (bs : list byte)
  : option GrowableIOBuffer :=
  if decide (pos + length bs <= length (real_data b))
  then Some (mkBuf (splice pos bs (real_data b)) (capacity b) (offset b))
  else None.

Definition write_data (b : GrowableIOBuffer) (pos : nat) (bs : list byte)
  : option GrowableIOBuffer := write_at b (offset b + pos) bs.

Definition appendBytesAtEnd (b : GrowableIOBuffer) (bs : list byte)
  : option GrowableIOBuffer :=
  let old_capacity := capacity b in
  b ← SetCapacity b (Z.of_nat old_capacity + Z.of_nat (length bs));
  write_at b old_capacity bs.

Definition copyBuffer (bs : list byte) : option GrowableIOBuffer :=
  b ← SetCapacity make (Z.of_nat (length bs));
  write_data b 0 bs.

Definition copyFrom (b : GrowableIOBuffer) : option GrowableIOBuffer :=
  copyBuffer (span b).

(** ** Well-formedness and the effect of each operation *)

Lemma wf_make : wf make.
Proof. unfold wf; simpl; lia. Qed.

Lemma length_span b : wf b → length (span b) = size b.
Proof. unfold wf, span, size. intros. len. Qed.

Lemma empty_span b : wf b → empty b = true ↔ span b = [].
Proof.
  intros Hwf. unfold empty. rewrite Nat.eqb_eq, <- length_span by done.
  split; [apply nil_length_inv|by intros ->].
Qed.

Lemma length_realloc m n : length (realloc m n) = n.
Proof. unfold realloc. len. Qed.

Lemma take_realloc m n k : k <= n → k <= length m → take k (realloc m n) = take k m.
Proof.
  intros. unfold realloc. rewrite take_app_le by (len).
  rewrite take_take. f_equal. lia.
Qed.

Lemma set_offset_spec b o :
  wf b → (0 <= o <= Z.of_nat (capacity b))%Z →
  set_offset b o = Some (mkBuf (real_data b) (capacity b) (Z.to_nat o)).
Proof.
  intros. unfold set_offset. destruct (Z.ltb_spec o 0); [lia|].
  by destruct (Z.ltb_spec (Z.of_nat (capacity b)) o); [lia|].
Qed.

Lemma set_offset_wf b b' o : wf b → set_offset b o = Some b' → wf b'.
Proof.
  unfold set_offset, wf. intros.
  destruct (Z.ltb_spec o 0), (Z.ltb_spec (Z.of_nat (capacity b)) o); simplify_eq/=; lia.
Qed.

(** Advancing the offset drops the consumed bytes from the window. *)
Lemma set_offset_advance b k :
  wf b → k <= size b →
  ∃ b', set_offset b (Z.of_nat (offset b) + Z.of_nat k) = Some b' ∧ wf b' ∧
        span b' = drop k (span b) ∧ capacity b' = capacity b ∧
        offset b' = offset b + k ∧ real_data b' = real_data b.
Proof.
  intros Hwf Hk. unfold size, wf in *. rewrite set_offset_spec by (unfold wf; lia).
  eexists. split; [done|]. simpl.
  replace (Z.to_nat _) with (offset b + k) by lia.
  split; [unfold wf; simpl; lia|]. split; [|done].
  unfold span, size. simpl. rewrite skipn_firstn_comm, drop_drop. f_equal; lia.
Qed.

(** Growing keeps every byte below the old capacity. *)
Lemma SetCapacity_grow b c :
  wf b → (Z.of_nat (capacity b) <= c)%Z →
  ∃ b', SetCapacity b c = Some b' ∧ wf b' ∧ capacity b' = Z.to_nat c ∧
        offset b' = offset b ∧ everything b = take (capacity b) (real_data b').
Proof.
  intros Hwf Hc. unfold SetCapacity, everything.
  destruct (Z.ltb_spec c 0); [lia|].
  destruct (Z.leb_spec c (Z.of_nat (capacity b))).
  - rewrite set_offset_spec by (unfold wf in *; simpl; lia).
    eexists; split; [done|]. unfold wf in *; simpl.
    rewrite Nat2Z.id. repeat split; try lia.
  - destruct (Z.ltb_spec c (Z.of_nat (offset b))); [unfold wf in *; lia|].
    rewrite set_offset_spec by (unfold wf in *; simpl; rewrite ?length_realloc; lia).
    eexists; split; [done|]. unfold wf in *; simpl. rewrite length_realloc, Nat2Z.id.
    repeat split; try lia. rewrite take_realloc; [done|lia..].
Qed.

(** Shrinking to a capacity at or above the offset truncates the window. *)
Lemma SetCapacity_shrink b c :
  wf b → offset b <= c <= capacity b →
  ∃ b', SetCapacity b (Z.of_nat c) = Some b' ∧ wf b' ∧ capacity b' = c ∧
        offset b' = offset b ∧ real_data b' = real_data b ∧
        span b' = take (c - offset b) (span b).
Proof.
  intros Hwf Hc. unfold SetCapacity.
  destruct (Z.ltb_spec (Z.of_nat c) 0); [lia|].
  destruct (Z.leb_spec (Z.of_nat c) (Z.of_nat (capacity b))); [|lia].
  rewrite set_offset_spec by (unfold wf in *; simpl; lia).
  eexists; split; [done|]. unfold wf, span, size in *; simpl.
  rewrite !Nat2Z.id, take_take. repeat split; try lia. f_equal; lia.
Qed.

Lemma write_at_spec b pos bs :
  wf b → pos + length bs <= length (real_data b) →
  ∃ b', write_at b pos bs = Some b' ∧ wf b' ∧ capacity b' = capacity b ∧
        offset b' = offset b ∧ real_data b' = splice pos bs (real_data b).
Proof.
  intros Hwf Hpos. unfold write_at. rewrite decide_True by done.
  eexists; split; [done|]. unfold wf in *; simpl. rewrite length_splice by done. done.
Qed.

Lemma appendBytesAtEnd_spec b bs :
  wf b →
  ∃ b', appendBytesAtEnd b bs = Some b' ∧ wf b' ∧ span b' = span b ++ bs ∧
        offset b' = offset b ∧ capacity b' = capacity b + length bs.
Proof.
  intros Hwf. unfold appendBytesAtEnd.
  destruct (SetCapacity_grow b (Z.of_nat (capacity b) + Z.of_nat (length bs)))
    as (b1 & -> & Hwf1 & Hc1 & Ho1 & He1); [done|lia|]. simpl.
  replace (Z.to_nat _) with (capacity b + length bs) in Hc1 by lia.
  destruct (write_at_spec b1 (capacity b) bs) as (b2 & -> & Hwf2 & Hc2 & Ho2 & Hr2);
    [done|unfold wf in *; lia|].
  eexists; split; [done|]. split_and!; [done| |congruence..].
  unfold span, size, everything, wf in *. rewrite Hc2, Ho2, Hr2, Hc1, Ho1.
  replace (take (capacity b - offset b) (drop (offset b) (real_data b)))
    with (drop (offset b) (take (capacity b) (real_data b))).
  2:{ rewrite skipn_firstn_comm. done. }
  rewrite He1. unfold splice.
  rewrite (app_assoc (take _ _)), drop_app_le by (len).
  rewrite drop_app_le by (len).
  apply take_app_length'. len.
Qed.

Lemma copyBuffer_spec bs :
  ∃ b, copyBuffer bs = Some b ∧ wf b ∧ span b = bs ∧ offset b = 0 ∧
       capacity b = length bs.
Proof.
  unfold copyBuffer.
  destruct (SetCapacity_grow make (Z.of_nat (length bs)))
    as (b1 & -> & Hwf1 & Hc1 & Ho1 & He1); [apply wf_make|simpl; lia|]. simpl.
  rewrite Nat2Z.id in Hc1. simpl in Ho1. unfold write_data.
  destruct (write_at_spec b1 (offset b1 + 0) bs) as (b2 & -> & Hwf2 & Hc2 & Ho2 & Hr2);
    [done|unfold wf in *; lia|].
  eexists; split; [done|]. split_and!; [done| |congruence..].
  unfold span, size. rewrite Hc2, Ho2, Hr2, Hc1, Ho1, Nat.sub_0_r, drop_0.
  simpl. rewrite splice_0. apply take_app_length.
Qed.

(** A fresh buffer of a given capacity: its window is that many bytes. *)
Lemma SetCapacity_make n :
  ∃ b, SetCapacity make (Z.of_nat n) = Some b ∧ wf b ∧ offset b = 0 ∧ capacity b = n ∧
       length (span b) = n.
Proof.
  destruct (SetCapacity_grow make (Z.of_nat n)) as (b & E & Hwf & Hc & Ho & _);
    [apply wf_make|simpl; lia|].
  rewrite Nat2Z.id in Hc. simpl in Ho. eexists; split; [done|].
  repeat (split; [done|]). rewrite length_span by done. unfold size. lia.
Qed.

(** Writing inside the window. *)
Lemma write_data_span b pos bs :
  wf b → pos + length bs <= size b →
  ∃ b', write_data b pos bs = Some b' ∧ wf b' ∧ capacity b' = capacity b ∧
        offset b' = offset b ∧ span b' = splice pos bs (span b).
Proof.
  intros Hwf Hp. unfold write_data, size in *.
  destruct (write_at_spec b (offset b + pos) bs) as (b' & -> & Hwf' & Hc & Ho & Hr);
    [done|unfold wf in *; lia|].
  eexists; split; [done|]. repeat (split; [done|]).
  unfold span, size, splice, wf in *. rewrite Hc, Ho, Hr. slice_solve.
Qed.

(** Growing the window by [n] bytes of unspecified contents. *)
Lemma SetCapacity_extend b n :
  wf b →
  ∃ b' junk, SetCapacity b (Z.of_nat (capacity b) + Z.of_nat n) = Some b' ∧ wf b' ∧
    capacity b' = capacity b + n ∧ offset b' = offset b ∧
    span b' = span b ++ junk ∧ length junk = n.
Proof.
  intros Hwf. destruct (SetCapacity_grow b (Z.of_nat (capacity b) + Z.of_nat n))
    as (b' & E & Hwf' & Hc & Ho & He); [done|lia|].
  replace (Z.to_nat _) with (capacity b + n) in Hc by lia.
  exists b', (drop (size b) (span b')). split; [done|]. split; [done|]. split; [done|].
  split; [done|]. pose proof (length_span b' Hwf') as Hl. unfold size, wf in *. split; [|len].
  rewrite <- (take_drop (capacity b - offset b) (span b')) at 1. f_equal.
  unfold span, size, everything in *. rewrite Hc, Ho, take_take.
  replace ((capacity b - offset b) `min` (capacity b + n - offset b)) with (capacity b - offset b) by lia.
  rewrite <- !skipn_firstn_comm. by rewrite He.
Qed.

(** ** Properties *)

(** [SetCapacity] on a well-formed buffer aborts exactly when the new
    capacity is negative or below the current offset; otherwise it returns a
    well-formed buffer with that capacity, the same offset, and the bytes below
    both capacities unchanged.  The clamping branch
    ([if (offset_ > capacity) set_offset(capacity)]) never runs. *)
Theorem SetCapacity_correct b c :
  wf b →
  match SetCapacity b c with
  | None => (c < Z.of_nat (offset b))%Z
  | Some b' =>
      (Z.of_nat (offset b) <= c)%Z ∧ wf b' ∧ Z.of_nat (capacity b') = c ∧
      offset b' = offset b ∧
      take (capacity b' `min` capacity b) (real_data b')
        = take (capacity b' `min` capacity b) (real_data b)
  end.
Proof.
  intros Hwf. destruct (decide (c < Z.of_nat (offset b))%Z) as [Hlt|Hge].
  - unfold SetCapacity, set_offset. simpl.
    destruct (Z.ltb_spec c 0); [done|].
    destruct (Z.leb_spec c (Z.of_nat (capacity b))); [|unfold wf in *; lia].
    destruct (Z.ltb_spec (Z.of_nat (offset b)) 0); [done|].
    destruct (Z.ltb_spec (Z.of_nat (Z.to_nat c)) (Z.of_nat (offset b))); [done|lia].
  - destruct (decide (c <= Z.of_nat (capacity b))%Z).
    + destruct (SetCapacity_shrink b (Z.to_nat c)) as (b' & E & ? & ? & ? & Hr & _);
        [done|lia|]. rewrite Z2Nat.id in E by lia. rewrite E, Hr.
      split; [lia|]. split; [done|]. split; [lia|]. done.
    + destruct (SetCapacity_grow b c) as (b' & -> & ? & ? & ? & He); [done|lia|].
      split; [lia|]. split; [done|]. split; [lia|]. split; [done|].
      replace (capacity b' `min` capacity b) with (capacity b) by lia. by rewrite <- He.
Qed.

End Ops.

(** At a buffer of ten bytes with offset four: capacity three aborts. *)
Lemma SetCapacity_correct_witness :
  let H := (λ _, x00) : Allocator in
  let b := mkBuf (replicate 10 x41) 10 4 in
  wf b ∧ SetCapacity (H := H) b 3 = None ∧ (3 < Z.of_nat (offset b))%Z.
Proof.
  intros H b. assert (wf b) as W by (unfold wf; simpl; lia).
  split; [exact W|]. split; [reflexivity|].
  exact (SetCapacity_correct (H := H) b 3 W).
Defined.

End IoBuffer.
