(* ===== verification/IoQueue.v ===== *)
(** * IoQueue: [net::IoQueue] (src/src/net/io_queue.hpp)

    The circular queue of reference-counted buffers between the two sides of a
    connection.  [queue_] is a vector of possibly-null references, [idx_] the
    position of the front and [end_idx_] the position after the back; pushing
    into the last free slot doubles the vector.  The abstract queue is a list:
    the second half of the file proves that every operation refines the list
    operation.  The indices are [int] in the source and [nat] here: they agree as long as a queue holds fewer
    than 2^29 buffers, which is what [enlarge_queue_by_2x] asserts. *)

From Stdlib Require Import ZArith Lia.
From stdpp Require Import base list numbers option.
From S2P Require Import Prelude.

Module IoQueue.
Section IoQueue.

(** The element type [scoped_refptr<X>] (a null reference is [None]) and the
    template argument [DEFAULT_QUEUE_LENGTH], at least 2 by [static_assert]. *)
Context {T : Type}.
Variable DEFAULT_QUEUE_LENGTH : nat.

Record IoQueue := mkQueue {
  idx : nat;
  end_idx : nat;
  queue : list (option T);
}.

(** [IoQueue()]. *)
Definition make : IoQueue := mkQueue 0 0 (replicate DEFAULT_QUEUE_LENGTH None).

Definition empty (q : IoQueue) : bool := idx q =? end_idx q.

(** [queue_.begin() + a .. queue_.begin() + b]. *)
Definition range {A} (l : list A) (a b : nat) : list A := take (b - a) (drop a l).

(** [std::vector::resize]: value-initialised references are null. *)
Definition resize (l : list (option T)) (n : nat) : list (option T) :=
  take n l ++ replicate (n - length l) None.

Definition enlarge_queue_by_2x (q : IoQueue) : IoQueue :=
  let new_queue :=
    if idx q <? end_idx q
    then range (queue q) (idx q) (end_idx q)
    else range (queue q) (idx q) (length (queue q)) ++ range (queue q) 0 (end_idx q) in
  mkQueue 0 (length (queue q)) (resize new_queue (length (queue q) * 2)).

Definition push_back (q : IoQueue) (buf : T) : IoQueue :=
  let q' := mkQueue (idx q) ((end_idx q + 1) mod length (queue q))
                    (<[end_idx q := Some buf]> (queue q)) in
  if end_idx q' =? idx q' then enlarge_queue_by_2x q' else q'.

(** [queue_[i]] for an index the vector holds; out of range is undefined. *)
Definition front (q : IoQueue) : option (option T) := queue q !! idx q.

Definition pop_front (q : IoQueue) : IoQueue :=
  mkQueue ((idx q + 1) mod length (queue q)) (end_idx q) (<[idx q := None]> (queue q)).

Definition back (q : IoQueue) : option (option T) :=
  queue q !! ((end_idx q + length (queue q) - 1) mod length (queue q)).

Definition length (q : IoQueue) : nat :=
  (end_idx q + length (queue q) - idx q) mod length (queue q).

(** [byte_length]: the loop of [for (i = idx_; i != end_idx_; ...)], where
    [sz] is [queue_[i]->size()]; dereferencing a null slot is [None]. *)
Fixpoint byte_length_loop (sz : T → nat) (fuel i : nat) (q : IoQueue) (ret : nat)
  : option nat :=
  if i =? end_idx q then Some ret
  else match fuel with
       | 0 => None
       | S fuel' =>
           match queue q !! i with
           | Some (Some buf) =>
               byte_length_loop sz fuel' ((i + 1) mod Datatypes.length (queue q)) q (ret + sz buf)
           | _ => None
           end
       end.

Definition byte_length (sz : T → nat) (q : IoQueue) : option nat :=
  if empty q then Some 0
  else byte_length_loop sz (Datatypes.length (queue q)) (idx q) q 0.

(** Move assignment [lhs = std::move(rhs)]: the result and what is left in
    [rhs].  The vectors are swapped, then [rhs] gets a fresh one. *)
Definition move_assign (lhs rhs : IoQueue) : IoQueue * IoQueue :=
  (mkQueue (idx rhs) (end_idx rhs) (queue rhs),
   mkQueue 0 0 (replicate DEFAULT_QUEUE_LENGTH None)).

(** Move construction: the new queue, and [rhs] with the new queue's vector. *)
Definition move_construct (rhs : IoQueue) : IoQueue * IoQueue :=
  (mkQueue (idx rhs) (end_idx rhs) (queue rhs), mkQueue 0 0 (queue make)).

Definition clear (q : IoQueue) : IoQueue := fst (move_assign q make).

Definition swap (a b : IoQueue) : IoQueue * IoQueue := (b, a).

(** The elements are shared references: writing through the reference that
    [front()] or [back()] answered changes what the slot refers to. *)
Definition set_front (q : IoQueue) (buf : T) : IoQueue :=
  mkQueue (idx q) (end_idx q) (<[idx q := Some buf]> (queue q)).

Definition set_back (q : IoQueue) (buf : T) : IoQueue :=
  mkQueue (idx q) (end_idx q)
    (<[(end_idx q + Datatypes.length (queue q) - 1) mod Datatypes.length (queue q) := Some buf]>
       (queue q)).

(** ** The abstract queue *)

(** [q] holds exactly the elements [xs], in order, from [idx_] on and wrapping
    around; every other slot is null, and at least one slot is free. *)
Record represents (q : IoQueue) (xs : list T) : Prop := {
  rep_size : 2 <= Datatypes.length (queue q);
  rep_default : DEFAULT_QUEUE_LENGTH <= Datatypes.length (queue q);
  rep_idx : idx q < Datatypes.length (queue q);
  rep_end : end_idx q = (idx q + Datatypes.length xs) mod Datatypes.length (queue q);
  rep_room : Datatypes.length xs < Datatypes.length (queue q);
  rep_slot k : k < Datatypes.length (queue q) →
    queue q !! ((idx q + k) mod Datatypes.length (queue q)) = Some (xs !! k);
}.

(** Indices wrap at most once. *)
Lemma wrap_small i k n : i + k < n → (i + k) mod n = i + k.
Proof. apply Nat.mod_small. Qed.

Lemma wrap_big i k n : i < n → k < n → n <= i + k → (i + k) mod n = i + k - n.
Proof.
  intros. replace (i + k) with (i + k - n + 1 * n) by lia.
  rewrite Nat.Div0.mod_add, Nat.mod_small by lia. lia.
Qed.

(** Case analysis on whether an index wraps. *)
Ltac wraps :=
  repeat match goal with
  | |- context [(?i + ?k) mod ?n] =>
      destruct (decide (i + k < n));
      [rewrite (wrap_small i k n) by lia|rewrite (wrap_big i k n) by lia]
  | H : context [(?i + ?k) mod ?n] |- _ =>
      destruct (decide (i + k < n));
      [rewrite (wrap_small i k n) in H by lia|rewrite (wrap_big i k n) in H by lia]
  end.

Lemma represents_make : 2 <= DEFAULT_QUEUE_LENGTH → represents make [].
Proof.
  intros HD. split; simpl; len. { by rewrite Nat.mod_small by lia. }
  intros k Hk. rewrite Nat.mod_small by done. apply lookup_replicate. done.
Qed.

Lemma end_idx_lt q xs : represents q xs → end_idx q < Datatypes.length (queue q).
Proof.
  intros [? ? ? He ? ?]. rewrite He. apply Nat.mod_upper_bound. lia.
Qed.

Lemma rotate_lookup {A} (l : list A) i k :
  i <= Datatypes.length l → k < Datatypes.length l →
  (range l i (Datatypes.length l) ++ range l 0 i) !! k
    = l !! ((i + k) mod Datatypes.length l).
Proof.
  intros Hi Hk. unfold range. rewrite drop_0, Nat.sub_0_r.
  rewrite (take_ge (drop i l)) by (len).
  destruct (decide (i + k < Datatypes.length l)).
  - rewrite Nat.mod_small, lookup_app_l by (len). by rewrite lookup_drop.
  - rewrite lookup_app_r by (len). len.
    replace ((i + k) mod Datatypes.length l) with (i + k - Datatypes.length l).
    + rewrite lookup_take, decide_True by lia. f_equal; lia.
    + destruct (decide (i = Datatypes.length l)) as [->|].
      * replace (Datatypes.length l + k) with (k + 1 * Datatypes.length l) by lia.
        rewrite Nat.Div0.mod_add, Nat.mod_small by done. lia.
      * symmetry. apply wrap_big; lia.
Qed.

(** The vector after the slot at [end_idx_] has been filled. *)
Lemma push_slot q xs x k :
  represents q xs → k < Datatypes.length (queue q) →
  <[end_idx q := Some x]> (queue q) !! ((idx q + k) mod Datatypes.length (queue q))
    = Some ((xs ++ [x]) !! k).
Proof.
  intros R Hk. pose proof (end_idx_lt _ _ R). destruct R as [? ? Hi He Hr Hs].
  destruct (decide (k = Datatypes.length xs)) as [->|Hne].
  - rewrite <- He, list_lookup_insert_eq by done. by rewrite list_lookup_middle.
  - rewrite list_lookup_insert_ne.
    + rewrite Hs by done. f_equal. destruct (decide (k < Datatypes.length xs)).
      * by rewrite lookup_app_l.
      * rewrite !lookup_ge_None_2; [done|len..].
    + rewrite He. intros Heq. wraps; lia.
Qed.

(** Doubling a full vector. *)
Lemma enlarge_represents q ys :
  2 <= Datatypes.length (queue q) → DEFAULT_QUEUE_LENGTH <= Datatypes.length (queue q) →
  idx q < Datatypes.length (queue q) → end_idx q = idx q →
  Datatypes.length ys = Datatypes.length (queue q) →
  (∀ k, k < Datatypes.length (queue q) →
    queue q !! ((idx q + k) mod Datatypes.length (queue q)) = Some (ys !! k)) →
  represents (enlarge_queue_by_2x q) ys.
Proof.
  intros ? ? Hi He Hy Hs. unfold enlarge_queue_by_2x. rewrite He, Nat.ltb_irrefl.
  remember (range (queue q) (idx q) (Datatypes.length (queue q)) ++ range (queue q) 0 (idx q))
    as r eqn:Er.
  assert (Datatypes.length r = Datatypes.length (queue q)) as Hrl
    by (rewrite Er; unfold range; len).
  assert (Datatypes.length (resize r (Datatypes.length (queue q) * 2))
          = Datatypes.length (queue q) * 2) as Hn by (unfold resize; len).
  split; simpl; rewrite ?Hn; try lia. { by rewrite Nat.mod_small by lia. }
  intros k Hk. rewrite Nat.mod_small by lia. unfold resize.
  destruct (decide (k < Datatypes.length (queue q))).
  - rewrite lookup_app_l, lookup_take, decide_True by (len).
    rewrite Er, rotate_lookup by lia. by apply Hs.
  - rewrite lookup_app_r, (lookup_ge_None_2 ys) by (len). apply lookup_replicate_2. len.
Qed.

Lemma push_back_represents q xs x :
  represents q xs → represents (push_back q x) (xs ++ [x]).
Proof.
  intros R. pose proof (push_slot q xs x) as Hslot.
  pose proof (end_idx_lt _ _ R). unfold push_back; simpl.
  pose proof R as [? ? Hi He Hr Hs].
  assert ((end_idx q + 1) mod Datatypes.length (queue q)
          = (idx q + (Datatypes.length xs + 1)) mod Datatypes.length (queue q)) as He'.
  { rewrite He, Nat.Div0.add_mod_idemp_l. f_equal; lia. }
  destruct (Nat.eqb_spec ((end_idx q + 1) mod Datatypes.length (queue q)) (idx q)) as [E|E].
  - assert (Datatypes.length xs + 1 = Datatypes.length (queue q)) as Hfull.
    { rewrite He' in E. destruct (decide (Datatypes.length xs + 1 = Datatypes.length (queue q))); [done|].
      wraps; lia. }
    apply enlarge_represents; simpl; rewrite ?length_insert; len.
    intros k Hk. by apply Hslot.
  - assert (Datatypes.length xs + 1 < Datatypes.length (queue q)) as Hroom.
    { destruct (decide (Datatypes.length xs + 1 = Datatypes.length (queue q))) as [Hfull|]; [|lia].
      exfalso. apply E. rewrite He', Hfull, <- (Nat.mul_1_l (Datatypes.length (queue q))) at 1.
      rewrite Nat.Div0.mod_add. by apply Nat.mod_small. }
    split; simpl; len.
    intros k Hk. by apply Hslot.
Qed.

Lemma pop_front_represents q x xs :
  represents q (x :: xs) → front q = Some (Some x) ∧ represents (pop_front q) xs.
Proof.
  intros [? ? Hi He Hr Hs]; simpl in *. split.
  - unfold front. specialize (Hs 0 ltac:(lia)).
    by rewrite Nat.add_0_r, Nat.mod_small in Hs.
  - assert ((idx q + 1) mod Datatypes.length (queue q) < Datatypes.length (queue q))
      by (apply Nat.mod_upper_bound; lia).
    split; simpl; len.
    + rewrite He, Nat.Div0.add_mod_idemp_l. f_equal; lia.
    + intros k Hk. rewrite Nat.Div0.add_mod_idemp_l.
      replace (idx q + 1 + k) with (idx q + S k) by lia.
      destruct (decide (S k = Datatypes.length (queue q))) as [Hlast|].
      * rewrite Hlast. rewrite <- (Nat.mul_1_l (Datatypes.length (queue q))) at 1.
        rewrite Nat.Div0.mod_add, Nat.mod_small, list_lookup_insert_eq by done.
        by rewrite lookup_ge_None_2 by lia.
      * rewrite list_lookup_insert_ne by (wraps; lia).
        rewrite Hs by lia. done.
Qed.

Lemma empty_represents q xs : represents q xs → empty q = bool_decide (xs = []).
Proof.
  intros [? ? Hi He Hr Hs]. unfold empty. rewrite He.
  destruct xs; simpl in *.
  - by rewrite Nat.add_0_r, Nat.mod_small, Nat.eqb_refl.
  - apply Nat.eqb_neq. wraps; lia.
Qed.

Lemma length_represents q xs : represents q xs → length q = Datatypes.length xs.
Proof.
  intros R. pose proof (end_idx_lt _ _ R). destruct R as [? ? Hi He Hr Hs].
  unfold length.
  replace (end_idx q + Datatypes.length (queue q) - idx q)
    with (end_idx q + (Datatypes.length (queue q) - idx q)) by lia.
  destruct (decide (idx q = 0)) as [E|].
  - rewrite E, Nat.sub_0_r in *. simpl in *.
    rewrite <- (Nat.mul_1_l (Datatypes.length (queue q))) at 1.
    rewrite Nat.Div0.mod_add, Nat.mod_small by lia. by rewrite He, Nat.mod_small.
  - wraps; lia.
Qed.

Lemma back_represents q xs x : represents q (xs ++ [x]) → back q = Some (Some x).
Proof.
  intros R. pose proof (end_idx_lt _ _ R). destruct R as [? ? Hi He Hr Hs].
  specialize (Hs (Datatypes.length xs) ltac:(len)). rewrite list_lookup_middle in Hs by done.
  unfold back. rewrite <- Hs. f_equal. len. clear Hs.
  replace (end_idx q + Datatypes.length (queue q) - 1)
    with (end_idx q + (Datatypes.length (queue q) - 1)) by lia.
  wraps; lia.
Qed.

Lemma front_represents q xs : represents q xs → front q = Some (head xs).
Proof.
  intros [? ? Hi He Hr Hs]. unfold front. specialize (Hs 0 ltac:(lia)).
  rewrite Nat.add_0_r, Nat.mod_small in Hs by done. rewrite Hs. by destruct xs.
Qed.

Lemma back_represents_last q xs : represents q xs → back q = Some (list.last xs).
Proof.
  intros R. destruct (list.last xs) as [x|] eqn:E.
  - apply last_Some in E as [ys ->]. by eapply back_represents.
  - apply last_None in E as ->. pose proof (end_idx_lt _ _ R).
    destruct R as [? ? Hi He Hr Hs]; simpl in *.
    rewrite Nat.add_0_r, Nat.mod_small in He by done.
    specialize (Hs (Datatypes.length (queue q) - 1) ltac:(lia)).
    unfold back.
    replace (end_idx q + Datatypes.length (queue q) - 1)
      with (idx q + (Datatypes.length (queue q) - 1)) by lia.
    exact Hs.
Qed.

Lemma set_slot_represents q xs j b :
  represents q xs → j < Datatypes.length xs →
  represents (mkQueue (idx q) (end_idx q)
    (<[(idx q + j) mod Datatypes.length (queue q) := Some b]> (queue q))) (<[j := b]> xs).
Proof.
  intros [? ? Hi He Hr Hs] Hj. split; simpl; rewrite ?length_insert; try done.
  intros k Hk. destruct (decide (k = j)) as [->|Hne].
  - rewrite list_lookup_insert_eq by (apply Nat.mod_upper_bound; lia).
    by rewrite list_lookup_insert_eq.
  - rewrite list_lookup_insert_ne by (intros Heq; wraps; lia).
    rewrite Hs by done. by rewrite list_lookup_insert_ne.
Qed.

Lemma set_front_represents q x xs b :
  represents q (x :: xs) → represents (set_front q b) (b :: xs).
Proof.
  intros R. pose proof (set_slot_represents q (x :: xs) 0 b R ltac:(simpl; lia)) as S.
  rewrite Nat.add_0_r, Nat.mod_small in S by apply R. exact S.
Qed.

Lemma set_back_represents q xs x b :
  represents q (xs ++ [x]) → represents (set_back q b) (xs ++ [b]).
Proof.
  intros R. pose proof (end_idx_lt _ _ R).
  pose proof (set_slot_represents q (xs ++ [x]) (Datatypes.length xs) b R ltac:(len)) as S.
  rewrite insert_app_r_alt, Nat.sub_diag in S by lia. cbn [list_insert insert] in S.
  unfold set_back. destruct R as [? ? Hi He Hr Hs].
  replace ((end_idx q + Datatypes.length (queue q) - 1) mod Datatypes.length (queue q))
    with ((idx q + Datatypes.length xs) mod Datatypes.length (queue q)); [exact S|].
  replace (end_idx q + Datatypes.length (queue q) - 1)
    with (end_idx q + (Datatypes.length (queue q) - 1)) by lia.
  rewrite length_app in He, Hr. simpl in He, Hr. wraps; lia.
Qed.

Definition total (sz : T → nat) (xs : list T) : nat := sum_list (map sz xs).

Lemma byte_length_loop_spec sz q pre ys fuel ret :
  represents q (pre ++ ys) → Datatypes.length ys <= fuel →
  byte_length_loop sz fuel ((idx q + Datatypes.length pre) mod Datatypes.length (queue q)) q ret
    = Some (ret + total sz ys).
Proof.
  revert pre fuel ret. induction ys as [|y ys IH]; intros pre fuel ret R Hf.
  - rewrite app_nil_r in R. destruct R as [? ? Hi He Hr Hs].
    rewrite <- He. unfold total; simpl. rewrite Nat.add_0_r.
    destruct fuel; simpl; by rewrite Nat.eqb_refl.
  - pose proof R as [? ? Hi He Hr Hs]. len.
    destruct fuel as [|fuel]; [lia|].
    assert ((idx q + Datatypes.length pre) mod Datatypes.length (queue q) ≠ end_idx q)
      as Hne by (rewrite He; wraps; lia).
    simpl. rewrite (proj2 (Nat.eqb_neq _ _) Hne).
    rewrite Hs, list_lookup_middle by (done || lia).
    rewrite Nat.Div0.add_mod_idemp_l.
    replace (idx q + Datatypes.length pre + 1) with (idx q + Datatypes.length (pre ++ [y])) by (len).
    rewrite IH; [| |lia].
    + unfold total; simpl. f_equal; lia.
    + by rewrite <- app_assoc.
Qed.

Lemma byte_length_represents sz q xs :
  represents q xs → byte_length sz q = Some (total sz xs).
Proof.
  intros R. unfold byte_length. rewrite (empty_represents _ _ R).
  case_bool_decide as E; [by rewrite E|].
  pose proof (byte_length_loop_spec sz q [] xs (Datatypes.length (queue q)) 0 R) as L.
  destruct R as [? ? Hi He Hr Hs]. simpl in L. rewrite Nat.add_0_r, Nat.mod_small in L by done.
  apply L. lia.
Qed.

(** ** Runs of operations *)

(** The mutators of the class, and their effect on the abstract queue.  A
    [pop_front] of an empty queue violates the class's contract ([DCHECK]). *)
Inductive op := Push (buf : T) | Pop | Clear.

Definition step (q : IoQueue) (o : op) : IoQueue :=
  match o with Push b => push_back q b | Pop => pop_front q | Clear => clear q end.

Definition spec_step (xs : list T) (o : op) : option (list T) :=
  match o with
  | Push b => Some (xs ++ [b])
  | Pop => match xs with [] => None | _ :: xs' => Some xs' end
  | Clear => Some []
  end.

Fixpoint run (q : IoQueue) (os : list op) : IoQueue :=
  match os with [] => q | o :: os' => run (step q o) os' end.

Fixpoint spec_run (xs : list T) (os : list op) : option (list T) :=
  match os with [] => Some xs | o :: os' => xs' ← spec_step xs o; spec_run xs' os' end.

Lemma step_represents q xs o xs' :
  2 <= DEFAULT_QUEUE_LENGTH → represents q xs → spec_step xs o = Some xs' →
  represents (step q o) xs'.
Proof.
  intros HD R E. destruct o; simplify_eq/=.
  - by apply push_back_represents.
  - destruct xs; simplify_eq/=. by apply pop_front_represents in R as [_ R].
  - apply represents_make, HD.
Qed.

Lemma run_represents q xs os xs' :
  2 <= DEFAULT_QUEUE_LENGTH → represents q xs → spec_run xs os = Some xs' →
  represents (run q os) xs'.
Proof.
  intros HD. revert q xs. induction os as [|o os IH]; intros q xs R E; simplify_eq/=; [done|].
  apply bind_Some in E as (xs1 & E1 & E2). eauto using step_represents.
Qed.

End IoQueue.
Arguments op : clear implicits.
Arguments IoQueue : clear implicits.

(** ** Properties *)

(** C29: the circular queue refines a list.  After any run of [push_back],
    [pop_front] and [clear] that never pops an empty queue, [empty], [length],
    [front], [back] and [byte_length] of the circular queue are those of the
    list that the same run builds, however often the vector was doubled or the
    indices wrapped; [byte_length] returns (its loop reaches [end_idx_] without
    meeting a null slot).  The indices are those of the source as long as the queue
    holds fewer than 2^29 buffers. *)
Theorem IoQueue_refines_list {T} (D : nat) (sz : T → nat) (os : list (op T)) (xs : list T) :
  2 <= D → spec_run [] os = Some xs →
  let q := run D (make D) os in
  empty q = bool_decide (xs = []) ∧ length q = Datatypes.length xs ∧
  front q = Some (head xs) ∧ back q = Some (list.last xs) ∧
  byte_length sz q = Some (total sz xs).
Proof.
  intros HD E. pose proof (run_represents D _ _ _ _ HD (represents_make D HD) E) as R.
  simpl. split_and!; eauto using empty_represents, length_represents, front_represents,
    back_represents_last, byte_length_represents.
Qed.

(** The run of the class's own unit test: wrap, fill and double a queue of 2. *)
Lemma IoQueue_refines_list_witness :
  spec_run [] [Push 1; Push 2; Pop; Push 3; Push 4; Pop] = Some [3; 4] ∧
  byte_length (λ x, x) (run 2 (make 2) [Push 1; Push 2; Pop; Push 3; Push 4; Pop]) = Some 7.
Proof.
  split; [reflexivity|].
  apply (IoQueue_refines_list 2 (λ x, x) [Push 1; Push 2; Pop; Push 3; Push 4; Pop] [3; 4]);
    [lia|reflexivity].
Defined.

End IoQueue.
