(* ===== verification/Padding.v ===== *)
(** * Padding: the padded frames of the first chunks of an HTTP/2 stream

    [AddPadding] and [RemovePadding] (src/src/net/padding.cpp) and the receive
    path that uses them, [OnDataForStream], the same code in
    src/src/cli/cli_connection.cpp and src/src/server/server_connection.cpp.
    The random padding length ([gurl_base::RandInt(0, 255)]) is an argument.
    The HTTP/2 adapter's [MarkDataConsumedForStream] is a counter of the bytes
    given back to flow control. *)

From Stdlib Require Import ZArith Lia.
From stdpp Require Import base list numbers option.
From S2P Require Import Prelude IoBuffer IoQueue.

Module Padding.
Import IoBuffer.

Definition kFirstPaddings : nat := 8.
Definition kPaddingHeaderSize : nat := 3.
Definition kMaxPaddingSize : nat := 255.

(** The [asio] error codes of this component. *)
Inductive error_code := ok | try_again | invalid_argument.

#[export] Instance error_code_eq_dec : EqDecision error_code.
Proof. solve_decision. Defined.

Section Padding.
Context `{Allocator}.

Definition AddPadding (buf : GrowableIOBuffer) (padding_size : nat) : option GrowableIOBuffer :=
  let payload_size := Z.to_nat (Z.of_nat (size buf) mod 65536) in
  ret ← SetCapacity make (Z.of_nat (kPaddingHeaderSize + payload_size + padding_size));
  let p := [to_u8 (Z.shiftr (Z.of_nat payload_size) 8);
            to_u8 (Z.land (Z.of_nat payload_size) 255);
            to_u8 (Z.of_nat padding_size)] in
  ret ← write_data ret 0 p;
  ret ← write_data ret kPaddingHeaderSize (take payload_size (span buf));
  write_data ret (kPaddingHeaderSize + payload_size) (replicate padding_size x00).

(** The result, the error code and the advanced input buffer. *)
Definition RemovePadding (buf : GrowableIOBuffer)
  : option (option GrowableIOBuffer * error_code * GrowableIOBuffer) :=
  if size buf <? kPaddingHeaderSize then Some (None, try_again, buf)
  else
    p0 ← rd (span buf) 0; p1 ← rd (span buf) 1; p2 ← rd (span buf) 2;
    let payload_size := Z.to_nat (Z.shiftl (u8 p0) 8 + u8 p1) in
    if payload_size =? 0 then Some (None, invalid_argument, buf)
    else
      let padding_size := Z.to_nat (u8 p2) in
      if size buf <? kPaddingHeaderSize + payload_size + padding_size
      then Some (None, try_again, buf)
      else
        buf ← set_offset buf (Z.of_nat (offset buf) + Z.of_nat kPaddingHeaderSize);
        ret ← SetCapacity make (Z.of_nat payload_size);
        bs ← rd_slice (span buf) 0 payload_size;
        ret ← write_data ret 0 bs;
        buf ← set_offset buf (Z.of_nat (offset buf) + Z.of_nat (payload_size + padding_size));
        Some (Some ret, ok, buf).

(** The receive state of a connection: the two counters of the class, the
    buffer of bytes not yet unframed, and the queue the payload goes to
    ([downstream_] in the client, [upstream_] in the server). *)
Record Rx := mkRx {
  padding_support_in_fact : bool;
  num_padding_recv : nat;
  padding_in_middle_buf : option GrowableIOBuffer;
  rx_queue : IoQueue.IoQueue GrowableIOBuffer;
  consumed : nat;
}.

Variable D : nat. (** the queue's [DEFAULT_QUEUE_LENGTH] *)

Definition push (q : IoQueue.IoQueue GrowableIOBuffer) b := IoQueue.push_back q b.

(** Appending the received bytes to [padding_in_middle_buf_]. *)
Definition append_middle (m : option GrowableIOBuffer) (data : list byte)
  : option GrowableIOBuffer :=
  match m with
  | Some previous_chunk =>
      let sz := RemainingCapacity previous_chunk + length data in
      b ← SetCapacity make (Z.of_nat sz);
      b ← write_data b 0 (take (RemainingCapacity previous_chunk) (span previous_chunk));
      write_data b (RemainingCapacity previous_chunk) data
  | None => copyBuffer data
  end.

(** [while (num_padding_recv_ < kFirstPaddings)]: at most
    [kFirstPaddings - num_padding_recv_] frames are taken; the boolean says
    whether the loop ended by its condition. *)
Fixpoint unpad_loop (fuel : nat) (n : nat) (mid : GrowableIOBuffer)
    (q : IoQueue.IoQueue GrowableIOBuffer)
  : option (bool * nat * GrowableIOBuffer * IoQueue.IoQueue GrowableIOBuffer) :=
  if n <? kFirstPaddings then
    match fuel with
    | 0 => None
    | S fuel' =>
        r ← RemovePadding mid;
        match r with
        | (Some buf, ok, mid') => unpad_loop fuel' (n + 1) mid' (push q buf)
        | (_, _, mid') => Some (false, n, mid', q)
        end
    end
  else Some (true, n, mid, q).

Definition OnDataForStream (st : Rx) (data : list byte) : option Rx :=
  if padding_support_in_fact st && (num_padding_recv st <? kFirstPaddings) then
    mid ← append_middle (padding_in_middle_buf st) data;
    r ← unpad_loop (kFirstPaddings - num_padding_recv st) (num_padding_recv st) mid (rx_queue st);
    let '(finished, n, mid', q) := r in
    let cons := consumed st + length data in
    if finished && negb (empty mid')
    then Some (mkRx (padding_support_in_fact st) n None (push q mid') cons)
    else Some (mkRx (padding_support_in_fact st) n (Some mid') q cons)
  else
    b ← copyBuffer data;
    Some (mkRx (padding_support_in_fact st) (num_padding_recv st)
               (padding_in_middle_buf st) (push (rx_queue st) b)
               (consumed st + length data)).

Fixpoint OnDataForStreams (st : Rx) (segs : list (list byte)) : option Rx :=
  match segs with
  | [] => Some st
  | s :: segs' => st ← OnDataForStream st s; OnDataForStreams st segs'
  end.

(** A connection after the headers, before the first data frame. *)
Definition rx_init (support : bool) : Rx := mkRx support 0 None (IoQueue.make D) 0.

(** The send path: the counter of padded chunks and the chunks handed to the
    HTTP/2 data frame source. *)
Record Tx := mkTx { num_padding_send : nat; chunks : list GrowableIOBuffer }.

Definition AddChunk (support : bool) (tx : Tx) (buf : GrowableIOBuffer) (pad : nat)
  : option Tx :=
  if support && (num_padding_send tx <? kFirstPaddings) then
    b ← AddPadding buf pad;
    Some (mkTx (num_padding_send tx + 1) (chunks tx ++ [b]))
  else Some (mkTx (num_padding_send tx) (chunks tx ++ [buf])).

Fixpoint AddChunks (support : bool) (tx : Tx) (bufs : list (GrowableIOBuffer * nat)) : option Tx :=
  match bufs with
  | [] => Some tx
  | (b, p) :: bufs' => tx ← AddChunk support tx b p; AddChunks support tx bufs'
  end.

(** ** The byte-level specification *)

(** One frame: two bytes of payload length, one of padding length, payload,
    zeros. *)
Definition frame (payload : list byte) (pad : nat) : list byte :=
  be16_bytes (Z.of_nat (length payload)) ++ [to_u8 (Z.of_nat pad)] ++ payload
    ++ replicate pad x00.

Definition unframe (m : list byte) : option (list byte * list byte) :=
  match m with
  | p0 :: p1 :: p2 :: body =>
      let n := Z.to_nat (be16 p0 p1) in
      let pad := Z.to_nat (u8 p2) in
      if decide (n ≠ 0 ∧ n + pad <= length body)
      then Some (take n body, drop (n + pad) body) else None
  | _ => None
  end.

Arguments frame : simpl never.
Arguments unframe : simpl never.

(** What the receiver delivers when [k] padded frames are still expected and
    [m] is pending: the frames left, the bytes left pending, the chunks. *)
Fixpoint deliver (k : nat) (m : list byte) : nat * list byte * list (list byte) :=
  match k with
  | 0 => (0, [], match m with [] => [] | _ => [m] end)
  | S k' =>
      match unframe m with
      | Some (p, r) => let '(k2, m2, d) := deliver k' r in (k2, m2, p :: d)
      | None => (k, m, [])
      end
  end.

Definition feed (km : nat * list byte) (seg : list byte) : nat * list byte * list (list byte) :=
  match fst km with
  | 0 => (0, [], [seg])
  | k => deliver k (snd km ++ seg)
  end.

Fixpoint feeds (km : nat * list byte) (segs : list (list byte))
  : nat * list byte * list (list byte) :=
  match segs with
  | [] => (km, [])
  | s :: segs' =>
      let '(km1, d1) := feed km s in
      let '(km2, d2) := feeds km1 segs' in (km2, d1 ++ d2)
  end.

(** ** The buffer operations implement the byte-level ones *)

Lemma AddPadding_spec buf pad :
  wf buf → (Z.of_nat (size buf) < 65536)%Z → pad <= kMaxPaddingSize →
  ∃ ret, AddPadding buf pad = Some ret ∧ wf ret ∧ span ret = frame (span buf) pad.
Proof.
  intros Hwf Hs Hp. unfold AddPadding, kPaddingHeaderSize.
  rewrite Z.mod_small, Nat2Z.id by lia.
  pose proof (length_span buf Hwf) as Hl.
  destruct (SetCapacity_make (3 + size buf + pad)) as (b0 & -> & W0 & O0 & C0 & L0). simpl.
  rewrite length_span in L0 by done.
  destruct (write_data_span b0 0
    [to_u8 (Z.of_nat (size buf) ≫ 8); to_u8 (Z.land (Z.of_nat (size buf)) 255);
     to_u8 (Z.of_nat pad)]) as (b1 & -> & W1 & C1 & O1 & S1); [done|simpl; lia|]. simpl.
  rewrite (take_ge (span buf)) by lia.
  destruct (write_data_span b1 3 (span buf)) as (b2 & -> & W2 & C2 & O2 & S2);
    [done|unfold size in *; lia|]. simpl.
  destruct (write_data_span b2 (S (S (S (size buf)))) (replicate pad x00))
    as (b3 & -> & W3 & C3 & O3 & S3); [done|rewrite length_replicate; unfold size in *; lia|].
  eexists; split; [done|]. split; [done|]. rewrite S3, S2, S1, splice_0.
  rewrite splice_app_r by done. rewrite (app_assoc _ (span buf)).
  rewrite splice_app_r by (len).
  rewrite (drop_ge (drop _ _)), app_nil_r.
  - unfold frame, be16_bytes. rewrite Hl. simpl. f_equal.
    apply u8_inj. rewrite !u8_to_u8, land_255, Z.mod_mod by lia. done.
  - len. rewrite length_span by done. unfold size in *. lia.
Qed.

Lemma unframe_frame p pad rest :
  0 < length p → (Z.of_nat (length p) < 65536)%Z → pad <= kMaxPaddingSize →
  unframe (frame p pad ++ rest) = Some (p, rest).
Proof.
  intros H0 H1 Hp. unfold kMaxPaddingSize in Hp. unfold unframe, frame, be16_bytes. cbn [app].
  rewrite be16_roundtrip, Nat2Z.id, u8_to_u8_small, Nat2Z.id by lia.
  rewrite decide_True by (len). rewrite <- app_assoc, take_app_length.
  rewrite drop_app_add, drop_app_length' by (by rewrite length_replicate). done.
Qed.

(** A complete frame stays complete when more bytes arrive. *)
Lemma unframe_app m p r s : unframe m = Some (p, r) → unframe (m ++ s) = Some (p, r ++ s).
Proof.
  unfold unframe. intros. destruct m as [|p0 [|p1 [|p2 body]]]; simplify_eq/=.
  case_decide as Hd; simplify_eq. rewrite decide_True by (len).
  rewrite take_app_le, drop_app_le by lia. done.
Qed.

(** [RemovePadding] on the bytes of the window. *)
Lemma RemovePadding_spec buf :
  wf buf →
  match unframe (span buf) with
  | Some (p, r) =>
      ∃ ret buf', RemovePadding buf = Some (Some ret, ok, buf') ∧
        wf ret ∧ wf buf' ∧ span ret = p ∧ span buf' = r
  | None => ∃ ec, ec ≠ ok ∧ RemovePadding buf = Some (None, ec, buf)
  end.
Proof.
  intros Hwf. pose proof (length_span buf Hwf) as Hl. unfold RemovePadding, kPaddingHeaderSize.
  destruct (Nat.ltb_spec (size buf) 3) as [Hlt|Hge].
  { destruct (span buf) as [|? [|? [|? ?]]] eqn:E; simpl in *; try lia; eexists; (split; [|done]); done. }
  destruct (span buf) as [|p0 [|p1 [|p2 body]]] eqn:E; simpl in *; try lia.
  unfold unframe. rewrite Z.shiftl_mul_pow2 by lia.
  replace (u8 p0 * 2 ^ 8 + u8 p1)%Z with (be16 p0 p1) by (rewrite be16_spec; lia).
  set (n := Z.to_nat (be16 p0 p1)). set (pad := Z.to_nat (u8 p2)).
  destruct (Nat.eqb_spec n 0) as [Hz|Hz].
  { rewrite decide_False by lia. eexists; (split; [|done]); done. }
  destruct (Nat.ltb_spec (size buf) (S (S (S (n + pad))))) as [Hs|Hs].
  { rewrite decide_False by lia. eexists; (split; [|done]); done. }
  rewrite decide_True by lia.
  destruct (set_offset_advance buf 3) as (b1 & E1 & W1 & S1 & C1 & O1 & _); [done|lia|].
  rewrite E1. simpl. rewrite E in S1. simpl in S1. rewrite drop_0 in S1.
  destruct (SetCapacity_make n) as (r0 & -> & WR & OR & CR & LR). simpl.
  rewrite length_span in LR by done.
  unfold rd_slice. rewrite S1, decide_True, drop_0 by (simpl; lia). simpl.
  destruct (write_data_span r0 0 (take n body)) as (r1 & -> & WR1 & CR1 & OR1 & SR1);
    [done|len|]. simpl.
  destruct (set_offset_advance b1 (n + pad)) as (b2 & -> & W2 & S2 & _);
    [done|unfold size in *; lia|]. simpl.
  do 2 eexists; split; [done|]. split; [done|]. split; [done|]. split.
  - rewrite SR1, splice_0, drop_ge, app_nil_r; [done|].
    rewrite length_span by done. len.
  - by rewrite S2, S1.
Qed.

(** ** Delivery does not depend on how the stream is cut *)

Lemma deliver_normal k m k' m' d : deliver k m = (k', m', d) → deliver k' m' = (k', m', []).
Proof.
  revert m k' m' d. induction k as [|k IH]; intros m k' m' d E; [by simplify_eq/=|].
  simpl in E. destruct (unframe m) as [[p r]|] eqn:Eu.
  - destruct (deliver k r) as [[k2 m2] d2] eqn:Ed. simplify_eq. eauto.
  - simplify_eq. simpl. by rewrite Eu.
Qed.

(** Delivering [m], then feeding [s], is delivering [m ++ s] (up to how the
    raw bytes after the padded frames are grouped). *)
Lemma deliver_app k m s k1 m1 d1 k2 m2 d2 :
  deliver k m = (k1, m1, d1) → feed (k1, m1) s = (k2, m2, d2) →
  ∃ d, deliver k (m ++ s) = (k2, m2, d) ∧ concat d = concat d1 ++ concat d2.
Proof.
  revert m k1 m1 d1 k2 m2 d2. induction k as [|k IH]; intros m k1 m1 d1 k2 m2 d2 E F.
  - unfold feed in F. simplify_eq/=. eexists; split; [done|]. rewrite app_nil_r.
    destruct m, s; simpl; by rewrite ?app_nil_r.
  - simpl in E. destruct (unframe m) as [[p r]|] eqn:Eu.
    + destruct (deliver k r) as [[k' m'] d'] eqn:Ed. simplify_eq.
      destruct (IH _ _ _ _ _ _ _ Ed F) as (d & Hd & Hc).
      simpl. rewrite (unframe_app _ _ _ s Eu), Hd. eexists; split; [done|].
      simpl. by rewrite Hc, app_assoc.
    + simplify_eq. unfold feed in F. cbn [fst snd] in F. rewrite F. by eexists.
Qed.

Lemma feeds_concat segs k m :
  deliver k m = (k, m, []) →
  ∃ d, fst (feeds (k, m) segs) = fst (deliver k (m ++ concat segs)) ∧
       deliver k (m ++ concat segs) = (fst (feeds (k, m) segs), d) ∧
       concat (snd (feeds (k, m) segs)) = concat d.
Proof.
  revert k m. induction segs as [|s segs IH]; intros k m N; simpl.
  - rewrite app_nil_r, N. by eexists.
  - destruct (feed (k, m) s) as [[k1 m1] d1] eqn:F.
    destruct (deliver_app _ _ _ _ _ _ _ _ _ N F) as (d & Hd & Hc). simpl in Hc.
    destruct (IH k1 m1 (deliver_normal _ _ _ _ _ Hd)) as (d' & Hf & Hd' & Hc').
    destruct (feeds (k1, m1) segs) as [[k2 m2] d2] eqn:Fs. simpl in *.
    assert (∃ d3, feed (k1, m1) (concat segs) = (k2, m2, d3) ∧ concat d3 = concat d2)
      as (d3 & F3 & C3).
    { unfold feed; simpl. destruct k1; [|eauto].
      simpl in Hd. pose proof (deliver_normal _ _ _ _ _ Hd) as N1. simplify_eq/=.
      eexists; split; [done|]. rewrite Hc'. simpl. rewrite app_nil_r.
      destruct (concat segs); simpl; by rewrite ?app_nil_r. }
    destruct (deliver_app _ _ _ _ _ _ _ _ _ Hd F3) as (d4 & Hd4 & C4).
    rewrite app_assoc, Hd4. eexists; split_and!; [done|done|].
    by rewrite concat_app, C4, C3, Hc.
Qed.

(** The bytes on the wire: the first [k] chunks framed, the others raw. *)
Fixpoint wire (k : nat) (cps : list (list byte * nat)) : list byte :=
  match k, cps with
  | 0, _ => concat (map fst cps)
  | S _, [] => []
  | S k', (c, p) :: cps' => frame c p ++ wire k' cps'
  end.

Definition chunk_ok (cp : list byte * nat) : Prop :=
  0 < length (fst cp) ∧ (Z.of_nat (length (fst cp)) < 65536)%Z ∧ snd cp <= kMaxPaddingSize.

Lemma deliver_wire k cps :
  Forall chunk_ok cps →
  ∃ k' d, deliver k (wire k cps) = (k', [], d) ∧ concat d = concat (map fst cps).
Proof.
  revert k. induction cps as [|[c p] cps IH]; intros k Hok.
  - destruct k; simpl; do 2 eexists; (split; [done|]); done.
  - apply Forall_cons_1 in Hok as [(H0 & H1 & H2) Hok']; simpl in *. destruct k as [|k].
    + do 2 eexists; split; [done|]. simpl. by destruct (c ++ concat _); simpl; rewrite ?app_nil_r.
    + destruct (IH k Hok') as (k' & d & Hd & Hc).
      cbn [wire deliver]. rewrite unframe_frame, Hd by done. do 2 eexists; split; [done|]. simpl. by rewrite Hc.
Qed.

(** ** The receive path refines [feed] *)

(** [st] has [k] padded frames to come, [m] pending, and has queued [ds]. *)
Record rx_rel (st : Rx) (k : nat) (m : list byte) (ds : list (list byte)) : Prop := {
  rr_support : padding_support_in_fact st = true;
  rr_num : num_padding_recv st + k = kFirstPaddings;
  rr_mid : ∀ b, padding_in_middle_buf st = Some b → wf b;
  rr_pending : k ≠ 0 → m = match padding_in_middle_buf st with None => [] | Some b => span b end;
  rr_normal : deliver k m = (k, m, []);
  rr_queue : ∃ bufs, IoQueue.represents D (rx_queue st) bufs ∧ Forall wf bufs ∧
                     map span bufs = ds;
}.

Lemma append_middle_spec mid data :
  (∀ b, mid = Some b → wf b) →
  ∃ b, append_middle mid data = Some b ∧ wf b ∧
       span b = match mid with None => [] | Some b => span b end ++ data.
Proof.
  intros Hm. destruct mid as [pv|]; simpl.
  - specialize (Hm pv eq_refl). pose proof (length_span pv Hm) as Hl.
    unfold RemainingCapacity. change (capacity pv - offset pv) with (size pv).
    destruct (SetCapacity_make (size pv + length data)) as (b0 & -> & W0 & O0 & C0 & L0). simpl.
    rewrite take_ge by lia. rewrite length_span in L0 by done.
    destruct (write_data_span b0 0 (span pv)) as (b1 & -> & W1 & C1 & O1 & S1);
      [done|lia|]. simpl.
    destruct (write_data_span b1 (size pv) data) as (b2 & -> & W2 & _ & _ & S2);
      [done|unfold size in *; lia|].
    eexists; split; [done|]. split; [done|]. rewrite S2, S1, splice_0.
    rewrite splice_app_r by done. rewrite (drop_ge (drop _ _)), app_nil_r; [done|].
    len. rewrite length_span by done. lia.
  - destruct (copyBuffer_spec data) as (b & -> & W & S & _). by eexists.
Qed.

Lemma unpad_loop_spec fuel n mid q bufs :
  n + fuel = kFirstPaddings → wf mid → IoQueue.represents D q bufs →
  ∃ fin mid' q' bs k m d,
    unpad_loop fuel n mid q = Some (fin, kFirstPaddings - k, mid', q') ∧
    deliver fuel (span mid) = (k, m, d) ∧ k <= fuel ∧ wf mid' ∧
    IoQueue.represents D q' (bufs ++ bs) ∧ Forall wf bs ∧ fin = (k =? 0) ∧
    (k ≠ 0 → span mid' = m) ∧
    map span bs ++ (if fin then match span mid' with [] => [] | _ => [span mid'] end else []) = d.
Proof.
  revert n mid q bufs. induction fuel as [|fuel IH]; intros n mid q bufs Hn Hm Hq.
  - rewrite Nat.add_0_r in Hn. subst. cbn [unpad_loop deliver]. rewrite Nat.ltb_irrefl.
    do 2 eexists. exists q, [], 0. do 2 eexists.
    rewrite app_nil_r. split_and!; (done || lia || auto).
  - cbn [unpad_loop deliver]. destruct (Nat.ltb_spec n kFirstPaddings); [|lia].
    pose proof (RemovePadding_spec mid Hm) as R. destruct (unframe (span mid)) as [[p r]|].
    + destruct R as (ret & mid' & -> & Wr & Wm & Sr & Sm). simpl.
      destruct (IH (n + 1) mid' (push q ret) (bufs ++ [ret]))
        as (fin & mid2 & q2 & bs & k & m & d & -> & Hd & ? & ? & Hq2 & ? & ? & ? & Hs);
        [lia|done|by apply IoQueue.push_back_represents|].
      rewrite Sm in Hd. rewrite Hd. exists fin, mid2, q2, (ret :: bs), k, m, (p :: d).
      rewrite <- app_assoc in Hq2. split_and!; try done; [lia|by constructor|].
      simpl. by rewrite Hs, Sr.
    + destruct R as (ec & Hec & ->). simpl.
      exists false, mid, q, [], (S fuel), (span mid), []. rewrite app_nil_r.
      replace (kFirstPaddings - S fuel) with n by lia. done.
Qed.

Lemma rx_init_rel : 2 <= D → rx_rel (rx_init true) kFirstPaddings [] [].
Proof.
  intros HD. split; simpl; try done.
  exists []. split; [by apply IoQueue.represents_make|done].
Qed.

Lemma OnDataForStream_spec st k m ds data k' m' d :
  rx_rel st k m ds → feed (k, m) data = (k', m', d) →
  ∃ st', OnDataForStream st data = Some st' ∧ rx_rel st' k' m' (ds ++ d) ∧
         consumed st' = consumed st + length data.
Proof.
  intros [Hs Hn Hm Hp HN (bufs & Hq & Hw & Hd)] F. unfold OnDataForStream. rewrite Hs.
  destruct k as [|k].
  - destruct (Nat.ltb_spec (num_padding_recv st) kFirstPaddings); [lia|]. simpl.
    destruct (copyBuffer_spec data) as (b & -> & Wb & Sb & _). simpl.
    unfold feed in F. simplify_eq/=. eexists; split; [done|]. split; [|done].
    split; simpl; try done. exists (bufs ++ [b]). split_and!.
    + by apply IoQueue.push_back_represents.
    + apply Forall_app; auto.
    + by rewrite map_app.
  - destruct (Nat.ltb_spec (num_padding_recv st) kFirstPaddings); [|lia]. simpl.
    destruct (append_middle_spec (padding_in_middle_buf st) data Hm) as (mid & -> & Wm & Sm).
    simpl. rewrite <- Hp in Sm by done.
    destruct (unpad_loop_spec (S k) (num_padding_recv st) mid (rx_queue st) bufs)
      as (fin & mid' & q' & bs & k2 & m2 & d2 & E & Hdel & Hk & Wm' & Hq' & Hw' & -> & Hm2 & Hd2);
      [lia|done|done|].
    replace (kFirstPaddings - num_padding_recv st) with (S k) by lia. rewrite E. simpl.
    assert (feed (S k, m) data = deliver (S k) (span mid)) as Ef by (by rewrite Sm).
    rewrite Ef, Hdel in F. simplify_eq.
    pose proof (deliver_normal _ _ _ _ _ Hdel) as N2.
    pose proof (empty_span mid' Wm') as He.
    destruct (Nat.eqb_spec k' 0) as [->|Hk0]; simpl.
    + destruct (empty mid') eqn:Ee; simpl.
      * rewrite (proj1 He) by done. rewrite app_nil_r.
        eexists; split; [done|]. split; [|done]. split; simpl; try done; [by intros; simplify_eq|].
        exists (bufs ++ bs). split; [done|]. rewrite Forall_app, map_app. done.
      * destruct (span mid') as [|? ?] eqn:Es; [destruct He as [_ He']; specialize (He' eq_refl); congruence|]. rewrite <- Es.
        eexists; split; [done|]. split; [|done]. split; simpl; try done.
        exists ((bufs ++ bs) ++ [mid']). split_and!.
        -- by apply IoQueue.push_back_represents.
        -- rewrite !Forall_app; auto.
        -- by rewrite !map_app, app_assoc.
    + eexists; split; [done|]. split; [|done]. rewrite app_nil_r.
      split; simpl; try done; [unfold kFirstPaddings in *; lia|by intros; simplify_eq|by intros; rewrite Hm2|].
      exists (bufs ++ bs). split; [done|]. rewrite Forall_app, map_app. done.
Qed.

Lemma OnDataForStreams_spec segs st k m ds :
  rx_rel st k m ds →
  ∃ st', OnDataForStreams st segs = Some st' ∧
    rx_rel st' (fst (fst (feeds (k, m) segs))) (snd (fst (feeds (k, m) segs)))
               (ds ++ snd (feeds (k, m) segs)) ∧
    consumed st' = consumed st + length (concat segs).
Proof.
  revert st k m ds. induction segs as [|s segs IH]; intros st k m ds R; simpl.
  - eexists; split; [done|]. rewrite app_nil_r. split; [done|lia].
  - destruct (feed (k, m) s) as [[k1 m1] d1] eqn:F.
    destruct (OnDataForStream_spec _ _ _ _ _ _ _ _ R F) as (st1 & -> & R1 & C1). simpl.
    destruct (IH _ _ _ _ R1) as (st2 & -> & R2 & C2). eexists; split; [done|].
    destruct (feeds (k1, m1) segs) as [[k2 m2] d2]. simpl in *.
    rewrite app_assoc. split; [done|]. rewrite C2, C1. len.
Qed.

(** ** The send path produces [wire] *)

Lemma AddChunks_spec tx bufs k :
  num_padding_send tx + k = kFirstPaddings →
  Forall (λ bp, wf (fst bp) ∧ chunk_ok (span (fst bp), snd bp)) bufs →
  ∃ tx', AddChunks true tx bufs = Some tx' ∧
    concat (map span (chunks tx'))
      = concat (map span (chunks tx)) ++ wire k (map (λ bp, (span (fst bp), snd bp)) bufs).
Proof.
  revert tx k. induction bufs as [|[b p] bufs IH]; intros tx k Hk Hok; cbn [AddChunks].
  - eexists; split; [done|]. destruct k; simpl; by rewrite app_nil_r.
  - apply Forall_cons_1 in Hok as [(Wb & H0 & H1 & H2) Hok']; simpl in *.
    rewrite length_span in H0, H1 by done.
    unfold AddChunk. simpl. destruct (Nat.ltb_spec (num_padding_send tx) kFirstPaddings).
    + destruct k as [|k]; [lia|].
      destruct (AddPadding_spec b p Wb H1 H2) as (fb & -> & Wf & Sf). simpl.
      edestruct (IH (mkTx (num_padding_send tx + 1) (chunks tx ++ [fb])) k)
        as (tx' & -> & Hc); [simpl; lia|done|].
      eexists; split; [done|]. rewrite Hc. simpl.
      rewrite map_app, concat_app. simpl. by rewrite Sf, app_nil_r, <- app_assoc.
    + destruct k as [|k]; [|lia]. simpl.
      edestruct (IH (mkTx (num_padding_send tx) (chunks tx ++ [b])) 0)
        as (tx' & -> & Hc); [simpl; lia|done|].
      eexists; split; [done|]. rewrite Hc. simpl.
      rewrite map_app, concat_app. simpl. by rewrite app_nil_r, <- app_assoc.
Qed.

End Padding.

(** ** Properties *)

(** C14: the padded stream is transparent.  Whatever non-empty chunks (below
    65536 bytes) a peer sends through [AddChunk] with whatever padding lengths,
    and however the resulting byte stream is cut into data frames, feeding the
    pieces to [OnDataForStream] never aborts, queues buffers whose contents
    concatenate to the chunks, and gives every received byte back to HTTP/2
    flow control. *)
Theorem padding_stream_roundtrip `{Allocator} D bufs tx segs :
  2 <= D →
  Forall (λ bp, wf (fst bp) ∧ chunk_ok (span (fst bp), snd bp)) bufs →
  AddChunks true (mkTx 0 []) bufs = Some tx →
  concat segs = concat (map span (chunks tx)) →
  ∃ st out, OnDataForStreams (rx_init D true) segs = Some st ∧
    IoQueue.represents D (rx_queue st) out ∧
    concat (map span out) = concat (map (λ bp, span (fst bp)) bufs) ∧
    consumed st = length (concat segs).
Proof.
  intros HD Hok Htx Hsegs.
  destruct (AddChunks_spec (mkTx 0 []) bufs kFirstPaddings) as (tx' & E & Hw); [done|done|].
  rewrite E in Htx. injection Htx as ->. cbn [chunks map concat app] in Hw. rewrite Hw in Hsegs.
  destruct (OnDataForStreams_spec D segs _ _ _ _ (rx_init_rel D HD)) as (st & Hst & Hrel & Hc).
  destruct (feeds_concat segs kFirstPaddings [] eq_refl) as (d & _ & Hd & Hdc).
  cbn [app] in Hd, Hrel, Hdc. rewrite Hsegs in Hd.
  destruct (deliver_wire kFirstPaddings (map (λ bp, (span (fst bp), snd bp)) bufs))
    as (k' & d' & Hd' & Hdc').
  { apply Forall_map. eapply Forall_impl; [|exact Hok]. intros ? [_ Hok1]; exact Hok1. }
  rewrite Hd' in Hd. simplify_eq.
  destruct Hrel as [_ _ _ _ _ (out & Hq & _ & Hm)].
  exists st, out. split_and!; try done. rewrite Hm, Hdc, Hdc', map_map. done.
Qed.

Lemma padding_stream_roundtrip_witness :
  let H := (λ _, x00) : Allocator in
  ∃ st out, OnDataForStreams (H := H) (rx_init 2 true)
      [[x00; x02; x01]; [x41]; [x42; x00; x00]; [x01; x00; x43]] = Some st ∧
    IoQueue.represents 2 (rx_queue st) out ∧
    concat (map span out) = [x41; x42; x43] ∧ consumed st = 10.
Proof.
  intros H.
  apply (padding_stream_roundtrip 2
    [(mkBuf [x41; x42] 2 0, 1); (mkBuf [x43] 1 0, 0)]
    (mkTx 2 [mkBuf [x00; x02; x01; x41; x42; x00] 6 0; mkBuf [x00; x01; x00; x43] 4 0])).
  - lia.
  - repeat constructor; simpl; unfold kMaxPaddingSize; lia.
  - vm_compute. reflexivity.
  - vm_compute. reflexivity.
Defined.

(** A frame header with payload length 0 is never reported and never
    skipped.  [RemovePadding] answers [invalid_argument], but [OnDataForStream]
    only stops its loop and answers success, so the header stays at the front
    of the pending bytes: every later data frame is swallowed, the queue and the
    frame counter never change again, and the connection stalls. *)
Theorem padding_zero_length_stalls `{Allocator} D st b rest p segs k ds :
  rx_rel D st (S k) ([x00; x00; p] ++ rest) ds →
  padding_in_middle_buf st = Some b →
  ∃ st', OnDataForStreams st segs = Some st' ∧
    rx_rel D st' (S k) ([x00; x00; p] ++ rest ++ concat segs) ds ∧
    consumed st' = consumed st + length (concat segs).
Proof.
  intros R Hb. destruct (OnDataForStreams_spec D segs _ _ _ _ R) as (st' & E & R' & C).
  exists st'. split; [done|]. split; [|done].
  assert (∀ l, feeds (S k, [x00; x00; p] ++ l) segs
    = ((S k, [x00; x00; p] ++ l ++ concat segs), [])) as F.
  { clear. induction segs as [|s segs IH]; intros l; simpl; [by rewrite app_nil_r|].
    specialize (IH (l ++ s)). simpl in IH. rewrite IH. by rewrite <- app_assoc. }
  rewrite F in R'. by rewrite app_nil_r in R'.
Qed.

Lemma padding_zero_length_stalls_witness :
  let H := (λ _, x00) : Allocator in
  let st := mkRx true 0 (Some (mkBuf [x00; x00; x00] 3 0)) (IoQueue.make 2) 3 in
  ∃ st', OnDataForStreams (H := H) st [[x41; x42]] = Some st' ∧
    rx_rel 2 st' 8 ([x00; x00; x00] ++ [] ++ concat [[x41; x42]]) [] ∧
    consumed st' = 5.
Proof.
  intros H st.
  apply (padding_zero_length_stalls 2 st (mkBuf [x00; x00; x00] 3 0) [] x00 [[x41; x42]] 7 []).
  - split; simpl; try done.
    + intros; simplify_eq. unfold wf; simpl; lia.
    + exists []. split; [apply IoQueue.represents_make; lia|done].
  - done.
Defined.

End Padding.
