(* ===== verification/Addr.v ===== *)
(** * Addresses on the wire

    The address header shared by the shadowsocks and SOCKS5 protocols:
    [address_type_header] of src/src/net/ss.hpp and src/src/net/socks5.hpp (the
    two structs are the same text), asio's [tcp::endpoint] as the code uses it,
    and the abstract wire format ATYP | ADDR | PORT the requests implement.
    The struct holds only [uint8_t] members, so it is modelled as its raw 259
    bytes: member accesses through [&address_type + k] are defined on it. *)

From Stdlib Require Import ZArith Lia.
From stdpp Require Import base list numbers option.
From S2P Require Import Prelude.

Module Addr.

(** ** asio's addresses and endpoints (a library's value types) *)

Inductive address :=
  | address_v4 (bytes : list byte)
  | address_v6 (bytes : list byte).

Record endpoint := mkEndpoint { ep_address : address; ep_port : Z }.

Definition address_wf (a : address) : Prop :=
  match a with address_v4 b => length b = 4 | address_v6 b => length b = 16 end.

Definition port_wf (p : Z) : Prop := (0 <= p < 65536)%Z.

(** A default-constructed [tcp::endpoint]: 0.0.0.0 port 0. *)
Definition endpoint_default : endpoint := mkEndpoint (address_v4 (replicate 4 x00)) 0.

(** ** [address_type] and [address_type_header] *)

Definition ipv4 : byte := x01.
Definition domain : byte := x03.
Definition ipv6 : byte := x04.

(** [address_type], the union of 256 bytes, [port_high_byte], [port_low_byte]. *)
Definition header_size : nat := 1 + 256 + 2.

Abbreviation address_type_header := (list byte) (only parsing).

Definition header_init : address_type_header := replicate header_size x00.

Definition header_wf (h : address_type_header) : Prop := length h = header_size.

Definition address_type (h : address_type_header) : byte := nth 0 h x00.
Definition domain_name_len (h : address_type_header) : byte := nth 1 h x00.
Definition address4 (h : address_type_header) : list byte := take 4 (drop 1 h).
Definition address6 (h : address_type_header) : list byte := take 16 (drop 1 h).
Definition domain_name (h : address_type_header) : list byte :=
  take (Z.to_nat (u8 (domain_name_len h))) (drop 2 h).

(** A store into the header; [None] is a store outside of it. *)
Definition poke (h : address_type_header) (off : nat) (bs : list byte)
  : option address_type_header :=
  if decide (off + length bs <= length h) then Some (splice off bs h) else None.

Lemma poke_append pre rest off bs :
  off = length pre → length bs <= length rest →
  poke (pre ++ rest) off bs = Some ((pre ++ bs) ++ drop (length bs) rest).
Proof.
  intros -> Hlen. unfold poke. rewrite decide_True by (len).
  by rewrite splice_app_r, <- app_assoc by done.
Qed.

Lemma poke_wf h off bs h' : poke h off bs = Some h' → length h' = length h.
Proof. unfold poke. intros. case_decide; simplify_eq. by apply length_splice. Qed.

Lemma poke_total h off bs :
  header_wf h → off + length bs <= header_size → ∃ h', poke h off bs = Some h' ∧ header_wf h'.
Proof.
  unfold poke, header_wf. intros. rewrite decide_True by lia.
  eexists; split; [done|]. rewrite length_splice; lia.
Qed.

(** ** The abstract format *)

(** A destination as a protocol user sees it, and its wire format
    (RFC 1928, section 5, and the shadowsocks header). *)
Inductive dest :=
  | to_v4 (bytes : list byte)
  | to_domain (name : list byte)
  | to_v6 (bytes : list byte).

Definition dest_wf (d : dest) : Prop :=
  match d with
  | to_v4 b => length b = 4
  | to_domain n => length n <= 255
  | to_v6 b => length b = 16
  end.

Definition dest_body (d : dest) : list byte :=
  match d with
  | to_v4 b | to_v6 b => b
  | to_domain n => to_u8 (Z.of_nat (length n)) :: n
  end.

Definition dest_atyp (d : dest) : byte :=
  match d with to_v4 _ => ipv4 | to_domain _ => domain | to_v6 _ => ipv6 end.

Definition wire (d : dest) (port : Z) : list byte :=
  dest_atyp d :: dest_body d ++ be16_bytes port.

Definition wire_size (d : dest) : nat := 1 + length (dest_body d) + 2.

Lemma length_wire d p : length (wire d p) = wire_size d.
Proof. unfold wire, wire_size, be16_bytes. len. Qed.

Lemma u8_len (n : nat) : n <= 255 → Z.to_nat (u8 (to_u8 (Z.of_nat n))) = n.
Proof. intros. rewrite u8_to_u8_small by lia. lia. Qed.

Lemma wire_size_bound d : dest_wf d → 3 <= wire_size d <= header_size.
Proof. unfold wire_size, header_size. destruct d; simpl; intros; len. Qed.

(** The destination a header holds. *)
Definition dest_of (h : address_type_header) : option dest :=
  if decide (address_type h = ipv4) then Some (to_v4 (address4 h))
  else if decide (address_type h = domain) then Some (to_domain (domain_name h))
  else if decide (address_type h = ipv6) then Some (to_v6 (address6 h))
  else None.

Lemma dest_of_prefix d rest :
  dest_wf d → dest_of (dest_atyp d :: dest_body d ++ rest) = Some d.
Proof.
  intros Hd. destruct d as [b|n|b]; simpl in Hd.
  - unfold dest_of. rewrite decide_True by done.
    unfold address4. cbn [drop dest_atyp dest_body app]. by rewrite drop_0, take_app_length'.
  - unfold dest_of. rewrite decide_False, decide_True by done.
    unfold domain_name, domain_name_len. cbn [nth dest_atyp dest_body app drop].
    by rewrite drop_0, u8_len, take_app_length by done.
  - unfold dest_of. rewrite !decide_False, decide_True by done.
    unfold address6. cbn [drop dest_atyp dest_body app]. by rewrite drop_0, take_app_length'.
Qed.

Lemma dest_of_inv h d :
  dest_of h = Some d →
  address_type h = dest_atyp d ∧
  match d with
  | to_v4 b => address4 h = b
  | to_domain n => domain_name h = n
  | to_v6 b => address6 h = b
  end.
Proof. unfold dest_of. intros. repeat case_decide; simplify_eq; done. Qed.

(** A destination one can connect to: a name, or an address other than the
    unspecified one. *)
Definition dest_ok (d : dest) : Prop :=
  match d with
  | to_domain n => n ≠ []
  | to_v4 b | to_v6 b => ¬ Forall (eq x00) b
  end.

(** ** Steps the two request parsers share *)

Lemma poke_tail a rest bs :
  length bs <= length rest → poke (a :: rest) 1 bs = Some (a :: bs ++ drop (length bs) rest).
Proof. apply (poke_append [a] rest 1 bs). done. Qed.

Lemma poke_tail2 a b rest bs :
  length bs <= length rest →
  poke (a :: b :: rest) 2 bs = Some (a :: b :: bs ++ drop (length bs) rest).
Proof. apply (poke_append [a; b] rest 2 bs). done. Qed.

Lemma poke_head a rest b : poke (a :: rest) 0 [b] = Some (b :: rest).
Proof. unfold poke. rewrite decide_True by (simpl; lia). unfold splice. simpl. by rewrite drop_0. Qed.

Lemma known_type d rest :
  negb (bool_decide (address_type (dest_atyp d :: rest) = ipv4))
  && negb (bool_decide (address_type (dest_atyp d :: rest) = domain))
  && negb (bool_decide (address_type (dest_atyp d :: rest) = ipv6)) = false.
Proof. by destruct d. Qed.

Lemma join_request buf i n k b bs hilo :
  rd_slice buf i 1 = Some [b] → rd_slice buf (i + 1) n = Some bs →
  rd_slice buf (i + 1 + n) 2 = Some hilo → k = 1 + n + 2 →
  rd_slice buf i k = Some (b :: bs ++ hilo).
Proof.
  intros Hb Hbs Hp ->. rewrite <- Nat.add_assoc.
  eapply (rd_slice_join _ _ _ _ _ [b]); [done| |done].
  by eapply rd_slice_join.
Qed.

Lemma rd_slice_2 buf i : i + 2 <= length buf → ∃ hi lo, rd_slice buf i 2 = Some [hi; lo].
Proof.
  intros H. destruct (rd_slice_total buf i 2 H) as ([|hi [|lo [|]]] & ? & ?); try done.
  by exists hi, lo.
Qed.

Lemma length_header_init : length header_init = header_size. Proof. apply length_replicate. Qed.

Lemma header_init_cons : ∃ z, header_init = x00 :: z ∧ length z = 258.
Proof. exists (replicate 258 x00). split; [done|apply length_replicate]. Qed.

Lemma wire_of_port_bytes d hi lo :
  dest_atyp d :: dest_body d ++ [hi; lo] = wire d (be16 hi lo).
Proof.
  unfold wire, be16_bytes. do 3 f_equal; [|f_equal]; apply u8_inj.
  - rewrite u8_be16_hi, be16_spec. pose proof (u8_range hi). pose proof (u8_range lo).
    rewrite Z.mul_comm, Z.div_add_l by lia. rewrite (Z.div_small (u8 lo)) by lia.
    rewrite Z.add_0_r, Z.mod_small; lia.
  - rewrite u8_be16_lo, be16_spec. pose proof (u8_range lo).
    rewrite Z.mul_comm, Z.add_comm, Z_mod_plus_full, Z.mod_small; lia.
Qed.

Lemma wire_of_port_bytes_app d hi lo t :
  dest_atyp d :: dest_body d ++ [hi; lo] ++ t = wire d (be16 hi lo) ++ t.
Proof. rewrite <- wire_of_port_bytes. simpl. by rewrite <- app_assoc. Qed.

(** [(port << 8) & 0xff00 | low] on [unsigned short]. *)
Definition short_port (hi lo : byte) : Z :=
  Z.lor (Z.land (Z.shiftl (u8 hi) 8) 65280) (u8 lo).

Lemma short_port_be16 hi lo : short_port hi lo = be16 hi lo.
Proof.
  unfold short_port, be16. f_equal. pose proof (u8_range hi).
  change 65280%Z with (Z.shiftl (Z.ones 8) 8).
  rewrite <- Z.shiftl_land, Z.land_ones, Z.mod_small by lia. done.
Qed.

#[export] Hint Rewrite length_wire : yass.

End Addr.
