(* ===== verification/Ss.v ===== *)
(** * The shadowsocks request and its parser

    src/src/net/ss_request.hpp ([request]) and src/src/net/ss_request_parser.hpp
    ([request_parser]).  Iterators are positions [i], [e] in the object [buf]
    they point into; [None] is an access outside of [buf] or of the header. *)

From Stdlib Require Import ZArith Lia.
From stdpp Require Import base list numbers option.
From S2P Require Import Prelude Addr.

Module Ss.
Import Addr.

(** ** [request] *)

Abbreviation request := (list byte) (only parsing).

Definition request_init : request := header_init.

Definition request_domain (domain_name : list byte) (port : Z) : option request :=
  let i := 0 in
  r ← poke header_init i [domain];
  let i := i + 1 in
  r ← poke r i [to_u8 (Z.of_nat (length domain_name))];
  let i := i + 1 in
  r ← poke r i domain_name;
  let i := i + length domain_name in
  poke r i (be16_bytes port).

Definition request_endpoint (ep : endpoint) : option request :=
  let i := 0 in
  '(r, i) ← match ep_address ep with
            | address_v4 bytes =>
                r ← poke header_init i [ipv4];
                r ← poke r (i + 1) bytes; Some (r, i + 1 + length bytes)
            | address_v6 bytes =>
                r ← poke header_init i [ipv6];
                r ← poke r (i + 1) bytes; Some (r, i + 1 + length bytes)
            end;
  poke r i (be16_bytes (ep_port ep)).

Definition address_type_size (r : request) : nat :=
  if decide (address_type r = ipv4) then 1 + 4 + 2
  else if decide (address_type r = domain)
  then 1 + 1 + Z.to_nat (u8 (domain_name_len r)) + 2
  else if decide (address_type r = ipv6) then 1 + 16 + 2
  else 0.

Definition request_length (r : request) : nat := address_type_size r.

(** The bytes handed to the network: [data()], [length()]. *)
Definition data (r : request) : list byte := take (request_length r) r.

(** [*(&atyp_req_.address_type + address_type_size() - 2)]; the position is
    negative, so outside of the header, for an unknown address type. *)
Definition port_pos (r : request) : option nat :=
  if address_type_size r <? 2 then None else Some (address_type_size r - 2).

Definition set_port_high_byte (r : request) (b : byte) : option request :=
  k ← port_pos r; poke r k [b].

Definition set_port_low_byte (r : request) (b : byte) : option request :=
  k ← port_pos r; poke r (k + 1) [b].

Definition port (r : request) : option Z :=
  k ← port_pos r; h ← rd r k; l ← rd r (k + 1); Some (be16 h l).

Definition endpoint_of (r : request) : option endpoint :=
  if decide (address_type r = ipv4) then
    p ← port r; Some (mkEndpoint (address_v4 (address4 r)) p)
  else if decide (address_type r = ipv6) then
    p ← port r; Some (mkEndpoint (address_v6 (address6 r)) p)
  else Some endpoint_default.

(** [domain_name()]; [to_string] is asio's text form of an address. *)
Definition domain_name_str (to_string : address → list byte) (r : request) : list byte :=
  if decide (address_type r = ipv4) then to_string (address_v4 (address4 r))
  else if decide (address_type r = ipv6) then to_string (address_v6 (address6 r))
  else if decide (address_type r = domain) then domain_name r
  else [].

(** ** [request_parser] *)

Inductive result_type := good | bad | indeterminate.

#[export] Instance result_type_eq_decision : EqDecision result_type.
Proof. solve_decision. Defined.

Inductive state := request_address_start.

Definition reset : state := request_address_start.

(** The two port bytes, [req.port_high_byte() = *i; ++i; ...]. *)
Definition parse_port (r : request) (buf : list byte) (i : nat)
  : option (result_type * nat * request) :=
  b ← rd buf i; r ← set_port_high_byte r b;
  let i := i + 1 in
  b ← rd buf i; r ← set_port_low_byte r b;
  let i := i + 1 in
  Some (good, i, r).

Definition parse (st : state) (r : request) (buf : list byte) (begin e : nat)
  : option (result_type * nat * request) :=
  let i := begin in
  match st with
  | request_address_start =>
      if e <? i + 1 then Some (indeterminate, i, r) else
      b ← rd buf i;
      r ← poke r 0 [b];
      let i := i + 1 in
      if negb (bool_decide (address_type r = ipv4)) && negb (bool_decide (address_type r = domain))
         && negb (bool_decide (address_type r = ipv6))
      then Some (bad, i, r) else
      let size := address_type_size r in
      if e <? i + size then Some (indeterminate, i, r) else
      if decide (address_type r = ipv4) then
        bs ← rd_slice buf i 4;
        r ← poke r 1 bs;
        parse_port r buf (i + 4)
      else if decide (address_type r = domain) then
        b ← rd buf i;
        r ← poke r 1 [b];
        let n := Z.to_nat (u8 (domain_name_len r)) in
        if e <? i + (n + 2) then Some (indeterminate, i, r) else
        let i := i + 1 in
        bs ← rd_slice buf i n;
        r ← poke r 2 bs;
        parse_port r buf (i + n)
      else if decide (address_type r = ipv6) then
        bs ← rd_slice buf i 16;
        r ← poke r 1 bs;
        parse_port r buf (i + 16)
      else Some (bad, i, r)
  end.

(** ** The header as a prefix that is filled from left to right *)

Lemma ss_address_type_size_prefix d rest :
  dest_wf d → address_type_size (dest_atyp d :: dest_body d ++ rest) = wire_size d.
Proof.
  intros Hd. unfold address_type_size, wire_size. destruct d as [b|n|b]; simpl in Hd.
  - rewrite decide_True by done. simpl. lia.
  - rewrite decide_False, decide_True by done.
    unfold domain_name_len. cbn [nth dest_atyp dest_body app].
    rewrite u8_len by done. simpl. lia.
  - rewrite !decide_False, decide_True by done. simpl. lia.
Qed.

Lemma ss_port_pos_prefix d rest :
  dest_wf d → port_pos (dest_atyp d :: dest_body d ++ rest) = Some (1 + length (dest_body d)).
Proof.
  intros Hd. unfold port_pos. rewrite ss_address_type_size_prefix by done.
  unfold wire_size. destruct (Nat.ltb_spec (1 + length (dest_body d) + 2) 2); [lia|].
  f_equal. lia.
Qed.

Lemma poke_after_body d mid rest off bs :
  off = 1 + length (dest_body d) + length mid → length bs <= length rest →
  poke (dest_atyp d :: dest_body d ++ mid ++ rest) off bs
    = Some (dest_atyp d :: dest_body d ++ (mid ++ bs) ++ drop (length bs) rest).
Proof.
  intros -> Hlen.
  pose proof (poke_append (dest_atyp d :: dest_body d ++ mid) rest
    (1 + length (dest_body d) + length mid) bs) as E.
  rewrite <- !app_comm_cons, <- !app_assoc in E. rewrite <- !app_assoc. apply E; len.
Qed.

Lemma ss_parse_port_spec d rest buf i hi lo :
  dest_wf d → 2 <= length rest → rd buf i = Some hi → rd buf (i + 1) = Some lo →
  parse_port (dest_atyp d :: dest_body d ++ rest) buf i
    = Some (good, i + 2, dest_atyp d :: dest_body d ++ [hi; lo] ++ drop 2 rest).
Proof.
  intros Hd Hr Hhi Hlo. unfold parse_port, set_port_high_byte, set_port_low_byte.
  rewrite Hhi. cbn [mbind option_bind]. rewrite ss_port_pos_prefix by done. cbn [mbind option_bind].
  rewrite (poke_after_body d [] rest) by (len).
  cbn [mbind option_bind]. rewrite Hlo. cbn [mbind option_bind].
  rewrite ss_port_pos_prefix by done. cbn [mbind option_bind].
  rewrite (poke_after_body d ([] ++ [hi])) by (len).
  rewrite drop_drop. cbn [mbind option_bind].
  by replace (i + 1 + 1) with (i + 2) by lia.
Qed.

(** When the two length tests of the parser let a destination through: an IP
    request needs one byte more than its size, a domain request one byte less. *)
Definition enough (r : request) (d : dest) (n : nat) : Prop :=
  match d with
  | to_v4 _ | to_v6 _ => 1 + wire_size d <= n
  | to_domain name =>
      5 + Z.to_nat (u8 (domain_name_len r)) <= n ∧ wire_size d <= n + 1
  end.

Lemma ss_size_start d r0 r n :
  dest_wf d → enough (r0 :: r) d n → 1 + address_type_size (dest_atyp d :: r) <= n.
Proof.
  intros Hd Hn. unfold enough, wire_size, address_type_size, domain_name_len in *.
  destruct d; simpl in *; repeat case_decide; try done; simpl in *; lia.
Qed.

(** The parser accepts what the tests let through, and consumes exactly the
    request; the bytes of the header behind it keep their old values. *)
Lemma ss_parse_good r d n buf i hi lo :
  header_wf r → dest_wf d → enough r d n →
  rd_slice buf i (wire_size d) = Some (dest_atyp d :: dest_body d ++ [hi; lo]) →
  parse reset r buf i (i + n)
  = Some (good, i + wire_size d,
          dest_atyp d :: dest_body d ++ [hi; lo] ++ drop (wire_size d) r).
Proof.
  intros Hr Hd Hn Hbuf. unfold parse, reset. cbv zeta.
  unfold header_wf, header_size in Hr. destruct r as [|r0 r']; simpl in Hr; [lia|].
  pose proof (ss_size_start d r0 r' n Hd Hn) as Hs.
  destruct (Nat.ltb_spec (i + n) (i + 1)); [lia|].
  rewrite (rd_in_slice _ _ _ _ i _ Hbuf) by (by rewrite Nat.sub_diag || done).
  cbn [mbind option_bind]. rewrite poke_head. cbn [mbind option_bind]. rewrite known_type.
  destruct (Nat.ltb_spec (i + n) (i + 1 + address_type_size (dest_atyp d :: r'))); [lia|].
  assert (rd buf (i + 1 + length (dest_body d)) = Some hi) as Hhi.
  { eapply rd_in_slice; [done| |lia]. rewrite app_comm_cons, lookup_app_r; simpl; [|lia].
    by replace (_ - _) with 0 by lia. }
  assert (rd buf (i + 1 + length (dest_body d) + 1) = Some lo) as Hlo.
  { eapply rd_in_slice; [done| |lia]. rewrite app_comm_cons, lookup_app_r; simpl; [|lia].
    by replace (_ - _) with 1 by lia. }
  destruct d as [b|nm|b]; cbn [dest_atyp dest_body dest_wf] in *;
    unfold address_type; cbn [nth].
  - rewrite decide_True by done.
    rewrite (rd_slice_in_slice _ _ _ [ipv4] _ _ _ _ Hbuf) by (simpl; lia).
    cbn [mbind option_bind]. rewrite poke_tail by lia. cbn [mbind option_bind]. rewrite <- Hd.
    rewrite (ss_parse_port_spec (to_v4 b) _ _ _ hi lo) by (done || len).
    rewrite drop_drop. unfold wire_size. cbn [dest_body dest_atyp].
    replace (i + 1 + length b + 2) with (i + (1 + length b + 2)) by lia.
    by replace (1 + length b + 2) with (S (length b + 2)) by lia.
  - rewrite decide_False, decide_True by done.
    rewrite (rd_in_slice _ _ _ _ _ (to_u8 (Z.of_nat (length nm))) Hbuf)
      by (by (replace (i + 1 - i) with 1 by lia) || lia).
    cbn [mbind option_bind]. rewrite poke_tail by (simpl; lia). cbn [mbind option_bind].
    unfold domain_name_len. cbn [nth app]. rewrite u8_len by done.
    unfold enough, wire_size in Hn. simpl in Hn.
    destruct (Nat.ltb_spec (i + n) (i + 1 + (length nm + 2))); [lia|].
    rewrite (rd_slice_in_slice _ _ _ [domain; _] _ _ _ _ Hbuf) by (simpl; lia).
    cbn [mbind option_bind].
    rewrite poke_tail2 by (len). cbn [mbind option_bind].
    rewrite app_comm_cons.
    rewrite (ss_parse_port_spec (to_domain nm) _ _ _ hi lo); cbn [dest_body length];
      [|done|len|rewrite <- Hhi; f_equal; simpl; lia|rewrite <- Hlo; f_equal; simpl; lia].
    rewrite !drop_drop. unfold wire_size. cbn [dest_body dest_atyp length].
    replace (i + 1 + 1 + length nm + 2) with (i + (1 + S (length nm) + 2)) by lia.
    by replace (1 + S (length nm) + 2) with (S (1 + length nm + 2)) by lia.
  - rewrite !decide_False, decide_True by done.
    rewrite (rd_slice_in_slice _ _ _ [ipv6] _ _ _ _ Hbuf) by (simpl; lia).
    cbn [mbind option_bind]. rewrite poke_tail by lia. cbn [mbind option_bind]. rewrite <- Hd.
    rewrite (ss_parse_port_spec (to_v6 b) _ _ _ hi lo) by (done || len).
    rewrite drop_drop. unfold wire_size. cbn [dest_body dest_atyp].
    replace (i + 1 + length b + 2) with (i + (1 + length b + 2)) by lia.
    by replace (1 + length b + 2) with (S (length b + 2)) by lia.
Qed.

Lemma ss_parse_port_inv r buf i res i' r' :
  parse_port r buf i = Some (res, i', r') →
  res = good ∧ i' = i + 2 ∧ ∃ hi lo, rd_slice buf i 2 = Some [hi; lo].
Proof.
  unfold parse_port. intros.
  destruct (rd buf i) as [hi|] eqn:Hhi; [|done].
  destruct (rd buf (i + 1)) as [lo|] eqn:Hlo; simplify_option_eq.
  split; [done|]. split; [lia|]. exists hi, lo.
  apply rd_slice_1 in Hhi, Hlo. by apply (rd_slice_join _ _ _ _ _ _ _ Hhi Hlo).
Qed.

(** Conversely, a [good] answer stems from a complete request in [buf]. *)
Lemma ss_parse_good_inv r buf i n i' r' :
  header_wf r → parse reset r buf i (i + n) = Some (good, i', r') →
  ∃ d hi lo, dest_wf d ∧ enough r d n ∧
    rd_slice buf i (wire_size d) = Some (dest_atyp d :: dest_body d ++ [hi; lo]).
Proof.
  intros Hr. unfold header_wf, header_size in Hr. destruct r as [|r0 r1]; simpl in Hr; [lia|].
  unfold parse, reset. cbv zeta.
  destruct (Nat.ltb_spec (i + n) (i + 1)); [done|].
  destruct (rd buf i) as [b|] eqn:Hb; [|done]. cbn [mbind option_bind].
  rewrite poke_head. cbn [mbind option_bind]. unfold address_type. cbn [nth].
  case_match; [done|]. apply rd_slice_1 in Hb.
  unfold address_type_size, address_type. cbn [nth].
  repeat case_decide; subst; try done.
  - destruct (Nat.ltb_spec (i + n) (i + 1 + (1 + 4 + 2))); [done|].
    destruct (rd_slice buf (i + 1) 4) as [bs|] eqn:Hbs; [|done]. cbn [mbind option_bind].
    pose proof (rd_slice_Some _ _ _ _ Hbs) as (_ & Hl & _).
    rewrite poke_tail by lia. cbn [mbind option_bind].
    intros (_ & _ & hi & lo & Hp)%ss_parse_port_inv.
    exists (to_v4 bs), hi, lo. unfold enough, wire_size. cbn [dest_wf dest_body].
    split_and!; [done|lia|]. apply (join_request _ _ _ _ _ _ _ Hb Hbs Hp); lia.
  - destruct (Nat.ltb_spec (i + n) (i + 1 + (1 + 1 + Z.to_nat (u8 (domain_name_len (domain :: r1))) + 2)));
      [done|].
    destruct (rd buf (i + 1)) as [len|] eqn:Hlen; [|done]. cbn [mbind option_bind].
    rewrite poke_tail by (simpl; lia). cbn [mbind option_bind app].
    unfold domain_name_len in *. cbn [nth] in *.
    destruct (Nat.ltb_spec (i + n) (i + 1 + (Z.to_nat (u8 len) + 2))); [done|].
    destruct (rd_slice buf (i + 1 + 1) _) as [bs|] eqn:Hbs; [|done]. cbn [mbind option_bind].
    pose proof (rd_slice_Some _ _ _ _ Hbs) as (_ & Hl & _). pose proof (u8_range len).
    rewrite poke_tail2 by (len). cbn [mbind option_bind].
    intros (_ & _ & hi & lo & Hp)%ss_parse_port_inv.
    exists (to_domain bs), hi, lo. unfold enough, wire_size. cbn [dest_wf dest_body dest_atyp].
    split_and!; [lia|unfold domain_name_len in *; simpl in *; lia|simpl; lia|].
    apply rd_slice_1 in Hlen.
    pose proof (rd_slice_join _ _ _ _ _ _ _ Hlen Hbs eq_refl) as Hbody.
    rewrite Hl, Z2Nat.id, to_u8_u8 by lia.
    apply (join_request _ _ _ _ _ _ _ Hb Hbody); [|simpl; lia..].
    rewrite <- Hp. f_equal. lia.
  - destruct (Nat.ltb_spec (i + n) (i + 1 + (1 + 16 + 2))); [done|].
    destruct (rd_slice buf (i + 1) 16) as [bs|] eqn:Hbs; [|done]. cbn [mbind option_bind].
    pose proof (rd_slice_Some _ _ _ _ Hbs) as (_ & Hl & _).
    rewrite poke_tail by lia. cbn [mbind option_bind].
    intros (_ & _ & hi & lo & Hp)%ss_parse_port_inv.
    exists (to_v6 bs), hi, lo. unfold enough, wire_size. cbn [dest_wf dest_body].
    split_and!; [done|lia|]. apply (join_request _ _ _ _ _ _ _ Hb Hbs Hp); lia.
Qed.

(** The outcome of a parse: a complete request was accepted, or the answer is
    [bad] or [indeterminate]; no access leaves the header, or [buf] by more
    than one byte behind the given end. *)
Lemma ss_parse_total r buf i n :
  header_wf r → i + n + 1 <= length buf →
  ∃ res i' r', parse reset r buf i (i + n) = Some (res, i', r') ∧
    header_wf r' ∧ i <= i' <= i + n + 1.
Proof.
  intros Hr Hbuf.
  assert (∀ d hi lo, dest_wf d → enough r d n →
    rd_slice buf i (wire_size d) = Some (dest_atyp d :: dest_body d ++ [hi; lo]) →
    ∃ res i' r', parse reset r buf i (i + n) = Some (res, i', r') ∧
      header_wf r' ∧ i <= i' <= i + n + 1) as Hgood.
  { intros d hi lo Hd He Hs. rewrite (ss_parse_good _ _ _ _ _ _ _ Hr Hd He Hs).
    do 3 eexists; split; [done|]. pose proof (wire_size_bound d Hd).
    unfold header_wf, wire_size, header_size in *. split; [len|].
    destruct d; unfold enough, wire_size in *; simpl in *; lia. }
  revert Hgood. unfold header_wf, header_size in Hr.
  destruct r as [|r0 r1]; simpl in Hr; [lia|]. unfold parse, reset. cbv zeta.
  destruct (Nat.ltb_spec (i + n) (i + 1)).
  { intros _. do 3 eexists; split; [done|]. split; [done|lia]. }
  destruct (rd_total buf i) as [b Hb]; [lia|]. rewrite Hb. cbn [mbind option_bind].
  rewrite poke_head. cbn [mbind option_bind]. unfold address_type. cbn [nth].
  case_match. { intros _. do 3 eexists; split; [done|]. split; [done|lia]. }
  apply rd_slice_1 in Hb. unfold address_type_size, address_type. cbn [nth].
  repeat case_decide; subst; try done.
  - destruct (Nat.ltb_spec (i + n) (i + 1 + (1 + 4 + 2))).
    { intros _. do 3 eexists; split; [done|]. split; [done|lia]. }
    intros Hgood. destruct (rd_slice_total buf (i + 1) 4) as (bs & Hbs & Hl); [lia|].
    destruct (rd_slice_2 buf (i + 1 + 4)) as (hi & lo & Hp); [lia|].
    apply (Hgood (to_v4 bs) hi lo); unfold enough, wire_size; simpl; [done|lia|].
    apply (join_request _ _ _ _ _ _ _ Hb Hbs Hp); lia.
  - destruct (Nat.ltb_spec (i + n) (i + 1 + (1 + 1 + Z.to_nat (u8 (domain_name_len (domain :: r1))) + 2))).
    { intros _. do 3 eexists; split; [done|]. split; [done|lia]. }
    destruct (rd_total buf (i + 1)) as [len Hlen]; [lia|]. rewrite Hlen. cbn [mbind option_bind].
    rewrite poke_tail by (simpl; lia). cbn [mbind option_bind app].
    unfold enough, domain_name_len in *. cbn [nth] in *.
    destruct (Nat.ltb_spec (i + n) (i + 1 + (Z.to_nat (u8 len) + 2))).
    { intros _. do 3 eexists; split; [done|]. split; [unfold header_wf, header_size; len|lia]. }
    intros Hgood. pose proof (u8_range len).
    destruct (rd_slice_total buf (i + 1 + 1) (Z.to_nat (u8 len))) as (bs & Hbs & Hl); [lia|].
    destruct (rd_slice_2 buf (i + 1 + (1 + Z.to_nat (u8 len)))) as (hi & lo & Hp); [lia|].
    apply rd_slice_1 in Hlen. pose proof (rd_slice_join _ _ _ _ _ _ _ Hlen Hbs eq_refl) as Hbody.
    apply (Hgood (to_domain bs) hi lo); unfold wire_size; simpl; [lia|lia|].
    rewrite Hl, Z2Nat.id, to_u8_u8 by lia.
    apply (join_request _ _ _ _ _ _ _ Hb Hbody Hp); lia.
  - destruct (Nat.ltb_spec (i + n) (i + 1 + (1 + 16 + 2))).
    { intros _. do 3 eexists; split; [done|]. split; [done|lia]. }
    intros Hgood. destruct (rd_slice_total buf (i + 1) 16) as (bs & Hbs & Hl); [lia|].
    destruct (rd_slice_2 buf (i + 1 + 16)) as (hi & lo & Hp); [lia|].
    apply (Hgood (to_v6 bs) hi lo); unfold enough, wire_size; simpl; [done|lia|].
    apply (join_request _ _ _ _ _ _ _ Hb Hbs Hp); lia.
Qed.

(** ** The constructors write the wire format *)

Definition make_request (d : dest) (port : Z) : option request :=
  match d with
  | to_v4 b => request_endpoint (mkEndpoint (address_v4 b) port)
  | to_v6 b => request_endpoint (mkEndpoint (address_v6 b) port)
  | to_domain n => request_domain n port
  end.

Lemma make_request_spec d p :
  dest_wf d →
  make_request d p = Some (wire d p ++ drop (wire_size d) header_init).
Proof.
  intros Hd. pose proof (wire_size_bound d Hd) as Hs. unfold header_size in Hs.
  destruct header_init_cons as (z & Hz & Hlz).
  destruct d as [b|n|b]; unfold make_request, request_domain, request_endpoint, wire, wire_size in *;
    cbn [ep_address ep_port dest_atyp dest_body dest_wf length] in *; rewrite Hz;
    rewrite poke_head; cbn [mbind option_bind]; rewrite poke_tail by (len); cbn [mbind option_bind].
  - rewrite app_comm_cons, poke_append, drop_drop by (len). cbn. by rewrite Nat.add_comm.
  - cbn [app]. rewrite poke_tail2 by (len). cbn [mbind option_bind].
    rewrite !app_comm_cons, poke_append, !drop_drop by (len). cbn. by rewrite Nat.add_comm.
  - rewrite app_comm_cons, poke_append, drop_drop by (len). cbn. by rewrite Nat.add_comm.
Qed.

Lemma ss_header_view d p rest :
  dest_wf d → port_wf p →
  dest_of (wire d p ++ rest) = Some d ∧ port (wire d p ++ rest) = Some p ∧
  request_length (wire d p ++ rest) = wire_size d ∧ data (wire d p ++ rest) = wire d p.
Proof.
  intros Hd Hp.
  assert (request_length (wire d p ++ rest) = wire_size d) as Hlen.
  { unfold request_length, wire. rewrite <- app_comm_cons, <- app_assoc.
    by apply ss_address_type_size_prefix. }
  split_and!; [..|done|].
  - unfold wire. rewrite <- app_comm_cons, <- app_assoc. by apply dest_of_prefix.
  - unfold port, wire. rewrite <- app_comm_cons, <- app_assoc, ss_port_pos_prefix by done.
    cbn [mbind option_bind]. unfold be16_bytes. cbn [app].
    rewrite app_comm_cons, (rd_app _ _ _ (1 + length (dest_body d))) by done. cbn [mbind option_bind].
    rewrite cons_middle, app_assoc, rd_app by (len). cbn [mbind option_bind].
    by rewrite be16_roundtrip.
  - unfold data. rewrite Hlen. apply take_app_length'. by rewrite length_wire.
Qed.

(** The accessors of a request that holds a destination and a port. *)
Lemma endpoint_of_view h d p :
  dest_of h = Some d → port h = Some p →
  endpoint_of h = Some (match d with
                        | to_v4 b => mkEndpoint (address_v4 b) p
                        | to_domain _ => endpoint_default
                        | to_v6 b => mkEndpoint (address_v6 b) p
                        end).
Proof.
  intros [Hat Hv]%dest_of_inv Hp. unfold endpoint_of. rewrite Hat, Hp.
  destruct d; cbn [dest_atyp]; repeat case_decide; try done; simpl; by rewrite Hv.
Qed.

(** ** Properties *)

(** A request the client builds for a destination (an IP endpoint or a
    name of at most 255 bytes) is, byte for byte, ATYP ADDR PORT, and the
    server's parser reads the same destination and port back from it and stops
    right behind it, whatever payload follows, provided some payload follows
    or the destination is a non-empty name. *)
Theorem ss_request_roundtrip d p rest :
  dest_wf d → port_wf p → (rest ≠ [] ∨ ∃ c n, d = to_domain (c :: n)) →
  ∃ r r', make_request d p = Some r ∧ data r = wire d p ∧
    parse reset request_init (data r ++ rest) 0 (length (data r ++ rest))
      = Some (good, length (data r), r') ∧
    dest_of r' = Some d ∧ port r' = Some p ∧ request_length r' = length (data r).
Proof.
  intros Hd Hp Hrest. rewrite make_request_spec by done.
  destruct (ss_header_view d p (drop (wire_size d) header_init) Hd Hp) as (Hv & Hvp & Hvl & Hvd).
  do 2 eexists. split; [done|]. split; [done|]. rewrite Hvd, length_app, length_wire.
  assert (enough request_init d (wire_size d + length rest)) as Hen.
  { assert (Z.to_nat (u8 (domain_name_len request_init)) = 0) as H0 by done.
    destruct Hrest as [Hne|(c & n & ->)].
    - destruct rest; [done|]. destruct d; unfold enough, wire_size in *;
        rewrite ?H0; simpl in *; lia.
    - unfold enough, wire_size in *; rewrite ?H0; simpl in *. lia. }
  split; [|done].
  replace (wire d p ++ drop (wire_size d) header_init) with
    (dest_atyp d :: dest_body d ++ be16_bytes p ++ drop (wire_size d) request_init)
    by (unfold wire; by rewrite <- app_comm_cons, <- app_assoc).
  apply (ss_parse_good request_init d (wire_size d + length rest) _ 0);
    [apply length_header_init|done|done|].
  apply (rd_slice_app' [] (wire d p) rest); [done|by rewrite length_wire].
Qed.

Lemma ss_request_roundtrip_witness :
  ∃ r r', make_request (to_domain [x61; x2e; x62]) 443 = Some r ∧
    data r = wire (to_domain [x61; x2e; x62]) 443 ∧
    parse reset request_init (data r ++ [x16]) 0 (length (data r ++ [x16]))
      = Some (good, length (data r), r') ∧
    dest_of r' = Some (to_domain [x61; x2e; x62]) ∧ port r' = Some 443%Z ∧
    request_length r' = length (data r).
Proof.
  apply (ss_request_roundtrip (to_domain [x61; x2e; x62]) 443 [x16]).
  - simpl; lia.
  - unfold port_wf; lia.
  - by left.
Defined.

(** Whatever bytes arrive and whatever the request object held before, a
    [good] answer means that the bytes consumed are the wire format of the
    destination and port the request object now reports. *)
Theorem ss_parse_sound r buf i n i' r' :
  header_wf r → parse reset r buf i (i + n) = Some (good, i', r') →
  ∃ d p, dest_wf d ∧ port_wf p ∧ dest_of r' = Some d ∧ port r' = Some p ∧
    i' = i + wire_size d ∧ rd_slice buf i (wire_size d) = Some (wire d p).
Proof.
  intros Hr Hg. destruct (ss_parse_good_inv _ _ _ _ _ _ Hr Hg) as (d & hi & lo & Hd & He & Hs).
  rewrite (ss_parse_good _ _ _ _ _ _ _ Hr Hd He Hs) in Hg. simplify_eq.
  exists d, (be16 hi lo). rewrite wire_of_port_bytes_app.
  pose proof (be16_range hi lo).
  destruct (ss_header_view d (be16 hi lo) (drop (wire_size d) r) Hd) as (? & ? & _); [done|].
  rewrite wire_of_port_bytes in Hs. done.
Qed.

Lemma ss_parse_sound_witness :
  ∃ d p, dest_wf d ∧ port_wf p ∧
    dest_of ([x01; x7f; x00; x00; x01; x00; x50] ++ drop 7 header_init) = Some d ∧
    port ([x01; x7f; x00; x00; x01; x00; x50] ++ drop 7 header_init) = Some p ∧
    7 = 0 + wire_size d ∧
    rd_slice [x01; x7f; x00; x00; x01; x00; x50; x47] 0 (wire_size d) = Some (wire d p).
Proof.
  apply (ss_parse_sound header_init [x01; x7f; x00; x00; x01; x00; x50; x47] 0 8).
  - vm_compute. reflexivity.
  - vm_compute. reflexivity.
Defined.

(** A complete request for an IP address that arrives without any payload
    behind it is answered [indeterminate], not [good]: [address_type_size()]
    counts the type byte, and the parser compares it with what is left after
    that byte. *)
Theorem ss_parse_ip_needs_payload d p r :
  header_wf r → dest_wf d → (∀ n, d ≠ to_domain n) →
  parse reset r (wire d p) 0 (length (wire d p))
    = Some (indeterminate, 1, dest_atyp d :: drop 1 r).
Proof.
  intros Hr Hd Hip. unfold parse, reset, wire. cbv zeta.
  unfold header_wf, header_size in Hr. destruct r as [|r0 r1]; simpl in Hr; [lia|].
  destruct (Nat.ltb_spec (length (dest_atyp d :: dest_body d ++ be16_bytes p)) (0 + 1));
    [simpl in *; lia|]. cbn [rd lookup list_lookup mbind option_bind].
  rewrite poke_head. cbn [mbind option_bind]. rewrite known_type.
  destruct (Nat.ltb_spec (length (dest_atyp d :: dest_body d ++ be16_bytes p))
    (0 + 1 + address_type_size (dest_atyp d :: r1))) as [|Hge]; [done|].
  destruct d as [b|n|b]; [|by destruct (Hip n)|];
    unfold address_type_size in Hge; repeat case_decide; simpl in *; try done; len.
Qed.

Lemma ss_parse_ip_needs_payload_witness :
  parse reset request_init (wire (to_v4 [x7f; x00; x00; x01]) 80) 0
    (length (wire (to_v4 [x7f; x00; x00; x01]) 80))
  = Some (indeterminate, 1, ipv4 :: drop 1 request_init).
Proof.
  apply (ss_parse_ip_needs_payload (to_v4 [x7f; x00; x00; x01]) 80 request_init).
  - apply length_header_init.
  - done.
  - done.
Defined.

(** Memory safety of the parser and its exact limit.  With one readable
    byte behind the given end, no access leaves the buffer or the 259 byte
    header, for any input and any previous contents of the request.  Without
    that byte the bound is exceeded: a domain request whose last port byte has
    not arrived passes the length test [len + 2], which forgets the length byte,
    and the parser reads one byte behind the end. *)
Theorem ss_parse_bounds :
  (∀ r buf i n, header_wf r → i + n + 1 <= length buf →
     ∃ res i' r', parse reset r buf i (i + n) = Some (res, i', r') ∧
       header_wf r' ∧ i <= i' <= i + n + 1) ∧
  (∀ name hi, 2 <= length name <= 255 →
     let buf := domain :: to_u8 (Z.of_nat (length name)) :: name ++ [hi] in
     parse reset request_init buf 0 (length buf) = None).
Proof.
  split; [apply ss_parse_total|]. intros name hi Hn buf.
  pose proof (u8_len (length name) ltac:(lia)) as Hlen.
  unfold parse, reset, buf. cbv zeta. cbn [length]. rewrite length_app. cbn [length].
  set (c := to_u8 _) in *.
  destruct (Nat.ltb_spec (S (S (length name + 1))) (0 + 1)); [lia|].
  cbn [rd lookup list_lookup mbind option_bind].
  destruct header_init_cons as (z & Hz & Hlz). unfold request_init. rewrite Hz, poke_head.
  assert (nth 0 z x00 = x00) as Hz0 by (change z with (tail (x00 :: z)); by rewrite <- Hz).
  cbn [mbind option_bind]. rewrite (known_type (to_domain name)).
  unfold address_type_size. rewrite (decide_False (P := _ = ipv4)), (decide_True (P := _ = domain)) by done.
  unfold domain_name_len at 1. cbn [nth]. rewrite Hz0.
  destruct (Nat.ltb_spec (S (S (length name + 1))) (0 + 1 + (1 + 1 + Z.to_nat (u8 x00) + 2)));
    [simpl in *; lia|].
  rewrite (decide_False (P := _ = ipv4)), (decide_True (P := _ = domain)) by done.
  cbn [rd lookup list_lookup mbind option_bind Nat.add]. rewrite poke_tail by (simpl; lia).
  cbn [mbind option_bind app]. unfold domain_name_len. cbn [nth]. rewrite Hlen.
  destruct (Nat.ltb_spec (S (S (length name + 1))) (S (length name + 2))); [lia|].
  rewrite (rd_slice_app' [domain; c] name [hi]) by done. cbn [mbind option_bind].
  rewrite poke_tail2 by (len). cbn [mbind option_bind]. unfold parse_port.
  assert (rd (domain :: c :: name ++ [hi]) (S (S (length name))) = Some hi) as ->
    by by apply (rd_app (domain :: c :: name) hi []).
  cbn [mbind option_bind].
  destruct (set_port_high_byte _ _); [|done]. cbn [mbind option_bind].
  unfold rd. rewrite lookup_ge_None_2 by (simpl; len). done.
Qed.

End Ss.
