(* ===== verification/Socks4.v ===== *)
(** * SOCKS4 and SOCKS4A: request, reply and request parser

    src/src/net/socks4.hpp, socks4_request.hpp, socks4_request_parser.hpp and
    socks4_request_parser.cpp.  Iterators are positions in the object [buf]
    they point into; [None] is a read outside of [buf]. *)

From Stdlib Require Import ZArith Lia.
From stdpp Require Import base list numbers option sets.
From S2P Require Import Prelude Addr.

Module Socks4.
Import Addr.

Definition version : byte := x04.
Definition cmd_connect : byte := x01.
Definition cmd_bind : byte := x02.

(** ** The request *)

Record request_header := mkHeader {
  h_version : byte; h_command : byte; h_port_high_byte : byte; h_port_low_byte : byte;
  h_address : list byte }.

Record request := mkRequest {
  req_ : request_header; user_id_ : list byte; domain_name_ : list byte }.

Definition header_length : nat := 8.

Definition request_init : request :=
  mkRequest (mkHeader x00 x00 x00 x00 (replicate 4 x00)) [] [].

(** [*(uint32_t* )&req_.address] on a little endian machine. *)
Definition ipnum (a : list byte) : Z :=
  (u8 (nth 0 a x00) + 2 ^ 8 * u8 (nth 1 a x00) + 2 ^ 16 * u8 (nth 2 a x00)
   + 2 ^ 24 * u8 (nth 3 a x00))%Z.

(** [~(255 << 24)] as a 32 bit value is [0x00ffffff]. *)
Definition is_socks4a (r : request) : bool :=
  let ip := ipnum (h_address (req_ r)) in
  negb (Z.shiftr ip 24 =? 0)%Z && (Z.land ip 16777215 =? 0)%Z.

Definition port (r : request) : Z :=
  short_port (h_port_high_byte (req_ r)) (h_port_low_byte (req_ r)).

Definition endpoint_of (r : request) : endpoint :=
  mkEndpoint (address_v4 (h_address (req_ r))) (port r).

Definition request_length (r : request) : nat :=
  header_length + length (user_id_ r) + 1 +
  (if is_socks4a r then length (domain_name_ r) + 1 else 0).

(** ** The parser *)

Inductive result_type := good | bad | indeterminate.

Inductive state := request_start | request_userid_start | request_domain_start.

Definition reset : state := request_start.

(** [while (i != end && *i != 0) ++i] with [n] bytes between [i] and [end]. *)
Fixpoint scan (n : nat) (buf : list byte) (i : nat) : option nat :=
  match n with
  | 0 => Some i
  | S n =>
      b ← rd buf i;
      if decide (b = x00) then Some i else scan n buf (i + 1)
  end.

Definition parse_domain (st : state) (r : request) (buf : list byte) (begin e : nat)
  : option (result_type * nat * state * request) :=
  i ← scan (e - begin) buf begin;
  if i =? e then Some (indeterminate, i, st, r) else
  s ← rd_slice buf begin (i - begin);
  Some (good, i + 1, st, mkRequest (req_ r) (user_id_ r) s).

Definition parse_userid (st : state) (r : request) (buf : list byte) (begin e : nat)
  : option (result_type * nat * state * request) :=
  i ← scan (e - begin) buf begin;
  if i =? e then Some (indeterminate, i, st, r) else
  s ← rd_slice buf begin (i - begin);
  let r := mkRequest (req_ r) s (domain_name_ r) in
  if is_socks4a r then parse_domain request_domain_start r buf (i + 1) e
  else Some (good, i + 1, st, r).

Definition parse (st : state) (r : request) (buf : list byte) (begin e : nat)
  : option (result_type * nat * state * request) :=
  match st with
  | request_start =>
      if e <? begin + header_length then Some (indeterminate, begin, st, r) else
      bs ← rd_slice buf begin header_length;
      let r := mkRequest (mkHeader (nth 0 bs x00) (nth 1 bs x00) (nth 2 bs x00) (nth 3 bs x00)
                            (drop 4 bs)) (user_id_ r) (domain_name_ r) in
      if negb (bool_decide (h_version (req_ r) = version)) then Some (bad, begin, st, r) else
      parse_userid request_userid_start r buf (begin + header_length) e
  | request_userid_start => parse_userid st r buf begin e
  | request_domain_start => parse_domain st r buf begin e
  end.

(** ** The reply *)

Definition request_granted : byte := x5a.
Definition request_failed : byte := x5b.

Record reply := mkReply {
  null_byte_ : byte; status_ : byte; port_high_byte_ : byte; port_low_byte_ : byte;
  address_ : list byte }.

(** [reply()]: the members it does not initialise are arguments. *)
Definition reply_init (ph pl : byte) (a : list byte) : reply := mkReply x00 x00 ph pl a.

Definition buffers (r : reply) : list (list byte) :=
  [[null_byte_ r]; [status_ r]; [port_high_byte_ r]; [port_low_byte_ r]; address_ r].

Definition success (r : reply) : bool :=
  bool_decide (null_byte_ r = x00) && bool_decide (status_ r = request_granted).

Definition set_status (r : reply) (s : byte) : reply :=
  mkReply (null_byte_ r) s (port_high_byte_ r) (port_low_byte_ r) (address_ r).

Definition reply_endpoint (r : reply) : endpoint :=
  mkEndpoint (address_v4 (address_ r)) (short_port (port_high_byte_ r) (port_low_byte_ r)).

(** [to_v4()] throws [bad_address_cast] on an IPv6 address. *)
Definition set_endpoint (r : reply) (ep : endpoint) : option reply :=
  match ep_address ep with
  | address_v6 _ => None
  | address_v4 bytes =>
      Some (mkReply (null_byte_ r) (status_ r)
              (to_u8 (Z.land (Z.shiftr (ep_port ep) 8) 255))
              (to_u8 (Z.land (ep_port ep) 255)) bytes)
  end.

Definition reply_length (r : reply) : nat := 4 + length (address_ r).

(** ** Lemmas *)

(** The test for an address 0.0.0.x with a nonzero x. *)
Lemma is_socks4a_spec v c ph pl a b d e u s :
  is_socks4a (mkRequest (mkHeader v c ph pl [a; b; d; e]) u s)
  = bool_decide (a = x00 ∧ b = x00 ∧ d = x00 ∧ e ≠ x00).
Proof.
  unfold is_socks4a, ipnum. cbn [req_ h_address nth].
  pose proof (u8_range a). pose proof (u8_range b). pose proof (u8_range d). pose proof (u8_range e).
  assert (∀ x, u8 x = 0%Z → x = x00) as Hz by (intros x Hx; by apply u8_inj).
  set (w := (u8 a + _ + _ + _)%Z). change 16777215%Z with (Z.ones 24).
  rewrite Z.land_ones, Z.shiftr_div_pow2 by lia.
  assert (w = (u8 a + 256 * u8 b + 65536 * u8 d) + u8 e * 2 ^ 24)%Z as Hw by (unfold w; lia).
  rewrite Hw, Z.div_add, Z_mod_plus_full by lia.
  rewrite Z.div_small, Z.mod_small, Z.add_0_l by lia.
  destruct (Z.eqb_spec (u8 e) 0) as [He|He]; cbn [negb andb].
  - apply Hz in He. symmetry. apply bool_decide_eq_false_2. by intros (_ & _ & _ & []).
  - destruct (Z.eqb_spec (u8 a + 256 * u8 b + 65536 * u8 d) 0); symmetry.
    + apply bool_decide_eq_true_2. split_and!; [apply Hz; lia..|]. intros ->. by apply He.
    + apply bool_decide_eq_false_2. intros (-> & -> & -> & _). done.
Qed.

Lemma scan_stop s suf pre :
  x00 ∉ s → ∀ n, length s < n →
  scan n (pre ++ s ++ x00 :: suf) (length pre) = Some (length pre + length s).
Proof.
  revert pre. induction s as [|b s IH]; intros pre Hs n Hn; destruct n as [|n]; simpl in *; try lia.
  - rewrite rd_app by done. cbn. f_equal; lia.
  - rewrite rd_app by done. cbn [mbind option_bind]. rewrite decide_False by set_solver.
    rewrite cons_middle, app_assoc. rewrite <- (length_app pre [b]) at 1.
    rewrite IH by (set_solver || lia). f_equal. len.
Qed.

(** The scan stays inside and stops at the end or at the first zero byte. *)
Lemma scan_inv n buf i :
  i + n <= length buf →
  ∃ k s, scan n buf i = Some (i + k) ∧ k <= n ∧ rd_slice buf i k = Some s ∧ (x00 ∉ s) ∧
    (k < n → (rd buf (i + k) = Some x00)).
Proof.
  revert i. induction n as [|n IH]; intros i Hi; simpl.
  - exists 0, []. rewrite rd_slice_0, Nat.add_0_r by lia. split_and!; try done; [set_solver|lia].
  - destruct (rd_total buf i) as [b Hb]; [lia|]. rewrite Hb. cbn [mbind option_bind]. case_decide; subst.
    + exists 0, []. rewrite rd_slice_0, Nat.add_0_r by lia. split_and!; try done; [lia|set_solver].
    + destruct (IH (i + 1)) as (k & s & -> & Hk & Hs & Hn & Hz); [lia|].
      exists (S k), (b :: s). split; [f_equal; lia|]. split; [lia|]. split.
      { apply rd_slice_1 in Hb. by apply (rd_slice_join _ _ _ 1 k _ _ Hb Hs). }
      split; [set_solver|]. intros. rewrite <- Hz by lia. f_equal. lia.
Qed.

(** The abstract request: header, user id, and for a SOCKS4A address the name. *)
Definition wire4 (c ph pl : byte) (a uid dom : list byte) : list byte :=
  [version; c; ph; pl] ++ a ++ uid ++ [x00] ++
  (if is_socks4a (mkRequest (mkHeader version c ph pl a) uid dom) then dom ++ [x00] else []).

Lemma is_socks4a_header r u s : is_socks4a (mkRequest (req_ r) u s) = is_socks4a r.
Proof. done. Qed.

Lemma s4_parse_domain_good st r pre s suf n :
  x00 ∉ s → length s < n →
  parse_domain st r (pre ++ s ++ x00 :: suf) (length pre) (length pre + n)
  = Some (good, length pre + length s + 1, st, mkRequest (req_ r) (user_id_ r) s).
Proof.
  intros Hs Hn. unfold parse_domain. replace (length pre + n - length pre) with n by lia.
  rewrite scan_stop by done. cbn [mbind option_bind].
  destruct (Nat.eqb_spec (length pre + length s) (length pre + n)); [lia|].
  rewrite rd_slice_app' by lia. done.
Qed.

Lemma s4_parse_userid_good st r pre s suf n :
  x00 ∉ s → length s < n →
  parse_userid st r (pre ++ s ++ x00 :: suf) (length pre) (length pre + n)
  = let r' := mkRequest (req_ r) s (domain_name_ r) in
    if is_socks4a r' then
      parse_domain request_domain_start r' (pre ++ s ++ x00 :: suf)
        (length pre + length s + 1) (length pre + n)
    else Some (good, length pre + length s + 1, st, r').
Proof.
  intros Hs Hn. unfold parse_userid. replace (length pre + n - length pre) with n by lia.
  rewrite scan_stop by done. cbn [mbind option_bind].
  destruct (Nat.eqb_spec (length pre + length s) (length pre + n)); [lia|].
  rewrite rd_slice_app' by lia. done.
Qed.

(** A version 4 header followed by a user id. *)
Lemma s4_parse_header c ph pl a uid tl n :
  length a = 4 → x00 ∉ uid → 8 + length uid + 1 <= n →
  let buf := ([version; c; ph; pl] ++ a) ++ uid ++ x00 :: tl in
  let r := mkRequest (mkHeader version c ph pl a) uid [] in
  parse reset request_init buf 0 n =
  if is_socks4a r
  then parse_domain request_domain_start r buf (8 + length uid + 1) n
  else Some (good, 8 + length uid + 1, request_userid_start, r).
Proof.
  intros Ha Hu Hn buf r.
  assert (rd_slice buf 0 8 = Some ([version; c; ph; pl] ++ a)) as Hs.
  { apply (rd_slice_app' [] ([version; c; ph; pl] ++ a)); [done|len]. }
  pose proof (s4_parse_userid_good request_userid_start (mkRequest (mkHeader version c ph pl a) [] [])
    ([version; c; ph; pl] ++ a) uid tl (n - 8) Hu ltac:(lia)) as E.
  rewrite length_app, Ha in E. change (length [version; c; ph; pl] + 4) with 8 in E.
  fold buf in E. replace (8 + (n - 8)) with n in E by lia. cbv zeta in E. cbn [req_ domain_name_] in E. fold r in E.
  rewrite <- E. clear E. clearbody buf. unfold parse, reset, header_length.
  destruct (Nat.ltb_spec n (0 + 8)); [lia|]. rewrite Hs. cbn [mbind option_bind].
  cbn [app nth drop request_init user_id_ domain_name_ req_ h_version]. rewrite drop_0.
  by rewrite bool_decide_eq_true_2.
Qed.

(** ** Properties *)

(** The parser on memory that starts with a request. *)
Lemma s4_parse_mem c ph pl a uid dom rest n :
  length a = 4 → x00 ∉ uid → x00 ∉ dom →
  let w := wire4 c ph pl a uid dom in length w <= n →
  ∃ r' st', parse reset request_init (w ++ rest) 0 n
              = Some (good, length w, st', r') ∧
    req_ r' = mkHeader version c ph pl a ∧ user_id_ r' = uid ∧
    domain_name_ r' = (if is_socks4a r' then dom else []) ∧
    port r' = be16 ph pl ∧ request_length r' = length w.
Proof.
  intros Ha Hu Hd w Hn. unfold w, wire4 in *. set (r := mkRequest (mkHeader version c ph pl a) uid []).
  change (is_socks4a (mkRequest _ _ _)) with (is_socks4a r) in *.
  destruct (is_socks4a r) eqn:E4.
  - pose proof (s4_parse_header c ph pl a uid (dom ++ x00 :: rest) n Ha Hu ltac:(rewrite !length_app in Hn; simpl in Hn; lia)) as E. cbv zeta in E.
    fold r in E. rewrite E4 in E.
    replace (([version; c; ph; pl] ++ a ++ uid ++ [x00] ++ dom ++ [x00]) ++ rest)
      with (([version; c; ph; pl] ++ a) ++ uid ++ x00 :: dom ++ x00 :: rest)
      by (rewrite <- !app_assoc; done).
    rewrite E. clear E. set (pre := ([version; c; ph; pl] ++ a) ++ uid ++ [x00]).
    assert (([version; c; ph; pl] ++ a) ++ uid ++ x00 :: dom ++ x00 :: rest
      = pre ++ dom ++ x00 :: rest) as -> by (unfold pre; rewrite <- !app_assoc; done).
    assert (8 + length uid + 1 = length pre) as -> by (unfold pre; len).
    replace n with (length pre + (n - length pre)) by (unfold pre; len).
    rewrite (s4_parse_domain_good _ _ pre) by (done || (unfold pre; len)).
    do 2 eexists. split; [do 4 f_equal; unfold pre; len|]. cbn [req_ user_id_ domain_name_].
    change (is_socks4a (mkRequest _ _ _)) with (is_socks4a r). rewrite E4.
    split_and!; [done..|apply short_port_be16|].
    unfold request_length. change (is_socks4a (mkRequest _ _ _)) with (is_socks4a r).
    rewrite E4. cbn [user_id_ domain_name_]. unfold header_length. len.
  - pose proof (s4_parse_header c ph pl a uid rest n Ha Hu ltac:(rewrite !length_app in Hn; simpl in Hn; lia)) as E. cbv zeta in E.
    fold r in E. rewrite E4 in E.
    replace (([version; c; ph; pl] ++ a ++ uid ++ [x00] ++ []) ++ rest)
      with (([version; c; ph; pl] ++ a) ++ uid ++ x00 :: rest)
      by (rewrite <- !app_assoc; done).
    rewrite E. do 2 eexists. split; [do 4 f_equal; len|]. rewrite E4.
    split_and!; [done..|apply short_port_be16|].
    unfold request_length. rewrite E4. simpl. len.
Qed.

(** A SOCKS4 request, and a SOCKS4A request when the address is 0.0.0.x
    with x nonzero, is accepted whatever follows it; the parser stops right
    behind it, the request object reports every field, and its [length()] is
    the number of bytes it took. *)
Theorem socks4_request_roundtrip c ph pl a uid dom rest :
  length a = 4 → x00 ∉ uid → x00 ∉ dom →
  let w := wire4 c ph pl a uid dom in
  ∃ r' st', parse reset request_init (w ++ rest) 0 (length (w ++ rest))
              = Some (good, length w, st', r') ∧
    req_ r' = mkHeader version c ph pl a ∧ user_id_ r' = uid ∧
    domain_name_ r' = (if is_socks4a r' then dom else []) ∧
    port r' = be16 ph pl ∧ request_length r' = length w.
Proof. intros Ha Hu Hd w. apply s4_parse_mem; [done..|]. rewrite length_app. fold w. lia. Qed.

Lemma socks4_request_roundtrip_witness :
  let w := wire4 cmd_connect x00 x50 [x00; x00; x00; x01] [x75] [x61; x2e; x62] in
  ∃ r' st', parse reset request_init (w ++ [x47]) 0 (length (w ++ [x47]))
              = Some (good, 14, st', r') ∧
    req_ r' = mkHeader version cmd_connect x00 x50 [x00; x00; x00; x01] ∧ user_id_ r' = [x75] ∧
    domain_name_ r' = (if is_socks4a r' then [x61; x2e; x62] else []) ∧
    port r' = be16 x00 x50 ∧ request_length r' = 14.
Proof.
  apply (socks4_request_roundtrip cmd_connect x00 x50 [x00; x00; x00; x01] [x75] [x61; x2e; x62] [x47]).
  - reflexivity.
  - by apply not_elem_of_cons; split; [|apply not_elem_of_nil].
  - repeat (apply not_elem_of_cons; split; [done|]). apply not_elem_of_nil.
Defined.

(** The parser never reads past the end it is given, on any input, and a
    [good] answer means that the bytes consumed are a version 4 request with the
    fields the request object reports. *)
Theorem socks4_parse_sound r buf n :
  n <= length buf →
  ∃ res i' st' r', parse reset r buf 0 n = Some (res, i', st', r') ∧ i' <= n ∧
    (res = good →
     ∃ c ph pl a, length a = 4 ∧ req_ r' = mkHeader version c ph pl a ∧
       (x00 ∉ user_id_ r') ∧ (is_socks4a r' = true → (x00 ∉ domain_name_ r')) ∧
       rd_slice buf 0 i' = Some (wire4 c ph pl a (user_id_ r') (domain_name_ r'))).
Proof.
  intros Hn. unfold parse, reset, header_length.
  destruct (Nat.ltb_spec n (0 + 8)); [do 4 eexists; split; [done|]; split; [lia|done]|].
  destruct (rd_slice_total buf 0 8) as (bs & Hs & Hl); [lia|]. rewrite Hs. cbn [mbind option_bind].
  destruct bs as [|v [|c [|ph [|pl a]]]]; simpl in Hl; try lia. cbn [nth drop req_ h_version].
  case_bool_decide as Hv; cbn [negb]; [|do 4 eexists; split; [done|]; split; [lia|done]].
  subst v. rewrite drop_0. unfold parse_userid.
  destruct (scan_inv (n - (0 + 8)) buf (0 + 8)) as (k & u & -> & Hk & Hu & Hu0 & Hz); [lia|].
  cbn [mbind option_bind].
  destruct (Nat.eqb_spec (0 + 8 + k) n); [do 4 eexists; split; [done|]; split; [lia|done]|].
  replace (0 + 8 + k - (0 + 8)) with k by lia. rewrite Hu. cbn [mbind option_bind].
  specialize (Hz ltac:(lia)). apply rd_slice_1 in Hz.
  pose proof (rd_slice_join _ _ _ _ _ _ _ Hs (rd_slice_join _ _ _ _ _ _ _ Hu Hz eq_refl) eq_refl) as Hpre.
  cbn [req_ user_id_ domain_name_]. destruct (is_socks4a _) eqn:E4.
  - unfold parse_domain.
    destruct (scan_inv (n - (0 + 8 + k + 1)) buf (0 + 8 + k + 1))
      as (k2 & d & -> & Hk2 & Hd & Hd0 & Hz2); [lia|]. cbn [mbind option_bind].
    destruct (Nat.eqb_spec (0 + 8 + k + 1 + k2) n); [do 4 eexists; split; [done|]; split; [lia|done]|].
    replace (0 + 8 + k + 1 + k2 - (0 + 8 + k + 1)) with k2 by lia. rewrite Hd. cbn [mbind option_bind].
    specialize (Hz2 ltac:(lia)). apply rd_slice_1 in Hz2.
    pose proof (rd_slice_join _ _ _ _ _ _ _ Hd Hz2 eq_refl) as Htl.
    do 4 eexists. split; [done|]. split; [lia|]. intros _.
    exists c, ph, pl, a. cbn [req_ user_id_ domain_name_]. split_and!; [lia|done|done|done|].
    unfold wire4. change (is_socks4a (mkRequest _ _ _)) with
      (is_socks4a (mkRequest (mkHeader version c ph pl a) u (domain_name_ r))). rewrite E4.
    replace (0 + 8 + k + 1 + k2 + 1) with (8 + (k + 1) + (k2 + 1)) by lia.
    rewrite (rd_slice_join _ _ _ _ _ _ _ Hpre Htl) by lia.
    by rewrite <- !app_comm_cons, <- !app_assoc.
  - do 4 eexists. split; [done|]. split; [lia|]. intros _.
    exists c, ph, pl, a. cbn [req_ user_id_ domain_name_]. split_and!; [lia|done|done|by rewrite E4|].
    unfold wire4. rewrite E4. replace (0 + 8 + k + 1) with (8 + (k + 1)) by lia.
    rewrite Hpre. by rewrite <- !app_comm_cons, <- ?app_assoc, ?app_nil_r.
Qed.

Lemma socks4_parse_sound_witness :
  ∃ res i' st' r', parse reset request_init [x04; x01; x00; x50; x7f; x00; x00; x01; x00] 0 9
      = Some (res, i', st', r') ∧ i' <= 9 ∧
    (res = good →
     ∃ c ph pl a, length a = 4 ∧ req_ r' = mkHeader version c ph pl a ∧
       (x00 ∉ user_id_ r') ∧ (is_socks4a r' = true → (x00 ∉ domain_name_ r')) ∧
       rd_slice [x04; x01; x00; x50; x7f; x00; x00; x01; x00] 0 i'
         = Some (wire4 c ph pl a (user_id_ r') (domain_name_ r'))).
Proof. apply (socks4_parse_sound request_init). simpl. lia. Defined.

End Socks4.
