(* ===== verification/Socks5.v ===== *)
(** * SOCKS5

    src/src/net/socks5.hpp, src/src/net/socks5_request.hpp and
    src/src/net/socks5_request_parser.hpp: the method selection, the username
    and password request, the request, their parsers, and the reply. *)

From Stdlib Require Import ZArith Lia.
From stdpp Require Import base list numbers option.
From S2P Require Import Prelude Addr.

Module Socks5.
Import Addr.

Definition version : byte := x05.

Inductive result_type := good | bad | indeterminate.

#[export] Instance result_type_eq_decision : EqDecision result_type.
Proof. solve_decision. Defined.

(** ** Method selection *)

Definition no_auth_required : byte := x00.
Definition username_or_password : byte := x02.

(** [methods_] is an array of 255 bytes. *)
Record method_select_request := mkMethodSelect {
  ms_ver : byte; ms_nmethods : byte; ms_methods : list byte }.

Definition ms_wf (r : method_select_request) : Prop := length (ms_methods r) = 255.

Definition ms_count (r : method_select_request) : nat := Z.to_nat (u8 (ms_nmethods r)).

(** [begin()] to [end()], and [length()]. *)
Definition ms_range (r : method_select_request) : list byte := take (ms_count r) (ms_methods r).

Definition ms_length (r : method_select_request) : nat := 2 + ms_count r.

(** [method_select_response] and [auth_response] as they are sent. *)
Definition method_select_response_stock_reply (method : byte) : list byte := [version; method].

Definition auth_response_stock_reply (status : byte) : list byte := [version; status].

Module MethodSelectParser.

Inductive ms_state := request_start | request.

Definition ms_reset : ms_state := request_start.

Definition ms_parse_request (st : ms_state) (r : method_select_request) (buf : list byte) (i e : nat)
  : option (result_type * nat * ms_state * method_select_request) :=
  let n := ms_count r in
  if e <? i + n then Some (indeterminate, i, st, r) else
  bs ← rd_slice buf i n;
  if decide (length bs <= length (ms_methods r)) then
    Some (good, i + n, st, mkMethodSelect (ms_ver r) (ms_nmethods r) (splice 0 bs (ms_methods r)))
  else None.

Definition ms_parse (st : ms_state) (r : method_select_request) (buf : list byte) (begin e : nat)
  : option (result_type * nat * ms_state * method_select_request) :=
  let i := begin in
  match st with
  | request_start =>
      if e <? i + 2 then Some (indeterminate, i, st, r) else
      v ← rd buf i; n ← rd buf (i + 1);
      let r := mkMethodSelect v n (ms_methods r) in
      if negb (bool_decide (ms_ver r = version)) then Some (bad, i, st, r) else
      let i := i + 2 in
      ms_parse_request request r buf i e
  | request => ms_parse_request st r buf i e
  end.

End MethodSelectParser.

(** ** Username and password *)

Record auth_request := mkAuth {
  auth_ver : byte; auth_username : list byte; auth_password : list byte }.

Definition auth_length (r : auth_request) : nat :=
  1 + 1 + length (auth_username r) + 1 + length (auth_password r).

Module AuthParser.

Inductive auth_state := request_start | request_username | request_password.

Definition auth_reset : auth_state := request_start.

Definition auth_parse_password (st : auth_state) (r : auth_request) (buf : list byte) (i e : nat)
  : option (result_type * nat * auth_state * auth_request) :=
  if e <? i + 1 then Some (indeterminate, i, st, r) else
  b ← rd buf i;
  let plen := Z.to_nat (u8 b) in
  if plen =? 0 then Some (bad, i, st, r) else
  let i := i + 1 in
  if e <? i + plen then Some (indeterminate, i, st, r) else
  s ← rd_slice buf i plen;
  Some (good, i + plen, st, mkAuth (auth_ver r) (auth_username r) s).

Definition auth_parse_username (st : auth_state) (r : auth_request) (buf : list byte) (i e : nat)
  : option (result_type * nat * auth_state * auth_request) :=
  if e <? i + 1 then Some (indeterminate, i, st, r) else
  b ← rd buf i;
  let ulen := Z.to_nat (u8 b) in
  if ulen =? 0 then Some (bad, i, st, r) else
  let i := i + 1 in
  if e <? i + ulen then Some (indeterminate, i, st, r) else
  s ← rd_slice buf i ulen;
  auth_parse_password request_password (mkAuth (auth_ver r) s (auth_password r)) buf (i + ulen) e.

Definition auth_parse (st : auth_state) (r : auth_request) (buf : list byte) (begin e : nat)
  : option (result_type * nat * auth_state * auth_request) :=
  let i := begin in
  match st with
  | request_start =>
      if e <? i + 1 then Some (indeterminate, i, st, r) else
      v ← rd buf i;
      let r := mkAuth v (auth_username r) (auth_password r) in
      if negb (bool_decide (auth_ver r = version)) then Some (bad, i, st, r) else
      auth_parse_username request_username r buf (i + 1) e
  | request_username => auth_parse_username st r buf i e
  | request_password => auth_parse_password st r buf i e
  end.

End AuthParser.

(** ** The request *)

Definition cmd_connect : byte := x01.
Definition cmd_bind : byte := x02.
Definition cmd_udp_associate : byte := x03.

Record request := mkRequest {
  req_version : byte; req_command : byte; req_null_byte : byte; atyp_req : address_type_header }.

Definition request_init : request := mkRequest x00 x00 x00 header_init.

Definition request_wf (r : request) : Prop := header_wf (atyp_req r).

Definition address_type_size (r : request) : nat :=
  if decide (address_type (atyp_req r) = ipv4) then 4 + 2
  else if decide (address_type (atyp_req r) = domain)
  then 1 + Z.to_nat (u8 (domain_name_len (atyp_req r))) + 2
  else if decide (address_type (atyp_req r) = ipv6) then 16 + 2
  else 0.

Definition request_length (r : request) : nat := 3 + 1 + address_type_size r.

(** The port bytes have their own members, behind the union. *)
Definition port_high_pos : nat := 257.
Definition port_low_pos : nat := 258.

Definition port (r : request) : Z :=
  short_port (nth port_high_pos (atyp_req r) x00) (nth port_low_pos (atyp_req r) x00).

Definition endpoint_of (r : request) : endpoint :=
  if decide (address_type (atyp_req r) = ipv4)
  then mkEndpoint (address_v4 (address4 (atyp_req r))) (port r)
  else if decide (address_type (atyp_req r) = ipv6)
  then mkEndpoint (address_v6 (address6 (atyp_req r))) (port r)
  else endpoint_default.

Definition request_domain_name (r : request) : list byte := domain_name (atyp_req r).

Definition store (r : request) (off : nat) (bs : list byte) : option request :=
  h ← poke (atyp_req r) off bs;
  Some (mkRequest (req_version r) (req_command r) (req_null_byte r) h).

Module RequestParser.

Inductive rq_state := request_start | request_address_start.

Definition rq_reset : rq_state := request_start.

Definition rq_parse_port (st : rq_state) (r : request) (buf : list byte) (i : nat)
  : option (result_type * nat * rq_state * request) :=
  b ← rd buf i; r ← store r port_high_pos [b];
  let i := i + 1 in
  b ← rd buf i; r ← store r port_low_pos [b];
  let i := i + 1 in
  Some (good, i, st, r).

Definition rq_parse_address (st : rq_state) (r : request) (buf : list byte) (i e : nat)
  : option (result_type * nat * rq_state * request) :=
  if e <? i + 1 then Some (indeterminate, i, st, r) else
  b ← rd buf i;
  r ← store r 0 [b];
  let i := i + 1 in
  let atyp := address_type (atyp_req r) in
  if negb (bool_decide (atyp = ipv4)) && negb (bool_decide (atyp = domain))
     && negb (bool_decide (atyp = ipv6))
  then Some (bad, i, st, r) else
  let size := address_type_size r in
  if e <? i + size then Some (indeterminate, i, st, r) else
  if decide (atyp = ipv4) then
    bs ← rd_slice buf i 4;
    r ← store r 1 bs;
    rq_parse_port st r buf (i + 4)
  else if decide (atyp = domain) then
    b ← rd buf i;
    r ← store r 1 [b];
    let n := Z.to_nat (u8 (domain_name_len (atyp_req r))) in
    if e <? i + (n + 2) then Some (indeterminate, i, st, r) else
    let i := i + 1 in
    bs ← rd_slice buf i n;
    r ← store r 2 bs;
    rq_parse_port st r buf (i + n)
  else if decide (atyp = ipv6) then
    bs ← rd_slice buf i 16;
    r ← store r 1 bs;
    rq_parse_port st r buf (i + 16)
  else Some (bad, i, st, r).

Definition rq_parse (st : rq_state) (r : request) (buf : list byte) (begin e : nat)
  : option (result_type * nat * rq_state * request) :=
  let i := begin in
  match st with
  | request_start =>
      if e <? i + 3 then Some (indeterminate, i, st, r) else
      v ← rd buf i; c ← rd buf (i + 1); z ← rd buf (i + 2);
      let r := mkRequest v c z (atyp_req r) in
      if negb (bool_decide (req_version r = version)) then Some (bad, i, st, r) else
      rq_parse_address request_address_start r buf (i + 3) e
  | request_address_start => rq_parse_address st r buf i e
  end.

End RequestParser.

(** ** The reply *)

Definition request_granted : byte := x00.
Definition request_failed : byte := x01.
Definition request_failed_network_unreachable : byte := x03.
Definition request_failed_cmd_not_supported : byte := x07.

Record reply := mkReply {
  version_ : byte; status_ : byte; null_byte_ : byte; address_type_ : byte;
  address4_ : list byte; address6_ : list byte;
  port_high_byte_ : byte; port_low_byte_ : byte }.

Definition reply_wf (r : reply) : Prop := length (address4_ r) = 4 ∧ length (address6_ r) = 16.

(** [reply()]: the members it does not initialise are arguments. *)
Definition reply_init (a4 a6 : list byte) (ph pl : byte) : reply :=
  mkReply version x00 x00 x00 a4 a6 ph pl.

Definition buffers (r : reply) : list (list byte) :=
  if decide (address_type_ r = ipv6) then
    [[version_ r]; [status_ r]; [null_byte_ r]; [address_type_ r];
     address6_ r; [port_high_byte_ r]; [port_low_byte_ r]]
  else
    [[version_ r]; [status_ r]; [null_byte_ r]; [address_type_ r];
     address4_ r; [port_high_byte_ r]; [port_low_byte_ r]].

Definition success (r : reply) : bool :=
  bool_decide (null_byte_ r = x00) && bool_decide (status_ r = request_granted) &&
  (bool_decide (address_type_ r = ipv4) || bool_decide (address_type_ r = ipv6)).

Definition set_status (r : reply) (s : byte) : reply :=
  mkReply (version_ r) s (null_byte_ r) (address_type_ r) (address4_ r) (address6_ r)
    (port_high_byte_ r) (port_low_byte_ r).

Definition reply_endpoint (r : reply) : endpoint :=
  let port := short_port (port_high_byte_ r) (port_low_byte_ r) in
  if decide (address_type_ r = ipv4) then mkEndpoint (address_v4 (address4_ r)) port
  else mkEndpoint (address_v6 (address6_ r)) port.

Definition set_endpoint (r : reply) (ep : endpoint) : reply :=
  let ph := to_u8 (Z.land (Z.shiftr (ep_port ep) 8) 255) in
  let pl := to_u8 (Z.land (ep_port ep) 255) in
  match ep_address ep with
  | address_v6 bytes =>
      mkReply (version_ r) (status_ r) (null_byte_ r) ipv6 (address4_ r) bytes ph pl
  | address_v4 bytes =>
      mkReply (version_ r) (status_ r) (null_byte_ r) ipv4 bytes (address6_ r) ph pl
  end.

(** The bytes of a reply whose endpoint was set. *)
Definition ep_dest (ep : endpoint) : dest :=
  match ep_address ep with address_v4 b => to_v4 b | address_v6 b => to_v6 b end.

Lemma reply_bytes r ep st :
  concat (buffers (set_status (set_endpoint r ep) st))
  = version_ r :: st :: null_byte_ r :: wire (ep_dest ep) (ep_port ep).
Proof.
  unfold buffers, set_status, set_endpoint, ep_dest. destruct ep as [[b|b] p];
    cbn [ep_address ep_port address_type_ version_ status_ null_byte_ address4_ address6_
         port_high_byte_ port_low_byte_].
  - by rewrite decide_False.
  - by rewrite decide_True.
Qed.

(** ** Lemmas on the parsers *)

Section RequestLemmas.
Import RequestParser.

Lemma store_eq v c z h h' off bs :
  poke h off bs = Some h' → store (mkRequest v c z h) off bs = Some (mkRequest v c z h').
Proof. unfold store. simpl. by intros ->. Qed.

Lemma split_last_2 (h : list byte) n :
  length h = n + 2 → ∃ a b, h = take n h ++ [a; b].
Proof.
  intros Hl. destruct (drop n h) as [|a [|b [|? ?]]] eqn:E.
  all: pose proof (f_equal length E) as Hd; rewrite length_drop in Hd; simpl in Hd; try lia.
  exists a, b. by rewrite <- E, take_drop.
Qed.

Lemma rq_parse_port_spec st v c z h buf i hi lo :
  header_wf h → rd buf i = Some hi → rd buf (i + 1) = Some lo →
  rq_parse_port st (mkRequest v c z h) buf i
    = Some (good, i + 2, st, mkRequest v c z (take 257 h ++ [hi; lo])).
Proof.
  intros Hh Hhi Hlo. unfold rq_parse_port, port_high_pos, port_low_pos.
  destruct (split_last_2 h 257 Hh) as (a & b & Hs).
  assert (length (take 257 h) = 257) as Hl by (unfold header_wf, header_size in Hh; len).
  rewrite Hhi. cbn [mbind option_bind]. rewrite Hs at 1.
  erewrite store_eq by (apply poke_append; [done|simpl; lia]). cbn [mbind option_bind length].
  rewrite Hlo. cbn [mbind option_bind].
  erewrite store_eq by (apply poke_append; [len|simpl; lia]). cbn [mbind option_bind drop].
  replace (i + 1 + 1) with (i + 2) by lia. by rewrite app_nil_r, <- app_assoc.
Qed.

(** When the length tests let a destination through. *)
Definition enough (h : list byte) (d : dest) (n : nat) : Prop :=
  match d with
  | to_v4 _ | to_v6 _ => wire_size d <= n
  | to_domain _ => 4 + Z.to_nat (u8 (domain_name_len h)) <= n ∧ wire_size d <= n + 1
  end.

(** The header after a destination and port have been stored. *)
Definition filled (h : list byte) (d : dest) (hi lo : byte) : list byte :=
  dest_atyp d :: dest_body d ++ take (256 - length (dest_body d)) (drop (1 + length (dest_body d)) h)
  ++ [hi; lo].

Lemma filled_take h d t :
  dest_wf d → t = drop (1 + length (dest_body d)) h →
  ∀ hi lo, take 257 (dest_atyp d :: dest_body d ++ t) ++ [hi; lo] = filled h d hi lo.
Proof.
  intros Hd -> hi lo. pose proof (wire_size_bound d Hd). unfold wire_size, header_size in *.
  unfold filled. cbn [take]. rewrite take_app, take_ge by lia.
  by rewrite <- app_comm_cons, <- app_assoc.
Qed.

Lemma filled_wf h d hi lo : header_wf h → dest_wf d → header_wf (filled h d hi lo).
Proof.
  intros Hh Hd. pose proof (wire_size_bound d Hd).
  unfold header_wf, header_size, wire_size, filled in *. len.
Qed.

Lemma filled_view v c z h d hi lo :
  header_wf h → dest_wf d →
  let r := mkRequest v c z (filled h d hi lo) in
  dest_of (atyp_req r) = Some d ∧ port r = be16 hi lo ∧ request_length r = 3 + wire_size d.
Proof.
  intros Hh Hd r. split_and!.
  - by apply dest_of_prefix.
  - unfold port, port_high_pos, port_low_pos, r. cbn [atyp_req]. rewrite <- short_port_be16.
    pose proof (filled_wf h d hi lo Hh Hd) as Hf. unfold header_wf, header_size in Hf.
    assert (∃ l, filled h d hi lo = l ++ [hi; lo]) as [l E]
      by (unfold filled; eexists; by rewrite app_assoc, app_comm_cons).
    rewrite E in *. rewrite length_app in Hf. simpl in Hf.
    rewrite !app_nth2 by lia. replace (257 - length l) with 0 by lia.
    by replace (258 - length l) with 1 by lia.
  - unfold request_length, address_type_size, wire_size. simpl atyp_req. unfold filled.
    destruct d as [b|n|b]; cbn [dest_atyp dest_body dest_wf] in *.
    + rewrite decide_True by done. lia.
    + rewrite decide_False, decide_True by done. unfold domain_name_len. cbn [nth app].
      rewrite u8_len by done. simpl. lia.
    + rewrite !decide_False, decide_True by done. lia.
Qed.

Lemma rq_size_start v c z d h0 h n :
  dest_wf d → enough (h0 :: h) d n → 1 + address_type_size (mkRequest v c z (dest_atyp d :: h)) <= n.
Proof.
  intros Hd Hn. unfold enough, wire_size, address_type_size, domain_name_len in *.
  destruct d; simpl in *; repeat case_decide; try done; simpl in *; lia.
Qed.

Lemma rq_parse_address_good st v c z h d n buf i hi lo :
  header_wf h → dest_wf d → enough h d n →
  rd_slice buf i (wire_size d) = Some (dest_atyp d :: dest_body d ++ [hi; lo]) →
  rq_parse_address st (mkRequest v c z h) buf i (i + n)
  = Some (good, i + wire_size d, st, mkRequest v c z (filled h d hi lo)).
Proof.
  intros Hh Hd Hn Hbuf. unfold rq_parse_address. cbv zeta.
  pose proof Hh as Hh'. unfold header_wf, header_size in Hh'.
  destruct h as [|h0 h']; simpl in Hh'; [lia|].
  pose proof (rq_size_start v c z d h0 h' n Hd Hn) as Hs.
  destruct (Nat.ltb_spec (i + n) (i + 1)); [lia|].
  rewrite (rd_in_slice _ _ _ _ i _ Hbuf) by (by rewrite Nat.sub_diag || done).
  cbn [mbind option_bind]. rewrite (store_eq _ _ _ _ _ _ _ (poke_head _ _ _)).
  cbn [mbind option_bind atyp_req]. rewrite known_type.
  destruct (Nat.ltb_spec (i + n) (i + 1 + address_type_size (mkRequest v c z (dest_atyp d :: h')))); [lia|].
  assert (rd buf (i + 1 + length (dest_body d)) = Some hi) as Hhi.
  { eapply rd_in_slice; [done| |lia]. rewrite app_comm_cons, lookup_app_r; simpl; [|lia].
    by replace (_ - _) with 0 by lia. }
  assert (rd buf (i + 1 + length (dest_body d) + 1) = Some lo) as Hlo.
  { eapply rd_in_slice; [done| |lia]. rewrite app_comm_cons, lookup_app_r; simpl; [|lia].
    by replace (_ - _) with 1 by lia. }
  replace (i + wire_size d) with (i + 1 + length (dest_body d) + 2) by (unfold wire_size; lia).
  destruct d as [b|nm|b]; cbn [dest_atyp dest_body dest_wf length] in *;
    unfold address_type; cbn [nth].
  - rewrite decide_True by done.
    rewrite (rd_slice_in_slice _ _ _ [ipv4] _ _ _ _ Hbuf) by (simpl; lia).
    cbn [mbind option_bind]. erewrite store_eq by (apply poke_tail; lia).
    cbn [mbind option_bind]. rewrite <- Hd.
    rewrite (rq_parse_port_spec _ _ _ _ _ _ _ hi lo) by (unfold header_wf, header_size in *; done || len).
    by rewrite (filled_take (h0 :: h') (to_v4 b)).
  - rewrite decide_False, decide_True by done.
    rewrite (rd_in_slice _ _ _ _ _ (to_u8 (Z.of_nat (length nm))) Hbuf)
      by (by (replace (i + 1 - i) with 1 by lia) || lia).
    cbn [mbind option_bind]. erewrite store_eq by (apply poke_tail; simpl; lia).
    cbn [mbind option_bind atyp_req].
    unfold domain_name_len. cbn [nth app]. rewrite u8_len by done.
    unfold enough, wire_size in Hn. simpl in Hn.
    destruct (Nat.ltb_spec (i + n) (i + 1 + (length nm + 2))); [lia|].
    rewrite (rd_slice_in_slice _ _ _ [domain; _] _ _ _ _ Hbuf) by (simpl; lia).
    cbn [mbind option_bind]. erewrite store_eq by (apply poke_tail2; len). cbn [mbind option_bind].
    rewrite (rq_parse_port_spec _ _ _ _ _ _ _ hi lo);
      [|unfold header_wf, header_size; len|rewrite <- Hhi; f_equal; lia|rewrite <- Hlo; f_equal; lia].
    pose proof (filled_take (h0 :: h') (to_domain nm) (drop (length nm) (drop 1 h')) Hd
      ltac:(by rewrite drop_drop)) as E.
    cbn [dest_atyp dest_body app length] in E |- *. rewrite E.
    by replace (i + 1 + 1 + length nm) with (i + 1 + S (length nm)) by lia.
  - rewrite !decide_False, decide_True by done.
    rewrite (rd_slice_in_slice _ _ _ [ipv6] _ _ _ _ Hbuf) by (simpl; lia).
    cbn [mbind option_bind]. erewrite store_eq by (apply poke_tail; lia).
    cbn [mbind option_bind]. rewrite <- Hd.
    rewrite (rq_parse_port_spec _ _ _ _ _ _ _ hi lo) by (unfold header_wf, header_size in *; done || len).
    by rewrite (filled_take (h0 :: h') (to_v6 b)).
Qed.

Lemma rq_parse_port_None st r buf i : length buf < i + 2 → rq_parse_port st r buf i = None.
Proof.
  intros H. unfold rq_parse_port.
  destruct (rd buf i); [|done]. cbn [mbind option_bind]. destruct (store _ _ _); [|done].
  cbn [mbind option_bind]. unfold rd. by rewrite lookup_ge_None_2 by lia.
Qed.

(** An address of [k] bytes, stored at [off], and the port behind it: the buffer
    holds them, or the parse leaves the buffer. *)
Lemma rq_address_bytes st r buf i off k n :
  i + k + 2 <= n + 1 →
  (∃ bs hi lo, rd_slice buf i k = Some bs ∧ length bs = k ∧ rd_slice buf (i + k) 2 = Some [hi; lo]) ∨
  ((bs ← rd_slice buf i k; r ← store r off bs; rq_parse_port st r buf (i + k)) = None ∧ length buf <= n).
Proof.
  intros Hn. destruct (decide (i + k + 2 <= length buf)) as [Hl|Hl].
  - left. destruct (rd_slice_total buf i k) as (bs & Hbs & Hlb); [lia|].
    destruct (rd_slice_2 buf (i + k)) as (hi & lo & Hp); [lia|]. by exists bs, hi, lo.
  - right. split; [|lia]. destruct (rd_slice buf i k); [|done]. cbn [mbind option_bind].
    destruct (store r off _); [|done]. cbn [mbind option_bind]. by apply rq_parse_port_None; lia.
Qed.

Lemma rq_parse_address_cases st v c z h n buf i :
  header_wf h →
  (∃ d hi lo, dest_wf d ∧ enough h d n ∧
     rd_slice buf i (wire_size d) = Some (dest_atyp d :: dest_body d ++ [hi; lo])) ∨
  (∃ res i' h', rq_parse_address st (mkRequest v c z h) buf i (i + n)
                  = Some (res, i', st, mkRequest v c z h') ∧
     res ≠ good ∧ header_wf h' ∧ i <= i' <= i + n) ∨
  (rq_parse_address st (mkRequest v c z h) buf i (i + n) = None ∧ length buf <= i + n).
Proof.
  intros Hh. unfold header_wf, header_size in Hh. destruct h as [|h0 h1]; simpl in Hh; [lia|].
  unfold rq_parse_address. cbv zeta.
  destruct (Nat.ltb_spec (i + n) (i + 1)).
  { right; left. do 3 eexists; split; [done|]. split_and!; [done|done|lia..]. }
  destruct (rd buf i) as [b|] eqn:Hb; [|apply rd_None in Hb; right; right; split; [done|lia]].
  cbn [mbind option_bind]. rewrite (store_eq _ _ _ _ _ _ _ (poke_head _ _ _)).
  cbn [mbind option_bind atyp_req]. unfold address_type_size, address_type. cbn [atyp_req nth].
  case_match. { right; left. do 3 eexists; split; [done|]. split_and!; [done|done|lia..]. }
  apply rd_slice_1 in Hb. repeat case_decide; subst; try done.
  - destruct (Nat.ltb_spec (i + n) (i + 1 + (4 + 2))).
    { right; left. do 3 eexists; split; [done|]. split_and!; [done|done|lia..]. }
    destruct (rq_address_bytes st (mkRequest v c z (ipv4 :: h1)) buf (i + 1) 1 4 (i + n))
      as [(bs & hi & lo & Hbs & Hl & Hp)|[E ?]]; [lia| |by right; right].
    left. exists (to_v4 bs), hi, lo. unfold enough, wire_size. cbn [dest_wf dest_body].
    split_and!; [done|lia|]. apply (join_request _ _ _ _ _ _ _ Hb Hbs Hp); lia.
  - unfold domain_name_len. cbn [nth].
    destruct (Nat.ltb_spec (i + n) (i + 1 + (1 + Z.to_nat (u8 (nth 0 h1 x00)) + 2))).
    { right; left. do 3 eexists; split; [done|]. split_and!; [done|done|lia..]. }
    destruct (rd buf (i + 1)) as [len|] eqn:Hlen;
      [|apply rd_None in Hlen; right; right; split; [done|lia]].
    cbn [mbind option_bind]. erewrite store_eq by (apply poke_tail; simpl; lia).
    cbn [mbind option_bind app atyp_req nth].
    destruct (Nat.ltb_spec (i + n) (i + 1 + (Z.to_nat (u8 len) + 2))).
    { right; left. do 3 eexists; split; [done|]. split_and!; [done|unfold header_wf, header_size; len|lia..]. }
    pose proof (u8_range len).
    destruct (rq_address_bytes st (mkRequest v c z (domain :: len :: drop 1 h1)) buf (i + 1 + 1) 2
      (Z.to_nat (u8 len)) (i + n)) as [(bs & hi & lo & Hbs & Hl & Hp)|[E ?]]; [lia| |by right; right].
    left. apply rd_slice_1 in Hlen. pose proof (rd_slice_join _ _ _ _ _ _ _ Hlen Hbs eq_refl) as Hbody.
    exists (to_domain bs), hi, lo. unfold enough, wire_size, domain_name_len. cbn [dest_wf dest_body dest_atyp nth].
    split_and!; [lia|lia|simpl; lia|]. rewrite Hl, Z2Nat.id, to_u8_u8 by lia.
    apply (join_request _ _ _ _ _ _ _ Hb Hbody); [|simpl; lia..]. rewrite <- Hp. f_equal. lia.
  - destruct (Nat.ltb_spec (i + n) (i + 1 + (16 + 2))).
    { right; left. do 3 eexists; split; [done|]. split_and!; [done|done|lia..]. }
    destruct (rq_address_bytes st (mkRequest v c z (ipv6 :: h1)) buf (i + 1) 1 16 (i + n))
      as [(bs & hi & lo & Hbs & Hl & Hp)|[E ?]]; [lia| |by right; right].
    left. exists (to_v6 bs), hi, lo. unfold enough, wire_size. cbn [dest_wf dest_body].
    split_and!; [done|lia|]. apply (join_request _ _ _ _ _ _ _ Hb Hbs Hp); lia.
Qed.

(** A domain request that lacks its last byte. *)
Lemma rq_parse_address_overread st v c z pre name hi :
  1 <= length name <= 255 →
  let buf := pre ++ domain :: to_u8 (Z.of_nat (length name)) :: name ++ [hi] in
  rq_parse_address st (mkRequest v c z header_init) buf (length pre) (length buf) = None.
Proof.
  intros Hn buf. assert (length buf = length pre + (3 + length name)) as Hl by (unfold buf; len).
  pose proof (u8_len (length name) ltac:(lia)) as Hlen. set (c0 := to_u8 _) in *. rewrite Hl.
  destruct header_init_cons as (h & Hz & Hlz). rewrite Hz.
  assert (nth 0 h x00 = x00) as Hz0 by (change h with (tail (x00 :: h)); by rewrite <- Hz).
  assert (rd buf (length pre) = Some domain) as H0 by by apply rd_app.
  assert (rd buf (length pre + 1) = Some c0) as H1.
  { unfold buf. rewrite cons_middle, app_assoc. replace (length pre + 1) with (length (pre ++ [domain])) by len.
    by apply rd_app. }
  unfold rq_parse_address. cbv zeta.
  destruct (Nat.ltb_spec (length pre + (3 + length name)) (length pre + 1)); [lia|].
  rewrite H0. cbn [mbind option_bind]. rewrite (store_eq _ _ _ _ _ _ _ (poke_head _ _ _)).
  cbn [mbind option_bind atyp_req]. rewrite (known_type (to_domain name)).
  unfold address_type_size. cbn [atyp_req].
  rewrite (decide_False (P := _ = ipv4)), (decide_True (P := _ = domain)) by done.
  unfold domain_name_len at 1. cbn [nth]. rewrite Hz0.
  destruct (Nat.ltb_spec (length pre + (3 + length name)) (length pre + 1 + (1 + Z.to_nat (u8 x00) + 2)));
    [simpl in *; lia|].
  rewrite (decide_False (P := _ = ipv4)), (decide_True (P := _ = domain)) by done.
  rewrite H1. cbn [mbind option_bind]. erewrite store_eq by (apply poke_tail; simpl; lia).
  cbn [mbind option_bind app atyp_req]. unfold domain_name_len. cbn [nth]. rewrite Hlen.
  destruct (Nat.ltb_spec (length pre + (3 + length name)) (length pre + 1 + (length name + 2))); [lia|].
  destruct (rd_slice buf _ _); [|done]. cbn [mbind option_bind].
  destruct (store _ _ _); [|done]. cbn [mbind option_bind]. apply rq_parse_port_None. lia.
Qed.

End RequestLemmas.

(** ** Properties *)

(** The bytes between two positions, for the statements. *)
Definition input (buf : list byte) (i n : nat) : list byte := take n (drop i buf).

Lemma rd_input buf i n j b :
  i + n <= length buf → input buf i n !! j = Some b → rd buf (i + j) = Some b.
Proof.
  unfold input, rd. intros ? [Hb _]%lookup_take_Some. by rewrite lookup_drop in Hb.
Qed.

Lemma rd_slice_input buf i n j k :
  j + k <= n → i + n <= length buf →
  rd_slice buf (i + j) k = Some (take k (drop j (input buf i n))).
Proof.
  intros ? ?. unfold rd_slice, input. rewrite decide_True by lia.
  rewrite skipn_firstn_comm, drop_drop, take_take. do 2 f_equal. lia.
Qed.

(** A fresh request parser on memory that starts with a request: when the length
    tests pass, what lies behind the given end does not matter. *)
Lemma rq_parse_enough cmd rsv d p buf n :
  dest_wf d → port_wf p →
  rd_slice buf 0 (3 + wire_size d) = Some (version :: cmd :: rsv :: wire d p) →
  3 <= n → enough header_init d (n - 3) →
  ∃ r', RequestParser.rq_parse RequestParser.rq_reset request_init buf 0 n
          = Some (good, 3 + wire_size d, RequestParser.request_address_start, r') ∧
    req_command r' = cmd ∧ dest_of (atyp_req r') = Some d ∧ port r' = p ∧
    request_length r' = 3 + wire_size d.
Proof.
  intros Hd Hp Hs Hn He. unfold RequestParser.rq_parse, RequestParser.rq_reset.
  destruct (Nat.ltb_spec n (0 + 3)); [lia|].
  assert (∀ j, j < 3 → rd buf j = (version :: cmd :: rsv :: wire d p) !! j) as Hr.
  { intros j Hj. destruct ((version :: cmd :: rsv :: wire d p) !! j) as [b|] eqn:Ej.
    - apply (rd_in_slice _ _ _ _ j _ Hs); [by rewrite Nat.sub_0_r|lia].
    - apply lookup_ge_None in Ej. simpl in Ej. lia. }
  cbn [Nat.add]. rewrite (Hr 0), (Hr 1), (Hr 2) by lia. cbn [lookup list_lookup mbind option_bind].
  cbn [req_version]. rewrite bool_decide_eq_true_2 by done. cbn [negb atyp_req request_init].
  destruct (filled_view version cmd rsv header_init d
    (to_u8 (Z.land (Z.shiftr p 8) 255)) (to_u8 (Z.land p 255)) length_header_init Hd) as (V1 & V2 & V3).
  replace n with (3 + (n - 3)) by lia.
  eexists. split.
  - apply (rq_parse_address_good _ _ _ _ _ d (n - 3) _ 3); [apply length_header_init|done|done|].
    apply (rd_slice_in_slice buf 0 (3 + wire_size d) [version; cmd; rsv] (wire d p) []);
      [by rewrite app_nil_r|done|by rewrite length_wire].
  - split_and!; [done|done| |done]. etransitivity; [exact V2|]. by apply be16_roundtrip.
Qed.

Lemma rq_parse_mem cmd rsv d p buf n :
  dest_wf d → port_wf p →
  rd_slice buf 0 (3 + wire_size d) = Some (version :: cmd :: rsv :: wire d p) → 3 + wire_size d <= n →
  ∃ r', RequestParser.rq_parse RequestParser.rq_reset request_init buf 0 n
          = Some (good, 3 + wire_size d, RequestParser.request_address_start, r') ∧
    req_command r' = cmd ∧ dest_of (atyp_req r') = Some d ∧ port r' = p ∧
    request_length r' = 3 + wire_size d.
Proof.
  intros Hd Hp Hs Hn. apply (rq_parse_enough cmd rsv d p); [done..|lia|].
  assert (Z.to_nat (u8 (domain_name_len header_init)) = 0) as H0 by done.
  destruct d; unfold enough, wire_size in *; rewrite ?H0; simpl in *; lia.
Qed.

(** A domain request that lacks its last byte leaves the buffer, or takes the byte
    behind the given end and answers a length beyond it. *)
Lemma rq_parse_truncated cmd rsv name hi slack :
  1 <= length name <= 255 →
  let msg := version :: cmd :: rsv :: domain :: to_u8 (Z.of_nat (length name)) :: name ++ [hi] in
  match RequestParser.rq_parse RequestParser.rq_reset request_init (msg ++ slack) 0 (length msg) with
  | None => slack = []
  | Some (res, _, _, r') => res = good ∧ request_length r' = length msg + 1
  end.
Proof.
  intros Hn msg. destruct slack as [|lo slack].
  - rewrite app_nil_r. unfold RequestParser.rq_parse, RequestParser.rq_reset.
    destruct (Nat.ltb_spec (length msg) (0 + 3)) as [Hlt|_]; [unfold msg in Hlt; simpl in Hlt; lia|].
    pose proof (rq_parse_address_overread RequestParser.request_address_start version cmd rsv
      [version; cmd; rsv] name hi Hn) as E. cbv zeta in E.
    change ([version; cmd; rsv] ++ domain :: to_u8 (Z.of_nat (length name)) :: name ++ [hi]) with msg in E.
    cbn [length] in E. cbn [Nat.add].
    change (rd msg 0) with (Some version). change (rd msg 1) with (Some cmd). change (rd msg 2) with (Some rsv).
    cbn [mbind option_bind req_version]. rewrite bool_decide_eq_true_2 by done. cbn [negb].
    cbn [atyp_req request_init]. by rewrite E.
  - assert (length msg = 6 + length name) as Hl by (unfold msg; len).
    assert (wire_size (to_domain name) = 4 + length name) as Hw by (unfold wire_size; simpl; lia).
    destruct (rq_parse_enough cmd rsv (to_domain name) (be16 hi lo) (msg ++ lo :: slack) (length msg))
      as (r' & -> & _ & _ & _ & Hr); [simpl; lia|apply be16_range| |lia| |split; [done|rewrite Hr, Hw; lia]].
    + rewrite <- wire_of_port_bytes.
      replace (msg ++ lo :: slack) with ([] ++ (version :: cmd :: rsv :: dest_atyp (to_domain name) ::
        dest_body (to_domain name) ++ [hi; lo]) ++ slack)
        by (unfold msg; simpl; by rewrite <- !app_assoc).
      apply rd_slice_app'; [done|]. rewrite Hw. simpl. len.
    + unfold enough. rewrite Hw, Hl. assert (Z.to_nat (u8 (domain_name_len header_init)) = 0) as -> by done. lia.
Qed.

(** The authentication request as it is sent. *)
Definition auth_wire (u pw : list byte) : list byte :=
  version :: to_u8 (Z.of_nat (length u)) :: u ++ to_u8 (Z.of_nat (length pw)) :: pw.

(** The authentication parser on memory that starts with such a request. *)
Lemma auth_parse_mem u pw rest n :
  1 <= length u <= 255 → 1 <= length pw <= 255 → length (auth_wire u pw) <= n →
  AuthParser.auth_parse AuthParser.auth_reset (mkAuth x00 [] []) (auth_wire u pw ++ rest) 0 n
  = Some (good, length (auth_wire u pw), AuthParser.request_password, mkAuth version u pw).
Proof.
  intros Hu Hp Hn. assert (length (auth_wire u pw) = 3 + length u + length pw) as Hl
    by (unfold auth_wire; len). rewrite Hl in *.
  unfold AuthParser.auth_parse, AuthParser.auth_reset.
  destruct (Nat.ltb_spec n (0 + 1)); [lia|]. cbn [auth_wire app rd lookup list_lookup mbind option_bind].
  cbn [auth_ver]. rewrite bool_decide_eq_true_2 by done. cbn [negb Nat.add].
  unfold AuthParser.auth_parse_username. destruct (Nat.ltb_spec n (1 + 1)); [lia|].
  cbn [rd lookup list_lookup mbind option_bind Nat.add]. rewrite u8_len by lia.
  destruct (Nat.eqb_spec (length u) 0); [lia|].
  destruct (Nat.ltb_spec n (S (S (length u)))); [lia|].
  set (tl := to_u8 (Z.of_nat (length pw)) :: pw ++ rest).
  assert ((u ++ to_u8 (Z.of_nat (length pw)) :: pw) ++ rest = u ++ tl) as -> by (by rewrite <- app_assoc).
  set (v0 := version). set (lu := to_u8 (Z.of_nat (length u))).
  change (v0 :: lu :: u ++ tl) with ([v0; lu] ++ u ++ tl).
  rewrite (rd_slice_app' [v0; lu] u tl) by done. cbn [mbind option_bind].
  unfold AuthParser.auth_parse_password. cbn [Nat.add].
  destruct (Nat.ltb_spec n (S (S (length u + 1)))); [lia|].
  assert ([v0; lu] ++ u ++ tl = ([v0; lu] ++ u ++ [to_u8 (Z.of_nat (length pw))]) ++ pw ++ rest) as ->
    by (unfold tl; by rewrite <- !app_assoc).
  set (pre := [v0; lu] ++ u ++ [_]). assert (length pre = 3 + length u) as Hpre by (unfold pre; len).
  assert (rd (pre ++ pw ++ rest) (2 + length u) = Some (to_u8 (Z.of_nat (length pw)))) as E.
  { unfold rd, pre. rewrite lookup_app_l by len. rewrite app_assoc, lookup_app_r by len.
    replace (2 + length u - length ([v0; lu] ++ u)) with 0 by len. done. }
  cbn [Nat.add] in E |- *. rewrite E. cbn [mbind option_bind]. rewrite u8_len by lia.
  destruct (Nat.eqb_spec (length pw) 0); [lia|].
  destruct (Nat.ltb_spec n (S (S (length u + 1 + length pw)))); [lia|].
  rewrite (rd_slice_app' pre pw rest) by lia. cbn [mbind option_bind auth_username auth_ver].
  by replace (length u + 1 + length pw) with (S (length u + length pw)) by lia.
Qed.

(** The method selection parser on every input. *)
Lemma ms_parse_input r buf i n :
  ms_wf r → i + n <= length buf →
  MethodSelectParser.ms_parse MethodSelectParser.ms_reset r buf i (i + n) =
  match input buf i n with
  | v :: c :: l =>
      let k := Z.to_nat (u8 c) in
      if decide (v = version) then
        if decide (k <= length l) then
          Some (good, i + 2 + k, MethodSelectParser.request,
                mkMethodSelect v c (take k l ++ drop k (ms_methods r)))
        else Some (indeterminate, i + 2, MethodSelectParser.request, mkMethodSelect v c (ms_methods r))
      else Some (bad, i, MethodSelectParser.request_start, mkMethodSelect v c (ms_methods r))
  | _ => Some (indeterminate, i, MethodSelectParser.request_start, r)
  end.
Proof.
  intros Hr Hbuf. assert (length (input buf i n) = n) as Hn by (unfold input; len).
  unfold MethodSelectParser.ms_parse, MethodSelectParser.ms_reset.
  destruct (input buf i n) as [|v [|c l]] eqn:E; simpl in Hn;
    [by destruct (Nat.ltb_spec (i + n) (i + 2)); [|lia]..|].
  destruct (Nat.ltb_spec (i + n) (i + 2)); [lia|].
  pose proof (rd_input buf i n 0 v Hbuf ltac:(by rewrite E)) as H0. rewrite Nat.add_0_r in H0.
  rewrite H0, (rd_input buf i n 1 c Hbuf ltac:(by rewrite E)). cbn [mbind option_bind ms_ver].
  case_decide; [|by rewrite bool_decide_eq_false_2]. rewrite bool_decide_eq_true_2 by done.
  cbn [negb]. unfold MethodSelectParser.ms_parse_request, ms_count. cbn [ms_nmethods ms_methods ms_ver].
  set (k := Z.to_nat (u8 c)). assert (k <= 255) by (subst k; pose proof (u8_range c); lia).
  case_decide.
  - destruct (Nat.ltb_spec (i + n) (i + 2 + k)); [lia|].
    rewrite (rd_slice_input buf i n 2 k), E by lia. cbn [mbind option_bind drop].
    rewrite drop_0, decide_True by (unfold ms_wf in Hr; len).
    by rewrite splice_0, length_take_le by done.
  - by destruct (Nat.ltb_spec (i + n) (i + 2 + k)); [|lia].
Qed.

(** The method selection parser, on every input.  Too short a header is
    [indeterminate], a version other than 5 is [bad], missing methods are
    [indeterminate] with the header consumed, and otherwise the answer is [good]
    with exactly the announced methods stored; no read leaves the input and no
    write leaves the 255 byte array. *)
Theorem method_select_parse_spec r buf i n :
  ms_wf r → i + n <= length buf →
  MethodSelectParser.ms_parse MethodSelectParser.ms_reset r buf i (i + n) =
  match input buf i n with
  | v :: c :: l =>
      let k := Z.to_nat (u8 c) in
      if decide (v = version) then
        if decide (k <= length l) then
          Some (good, i + 2 + k, MethodSelectParser.request,
                mkMethodSelect v c (take k l ++ drop k (ms_methods r)))
        else Some (indeterminate, i + 2, MethodSelectParser.request, mkMethodSelect v c (ms_methods r))
      else Some (bad, i, MethodSelectParser.request_start, mkMethodSelect v c (ms_methods r))
  | _ => Some (indeterminate, i, MethodSelectParser.request_start, r)
  end.
Proof. apply ms_parse_input. Qed.

Lemma method_select_parse_spec_witness :
  MethodSelectParser.ms_parse MethodSelectParser.ms_reset
    (mkMethodSelect x00 x00 (replicate 255 xaa)) [x05; x02; x00; x02; x05] 0 (0 + 5)
  = Some (good, 4, MethodSelectParser.request,
          mkMethodSelect x05 x02 ([x00; x02] ++ replicate 253 xaa)).
Proof.
  rewrite (method_select_parse_spec _ _ 0 5); [reflexivity|reflexivity|simpl; lia].
Defined.

(** A SOCKS5 request for any destination and port, with any command byte and
    whatever follows it, is accepted by a fresh parser; the request object
    reports the command, the destination and the port, and its [length()] is
    the number of bytes the request took. *)
Theorem socks5_request_roundtrip cmd rsv d p rest :
  dest_wf d → port_wf p →
  let buf := version :: cmd :: rsv :: wire d p ++ rest in
  ∃ r', RequestParser.rq_parse RequestParser.rq_reset request_init buf 0 (length buf)
          = Some (good, 3 + wire_size d, RequestParser.request_address_start, r') ∧
    req_command r' = cmd ∧ dest_of (atyp_req r') = Some d ∧ port r' = p ∧
    request_length r' = 3 + wire_size d.
Proof.
  intros Hd Hp buf. apply (rq_parse_mem cmd rsv d p); [done|done| |].
  - apply (rd_slice_app' [] (version :: cmd :: rsv :: wire d p) rest); [done|].
    cbn [length]. by rewrite length_wire.
  - unfold buf. cbn [length]. rewrite length_app, length_wire. lia.
Qed.

Lemma socks5_request_roundtrip_witness :
  ∃ r', RequestParser.rq_parse RequestParser.rq_reset request_init
      (version :: cmd_connect :: x00 :: wire (to_v4 [x7f; x00; x00; x01]) 8080 ++ []) 0 10
      = Some (good, 10, RequestParser.request_address_start, r') ∧
    req_command r' = cmd_connect ∧ dest_of (atyp_req r') = Some (to_v4 [x7f; x00; x00; x01]) ∧
    port r' = 8080%Z ∧ request_length r' = 10.
Proof.
  apply (socks5_request_roundtrip cmd_connect x00 (to_v4 [x7f; x00; x00; x01]) 8080 []).
  - done.
  - unfold port_wf; lia.
Defined.

(** For every input, a [good] answer means that the bytes consumed are a
    version 5 request whose destination and port the request object reports;
    every other answer consumes nothing past the end.  A read leaves the buffer
    only if the buffer has no byte behind the given end, and this does happen: a
    domain request that lacks its last byte passes the test [len + 2], which
    forgets the length byte. *)
Theorem socks5_parse_sound :
  (∀ r buf n, request_wf r →
     match RequestParser.rq_parse RequestParser.rq_reset r buf 0 n with
     | Some (good, i', _, r') =>
         ∃ cmd rsv d p, dest_wf d ∧ port_wf p ∧
           rd_slice buf 0 (3 + wire_size d) = Some (version :: cmd :: rsv :: wire d p) ∧
           i' = 3 + wire_size d ∧ dest_of (atyp_req r') = Some d ∧ port r' = p ∧
           req_command r' = cmd ∧ request_length r' = i'
     | Some (_, i', _, r') => request_wf r' ∧ i' <= n
     | None => length buf <= n
     end) ∧
  (∀ cmd rsv name hi, 1 <= length name <= 255 →
     let buf := version :: cmd :: rsv :: domain :: to_u8 (Z.of_nat (length name)) :: name ++ [hi] in
     RequestParser.rq_parse RequestParser.rq_reset request_init buf 0 (length buf) = None).
Proof.
  split.
  - intros r buf n Hr. unfold RequestParser.rq_parse, RequestParser.rq_reset.
    destruct (Nat.ltb_spec n (0 + 3)); [split; [done|lia]|].
    destruct (rd buf 0) as [v|] eqn:Hv; [|apply rd_None in Hv; simpl; lia].
    destruct (rd buf (0 + 1)) as [c|] eqn:Hc; [|apply rd_None in Hc; simpl; lia].
    destruct (rd buf (0 + 2)) as [z|] eqn:Hz; [|apply rd_None in Hz; simpl; lia].
    cbn [mbind option_bind req_version].
    case_bool_decide; cbn [negb]; [|split; [done|lia]]. subst v.
    replace n with (0 + 3 + (n - 3)) by lia.
    destruct (rq_parse_address_cases RequestParser.request_address_start version c z (atyp_req r)
      (n - 3) buf (0 + 3) Hr)
      as [(d & hi & lo & Hd & He & Hs)|[(res & i' & h' & -> & Hres & Hw & Hi)|[-> Hl]]].
    + rewrite (rq_parse_address_good _ _ _ _ _ _ _ _ _ _ _ Hr Hd He Hs).
      destruct (filled_view version c z (atyp_req r) d hi lo Hr Hd) as (V1 & V2 & V3).
      exists c, z, d, (be16 hi lo). pose proof (be16_range hi lo).
      split_and!; try done. rewrite wire_of_port_bytes in Hs.
      apply rd_slice_1 in Hv, Hc, Hz.
      apply (rd_slice_join _ _ _ _ _ _ _ Hv (rd_slice_join _ _ _ _ _ _ _ Hc
        (rd_slice_join _ _ _ _ _ _ _ Hz Hs eq_refl) eq_refl) eq_refl).
    + destruct res; [done|split; [done|lia]..].
    + lia.
  - intros cmd rsv name hi Hn buf. unfold RequestParser.rq_parse, RequestParser.rq_reset.
    destruct (Nat.ltb_spec (length buf) (0 + 3)) as [Hlt|_]; [unfold buf in Hlt; simpl in Hlt; lia|].
    exact (rq_parse_address_overread RequestParser.request_address_start version cmd rsv
      [version; cmd; rsv] name hi Hn).
Qed.

(** A reply sends version, status, a zero byte, and the wire format of the
    endpoint it was given, and reading the endpoint back returns it. *)
Theorem socks5_reply_wire r ep :
  reply_wf r → address_wf (ep_address ep) → port_wf (ep_port ep) →
  let r' := set_endpoint r ep in
  concat (buffers r') = version_ r :: status_ r :: null_byte_ r ::
    wire (match ep_address ep with address_v4 b => to_v4 b | address_v6 b => to_v6 b end) (ep_port ep) ∧
  reply_endpoint r' = ep ∧ reply_wf r' ∧
  success r' = bool_decide (null_byte_ r = x00 ∧ status_ r = request_granted).
Proof.
  intros [H4 H6] Ha Hp r'. unfold r', set_endpoint, reply_endpoint, buffers, success, reply_wf.
  destruct ep as [[b|b] p]; cbn [ep_address ep_port address_type_ address4_ address6_ port_high_byte_
    port_low_byte_ version_ status_ null_byte_] in *.
  - rewrite decide_False, decide_True by done. rewrite short_port_be16, be16_roundtrip by done.
    split_and!; [done..|]. repeat case_bool_decide; naive_solver.
  - rewrite decide_True, decide_False by done. rewrite short_port_be16, be16_roundtrip by done.
    split_and!; [done..|]. repeat case_bool_decide; naive_solver.
Qed.

Lemma socks5_reply_wire_witness :
  let r := set_endpoint (reply_init (replicate 4 x00) (replicate 16 x00) x00 x00)
             (mkEndpoint (address_v4 [x7f; x00; x00; x01]) 1080) in
  concat (buffers r) = [x05; x00; x00; x01; x7f; x00; x00; x01; x04; x38] ∧
  reply_endpoint r = mkEndpoint (address_v4 [x7f; x00; x00; x01]) 1080 ∧ reply_wf r ∧
  success r = true.
Proof.
  apply (socks5_reply_wire (reply_init (replicate 4 x00) (replicate 16 x00) x00 x00)
           (mkEndpoint (address_v4 [x7f; x00; x00; x01]) 1080)).
  - done.
  - done.
  - unfold port_wf; simpl; lia.
Defined.

End Socks5.
