(* ===== verification/Hkdf.v ===== *)
(** * HMAC-SHA1 and HKDF-SHA1

    src/src/net/hmac_sha1.cpp and src/src/net/hkdf_sha1.cpp.  SHA-1 is BoringSSL's:
    a parameter, with its documented digest length as the only law.  A
    [SHA_CTX] is the bytes it was updated with since [SHA1_Init]; [SHA1_Final]
    hashes them.  A pointer and a length are the pointed bytes (absent for a
    null pointer) and the [int] length. *)

From Stdlib Require Import ZArith Lia.
From stdpp Require Import base list numbers option.
From S2P Require Import Prelude.

(** BoringSSL's SHA-1. *)
Class Sha1 := sha1 : list byte → list byte.

Class Sha1Laws `{Sha1} := sha1_length : ∀ m, length (sha1 m) = 20.

Module Hkdf.
Section Hkdf.
Context `{Sha1}.

Definition OUTPUT_SIZE_SHA1 : nat := 20.
Definition HASH_BLOCK_SIZE_256 : nat := 64.

Definition xor8 (a b : byte) : byte := to_u8 (Z.lxor (u8 a) (u8 b)).

(** ** hmac_sha1.cpp *)

(** [for (i = 0; i < keylen; i++) pad[i] = pad[i] ^ key[i]] *)
Fixpoint xor_loop (n i : nat) (pad key : list byte) : list byte :=
  match n with
  | 0 => pad
  | S n => xor_loop n (i + 1) (<[i := xor8 (nth i pad x00) (nth i key x00)]> pad) key
  end.

(** The context, [ipad] and [opad] after [hmac_sha1_starts]. *)
Definition hmac_sha1_starts (key : list byte) : list byte * list byte * list byte :=
  let key := if HASH_BLOCK_SIZE_256 <? length key then sha1 key else key in
  let keylen := length key in
  let ipad := xor_loop keylen 0 (replicate HASH_BLOCK_SIZE_256 x36) key in
  let opad := xor_loop keylen 0 (replicate HASH_BLOCK_SIZE_256 x5c) key in
  (ipad, ipad, opad).

Definition hmac_sha1_update (ctx input : list byte) : list byte := ctx ++ input.

(** The context is left at [opad ++ tmp], its digest is the output. *)
Definition hmac_sha1_finish (ctx opad : list byte) : list byte * list byte :=
  let tmp := sha1 ctx in
  let ctx := opad ++ tmp in
  (ctx, sha1 ctx).

Definition hmac_sha1_reset (ipad : list byte) : list byte := ipad.

Definition hmac_sha1 (key input : list byte) : list byte :=
  let '(ctx, ipad, opad) := hmac_sha1_starts key in
  let ctx := hmac_sha1_update ctx input in
  snd (hmac_sha1_finish ctx opad).

(** ** hkdf_sha1.cpp *)

(** Return code and, when it is 0, the key written to [prk]. *)
Definition crypto_hkdf_extract (salt : option (list byte)) (salt_len : Z) (ikm : list byte)
  : option (list byte) :=
  if (salt_len <? 0)%Z then None else
  let hash_len := OUTPUT_SIZE_SHA1 in
  let salt := match salt with
              | None => replicate hash_len x00
              | Some s => take (Z.to_nat salt_len) s
              end in
  Some (hmac_sha1 salt ikm).

(** The loop of Section 2.3: [n] rounds from [i] to [N]. *)
Fixpoint expand_loop (n i N : nat) (prk info T okm : list byte) (T_len where_ okm_len : nat)
  : list byte :=
  match n with
  | 0 => okm
  | S n =>
      let '(ctx, ipad, opad) := hmac_sha1_starts prk in
      let ctx := hmac_sha1_update ctx (take T_len T) in
      let ctx := hmac_sha1_update ctx info in
      let ctx := hmac_sha1_update ctx [to_u8 (Z.of_nat i)] in
      let T := snd (hmac_sha1_finish ctx opad) in
      let hash_len := OUTPUT_SIZE_SHA1 in
      let okm := splice where_ (take (if i =? N then okm_len - where_ else hash_len) T) okm in
      expand_loop n (i + 1) N prk info T okm hash_len (where_ + hash_len) okm_len
  end.

(** Return code 0 is [Some] with the bytes of [okm]; [T0] is what the array
    [T] holds before it is written. *)
Definition crypto_hkdf_expand (T0 prk : list byte) (info : option (list byte)) (info_len : Z)
    (okm : option (list byte)) (okm_len : Z) : option (list byte) :=
  match okm with
  | None => None
  | Some okm =>
      if (info_len <? 0)%Z || (okm_len <? 0)%Z then None else
      let hash_len := OUTPUT_SIZE_SHA1 in
      if length prk <? hash_len then None else
      let info := match info with None => [] | Some i => take (Z.to_nat info_len) i end in
      let L := Z.to_nat okm_len in
      let N := L `div` hash_len in
      let N := if L `mod` hash_len =? 0 then N else N + 1 in
      if 255 <? N then None else
      Some (expand_loop N 1 N prk info T0 okm 0 0 L)
  end.

Definition crypto_hkdf (T0 : list byte) (salt : option (list byte)) (salt_len : Z) (ikm : list byte)
    (info : option (list byte)) (info_len : Z) (okm : option (list byte)) (okm_len : Z)
  : option (list byte) :=
  prk ← crypto_hkdf_extract salt salt_len ikm;
  crypto_hkdf_expand T0 prk info info_len okm okm_len.

(** ** The standards *)

(** RFC 2104: [H(K xor opad, H(K xor ipad, text))], K padded with zeros. *)
Definition rfc2104_key (key : list byte) : list byte :=
  let k := if 64 <? length key then sha1 key else key in
  k ++ replicate (64 - length k) x00.

Definition rfc2104 (key text : list byte) : list byte :=
  let k := rfc2104_key key in
  sha1 (map (xor8 x5c) k ++ sha1 (map (xor8 x36) k ++ text)).

(** RFC 5869, section 2.3: T(0) is empty, T(i) = HMAC(PRK, T(i-1) | info | i). *)
Fixpoint rfc5869_T (prk info : list byte) (i : nat) : list byte :=
  match i with
  | 0 => []
  | S j => rfc2104 prk (rfc5869_T prk info j ++ info ++ [to_u8 (Z.of_nat i)])
  end.

Definition rfc5869_stream (prk info : list byte) (n : nat) : list byte :=
  concat (map (rfc5869_T prk info) (seq 1 n)).

(** ** HMAC *)

Lemma xor_loop_spec pad key n i :
  i + n <= length pad → n + i = length key →
  xor_loop n i pad key
  = take i pad ++ zip_with xor8 (take n (drop i pad)) (drop i key) ++ drop (i + n) pad.
Proof.
  revert i pad. induction n as [|n IH]; intros i pad Hp Hk; simpl.
  - by rewrite Nat.add_0_r, take_drop.
  - rewrite IH by (rewrite ?length_insert; lia).
    assert (i < length pad) as Hi by lia. apply lookup_lt_is_Some in Hi as [a Ha].
    assert (i < length key) as Hj by lia. apply lookup_lt_is_Some in Hj as [b Hb].
    rewrite (drop_S pad a i Ha), (drop_S key b i Hb). simpl.
    rewrite (nth_lookup_Some pad i x00 a Ha), (nth_lookup_Some key i x00 b Hb).
    replace (i + 1) with (S i) by lia.
    rewrite (take_S_r _ i (xor8 a b)) by (apply list_lookup_insert_eq; lia).
    rewrite take_insert_ge, !drop_insert_lt by lia.
    rewrite <- app_assoc. simpl. by replace (i + S n) with (S (i + n)) by lia.
Qed.

Lemma xor8_0 a : xor8 a x00 = a.
Proof. unfold xor8. change (u8 x00) with 0%Z. rewrite Z.lxor_0_r. apply to_u8_u8. Qed.

Lemma zip_xor_replicate c key m :
  length key <= m →
  zip_with xor8 (replicate (length key) c) key ++ replicate (m - length key) c
  = map (xor8 c) (key ++ replicate (m - length key) x00).
Proof.
  intros. rewrite map_app. f_equal.
  - clear. induction key as [|b key IH]; simpl; [done|by f_equal].
  - generalize (m - length key). induction n as [|n IH]; simpl; [done|].
    by rewrite xor8_0, <- IH.
Qed.

Context `{!Sha1Laws}.

Lemma pad_spec key c :
  let k := if HASH_BLOCK_SIZE_256 <? length key then sha1 key else key in
  xor_loop (length k) 0 (replicate HASH_BLOCK_SIZE_256 c) k = map (xor8 c) (rfc2104_key key).
Proof.
  intros k. unfold rfc2104_key, HASH_BLOCK_SIZE_256 in *. fold k.
  assert (length k <= 64) as Hk.
  { subst k. destruct (Nat.ltb_spec 64 (length key)); [rewrite sha1_length; lia|done]. }
  rewrite xor_loop_spec by (rewrite ?length_replicate; lia).
  rewrite take_0, !drop_0, drop_replicate, take_replicate, Nat.min_l by lia.
  cbn [app Nat.add]. by apply zip_xor_replicate.
Qed.

Lemma hmac_sha1_rfc key input : hmac_sha1 key input = rfc2104 key input.
Proof.
  unfold hmac_sha1, hmac_sha1_starts, hmac_sha1_update, hmac_sha1_finish, rfc2104.
  cbv beta iota zeta. cbn [snd]. by rewrite !(pad_spec key).
Qed.

Lemma rfc2104_length key m : length (rfc2104 key m) = 20.
Proof. apply sha1_length. Qed.

(** ** HKDF *)

(** One round of the loop computes the next T of the standard. *)
Lemma expand_step prk info T T_len i :
  take T_len T = rfc5869_T prk info (i - 1) → 0 < i →
  (let '(ctx, ipad, opad) := hmac_sha1_starts prk in
   snd (hmac_sha1_finish (hmac_sha1_update (hmac_sha1_update (hmac_sha1_update ctx (take T_len T))
          info) [to_u8 (Z.of_nat i)]) opad)) = rfc5869_T prk info i.
Proof.
  intros HT Hi. destruct i as [|j]; [lia|]. simpl in HT. rewrite Nat.sub_0_r in HT.
  cbn [rfc5869_T]. rewrite <- HT, <- hmac_sha1_rfc.
  unfold hmac_sha1, hmac_sha1_starts, hmac_sha1_update. cbn [fst snd].
  by rewrite <- !app_assoc.
Qed.

Lemma rfc5869_T_length prk info i : length (rfc5869_T prk info (S i)) = 20.
Proof. apply sha1_length. Qed.

Lemma rfc5869_stream_length prk info n : length (rfc5869_stream prk info n) = 20 * n.
Proof.
  unfold rfc5869_stream. induction n as [|n IH]; [done|].
  rewrite seq_S, map_app, concat_app, length_app, IH. cbn [map concat].
  rewrite app_nil_r. change (1 + n) with (S n). rewrite (rfc5869_T_length prk info n). lia.
Qed.

Lemma rfc5869_stream_S prk info n :
  rfc5869_stream prk info (S n) = rfc5869_stream prk info n ++ rfc5869_T prk info (S n).
Proof.
  unfold rfc5869_stream. rewrite seq_S, map_app, concat_app. cbn [map concat].
  by rewrite app_nil_r.
Qed.

(** The loop after [i - 1] rounds: [okm] holds the stream so far. *)
Lemma expand_loop_spec n i N prk info T okm T_len L :
  0 < i → i + n = N + 1 → 20 * (N - 1) < L <= 20 * N → L <= length okm →
  take T_len T = rfc5869_T prk info (i - 1) →
  take (20 * (i - 1)) okm = rfc5869_stream prk info (i - 1) →
  0 < n →
  let r := expand_loop n i N prk info T okm T_len (20 * (i - 1)) L in
  take L r = take L (rfc5869_stream prk info N) ∧ drop L r = drop L okm.
Proof.
  revert i T okm T_len. induction n as [|n IH]; intros i T okm T_len Hi HN HL Hokm HT Hs Hn; [lia|].
  cbn [expand_loop]. pose proof (expand_step prk info T T_len i HT Hi) as HT'.
  destruct (hmac_sha1_starts prk) as [[ctx ipad] opad]. rewrite HT'. clear HT'.
  destruct i as [|j]; [lia|]. replace (S j - 1) with j in * by lia.
  pose proof (rfc5869_T_length prk info j) as Hl. pose proof (rfc5869_stream_length prk info j) as Hsl.
  unfold OUTPUT_SIZE_SHA1. destruct (Nat.eqb_spec (S j) N) as [HjN|HjN].
  - assert (n = 0) as -> by lia. cbn [expand_loop]. rewrite <- HjN, rfc5869_stream_S.
    set (t := take (L - 20 * j) _).
    assert (length t = L - 20 * j) as Hlt by (unfold t; len).
    replace L with (20 * j + length t) at 1 3 by lia.
    rewrite take_splice by lia. rewrite Hs. split.
    + rewrite take_app, Hsl. rewrite take_ge by lia. done.
    + unfold splice. rewrite app_assoc. rewrite drop_app_length' by (len).
      f_equal. lia.
  - replace (S j + 1) with (S (S j)) by lia.
    replace (20 * j + 20) with (20 * (S (S j) - 1)) by lia.
    rewrite (take_ge (rfc5869_T prk info (S j))) by lia.
    set (okm' := splice _ _ okm).
    assert (length okm' = length okm) as Hlo by (unfold okm'; apply length_splice; lia).
    destruct (IH (S (S j)) (rfc5869_T prk info (S j)) okm' 20) as [IH1 IH2]; try lia.
    + replace (S (S j) - 1) with (S j) by lia. apply take_ge. lia.
    + replace (S (S j) - 1) with (S j) by lia. rewrite rfc5869_stream_S, <- Hs.
      replace (20 * S j) with (20 * j + length (rfc5869_T prk info (S j))) by lia.
      unfold okm'. by rewrite take_splice by lia.
    + split; [exact IH1|]. cbv zeta in IH2. rewrite IH2. unfold okm', splice.
      rewrite app_assoc, drop_app_ge by (len). rewrite drop_drop. f_equal. len.
Qed.

Lemma ceil20 L :
  let N := if L `mod` 20 =? 0 then L `div` 20 else L `div` 20 + 1 in
  L <= 20 * N ∧ (0 < L → 20 * (N - 1) < L ∧ 0 < N) ∧ (L = 0 → N = 0) ∧ (255 < N ↔ 255 * 20 < L).
Proof.
  intros N. pose proof (Nat.div_mod L 20 ltac:(lia)). pose proof (Nat.mod_upper_bound L 20 ltac:(lia)).
  subst N. destruct (Nat.eqb_spec (L `mod` 20) 0); lia.
Qed.

Lemma crypto_hkdf_spec T0 salt ikm info okm L :
  L <= length okm →
  let prk := rfc2104 salt ikm in
  let N := if L `mod` 20 =? 0 then L `div` 20 else L `div` 20 + 1 in
  crypto_hkdf T0 (Some salt) (Z.of_nat (length salt)) ikm (Some info) (Z.of_nat (length info))
    (Some okm) (Z.of_nat L)
  = if 255 * 20 <? L then None
    else Some (take L (rfc5869_stream prk info N) ++ drop L okm).
Proof.
  intros HL prk N. unfold crypto_hkdf, crypto_hkdf_extract, crypto_hkdf_expand.
  destruct (Z.ltb_spec (Z.of_nat (length salt)) 0); [lia|].
  rewrite !Nat2Z.id, !firstn_all, hmac_sha1_rfc. cbn [mbind option_bind].
  destruct (Z.ltb_spec (Z.of_nat (length info)) 0); [lia|].
  destruct (Z.ltb_spec (Z.of_nat L) 0); [lia|]. cbv beta iota zeta delta [orb].
  unfold OUTPUT_SIZE_SHA1. rewrite rfc2104_length, Nat.ltb_irrefl.
  pose proof (ceil20 L) as (C1 & C2 & C3 & C4). fold N. fold N in C1, C2, C3, C4.
  destruct (Nat.ltb_spec 255 N), (Nat.ltb_spec (255 * 20) L); [done|lia|lia|].
  f_equal. destruct (decide (L = 0)) as [->|HL0].
  - rewrite C3 by done. by rewrite take_0, drop_0.
  - destruct C2 as [C2 HN]; [lia|].
    destruct (expand_loop_spec N 1 N (rfc2104 salt ikm) info T0 okm 0 L) as [E1 E2]; try (lia || done).
    fold prk. rewrite <- (take_drop L (expand_loop _ _ _ _ _ _ _ _ _ _)).
    f_equal; [exact E1|exact E2].
Qed.

(** ** Properties *)

(** C30: [crypto_hkdf] is HKDF of RFC 5869 over HMAC of RFC 2104, for every salt,
    key, info and output length: it fails exactly when more than 255 blocks are
    asked for, and otherwise writes the first [L] bytes of T(1) T(2) ... to the
    output and nothing behind them. *)
Theorem crypto_hkdf_rfc5869 T0 salt ikm info okm L :
  L <= length okm →
  let prk := rfc2104 salt ikm in
  let N := if L `mod` 20 =? 0 then L `div` 20 else L `div` 20 + 1 in
  crypto_hkdf T0 (Some salt) (Z.of_nat (length salt)) ikm (Some info) (Z.of_nat (length info))
    (Some okm) (Z.of_nat L)
  = if 255 * 20 <? L then None
    else Some (take L (rfc5869_stream prk info N) ++ drop L okm).
Proof. exact (crypto_hkdf_spec T0 salt ikm info okm L). Qed.

End Hkdf.

Lemma crypto_hkdf_rfc5869_witness :
  let H := (λ m, replicate 20 (match m with [] => x00 | b :: _ => b end)) : Sha1 in
  crypto_hkdf [] (Some [x01]) 1 [x02] (Some [x03]) 1 (Some (replicate 32 x00)) 32
  = Some (take 32 (rfc5869_stream (rfc2104 [x01] [x02]) [x03] 2) ++ drop 32 (replicate 32 x00)).
Proof.
  intros H. assert (Sha1Laws) as HL by (intros m; apply length_replicate).
  apply (crypto_hkdf_rfc5869 [] [x01] [x02] [x03] (replicate 32 x00) 32).
  rewrite length_replicate. lia.
Defined.

End Hkdf.
