(* ===== verification/Crypter.v ===== *)
(** * Packet encryption: the classes of src/src/crypto

    [Encrypter] and [Decrypter] (crypter.hpp, encrypter.cpp, decrypter.cpp), their
    base classes (aead_base_*.cpp), the three backends (aead_evp_*.cpp,
    aead_sodium_*.cpp, aead_mbedtls_*.cpp, mbedtls_common.cpp), the concrete ciphers, and the
    table of cipher methods (yass/crypto.h, crypter_export.cpp; built with
    HAVE_MBEDTLS and HAVE_QUICHE).  The primitives are BoringSSL's and mbedtls's:
    parameters, with their documented laws in the class [CryptoLaws]. *)

From Stdlib Require Import ZArith Lia.
From stdpp Require Import base list numbers option strings.
From S2P Require Import Prelude.

(** ** The libraries *)

Inductive evp_aead :=
  | EVP_aead_aes_128_gcm | EVP_aead_aes_192_gcm | EVP_aead_aes_256_gcm
  | EVP_aead_chacha20_poly1305 | EVP_aead_xchacha20_poly1305.

Inductive mbedtls_type :=
  | AES_CFB128 (bits : nat) | AES_CTR (bits : nat) | CAMELLIA_CFB128 (bits : nat).

(** [EVP_AEAD_CTX_init], [_seal] and [_open] by algorithm, key, tag length,
    nonce and associated data, and the whole-stream function of an mbedtls
    stream cipher by direction, type, key and IV: [mbedtls_cipher_update] outputs the
    next bytes of it. *)
Class CryptoLib := {
  evp_init : evp_aead → list byte → nat → bool;
  evp_seal : evp_aead → list byte → nat → list byte → list byte → list byte → list byte;
  evp_open : evp_aead → list byte → nat → list byte → list byte → list byte → option (list byte);
  mbed_setkey : mbedtls_type → list byte → bool;
  mbed_stream : bool → mbedtls_type → list byte → list byte → list byte → list byte }.

Definition evp_key_length (a : evp_aead) : nat :=
  match a with
  | EVP_aead_aes_128_gcm => 16 | EVP_aead_aes_192_gcm => 24 | _ => 32
  end.

Class CryptoLaws `{CryptoLib} := {
  evp_init_ok : ∀ a k t, length k = evp_key_length a → 12 <= t <= 16 → evp_init a k t = true;
  evp_seal_length : ∀ a k t n ad m, length (evp_seal a k t n ad m) = length m + t;
  evp_open_seal : ∀ a k t n ad m, evp_open a k t n ad (evp_seal a k t n ad m) = Some m;
  evp_open_length : ∀ a k t n ad c m, evp_open a k t n ad c = Some m → length c = length m + t;
  mbed_stream_length : ∀ d ty k iv m, length (mbed_stream d ty k iv m) = length m;
  mbed_stream_prefix : ∀ d ty k iv m m',
    take (length m) (mbed_stream d ty k iv (m ++ m')) = mbed_stream d ty k iv m;
  mbed_stream_inverse : ∀ ty k iv m, mbed_stream false ty k iv (mbed_stream true ty k iv m) = m }.

Module Crypter.

(** ** Cipher methods *)

Inductive cipher_method :=
  | CRYPTO_INVALID
  | CRYPTO_AES256GCMSHA256 | CRYPTO_CHACHA20POLY1305IETF | CRYPTO_XCHACHA20POLY1305IETF
  | CRYPTO_CHACHA20POLY1305IETF_EVP | CRYPTO_XCHACHA20POLY1305IETF_EVP
  | CRYPTO_AES128GCMSHA256_EVP | CRYPTO_AES128GCM12SHA256_EVP | CRYPTO_AES192GCMSHA256_EVP
  | CRYPTO_AES256GCMSHA256_EVP
  | CRYPTO_AES_128_CFB | CRYPTO_AES_192_CFB | CRYPTO_AES_256_CFB
  | CRYPTO_AES_128_CTR | CRYPTO_AES_192_CTR | CRYPTO_AES_256_CTR
  | CRYPTO_CAMELLIA_128_CFB | CRYPTO_CAMELLIA_192_CFB | CRYPTO_CAMELLIA_256_CFB
  | CRYPTO_HTTPS | CRYPTO_HTTP2_PLAINTEXT | CRYPTO_HTTP2
  | CRYPTO_SOCKS4 | CRYPTO_SOCKS4A | CRYPTO_SOCKS5 | CRYPTO_SOCKS5H.

#[export] Instance cipher_method_eq_decision : EqDecision cipher_method.
Proof. solve_decision. Defined.

Definition cipher_num (m : cipher_method) : Z :=
  match m with
  | CRYPTO_INVALID => 0x0
  | CRYPTO_AES256GCMSHA256 => 0x3 | CRYPTO_CHACHA20POLY1305IETF => 0x4
  | CRYPTO_XCHACHA20POLY1305IETF => 0x5
  | CRYPTO_CHACHA20POLY1305IETF_EVP => 0x14 | CRYPTO_XCHACHA20POLY1305IETF_EVP => 0x15
  | CRYPTO_AES128GCMSHA256_EVP => 0x16 | CRYPTO_AES128GCM12SHA256_EVP => 0x17
  | CRYPTO_AES192GCMSHA256_EVP => 0x18 | CRYPTO_AES256GCMSHA256_EVP => 0x19
  | CRYPTO_AES_128_CFB => 0x22 | CRYPTO_AES_192_CFB => 0x23 | CRYPTO_AES_256_CFB => 0x24
  | CRYPTO_AES_128_CTR => 0x25 | CRYPTO_AES_192_CTR => 0x26 | CRYPTO_AES_256_CTR => 0x27
  | CRYPTO_CAMELLIA_128_CFB => 0x29 | CRYPTO_CAMELLIA_192_CFB => 0x30
  | CRYPTO_CAMELLIA_256_CFB => 0x31
  | CRYPTO_HTTPS => 0x110 | CRYPTO_HTTP2_PLAINTEXT => 0x120 | CRYPTO_HTTP2 => 0x121
  | CRYPTO_SOCKS4 => 0x150 | CRYPTO_SOCKS4A => 0x151 | CRYPTO_SOCKS5 => 0x152
  | CRYPTO_SOCKS5H => 0x153
  end%Z.

(** YASS_CIPHER_METHOD_MAP in its order. *)
Definition YASS_CIPHER_METHOD_MAP : list (cipher_method * string) :=
  [(CRYPTO_INVALID, "invalid");
   (CRYPTO_AES256GCMSHA256, "aes-256-gcm");
   (CRYPTO_CHACHA20POLY1305IETF, "chacha20-ietf-poly1305");
   (CRYPTO_XCHACHA20POLY1305IETF, "xchacha20-ietf-poly1305");
   (CRYPTO_CHACHA20POLY1305IETF_EVP, "chacha20-ietf-poly1305-evp");
   (CRYPTO_XCHACHA20POLY1305IETF_EVP, "xchacha20-ietf-poly1305-evp");
   (CRYPTO_AES128GCMSHA256_EVP, "aes-128-gcm-evp");
   (CRYPTO_AES128GCM12SHA256_EVP, "aes-128-gcm12-evp");
   (CRYPTO_AES192GCMSHA256_EVP, "aes-192-gcm-evp");
   (CRYPTO_AES256GCMSHA256_EVP, "aes-256-gcm-evp");
   (CRYPTO_AES_128_CFB, "aes-128-cfb");
   (CRYPTO_AES_192_CFB, "aes-192-cfb");
   (CRYPTO_AES_256_CFB, "aes-256-cfb");
   (CRYPTO_AES_128_CTR, "aes-128-ctr");
   (CRYPTO_AES_192_CTR, "aes-192-ctr");
   (CRYPTO_AES_256_CTR, "aes-256-ctr");
   (CRYPTO_CAMELLIA_128_CFB, "camellia-128-cfb");
   (CRYPTO_CAMELLIA_192_CFB, "camellia-192-cfb");
   (CRYPTO_CAMELLIA_256_CFB, "camellia-256-cfb");
   (CRYPTO_HTTPS, "https");
   (CRYPTO_HTTP2_PLAINTEXT, "http2-plaintext");
   (CRYPTO_HTTP2, "http2");
   (CRYPTO_SOCKS4, "socks4"); (CRYPTO_SOCKS4A, "socks4a");
   (CRYPTO_SOCKS5, "socks5"); (CRYPTO_SOCKS5H, "socks5h")]%string.

Fixpoint method_of_string (map : list (cipher_method * string)) (s : string) : cipher_method :=
  match map with
  | [] => CRYPTO_INVALID
  | (m, name) :: map => if String.eqb s name then m else method_of_string map s
  end.

Fixpoint string_of_num (map : list (cipher_method * string)) (n : Z) : string :=
  match map with
  | [] => "invalid"
  | (m, name) :: map => if (cipher_num m =? n)%Z then name else string_of_num map n
  end.

(** [to_cipher_method], [to_cipher_method_str] and [is_valid_cipher_method]; the
    last two take any value of the underlying integer type. *)
Definition to_cipher_method (s : string) : cipher_method :=
  method_of_string YASS_CIPHER_METHOD_MAP s.

Definition to_cipher_method_str (n : Z) : string := string_of_num YASS_CIPHER_METHOD_MAP n.

Definition is_valid_cipher_method (n : Z) : bool :=
  existsb (λ e, cipher_num (fst e) =? n)%Z YASS_CIPHER_METHOD_MAP.

(** ** Nonces (crypter.hpp) *)

(** The [n] bytes of an integer in memory on a little endian machine. *)
Fixpoint le_bytes (n : nat) (z : Z) : list byte :=
  match n with
  | 0 => []
  | S n => to_u8 (Z.land z 255) :: le_bytes n (Z.shiftr z 8)
  end.

Definition PacketNumberToNonceSodium (nonce : list byte) (packet_number : Z) : list byte :=
  let pn_1 := to_u8 (Z.land packet_number 0xff) in
  let pn_2 := to_u8 (Z.shiftr (Z.land packet_number 0xff00) 8) in
  let pn_3 := to_u8 (Z.shiftr (Z.land packet_number 0xff0000) 16) in
  let pn_4 := to_u8 (Z.shiftr (Z.land packet_number 0xff000000) 24) in
  splice 0 [pn_1; pn_2; pn_3; pn_4] nonce.

Definition PacketNumberToNonceEvp (nonce : list byte) (nonce_size : nat) (packet_number : Z)
  : list byte :=
  let prefix_len := nonce_size - 8 in
  splice prefix_len (le_bytes 8 packet_number) nonce.

(** ** The crypters *)

Definition kMaxKeySize : nat := 64.
Definition kMaxNonceSize : nat := 32.

Inductive backend :=
  | Evp (alg : evp_aead) | Sodium (alg : evp_aead) | Mbedtls (ty : mbedtls_type).

(** The library context: none before the first [SetKey]; for mbedtls the bytes
    that went through the cipher since [mbedtls_cipher_reset]. *)
Inductive context :=
  | no_ctx
  | evp_ctx (alg : evp_aead) (key : list byte) (tag : nat)
  | mbed_ctx (ty : mbedtls_type) (key iv seen : list byte).

(** [enc] tells an Encrypter from a Decrypter. *)
Record Crypter := mkCrypter {
  enc : bool; cipher_id : cipher_method; back : backend;
  key_size_ : nat; auth_tag_size_ : nat; nonce_size_ : nat;
  have_preliminary_key_ : bool; key_ : list byte; iv_ : list byte; ctx_ : context }.

Definition AeadBase (e : bool) (id : cipher_method) (b : backend)
    (key_size auth_tag_size nonce_size : nat) : Crypter :=
  mkCrypter e id b key_size auth_tag_size nonce_size false
    (replicate kMaxKeySize x00) (replicate kMaxNonceSize x00) no_ctx.

(** The setters answer their boolean result and the new object. *)
Definition set_key_ (c : Crypter) (k : list byte) (x : context) : Crypter :=
  mkCrypter (enc c) (cipher_id c) (back c) (key_size_ c) (auth_tag_size_ c) (nonce_size_ c)
    (have_preliminary_key_ c) k (iv_ c) x.

Definition set_iv_ (c : Crypter) (iv : list byte) : Crypter :=
  mkCrypter (enc c) (cipher_id c) (back c) (key_size_ c) (auth_tag_size_ c) (nonce_size_ c)
    (have_preliminary_key_ c) (key_ c) iv (ctx_ c).

Definition AeadBase_SetKey (c : Crypter) (key : list byte) : bool * Crypter :=
  if negb (length key =? key_size_ c) then (false, c)
  else (true, set_key_ c (splice 0 key (key_ c)) (ctx_ c)).

Definition AeadBase_SetNoncePrefix (c : Crypter) (nonce_prefix : list byte) : bool * Crypter :=
  if negb (length nonce_prefix =? nonce_size_ c - 8) then (false, c)
  else (true, set_iv_ c (splice 0 nonce_prefix (iv_ c))).

Definition AeadBase_SetIV (c : Crypter) (iv : list byte) : bool * Crypter :=
  if negb (length iv =? nonce_size_ c) then (false, c)
  else (true, set_iv_ c (splice 0 iv (iv_ c))).

Definition GetNoncePrefixSize (c : Crypter) : nat := nonce_size_ c - 8.

Definition GetMaxPlaintextSize (c : Crypter) (ciphertext_size : nat) : nat :=
  ciphertext_size - ciphertext_size `min` auth_tag_size_ c.

Definition GetCiphertextSize (c : Crypter) (plaintext_size : nat) : nat :=
  plaintext_size + auth_tag_size_ c.

Section Ops.
Context `{CryptoLib}.

(** [SetKey] of the EVP and sodium classes: [EVP_AEAD_CTX_cleanup], then
    [EVP_AEAD_CTX_init] on the copied key. *)
Definition Evp_SetKey (c : Crypter) (alg : evp_aead) (key : list byte) : bool * Crypter :=
  let '(ok, c) := AeadBase_SetKey c key in
  if negb ok then (false, c) else
  let k := take (key_size_ c) (key_ c) in
  if evp_init alg k (auth_tag_size_ c)
  then (true, set_key_ c (key_ c) (evp_ctx alg k (auth_tag_size_ c)))
  else (false, set_key_ c (key_ c) no_ctx).

Definition Mbedtls_SetKey (c : Crypter) (ty : mbedtls_type) (key : list byte) : bool * Crypter :=
  let '(ok, c) := AeadBase_SetKey c key in
  if negb ok then (false, c) else
  if negb (mbed_setkey ty key) then (false, c) else
  (true, set_key_ c (key_ c) (mbed_ctx ty key (take (nonce_size_ c) (iv_ c)) [])).

Definition SetKey (c : Crypter) (key : list byte) : bool * Crypter :=
  match back c with
  | Evp alg | Sodium alg => Evp_SetKey c alg key
  | Mbedtls ty => Mbedtls_SetKey c ty key
  end.

(** [memcpy(nonce, iv_, nonce_size_)] into the zeroed local array. *)
Definition iv_nonce (c : Crypter) : list byte :=
  splice 0 (take (nonce_size_ c) (iv_ c)) (replicate kMaxNonceSize x00).

(** The nonce of a packet: [iv_] with the packet number written into it. *)
Definition packet_nonce (c : Crypter) (packet_number : Z) : list byte :=
  let nonce := match back c with
               | Evp _ => PacketNumberToNonceEvp (iv_nonce c) (nonce_size_ c) packet_number
               | Sodium _ => PacketNumberToNonceSodium (iv_nonce c) packet_number
               | Mbedtls _ => iv_nonce c
               end in
  take (nonce_size_ c) nonce.

(** [Encrypt] of the EVP and the sodium class: [EVP_AEAD_CTX_seal]. [None] is
    the use of a context that was never set up. *)
Definition EvpAead_Encrypt (c : Crypter) (nonce ad plaintext : list byte)
  : option (option (Crypter * list byte)) :=
  match ctx_ c with
  | evp_ctx alg k t => Some (Some (c, evp_seal alg k t nonce ad plaintext))
  | _ => None
  end.

(** [Encrypt] of the mbedtls class: [mbedtls_cipher_update], the next bytes of
    a stream cipher; the nonce and the associated data are not used. *)
Definition stream_update (c : Crypter) (input : list byte)
  : option (option (Crypter * list byte)) :=
  match ctx_ c with
  | mbed_ctx ty key iv seen =>
      Some (Some (set_key_ c (key_ c) (mbed_ctx ty key iv (seen ++ input)),
                  drop (length seen) (mbed_stream (enc c) ty key iv (seen ++ input))))
  | _ => None
  end.

Definition EvpAead_EncryptPacket (c : Crypter) (packet_number : Z) (ad plaintext : list byte)
    (max_output_length : nat) : option (option (Crypter * list byte)) :=
  let ciphertext_size := GetCiphertextSize c (length plaintext) in
  if max_output_length <? ciphertext_size then Some None else
  let nonce := PacketNumberToNonceEvp (iv_nonce c) (nonce_size_ c) packet_number in
  EvpAead_Encrypt c (take (nonce_size_ c) nonce) ad plaintext.

Definition SodiumAead_EncryptPacket (c : Crypter) (packet_number : Z) (ad plaintext : list byte)
    (max_output_length : nat) : option (option (Crypter * list byte)) :=
  let ciphertext_size := GetCiphertextSize c (length plaintext) in
  if max_output_length <? ciphertext_size then Some None else
  let nonce := PacketNumberToNonceSodium (iv_nonce c) packet_number in
  EvpAead_Encrypt c (take (nonce_size_ c) nonce) ad plaintext.

Definition AeadMbedtls_EncryptPacket (c : Crypter) (packet_number : Z) (ad plaintext : list byte)
    (max_output_length : nat) : option (option (Crypter * list byte)) :=
  let ciphertext_size := GetCiphertextSize c (length plaintext) in
  if max_output_length <? ciphertext_size then Some None else
  stream_update c plaintext.

(** The virtual call. *)
Definition EncryptPacket (c : Crypter) (packet_number : Z) (ad plaintext : list byte)
    (max_output_length : nat) : option (option (Crypter * list byte)) :=
  match back c with
  | Evp _ => EvpAead_EncryptPacket c packet_number ad plaintext max_output_length
  | Sodium _ => SodiumAead_EncryptPacket c packet_number ad plaintext max_output_length
  | Mbedtls _ => AeadMbedtls_EncryptPacket c packet_number ad plaintext max_output_length
  end.

(** [EVP_AEAD_CTX_open]. *)
Definition evp_ctx_open (c : Crypter) (nonce ad ciphertext : list byte) (max_output_length : nat)
  : option (option (Crypter * list byte)) :=
  match ctx_ c with
  | evp_ctx alg k t =>
      if max_output_length <? length ciphertext - t then Some None else
      match evp_open alg k t nonce ad ciphertext with
      | None => Some None
      | Some m => Some (Some (c, m))
      end
  | _ => None
  end.

Definition AeadEvp_DecryptPacket (c : Crypter) (packet_number : Z) (ad ciphertext : list byte)
    (max_output_length : nat) : option (option (Crypter * list byte)) :=
  if length ciphertext <? auth_tag_size_ c then Some None else
  if have_preliminary_key_ c then Some None else
  let nonce := PacketNumberToNonceEvp (iv_nonce c) (nonce_size_ c) packet_number in
  evp_ctx_open c (take (nonce_size_ c) nonce) ad ciphertext max_output_length.

Definition AeadSodium_DecryptPacket (c : Crypter) (packet_number : Z) (ad ciphertext : list byte)
    (max_output_length : nat) : option (option (Crypter * list byte)) :=
  if length ciphertext <? auth_tag_size_ c then Some None else
  if have_preliminary_key_ c then Some None else
  let nonce := PacketNumberToNonceSodium (iv_nonce c) packet_number in
  evp_ctx_open c (take (nonce_size_ c) nonce) ad ciphertext max_output_length.

Definition AeadMbedtls_DecryptPacket (c : Crypter) (packet_number : Z) (ad ciphertext : list byte)
    (max_output_length : nat) : option (option (Crypter * list byte)) :=
  if length ciphertext <? auth_tag_size_ c then Some None else
  if have_preliminary_key_ c then Some None else
  stream_update c ciphertext.

Definition DecryptPacket (c : Crypter) (packet_number : Z) (ad ciphertext : list byte)
    (max_output_length : nat) : option (option (Crypter * list byte)) :=
  match back c with
  | Evp _ => AeadEvp_DecryptPacket c packet_number ad ciphertext max_output_length
  | Sodium _ => AeadSodium_DecryptPacket c packet_number ad ciphertext max_output_length
  | Mbedtls _ => AeadMbedtls_DecryptPacket c packet_number ad ciphertext max_output_length
  end.

End Ops.

(** [Decrypter::SetPreliminaryKey]: its answer does not depend on [SetKey]'s. *)
Definition SetPreliminaryKey `{CryptoLib} (c : Crypter) (key : list byte) : bool * Crypter :=
  let c := snd (SetKey c key) in
  (true, mkCrypter (enc c) (cipher_id c) (back c) (key_size_ c) (auth_tag_size_ c) (nonce_size_ c)
           true (key_ c) (iv_ c) (ctx_ c)).

(** ** The concrete classes *)

Definition EvpAead (e : bool) (id : cipher_method) (alg : evp_aead) (k t n : nat) : Crypter :=
  AeadBase e id (Evp alg) k t n.
Definition SodiumAead (e : bool) (id : cipher_method) (alg : evp_aead) (k t n : nat) : Crypter :=
  AeadBase e id (Sodium alg) k t n.

Definition Aes256GcmSodiumEncrypter : Crypter :=
  SodiumAead true CRYPTO_AES256GCMSHA256 EVP_aead_aes_256_gcm 32 16 12.
Definition Aes256GcmSodiumDecrypter : Crypter :=
  SodiumAead false CRYPTO_AES256GCMSHA256 EVP_aead_aes_256_gcm 32 16 12.
Definition ChaCha20Poly1305SodiumEncrypter : Crypter :=
  SodiumAead true CRYPTO_CHACHA20POLY1305IETF EVP_aead_chacha20_poly1305 32 16 12.
Definition ChaCha20Poly1305SodiumDecrypter : Crypter :=
  SodiumAead false CRYPTO_CHACHA20POLY1305IETF EVP_aead_chacha20_poly1305 32 16 12.
Definition XChaCha20Poly1305SodiumEncrypter : Crypter :=
  SodiumAead true CRYPTO_XCHACHA20POLY1305IETF EVP_aead_xchacha20_poly1305 32 16 24.
Definition XChaCha20Poly1305SodiumDecrypter : Crypter :=
  SodiumAead false CRYPTO_XCHACHA20POLY1305IETF EVP_aead_xchacha20_poly1305 32 16 24.
Definition ChaCha20Poly1305EvpEncrypter : Crypter :=
  EvpAead true CRYPTO_CHACHA20POLY1305IETF_EVP EVP_aead_chacha20_poly1305 32 12 12.
Definition ChaCha20Poly1305EvpDecrypter : Crypter :=
  EvpAead false CRYPTO_CHACHA20POLY1305IETF_EVP EVP_aead_chacha20_poly1305 32 12 12.
Definition XChaCha20Poly1305EvpEncrypter : Crypter :=
  EvpAead true CRYPTO_XCHACHA20POLY1305IETF_EVP EVP_aead_xchacha20_poly1305 32 12 24.
Definition XChaCha20Poly1305EvpDecrypter : Crypter :=
  EvpAead false CRYPTO_XCHACHA20POLY1305IETF_EVP EVP_aead_xchacha20_poly1305 32 12 24.
Definition Aes128GcmEvpEncrypter : Crypter :=
  EvpAead true CRYPTO_AES128GCMSHA256_EVP EVP_aead_aes_128_gcm 16 16 12.
Definition Aes128GcmEvpDecrypter : Crypter :=
  EvpAead false CRYPTO_AES128GCMSHA256_EVP EVP_aead_aes_128_gcm 16 16 12.
Definition Aes128Gcm12EvpEncrypter : Crypter :=
  EvpAead true CRYPTO_AES128GCM12SHA256_EVP EVP_aead_aes_128_gcm 16 12 12.
Definition Aes128Gcm12EvpDecrypter : Crypter :=
  EvpAead false CRYPTO_AES128GCM12SHA256_EVP EVP_aead_aes_128_gcm 16 12 12.
Definition Aes192GcmEvpEncrypter : Crypter :=
  EvpAead true CRYPTO_AES192GCMSHA256_EVP EVP_aead_aes_192_gcm 24 16 12.
Definition Aes192GcmEvpDecrypter : Crypter :=
  EvpAead false CRYPTO_AES192GCMSHA256_EVP EVP_aead_aes_192_gcm 24 16 12.
Definition Aes256GcmEvpEncrypter : Crypter :=
  EvpAead true CRYPTO_AES256GCMSHA256_EVP EVP_aead_aes_256_gcm 32 16 12.
Definition Aes256GcmEvpDecrypter : Crypter :=
  EvpAead false CRYPTO_AES256GCMSHA256_EVP EVP_aead_aes_256_gcm 32 16 12.

(** mbedtls_common.cpp; the default of the two sizes is [uint8_t(-1)]. *)
Definition mbedtls_get_cipher (m : cipher_method) : option mbedtls_type :=
  match m with
  | CRYPTO_AES_128_CFB => Some (AES_CFB128 128)
  | CRYPTO_AES_192_CFB => Some (AES_CFB128 192)
  | CRYPTO_AES_256_CFB => Some (AES_CFB128 256)
  | CRYPTO_AES_128_CTR => Some (AES_CTR 128)
  | CRYPTO_AES_192_CTR => Some (AES_CTR 192)
  | CRYPTO_AES_256_CTR => Some (AES_CTR 256)
  | CRYPTO_CAMELLIA_128_CFB => Some (CAMELLIA_CFB128 128)
  | CRYPTO_CAMELLIA_192_CFB => Some (CAMELLIA_CFB128 192)
  | CRYPTO_CAMELLIA_256_CFB => Some (CAMELLIA_CFB128 256)
  | _ => None
  end.

Definition mbedtls_get_nonce_size (m : cipher_method) : nat :=
  match m with
  | CRYPTO_AES_128_CFB | CRYPTO_AES_192_CFB | CRYPTO_AES_256_CFB
  | CRYPTO_AES_128_CTR | CRYPTO_AES_192_CTR | CRYPTO_AES_256_CTR => 16
  | CRYPTO_CAMELLIA_128_CFB | CRYPTO_CAMELLIA_192_CFB | CRYPTO_CAMELLIA_256_CFB => 16
  | _ => 255
  end.

Definition mbedtls_get_key_size (m : cipher_method) : nat :=
  match m with
  | CRYPTO_AES_128_CFB => 16 | CRYPTO_AES_192_CFB => 24 | CRYPTO_AES_256_CFB => 32
  | CRYPTO_AES_128_CTR => 16 | CRYPTO_AES_192_CTR => 24 | CRYPTO_AES_256_CTR => 32
  | CRYPTO_CAMELLIA_128_CFB => 16 | CRYPTO_CAMELLIA_192_CFB => 24
  | CRYPTO_CAMELLIA_256_CFB => 32
  | _ => 255
  end.

Definition AeadMbedtls (e : bool) (m : cipher_method) : option Crypter :=
  ty ← mbedtls_get_cipher m;
  Some (AeadBase e m (Mbedtls ty) (mbedtls_get_key_size m) 0 (mbedtls_get_nonce_size m)).

(** [Encrypter::CreateFromCipherSuite] ([LOG(FATAL)] aborts in the default case)
    and [Decrypter::CreateFromCipherSuite] (null in the default case). *)
Definition Encrypter_CreateFromCipherSuite (m : cipher_method) : option Crypter :=
  match m with
  | CRYPTO_AES256GCMSHA256 => Some Aes256GcmSodiumEncrypter
  | CRYPTO_CHACHA20POLY1305IETF => Some ChaCha20Poly1305SodiumEncrypter
  | CRYPTO_XCHACHA20POLY1305IETF => Some XChaCha20Poly1305SodiumEncrypter
  | CRYPTO_CHACHA20POLY1305IETF_EVP => Some ChaCha20Poly1305EvpEncrypter
  | CRYPTO_XCHACHA20POLY1305IETF_EVP => Some XChaCha20Poly1305EvpEncrypter
  | CRYPTO_AES128GCMSHA256_EVP => Some Aes128GcmEvpEncrypter
  | CRYPTO_AES128GCM12SHA256_EVP => Some Aes128Gcm12EvpEncrypter
  | CRYPTO_AES192GCMSHA256_EVP => Some Aes192GcmEvpEncrypter
  | CRYPTO_AES256GCMSHA256_EVP => Some Aes256GcmEvpEncrypter
  | CRYPTO_AES_128_CFB | CRYPTO_AES_192_CFB | CRYPTO_AES_256_CFB
  | CRYPTO_AES_128_CTR | CRYPTO_AES_192_CTR | CRYPTO_AES_256_CTR
  | CRYPTO_CAMELLIA_128_CFB | CRYPTO_CAMELLIA_192_CFB | CRYPTO_CAMELLIA_256_CFB => AeadMbedtls true m
  | _ => None
  end.

Definition Decrypter_CreateFromCipherSuite (m : cipher_method) : option Crypter :=
  match m with
  | CRYPTO_AES256GCMSHA256 => Some Aes256GcmSodiumDecrypter
  | CRYPTO_CHACHA20POLY1305IETF => Some ChaCha20Poly1305SodiumDecrypter
  | CRYPTO_XCHACHA20POLY1305IETF => Some XChaCha20Poly1305SodiumDecrypter
  | CRYPTO_CHACHA20POLY1305IETF_EVP => Some ChaCha20Poly1305EvpDecrypter
  | CRYPTO_XCHACHA20POLY1305IETF_EVP => Some XChaCha20Poly1305EvpDecrypter
  | CRYPTO_AES128GCMSHA256_EVP => Some Aes128GcmEvpDecrypter
  | CRYPTO_AES128GCM12SHA256_EVP => Some Aes128Gcm12EvpDecrypter
  | CRYPTO_AES192GCMSHA256_EVP => Some Aes192GcmEvpDecrypter
  | CRYPTO_AES256GCMSHA256_EVP => Some Aes256GcmEvpDecrypter
  | CRYPTO_AES_128_CFB | CRYPTO_AES_192_CFB | CRYPTO_AES_256_CFB
  | CRYPTO_AES_128_CTR | CRYPTO_AES_192_CTR | CRYPTO_AES_256_CTR
  | CRYPTO_CAMELLIA_128_CFB | CRYPTO_CAMELLIA_192_CFB | CRYPTO_CAMELLIA_256_CFB => AeadMbedtls false m
  | _ => None
  end.

(** ** What the cipher layer relies on *)

(** Sealing of numbered packets under one key: the promise of a keyed pair of
    crypters to the code that frames packets. *)
Class Sealing := {
  sl_tag : nat;
  sl_seal : Z → list byte → list byte;
  sl_open : Z → list byte → option (list byte);
  sl_seal_length : ∀ pn m, length (sl_seal pn m) = length m + sl_tag;
  sl_open_seal : ∀ pn m, sl_open pn (sl_seal pn m) = Some m;
  sl_open_length : ∀ pn c m, sl_open pn c = Some m → length c = length m + sl_tag }.

Definition enc_implements `{CryptoLib} (S : Sealing) (c : Crypter) : Prop :=
  auth_tag_size_ c = sl_tag ∧
  ∀ pn m max, length m + sl_tag <= max →
    EncryptPacket c pn [] m max = Some (Some (c, sl_seal pn m)).

Definition dec_implements `{CryptoLib} (S : Sealing) (c : Crypter) : Prop :=
  auth_tag_size_ c = sl_tag ∧
  ∀ pn ct max, sl_tag <= length ct → length ct - sl_tag <= max →
    DecryptPacket c pn [] ct max = Some ((λ m, (c, m)) <$> sl_open pn ct).

(** ** Nonces *)

Lemma length_le_bytes n z : length (le_bytes n z) = n.
Proof. revert z. induction n; intros; simpl; [done|by f_equal]. Qed.

Lemma le_bytes_inj n a b :
  (0 <= a < 256 ^ Z.of_nat n)%Z → (0 <= b < 256 ^ Z.of_nat n)%Z →
  le_bytes n a = le_bytes n b → a = b.
Proof.
  revert a b. induction n as [|n IH]; intros a b Ha Hb E; [simpl in *; lia|].
  rewrite Nat2Z.inj_succ, Z.pow_succ_r in Ha, Hb by lia.
  simpl in E. injection E as E0 E1.
  apply (f_equal u8) in E0. rewrite !land_255, !u8_to_u8, !Z.mod_mod in E0 by lia.
  apply IH in E1; rewrite ?Z.shiftr_div_pow2 in * by lia; change (2 ^ 8)%Z with 256%Z in *.
  - rewrite (Z.div_mod a 256), (Z.div_mod b 256) by lia. congruence.
  - split; [apply Z.div_pos; lia|apply Z.div_lt_upper_bound; lia].
  - split; [apply Z.div_pos; lia|apply Z.div_lt_upper_bound; lia].
Qed.

(** The four bytes the sodium variant writes are the low 32 bits. *)
Lemma sodium_bytes pn :
  [to_u8 (Z.land pn 0xff); to_u8 (Z.shiftr (Z.land pn 0xff00) 8);
   to_u8 (Z.shiftr (Z.land pn 0xff0000) 16); to_u8 (Z.shiftr (Z.land pn 0xff000000) 24)]
  = le_bytes 4 (pn mod 2 ^ 32).
Proof.
  assert (∀ k, (0 <= k <= 24)%Z →
    to_u8 (Z.shiftr (Z.land pn (Z.shiftl 255 k)) k) = to_u8 (Z.land (Z.shiftr (pn mod 2 ^ 32) k) 255)) as Hb.
  { intros k Hk. f_equal. rewrite Z.shiftr_land, Z.shiftr_shiftl_l, Z.sub_diag, Z.shiftl_0_r by lia.
    rewrite <- Z.land_ones by lia. rewrite Z.shiftr_land, <- Z.land_assoc. f_equal.
    change 255%Z with (Z.ones 8). rewrite Z.shiftr_div_pow2, Z.ones_div_pow2 by lia.
    rewrite Z.land_comm. symmetry. rewrite Z.land_ones by lia. rewrite !Z.ones_equiv.
    apply Z.mod_small. pose proof (Z.pow_le_mono_r 2 8 (32 - k)). lia. }
  cbn [le_bytes]. rewrite !Z.shiftr_shiftr by lia. cbn [Z.add Pos.add Pos.succ].
  f_equal; [|f_equal; [|f_equal; [|f_equal]]].
  - specialize (Hb 0%Z). rewrite !Z.shiftr_0_r in Hb. apply Hb. lia.
  - apply (Hb 8%Z). lia.
  - apply (Hb 16%Z). lia.
  - apply (Hb 24%Z). lia.
Qed.

Lemma packet_nonce_evp `{CryptoLib} c alg pn :
  back c = Evp alg → length (iv_ c) = kMaxNonceSize → 8 <= nonce_size_ c <= kMaxNonceSize →
  packet_nonce c pn = take (nonce_size_ c - 8) (iv_ c) ++ le_bytes 8 pn.
Proof.
  intros Hb Hi Hn. unfold packet_nonce, iv_nonce, PacketNumberToNonceEvp, kMaxNonceSize in *. rewrite Hb.
  rewrite splice_0. unfold splice at 1. pose proof (length_le_bytes 8 pn) as Hl.
  rewrite app_assoc, take_app_le by (len). rewrite take_ge by (len).
  f_equal. rewrite take_app_le by (len). rewrite take_take. f_equal. lia.
Qed.

Lemma packet_nonce_sodium `{CryptoLib} c alg pn :
  back c = Sodium alg → length (iv_ c) = kMaxNonceSize → 4 <= nonce_size_ c <= kMaxNonceSize →
  packet_nonce c pn = le_bytes 4 (pn mod 2 ^ 32) ++ drop 4 (take (nonce_size_ c) (iv_ c)).
Proof.
  intros Hb Hi Hn. unfold packet_nonce, iv_nonce, PacketNumberToNonceSodium, kMaxNonceSize in *. rewrite Hb.
  rewrite sodium_bytes, !splice_0. pose proof (length_le_bytes 4 (pn mod 2 ^ 32)) as Hl.
  rewrite take_app, Hl, take_ge by lia. f_equal.
  rewrite drop_app_le by (len). rewrite take_app_le by (len). apply take_ge. len.
Qed.

(** ** Setting a key *)

Definition is_aead (m : cipher_method) : bool :=
  match m with
  | CRYPTO_AES256GCMSHA256 | CRYPTO_CHACHA20POLY1305IETF | CRYPTO_XCHACHA20POLY1305IETF
  | CRYPTO_CHACHA20POLY1305IETF_EVP | CRYPTO_XCHACHA20POLY1305IETF_EVP
  | CRYPTO_AES128GCMSHA256_EVP | CRYPTO_AES128GCM12SHA256_EVP | CRYPTO_AES192GCMSHA256_EVP
  | CRYPTO_AES256GCMSHA256_EVP => true
  | _ => false
  end.

Definition create (e : bool) (m : cipher_method) : option Crypter :=
  if e then Encrypter_CreateFromCipherSuite m else Decrypter_CreateFromCipherSuite m.

(** The AEAD suite of a method: algorithm, sizes, backend. *)
Definition aead_of (b : backend) : evp_aead :=
  match b with Evp a | Sodium a => a | Mbedtls _ => EVP_aead_aes_128_gcm end.

Lemma create_aead e m :
  is_aead m = true →
  ∃ b k t n, create e m = Some (AeadBase e m b k t n) ∧
    (b = Evp (aead_of b) ∨ b = Sodium (aead_of b)) ∧
    k = evp_key_length (aead_of b) ∧ 12 <= t <= 16 ∧ 12 <= n <= 24 ∧
    create (negb e) m = Some (AeadBase (negb e) m b k t n).
Proof.
  intros Hm. destruct m; try done; destruct e;
    (do 4 eexists; split; [reflexivity|]; split; [by (left + right)|]; split; [done|];
     split; [lia|]; split; [lia|reflexivity]).
Qed.

Section Keyed.
Context `{CryptoLaws}.

(** The nonce prefix the cipher layer installs is zero: [iv_] does not change. *)
Definition install (c : Crypter) (key : list byte) : Crypter :=
  snd (AeadBase_SetNoncePrefix (snd (SetKey c key)) (replicate (GetNoncePrefixSize c) x00)).

Lemma splice_zeros n m : n <= m → splice 0 (replicate n x00) (replicate m x00) = replicate m x00.
Proof.
  intros. rewrite splice_0, length_replicate, drop_replicate, <- replicate_add. f_equal. lia.
Qed.

Lemma install_eq e m b k t n key :
  (b = Evp (aead_of b) ∨ b = Sodium (aead_of b)) → k = evp_key_length (aead_of b) →
  12 <= t <= 16 → 12 <= n <= 24 → length key = k →
  install (AeadBase e m b k t n) key
  = mkCrypter e m b k t n false (splice 0 key (replicate kMaxKeySize x00))
      (replicate kMaxNonceSize x00) (evp_ctx (aead_of b) key t).
Proof.
  intros Hb Hk Ht Hn Hl.
  assert (SetKey (AeadBase e m b k t n) key
    = (true, mkCrypter e m b k t n false (splice 0 key (replicate kMaxKeySize x00))
               (replicate kMaxNonceSize x00) (evp_ctx (aead_of b) key t))) as E.
  { assert (SetKey (AeadBase e m b k t n) key = Evp_SetKey (AeadBase e m b k t n) (aead_of b) key) as ->
      by (destruct Hb as [-> | ->]; done).
    unfold Evp_SetKey, AeadBase_SetKey. cbn [AeadBase key_size_].
    rewrite Hl, Nat.eqb_refl. cbn [negb set_key_ key_size_ key_ auth_tag_size_].
    rewrite splice_0, take_app_length' by done. rewrite evp_init_ok by (congruence || done). done. }
  unfold install. rewrite E. cbn [snd]. unfold AeadBase_SetNoncePrefix, GetNoncePrefixSize.
  cbn [AeadBase nonce_size_]. rewrite length_replicate, Nat.eqb_refl. cbn [negb snd set_iv_ iv_].
  by rewrite splice_zeros by (unfold kMaxNonceSize; lia).
Qed.

(** The sealing of a method under a subkey. *)
#[refine] Instance method_sealing (b : backend) (n t : nat) (key : list byte) : Sealing := {
  sl_tag := t;
  sl_seal pn m := evp_seal (aead_of b) key t
    (packet_nonce (AeadBase true CRYPTO_INVALID b 0 t n) pn) [] m;
  sl_open pn c := evp_open (aead_of b) key t
    (packet_nonce (AeadBase true CRYPTO_INVALID b 0 t n) pn) [] c }.
Proof.
  - intros. apply evp_seal_length.
  - intros. apply evp_open_seal.
  - intros pn c m. apply evp_open_length.
Defined.

Lemma keyed_enc m b k t n key iv K :
  (b = Evp (aead_of b) ∨ b = Sodium (aead_of b)) → iv = replicate kMaxNonceSize x00 →
  enc_implements (method_sealing b n t key)
    (mkCrypter true m b k t n false K iv (evp_ctx (aead_of b) key t)).
Proof.
  intros Hb ->. split; [done|]. intros pn pt max Hmax. unfold EncryptPacket. cbn [back].
  destruct Hb as [-> | ->]; unfold EvpAead_EncryptPacket, SodiumAead_EncryptPacket, GetCiphertextSize;
    cbn [auth_tag_size_ sl_tag method_sealing] in *;
    by destruct (Nat.ltb_spec max (length pt + t)); [lia|].
Qed.

Lemma keyed_dec m b k t n key iv K :
  (b = Evp (aead_of b) ∨ b = Sodium (aead_of b)) → iv = replicate kMaxNonceSize x00 →
  dec_implements (method_sealing b n t key)
    (mkCrypter false m b k t n false K iv (evp_ctx (aead_of b) key t)).
Proof.
  intros Hb ->. split; [done|]. intros pn ct max Ht Hmax. unfold DecryptPacket. cbn [back].
  destruct Hb as [-> | ->]; unfold AeadEvp_DecryptPacket, AeadSodium_DecryptPacket, evp_ctx_open;
    cbn [auth_tag_size_ ctx_ have_preliminary_key_ sl_tag sl_open method_sealing] in *;
    (destruct (Nat.ltb_spec (length ct) t); [lia|]);
    (destruct (Nat.ltb_spec max (length ct - t)); [lia|]);
    cbn [aead_of]; unfold packet_nonce; cbn [back AeadBase nonce_size_];
    by destruct (evp_open _ _ _ _ _ _).
Qed.

(** An encrypter and a decrypter of the same AEAD method with the same key. *)
Lemma keyed_pair m ce cd key :
  is_aead m = true → create true m = Some ce → create false m = Some cd →
  length key = key_size_ ce →
  ∃ S : Sealing, enc_implements S (install ce key) ∧ dec_implements S (install cd key) ∧
    key_size_ cd = key_size_ ce ∧ @sl_tag S = auth_tag_size_ ce ∧ auth_tag_size_ cd = auth_tag_size_ ce.
Proof.
  intros Hm Hce Hcd Hk. destruct (create_aead true m Hm) as (b & k & t & n & E1 & Hb & Hkb & Ht & Hn & E2).
  simplify_eq/=. exists (method_sealing b n t key).
  rewrite !install_eq by done. split; [by apply keyed_enc|]. split; [by apply keyed_dec|done].
Qed.

End Keyed.

(** ** Properties *)

(** Nonces.  [EncryptPacket] seals under the nonce [packet_nonce].  Under
    one key an EVP crypter never uses a nonce for two packet numbers of 64 bits, whereas a sodium crypter keeps only the low 32 bits of
    the packet number: packets [a] and [b] get the same nonce exactly when they
    agree modulo 2^32, so nonces repeat after 2^32 packets, against the
    header's promise of a 64 bit packet number in the nonce. *)
Theorem packet_nonce_reuse `{CryptoLib} c alg a b :
  length (iv_ c) = kMaxNonceSize → 8 <= nonce_size_ c <= kMaxNonceSize →
  (0 <= a < 2 ^ 64)%Z → (0 <= b < 2 ^ 64)%Z →
  (∀ k t ad m max, back c = Evp alg ∨ back c = Sodium alg → ctx_ c = evp_ctx alg k t →
    GetCiphertextSize c (length m) <= max →
    EncryptPacket c a ad m max = Some (Some (c, evp_seal alg k t (packet_nonce c a) ad m))) ∧
  (back c = Evp alg → packet_nonce c a = packet_nonce c b ↔ a = b) ∧
  (back c = Sodium alg → packet_nonce c a = packet_nonce c b ↔ (a mod 2 ^ 32 = b mod 2 ^ 32)%Z).
Proof.
  intros Hi Hn Ha Hb. split; [|split; intros Hbk].
  - intros k t ad m max Hbk Hctx Hmax. unfold EncryptPacket, packet_nonce.
    destruct Hbk as [-> | ->]; unfold EvpAead_EncryptPacket, SodiumAead_EncryptPacket, EvpAead_Encrypt;
      rewrite Hctx; by destruct (Nat.ltb_spec max (GetCiphertextSize c (length m))); [lia|].
  - rewrite !(packet_nonce_evp c alg) by done. split; [|by intros ->].
    intros E%app_inv_head. by apply le_bytes_inj in E.
  - rewrite !(packet_nonce_sodium c alg) by (done || lia). split; [|by intros ->].
    intros E%app_inv_tail. apply le_bytes_inj in E; [done| |]; apply Z.mod_pos_bound; lia.
Qed.

(** A packet sealed by the encrypter of an AEAD method is opened by the
    decrypter of the same method with the same key, for every packet number and
    payload, when the output buffers have room; the ciphertext is longer by the
    tag; and no method's factory pair differs in key, tag or nonce size. *)
Theorem packet_roundtrip `{CryptoLaws} m ce cd key pn pt max :
  is_aead m = true →
  Encrypter_CreateFromCipherSuite m = Some ce → Decrypter_CreateFromCipherSuite m = Some cd →
  length key = key_size_ ce → GetCiphertextSize ce (length pt) <= max →
  ∃ ct, EncryptPacket (install ce key) pn [] pt max = Some (Some (install ce key, ct)) ∧
    length ct = GetCiphertextSize ce (length pt) ∧
    DecryptPacket (install cd key) pn [] ct (length pt) = Some (Some (install cd key, pt)).
Proof.
  intros Hm Hce Hcd Hk Hmax.
  destruct (keyed_pair m ce cd key Hm Hce Hcd Hk) as (S & [_ He] & [_ Hd] & _ & Ht & _).
  unfold GetCiphertextSize in *. rewrite <- Ht in *.
  exists (sl_seal pn pt). rewrite He, Hd, sl_open_seal by (rewrite ?sl_seal_length; lia).
  by rewrite sl_seal_length.
Qed.

(** The names and numbers of the cipher methods.  Every method is found by
    its name and printed under its number, no two methods share a name or a
    number, every listed number is valid, and the framing code's range test
    [0x22 <= id <= 0x31] holds exactly for the methods of the mbedtls factory. *)
Theorem cipher_method_names :
  (∀ m, to_cipher_method (to_cipher_method_str (cipher_num m)) = m ∧
        is_valid_cipher_method (cipher_num m) = true) ∧
  (∀ m, ((cipher_num CRYPTO_AES_128_CFB <=? cipher_num m) &&
         (cipher_num m <=? cipher_num CRYPTO_CAMELLIA_256_CFB))%Z
        = bool_decide (is_Some (mbedtls_get_cipher m))) ∧
  (∀ m, is_Some (Encrypter_CreateFromCipherSuite m) ↔ is_Some (Decrypter_CreateFromCipherSuite m)).
Proof.
  split_and!; intros m.
  - by destruct m.
  - by destruct m.
  - by destruct m.
Qed.

(** A concrete library, to instantiate the properties: the tag is zero bytes. *)
Definition example_lib : CryptoLib := {|
  evp_init _ _ _ := true;
  evp_seal _ _ t _ _ m := m ++ replicate t x00;
  evp_open _ _ t _ _ c :=
    if (t <=? length c) && bool_decide (drop (length c - t) c = replicate t x00)
    then Some (take (length c - t) c) else None;
  mbed_setkey _ _ := true;
  mbed_stream _ _ _ _ m := m |}.

Lemma example_laws : @CryptoLaws example_lib.
Proof.
  split; simpl.
  - done.
  - intros. by rewrite length_app, length_replicate.
  - intros. rewrite length_app, length_replicate.
    destruct (Nat.leb_spec t (length m + t)); [|lia].
    by rewrite Nat.add_sub, take_app_length, drop_app_length, bool_decide_eq_true_2.
  - intros _ _ t _ _ c m E. destruct (Nat.leb_spec t (length c)); [|done]. case_match; simplify_eq. len.
  - done.
  - intros. apply take_app_length.
  - done.
Qed.

Lemma packet_nonce_reuse_witness :
  let H := example_lib in
  packet_nonce Aes256GcmSodiumEncrypter 1 = packet_nonce Aes256GcmSodiumEncrypter (2 ^ 32 + 1).
Proof.
  intros H.
  apply (packet_nonce_reuse Aes256GcmSodiumEncrypter EVP_aead_aes_256_gcm 1 (2 ^ 32 + 1)).
  - reflexivity.
  - split; vm_compute; lia.
  - lia.
  - lia.
  - reflexivity.
  - reflexivity.
Defined.

Lemma packet_roundtrip_witness :
  let H := example_lib in
  ∃ ct, EncryptPacket (install Aes128GcmEvpEncrypter (replicate 16 x01)) 7 [] [x41] 17
      = Some (Some (install Aes128GcmEvpEncrypter (replicate 16 x01), ct)) ∧
    length ct = 17 ∧
    DecryptPacket (install Aes128GcmEvpDecrypter (replicate 16 x01)) 7 [] ct 1
      = Some (Some (install Aes128GcmEvpDecrypter (replicate 16 x01), [x41])).
Proof.
  intros H. pose proof example_laws as HL.
  apply (packet_roundtrip CRYPTO_AES128GCMSHA256_EVP Aes128GcmEvpEncrypter Aes128GcmEvpDecrypter
           (replicate 16 x01) 7 [x41] 17).
  - reflexivity.
  - reflexivity.
  - reflexivity.
  - reflexivity.
  - reflexivity.
Defined.

End Crypter.
