(* ===== verification/Cipher.v ===== *)
(** * The shadowsocks cipher

    src/src/net/cipher.cpp: key derivation, the salt or nonce at the head of a
    stream, the framing of encrypted chunks, and the incremental decoder
    [process_bytes]; and [EncryptData] of the two connection classes.  MD5, the
    base64 decoder, SHA-1, the random source and the primitives of
    Crypter.v are parameters.  [None] is an abort ([CHECK], [LOG(FATAL)]), an access
    outside a buffer or the use of a context that was never set up.  Objects
    are passed by value: [process_bytes] keeps the caller's buffer, and no caller
    uses it again. *)

From Stdlib Require Import ZArith Lia.
From stdpp Require Import base list numbers option.
From S2P Require Import Prelude IoBuffer IoQueue Hkdf Crypter.

(** What the framing layer calls back ([cipher_visitor_interface]). *)
Class Visitor (V : Type) := {
  on_received_data : V → IoBuffer.GrowableIOBuffer → V * bool;
  on_protocol_error : V → V }.

(** Libraries of this file: MD5, [EVP_DecodedLength] and [EVP_DecodeBase64] (the
    decoded bytes, when the text is valid). *)
Class KeyLib := {
  md5 : list byte → list byte;
  evp_decoded_length : nat → option nat;
  evp_decode_base64 : list byte → nat → option (list byte) }.

(** [RandBytes], as one end of one connection draws from it: an encoder draws once, for
    its salt or its nonce.  Where two ends meet they have an instance each. *)
Class RandLib := { rand_bytes : nat → list byte }.

Class KeyLaws `{KeyLib} := {
  md5_length : ∀ m, length (md5 m) = 16 }.

Class RandLaws (R : RandLib) := {
  rand_length : ∀ n, length (rand_bytes n) = n }.

Module Cipher.
Import IoBuffer Crypter.

Definition MAX_KEY_LENGTH : nat := 64.
Definition MAX_NONCE_LENGTH : nat := 32.
Definition CHUNK_SIZE_LEN : nat := 2.
Definition CHUNK_SIZE_MASK : Z := 0x3fff.
Definition SOCKET_BUF_SIZE : Z := 17 * 1024.
Definition SS_FRAME_SIZE : nat := Z.to_nat (16384 - 128).

(** The text ["ss-subkey"] *)
Definition SUBKEY_INFO : list byte := [x73; x73; x2d; x73; x75; x62; x6b; x65; x79].

(** ** Keys ([cipher_impl]) *)

Section Keys.
Context `{KeyLib} `{RND : RandLib}.

(** Returned length and contents of [skey]. [EVP_DecodeBase64] answers 1 on
    success and 0 on failure, and this answer is stored in [out_len]. *)
Definition parse_key (key skey : list byte) (skey_len : nat) : nat * list byte :=
  match evp_decoded_length (length key) with
  | None => (0, skey)
  | Some max_out =>
      let '(out_len, out) := match evp_decode_base64 key max_out with
                             | Some bytes => (1, bytes)
                             | None => (0, [])
                             end in
      if (0 <? out_len) && (skey_len <=? out_len)
      then (skey_len, splice 0 (take skey_len out) skey)
      else (0, skey)
  end.

(** [for (i = 0; i < mds; i++, j++) { if (j >= skey_len) break; ... }] *)
Fixpoint copy_digest (md : list byte) (skey : list byte) (j skey_len : nat) : list byte * nat :=
  match md with
  | [] => (skey, j)
  | b :: md => if skey_len <=? j then (skey, j) else copy_digest md (<[j := b]> skey) (j + 1) skey_len
  end.

(** The loop over [addmd], at most [fuel] rounds. *)
Fixpoint derive_loop (fuel : nat) (pass md_buf skey : list byte) (first : bool) (j skey_len : nat)
  : option (list byte) :=
  if skey_len <=? j then Some skey
  else match fuel with
       | 0 => None
       | S fuel =>
           let md_buf := md5 ((if first then [] else md_buf) ++ pass) in
           let '(skey, j) := copy_digest md_buf skey j skey_len in
           derive_loop fuel pass md_buf skey false j skey_len
       end.

Definition derive_key (key skey : list byte) (skey_len : nat) : option (nat * list byte) :=
  match key with
  | [] => Some (skey_len, skey)
  | _ => skey ← derive_loop (skey_len + 1) key [] skey true 0 skey_len; Some (skey_len, skey)
  end.

End Keys.

(** ** The object *)

Record cipher := mkCipher {
  salt_ : list byte; key_ : list byte; key_len_ : nat; tag_len_ : nat;
  impl_ : Crypter; counter_ : Z; init_ : bool; chunk_ : option GrowableIOBuffer }.

Definition with_impl (c : cipher) (i : Crypter) : cipher :=
  mkCipher (salt_ c) (key_ c) (key_len_ c) (tag_len_ c) i (counter_ c) (init_ c) (chunk_ c).
Definition with_chunk (c : cipher) (b : GrowableIOBuffer) : cipher :=
  mkCipher (salt_ c) (key_ c) (key_len_ c) (tag_len_ c) (impl_ c) (counter_ c) (init_ c) (Some b).
Definition with_counter (c : cipher) (n : Z) : cipher :=
  mkCipher (salt_ c) (key_ c) (key_len_ c) (tag_len_ c) (impl_ c) n (init_ c) (chunk_ c).
Definition with_init (c : cipher) : cipher :=
  mkCipher (salt_ c) (key_ c) (key_len_ c) (tag_len_ c) (impl_ c) (counter_ c) true (chunk_ c).
Definition with_salt (c : cipher) (s : list byte) : cipher :=
  mkCipher s (key_ c) (key_len_ c) (tag_len_ c) (impl_ c) (counter_ c) (init_ c) (chunk_ c).

(** The increment of a [uint64_t] counter. *)
Definition next (counter : Z) : Z := ((counter + 1) mod 2 ^ 64)%Z.

(** The test for the mbedtls methods. *)
Definition is_stream (c : cipher) : bool :=
  ((cipher_num CRYPTO_AES_128_CFB <=? cipher_num (cipher_id (impl_ c))) &&
   (cipher_num (cipher_id (impl_ c)) <=? cipher_num CRYPTO_CAMELLIA_256_CFB))%Z.

Inductive ret := OK | EAGAIN | EBADMSG.

Section Ops.
Context `{Allocator} `{CryptoLib} `{Sha1} `{KeyLib} `{RND : RandLib}.

(** [cipher_impl(method, enc)] and [cipher(key, password, method, visitor, enc)]. *)
Definition make_cipher (key password : list byte) (method : cipher_method) (enc : bool)
  : option cipher :=
  impl ← (if enc then Encrypter_CreateFromCipherSuite method
          else Decrypter_CreateFromCipherSuite method);
  let k := replicate MAX_KEY_LENGTH x00 in
  let size := key_size_ impl in
  '(key_len, k) ← match key with
                  | [] => derive_key password k size
                  | _ => Some (parse_key key k size)
                  end;
  Some (mkCipher (replicate MAX_KEY_LENGTH x00) k key_len (auth_tag_size_ impl) impl 0 false None).

Definition set_key_stream (c : cipher) (nonce : list byte) : cipher :=
  let c := with_counter c 0 in
  let impl := snd (AeadBase_SetIV (impl_ c) nonce) in
  let impl := snd (SetKey impl (take (key_len_ c) (key_ c))) in
  with_impl c impl.

(** [T0] is what the array [T] of the key derivation holds before its use. *)
Definition set_key_aead (T0 : list byte) (c : cipher) (salt : list byte) : option cipher :=
  skey ← Hkdf.crypto_hkdf T0 (Some salt) (Z.of_nat (length salt)) (take (key_len_ c) (key_ c))
           (Some SUBKEY_INFO) (Z.of_nat (length SUBKEY_INFO))
           (Some (replicate MAX_KEY_LENGTH x00)) (Z.of_nat (key_len_ c));
  let c := with_counter c 0 in
  let impl := snd (SetKey (impl_ c) (take (key_len_ c) skey)) in
  let len := GetNoncePrefixSize impl in
  let impl := snd (AeadBase_SetNoncePrefix impl
                     (take (len `min` GetNoncePrefixSize impl) (replicate MAX_NONCE_LENGTH x00))) in
  Some (with_impl c impl).

Definition decrypt_salt (T0 : list byte) (c : cipher) (chunk : GrowableIOBuffer)
  : option (cipher * GrowableIOBuffer) :=
  if is_stream c then
    let nonce_len := nonce_size_ (impl_ c) in
    nonce ← rd_slice (span chunk) 0 nonce_len;
    chunk ← set_offset chunk (Z.of_nat (offset chunk) + Z.of_nat nonce_len);
    Some (set_key_stream c nonce, chunk)
  else
    let salt_len := key_len_ c in
    salt ← rd_slice (span chunk) 0 salt_len;
    let c := with_salt c (splice 0 salt (salt_ c)) in
    chunk ← set_offset chunk (Z.of_nat (offset chunk) + Z.of_nat salt_len);
    c ← set_key_aead T0 c (take salt_len (salt_ c));
    Some (c, chunk).

Definition encrypt_salt (T0 : list byte) (c : cipher) (chunk : GrowableIOBuffer)
  : option (cipher * GrowableIOBuffer) :=
  if is_stream c then
    let nonce_len := nonce_size_ (impl_ c) in
    let nonce := rand_bytes nonce_len in
    let previous_capacity := capacity chunk in
    chunk ← SetCapacity chunk (Z.of_nat previous_capacity + Z.of_nat nonce_len);
    chunk ← write_data chunk 0 nonce;
    Some (set_key_stream c nonce, chunk)
  else
    let salt_len := key_len_ c in
    let c := with_salt c (splice 0 (rand_bytes salt_len) (salt_ c)) in
    let previous_capacity := capacity chunk in
    chunk ← SetCapacity chunk (Z.of_nat previous_capacity + Z.of_nat salt_len);
    chunk ← write_at chunk previous_capacity (take salt_len (salt_ c));
    c ← set_key_aead T0 c (take salt_len (salt_ c));
    Some (c, chunk).

(** ** Frames *)

(** Result code, counter, impl, plaintext and ciphertext buffers. *)
Definition chunk_decrypt_frame_aead (c : cipher) (counter : Z) (plaintext ciphertext : GrowableIOBuffer)
  : option (ret * Z * Crypter * GrowableIOBuffer * GrowableIOBuffer) :=
  let tlen := tag_len_ c in
  let clen := CHUNK_SIZE_LEN + tlen in
  if size ciphertext <? tlen + CHUNK_SIZE_LEN + tlen
  then Some (EAGAIN, counter, impl_ c, plaintext, ciphertext) else
  input ← rd_slice (span ciphertext) 0 clen;
  r ← DecryptPacket (impl_ c) counter [] input CHUNK_SIZE_LEN;
  match r with
  | None => Some (EBADMSG, counter, impl_ c, plaintext, ciphertext)
  | Some (impl, len) =>
      hi ← rd len 0; lo ← rd len 1;
      let mlen := Z.to_nat (Z.land (be16 hi lo) CHUNK_SIZE_MASK) in
      if mlen =? 0 then Some (EBADMSG, counter, impl, plaintext, ciphertext) else
      ciphertext ← set_offset ciphertext (Z.of_nat (offset ciphertext) + Z.of_nat clen);
      plaintext ← SetCapacity plaintext (Z.of_nat (offset plaintext) + Z.of_nat mlen);
      let clen := tlen + mlen in
      if size ciphertext <? clen then
        ciphertext ← set_offset ciphertext
                       (Z.of_nat (offset ciphertext) - Z.of_nat CHUNK_SIZE_LEN - Z.of_nat tlen);
        Some (EAGAIN, counter, impl, plaintext, ciphertext)
      else
      let counter := next counter in
      input ← rd_slice (span ciphertext) 0 clen;
      r ← DecryptPacket impl counter [] input (capacity plaintext);
      match r with
      | None =>
          ciphertext ← set_offset ciphertext
                         (Z.of_nat (offset ciphertext) - Z.of_nat CHUNK_SIZE_LEN - Z.of_nat tlen);
          Some (EBADMSG, counter, impl, plaintext, ciphertext)
      | Some (impl, out) =>
          plaintext ← write_data plaintext 0 out;
          let counter := next counter in
          ciphertext ← set_offset ciphertext (Z.of_nat (offset ciphertext) + Z.of_nat clen);
          plaintext ← set_offset plaintext (Z.of_nat (offset plaintext) + Z.of_nat (length out));
          Some (OK, counter, impl, plaintext, ciphertext)
      end
  end.

Definition chunk_decrypt_frame_stream (c : cipher) (counter : Z) (plaintext ciphertext : GrowableIOBuffer)
  : option (ret * Z * Crypter * GrowableIOBuffer * GrowableIOBuffer) :=
  let plen := size ciphertext in
  plaintext ← SetCapacity plaintext (Z.of_nat (offset plaintext) + Z.of_nat (size ciphertext));
  r ← DecryptPacket (impl_ c) counter [] (span ciphertext) plen;
  match r with
  | None => Some (EBADMSG, counter, impl_ c, plaintext, ciphertext)
  | Some (impl, out) =>
      plaintext ← write_data plaintext 0 out;
      plaintext ← set_offset plaintext (Z.of_nat (offset plaintext) + Z.of_nat (length out));
      ciphertext ← set_offset ciphertext (Z.of_nat (offset ciphertext) + Z.of_nat (size ciphertext));
      Some (OK, next counter, impl, plaintext, ciphertext)
  end.

Definition chunk_decrypt_frame (c : cipher) (counter : Z) (plaintext ciphertext : GrowableIOBuffer)
  : option (ret * Z * Crypter * GrowableIOBuffer * GrowableIOBuffer) :=
  if is_stream c then chunk_decrypt_frame_stream c counter plaintext ciphertext
  else chunk_decrypt_frame_aead c counter plaintext ciphertext.

Definition chunk_encrypt_frame_aead (c : cipher) (counter : Z) (plaintext : list byte)
    (ciphertext : GrowableIOBuffer) : option (ret * Z * Crypter * GrowableIOBuffer) :=
  let tlen := tag_len_ c in
  let c_total_len := 2 * tlen + CHUNK_SIZE_LEN + length plaintext in
  let previous_capacity := capacity ciphertext in
  let clen := CHUNK_SIZE_LEN + tlen in
  let headroom := RemainingCapacity ciphertext in
  ciphertext ← SetCapacity ciphertext (Z.of_nat previous_capacity + Z.of_nat c_total_len);
  let len := be16_bytes (Z.land (Z.of_nat (length plaintext)) CHUNK_SIZE_MASK) in
  r ← EncryptPacket (impl_ c) counter [] len clen;
  match r with
  | None =>
      ciphertext ← SetCapacity ciphertext (Z.of_nat previous_capacity);
      Some (EBADMSG, counter, impl_ c, ciphertext)
  | Some (impl, out) =>
      ciphertext ← write_data ciphertext headroom out;
      let headroom := headroom + length out in
      let counter := next counter in
      let clen := length plaintext + tlen in
      ciphertext ← write_data ciphertext headroom (replicate clen x00);
      r ← EncryptPacket impl counter [] plaintext clen;
      match r with
      | None =>
          ciphertext ← SetCapacity ciphertext (Z.of_nat previous_capacity);
          Some (EBADMSG, counter, impl, ciphertext)
      | Some (impl, out) =>
          ciphertext ← write_data ciphertext headroom out;
          Some (OK, next counter, impl, ciphertext)
      end
  end.

Definition chunk_encrypt_frame_stream (c : cipher) (counter : Z) (plaintext : list byte)
    (ciphertext : GrowableIOBuffer) : option (ret * Z * Crypter * GrowableIOBuffer) :=
  let previous_capacity := capacity ciphertext in
  let headroom := previous_capacity - offset ciphertext in
  let clen := length plaintext in
  ciphertext ← SetCapacity ciphertext (Z.of_nat previous_capacity + Z.of_nat clen);
  r ← EncryptPacket (impl_ c) counter [] plaintext clen;
  match r with
  | None =>
      ciphertext ← SetCapacity ciphertext (Z.of_nat previous_capacity);
      Some (EBADMSG, counter, impl_ c, ciphertext)
  | Some (impl, out) =>
      ciphertext ← write_data ciphertext headroom out;
      Some (OK, next counter, impl, ciphertext)
  end.

Definition chunk_encrypt_frame (c : cipher) (counter : Z) (plaintext : list byte)
    (ciphertext : GrowableIOBuffer) : option (ret * Z * Crypter * GrowableIOBuffer) :=
  if is_stream c then chunk_encrypt_frame_stream c counter plaintext ciphertext
  else chunk_encrypt_frame_aead c counter plaintext ciphertext.

(** ** The interface of the cipher *)

(** The boolean tells whether [on_protocol_error] was called. *)
Definition encrypt (T0 : list byte) (c : cipher) (plaintext : list byte) (ciphertext : GrowableIOBuffer)
  : option (cipher * GrowableIOBuffer * bool) :=
  '(c, ciphertext) ← (if init_ c then Some (c, ciphertext) else
                      '(c, ciphertext) ← encrypt_salt T0 c ciphertext;
                      Some (with_init c, ciphertext));
  let counter := counter_ c in
  '(r, counter, impl, ciphertext) ← chunk_encrypt_frame c counter plaintext ciphertext;
  let c := with_impl c impl in
  match r with
  | OK => Some (with_counter c counter, ciphertext, false)
  | _ => Some (c, ciphertext, true)
  end.

(** [while (!chunk_->empty())], at most [fuel] rounds. *)
Fixpoint process_loop `{Visitor V} (fuel : nat) (c : cipher) (v : V) : option (cipher * V) :=
  match fuel with
  | 0 => None
  | S fuel =>
      chunk ← chunk_ c;
      if empty chunk then Some (c, v) else
      plaintext ← SetCapacity make SOCKET_BUF_SIZE;
      let counter := counter_ c in
      '(r, counter, impl, plaintext, chunk) ← chunk_decrypt_frame c counter plaintext chunk;
      let c := with_chunk (with_impl c impl) chunk in
      match r with
      | EAGAIN => Some (c, v)
      | EBADMSG => Some (c, on_protocol_error v)
      | OK =>
          let c := with_counter c counter in
          plaintext ← SetCapacity plaintext (Z.of_nat (offset plaintext));
          plaintext ← set_offset plaintext 0;
          let '(v, ok) := on_received_data v plaintext in
          if ok then process_loop fuel c v else Some (c, v)
      end
  end.

(** The pending bytes and the new ones in one buffer. *)
Definition join_chunk (previous : option GrowableIOBuffer) (ciphertext : GrowableIOBuffer)
  : option GrowableIOBuffer :=
  match previous with
  | Some previous_chunk =>
      let chunk_size := RemainingCapacity previous_chunk + size ciphertext in
      b ← SetCapacity make (Z.of_nat chunk_size);
      b ← write_data b 0 (span previous_chunk);
      write_data b (RemainingCapacity previous_chunk) (span ciphertext)
  | None => Some ciphertext
  end.

Definition process_bytes `{Visitor V} (T0 : list byte) (c : cipher) (v : V) (ciphertext : GrowableIOBuffer)
  : option (cipher * V) :=
  chunk ← join_chunk (chunk_ c) ciphertext;
  let c := with_chunk c chunk in
  if init_ c then process_loop (size chunk + 1) c v else
  if size chunk <? key_len_ c then Some (c, v) else
  '(c, chunk) ← decrypt_salt T0 c chunk;
  process_loop (size chunk + 1) (with_init (with_chunk c chunk)) v.

(** [EncryptData]'s loop over the pieces of a plaintext; [on_protocol_error] is
    called for each piece that fails. *)
Fixpoint encrypt_loop (fuel : nat) (T0 : list byte) (c : cipher) (plaintext : list byte)
    (plaintext_offset : nat) (cipherbuf : GrowableIOBuffer) (err : bool)
  : option (cipher * GrowableIOBuffer * bool) :=
  if plaintext_offset <? length plaintext then
    match fuel with
    | 0 => None
    | S fuel =>
        let plaintext_size := (length plaintext - plaintext_offset) `min` SS_FRAME_SIZE in
        piece ← rd_slice plaintext plaintext_offset plaintext_size;
        '(c, cipherbuf, e) ← encrypt T0 c piece cipherbuf;
        encrypt_loop fuel T0 c plaintext (plaintext_offset + plaintext_size) cipherbuf (err || e)
    end
  else Some (c, cipherbuf, err).

End Ops.

(** ** Frames on the wire *)

Section Proofs.
Context `{Allocator} `{CryptoLaws} `{Sha1Laws} `{KeyLaws} `{RND : RandLib} `{!RandLaws RND}.

(** One frame: the sealed length and the sealed payload, under two consecutive
    packet numbers. *)
Definition frame (S : Sealing) (n : Z) (pt : list byte) : list byte :=
  sl_seal n (be16_bytes (Z.land (Z.of_nat (length pt)) CHUNK_SIZE_MASK)) ++ sl_seal (next n) pt.

Fixpoint frames (S : Sealing) (n : Z) (pts : list (list byte)) : list byte :=
  match pts with
  | [] => []
  | pt :: pts => frame S n pt ++ frames S (next (next n)) pts
  end.

(** The counter after frames. *)
Fixpoint advance (n : Z) (pts : list (list byte)) : Z :=
  match pts with [] => n | _ :: pts => advance (next (next n)) pts end.

(** The payload sizes the length field can express. *)
Definition payload_ok (pt : list byte) : Prop :=
  (1 <= Z.of_nat (length pt) <= CHUNK_SIZE_MASK)%Z.

Lemma length_frame S n pt : length (frame S n pt) = 2 + sl_tag + (length pt + sl_tag).
Proof. unfold frame. rewrite length_app, !sl_seal_length. simpl. lia. Qed.

Lemma mask_ok pt :
  payload_ok pt → Z.land (Z.of_nat (length pt)) CHUNK_SIZE_MASK = Z.of_nat (length pt).
Proof.
  unfold payload_ok, CHUNK_SIZE_MASK. intros Hp. change 0x3fff%Z with (Z.ones 14).
  rewrite Z.land_ones by lia. apply Z.mod_small. change (2 ^ 14)%Z with 16384%Z. lia.
Qed.

(** ** Encryption *)

Lemma chunk_encrypt_frame_spec S c n pt ct :
  enc_implements S (impl_ c) → tag_len_ c = @sl_tag S → is_stream c = false → wf ct →
  ∃ ct', chunk_encrypt_frame c n pt ct = Some (OK, next (next n), impl_ c, ct') ∧ wf ct' ∧
    span ct' = span ct ++ frame S n pt ∧ offset ct' = offset ct.
Proof.
  intros [_ He] Ht Hs Hwf. unfold chunk_encrypt_frame. rewrite Hs.
  unfold chunk_encrypt_frame_aead, CHUNK_SIZE_LEN. rewrite Ht. cbv zeta.
  destruct (SetCapacity_extend ct (2 * sl_tag + 2 + length pt) Hwf)
    as (b1 & junk & -> & W1 & C1 & O1 & S1 & J1). cbn [mbind option_bind].
  set (lenb := be16_bytes _). assert (length lenb = 2) as Hlb by done.
  rewrite He by lia. cbn [mbind option_bind].
  assert (RemainingCapacity ct = length (span ct)) as Hh by by rewrite length_span.
  pose proof (sl_seal_length n lenb) as L1. pose proof (sl_seal_length (next n) pt) as L2.
  assert (size b1 = length (span ct) + (2 * sl_tag + 2 + length pt)) as Z1.
  { rewrite <- (length_span b1 W1), S1, length_app. lia. }
  destruct (write_data_span b1 (RemainingCapacity ct) (sl_seal n lenb) W1) as (b2 & -> & W2 & C2 & O2 & S2);
    [lia|]. cbn [mbind option_bind]. rewrite Hh, S1, splice_app_r in S2 by done.
  assert (size b2 = size b1) as Z2 by (unfold size; congruence).
  destruct (write_data_span b2 (RemainingCapacity ct + length (sl_seal n lenb))
    (replicate (length pt + sl_tag) x00) W2) as (b3 & -> & W3 & C3 & O3 & S3); [len|].
  cbn [mbind option_bind]. rewrite S2, app_assoc, splice_app_r in S3 by (rewrite Hh; len).
  assert (size b3 = size b2) as Z3 by (unfold size; congruence).
  rewrite He by lia. cbn [mbind option_bind].
  destruct (write_data_span b3 (RemainingCapacity ct + length (sl_seal n lenb))
    (sl_seal (next n) pt) W3) as (b4 & -> & W4 & C4 & O4 & S4); [lia|].
  cbn [mbind option_bind]. exists b4. split; [done|]. split; [done|]. split; [|congruence].
  rewrite S4, S3, splice_app_r by (rewrite Hh; len).
  unfold frame. fold lenb. rewrite <- app_assoc. do 2 f_equal.
  rewrite length_replicate, drop_app_ge by (len). rewrite length_replicate, !drop_drop.
  rewrite drop_ge by (len). apply app_nil_r.
Qed.

Lemma encrypt_init_spec S T0 c pt ct :
  init_ c = true → enc_implements S (impl_ c) → tag_len_ c = @sl_tag S → is_stream c = false → wf ct →
  ∃ ct', encrypt T0 c pt ct
         = Some (with_counter (with_impl c (impl_ c)) (next (next (counter_ c))), ct', false) ∧
    wf ct' ∧ span ct' = span ct ++ frame S (counter_ c) pt ∧ offset ct' = offset ct.
Proof.
  intros Hi He Ht Hs Hwf. unfold encrypt. rewrite Hi. cbn [mbind option_bind].
  destruct (chunk_encrypt_frame_spec S c (counter_ c) pt ct He Ht Hs Hwf) as (ct' & -> & W & Sp & O).
  cbn [mbind option_bind]. eexists; split; [done|]. done.
Qed.

(** ** Decryption *)

Lemma DecryptPacket_seal S c n m max :
  dec_implements S c → length m <= max →
  DecryptPacket c n [] (sl_seal n m) max = Some (Some (c, m)).
Proof.
  intros [_ Hd] Hm. rewrite Hd by (rewrite sl_seal_length; lia). by rewrite sl_open_seal.
Qed.

Lemma frame_length_field p :
  payload_ok p →
  Z.to_nat (Z.land (be16 (to_u8 (Z.land (Z.shiftr (Z.land (Z.of_nat (length p)) CHUNK_SIZE_MASK) 8) 255))
                         (to_u8 (Z.land (Z.land (Z.of_nat (length p)) CHUNK_SIZE_MASK) 255)))
                   CHUNK_SIZE_MASK) = length p.
Proof.
  intros Hp. rewrite mask_ok by done. unfold payload_ok, CHUNK_SIZE_MASK in *.
  rewrite be16_roundtrip by lia. change 0x3fff%Z with CHUNK_SIZE_MASK. rewrite mask_ok by done. lia.
Qed.

(** The header of a frame is read and the length checked; what remains depends
    on whether the payload has arrived. *)
Lemma chunk_decrypt_header S c pt p b tail :
  dec_implements S (impl_ c) → tag_len_ c = @sl_tag S → is_stream c = false →
  wf b → payload_ok p → wf pt → offset pt = 0 → (CHUNK_SIZE_MASK <= Z.of_nat (capacity pt))%Z →
  span b = sl_seal (counter_ c) (be16_bytes (Z.land (Z.of_nat (length p)) CHUNK_SIZE_MASK)) ++ tail →
  sl_tag <= length tail →
  ∃ pt1 b1, wf pt1 ∧ offset pt1 = 0 ∧ capacity pt1 = length p ∧
    wf b1 ∧ span b1 = tail ∧ offset b1 = offset b + (2 + sl_tag) ∧
    capacity b1 = capacity b ∧ real_data b1 = real_data b ∧
    chunk_decrypt_frame c (counter_ c) pt b =
      if size b1 <? sl_tag + length p then
        b2 ← set_offset b1 (Z.of_nat (offset b1) - Z.of_nat 2 - Z.of_nat sl_tag);
        Some (EAGAIN, counter_ c, impl_ c, pt1, b2)
      else
        input ← rd_slice tail 0 (sl_tag + length p);
        r ← DecryptPacket (impl_ c) (next (counter_ c)) [] input (capacity pt1);
        match r with
        | None =>
            b2 ← set_offset b1 (Z.of_nat (offset b1) - Z.of_nat 2 - Z.of_nat sl_tag);
            Some (EBADMSG, next (counter_ c), impl_ c, pt1, b2)
        | Some (impl, out) =>
            pt2 ← write_data pt1 0 out;
            b2 ← set_offset b1 (Z.of_nat (offset b1) + Z.of_nat (sl_tag + length p));
            pt3 ← set_offset pt2 (Z.of_nat (offset pt2) + Z.of_nat (length out));
            Some (OK, next (next (counter_ c)), impl, pt3, b2)
        end.
Proof.
  intros Hd Ht Hs Hwf Hp Wpt Opt Cpt Hspan Htail.
  set (lenb := be16_bytes _) in Hspan. assert (length lenb = 2) as Hlb by done.
  pose proof (length_span b Hwf) as Hlb2. rewrite Hspan, length_app, sl_seal_length, Hlb in Hlb2.
  unfold payload_ok in Hp. pose proof (frame_length_field p Hp) as Hf.
  destruct (SetCapacity_shrink pt (length p)) as (pt1 & E1 & W1 & C1 & O1 & _ & _); [done|lia|].
  destruct (set_offset_advance b (2 + sl_tag)) as (b1 & E2 & W2 & S2 & C2 & O2 & R2); [done|lia|].
  exists pt1, b1. rewrite Hspan, drop_app_length' in S2 by (rewrite sl_seal_length; lia).
  rewrite Opt in O1. repeat (split; [done|]).
  unfold chunk_decrypt_frame. rewrite Hs. unfold chunk_decrypt_frame_aead, CHUNK_SIZE_LEN.
  rewrite Ht. cbv zeta.
  destruct (Nat.ltb_spec (size b) (sl_tag + 2 + sl_tag)); [lia|].
  rewrite Hspan, rd_slice_prefix by (rewrite sl_seal_length; lia).
  cbn [mbind option_bind]. rewrite (DecryptPacket_seal S) by (done || lia). cbn [mbind option_bind].
  unfold lenb, be16_bytes. cbn [rd lookup list_lookup mbind option_bind]. rewrite Hf.
  destruct (Nat.eqb_spec (length p) 0); [lia|].
  rewrite Opt, E2. cbn [mbind option_bind].
  change (Z.of_nat 0 + Z.of_nat (length p))%Z with (Z.of_nat (length p)). rewrite E1.
  cbn [mbind option_bind]. by rewrite S2.
Qed.

(** A buffer that starts with a whole frame. *)
Lemma chunk_decrypt_frame_ok S c pt p b rest :
  dec_implements S (impl_ c) → tag_len_ c = @sl_tag S → is_stream c = false →
  wf b → span b = frame S (counter_ c) p ++ rest → payload_ok p →
  wf pt → offset pt = 0 → (CHUNK_SIZE_MASK <= Z.of_nat (capacity pt))%Z →
  ∃ pt' b', chunk_decrypt_frame c (counter_ c) pt b
            = Some (OK, next (next (counter_ c)), impl_ c, pt', b') ∧
    wf b' ∧ span b' = rest ∧ wf pt' ∧ offset pt' = length p ∧ capacity pt' = length p ∧
    everything pt' = p.
Proof.
  intros Hd Ht Hs Hwf Hspan Hp Wpt Opt Cpt. unfold frame in Hspan. rewrite <- app_assoc in Hspan.
  pose proof (sl_seal_length (next (counter_ c)) p) as L2.
  destruct (chunk_decrypt_header S c pt p b (sl_seal (next (counter_ c)) p ++ rest))
    as (pt1 & b1 & W1 & O1 & C1 & W2 & S2 & O2 & C2 & R2 & ->); try done; [rewrite length_app; lia|].
  pose proof (length_span b1 W2) as Hl1. rewrite S2, length_app in Hl1.
  destruct (Nat.ltb_spec (size b1) (sl_tag + length p)); [lia|].
  rewrite rd_slice_prefix by lia. cbn [mbind option_bind].
  rewrite (DecryptPacket_seal S) by (done || lia). cbn [mbind option_bind].
  destruct (write_data_span pt1 0 p) as (pt2 & -> & W3 & C3 & O3 & S3);
    [done|unfold size; lia|]. cbn [mbind option_bind].
  destruct (set_offset_advance b1 (sl_tag + length p)) as (b2 & -> & W4 & S4 & _); [done|lia|].
  cbn [mbind option_bind].
  destruct (set_offset_advance pt2 (length p)) as (pt3 & -> & W5 & S5 & C5 & O5 & R5);
    [done|unfold size; lia|]. cbn [mbind option_bind].
  exists pt3, b2. split; [done|]. split; [done|].
  split; [rewrite S4, S2; apply drop_app_length'; lia|]. split; [done|]. split; [lia|]. split; [lia|].
  unfold everything. rewrite R5, C5.
  assert (span pt2 = take (capacity pt2) (real_data pt2)) as <-.
  { unfold span, size. by rewrite O3, O1, Nat.sub_0_r, drop_0. }
  pose proof (length_span pt1 W1) as Hl. unfold size in Hl.
  rewrite S3, splice_0, drop_ge, app_nil_r by lia. done.
Qed.

(** A buffer that holds a good length and not all of the payload. *)
Lemma chunk_decrypt_frame_short S c pt p b tail :
  dec_implements S (impl_ c) → tag_len_ c = @sl_tag S → is_stream c = false →
  wf b → span b = sl_seal (counter_ c) (be16_bytes (Z.land (Z.of_nat (length p)) CHUNK_SIZE_MASK)) ++ tail →
  length tail < sl_tag + length p → sl_tag <= length tail → payload_ok p →
  wf pt → offset pt = 0 → (CHUNK_SIZE_MASK <= Z.of_nat (capacity pt))%Z →
  ∃ pt' b', chunk_decrypt_frame c (counter_ c) pt b = Some (EAGAIN, counter_ c, impl_ c, pt', b') ∧
    wf b' ∧ span b' = span b.
Proof.
  intros Hd Ht Hs Hwf Hspan Hlt Hge Hp Wpt Opt Cpt. pose proof (length_span b Hwf) as Hlb.
  destruct (chunk_decrypt_header S c pt p b tail)
    as (pt1 & b1 & W1 & O1 & C1 & W2 & S2 & O2 & C2 & R2 & ->); try (done || lia).
  pose proof (length_span b1 W2) as Hl1. rewrite S2 in Hl1.
  pose proof (sl_seal_length (counter_ c) (be16_bytes (Z.land (Z.of_nat (length p)) CHUNK_SIZE_MASK))) as L1.
  simpl length in L1. pose proof (f_equal length Hspan) as Hl. rewrite length_app in Hl.
  destruct (Nat.ltb_spec (size b1) (sl_tag + length p)); [|lia].
  rewrite set_offset_spec by (done || (unfold wf in *; lia)). cbn [mbind option_bind].
  eexists _, _. split; [done|]. unfold wf, span, size in *. simpl.
  rewrite R2, C2. replace (Z.to_nat _) with (offset b) by lia. done.
Qed.

(** A buffer that is too short for any frame. *)
Lemma chunk_decrypt_frame_tiny S c pt b :
  tag_len_ c = @sl_tag S → is_stream c = false → size b < @sl_tag S + 2 + @sl_tag S →
  chunk_decrypt_frame c (counter_ c) pt b = Some (EAGAIN, counter_ c, impl_ c, pt, b).
Proof.
  intros Ht Hs Hsm. unfold chunk_decrypt_frame, chunk_decrypt_frame_aead, CHUNK_SIZE_LEN. rewrite Hs, Ht.
  destruct (Nat.ltb_spec (size b) (@sl_tag S + 2 + @sl_tag S)); [done|lia].
Qed.

(** A buffer that holds a proper prefix of a frame. *)
Lemma chunk_decrypt_frame_again S c pt p b rest :
  dec_implements S (impl_ c) → tag_len_ c = @sl_tag S → is_stream c = false →
  wf b → span b ++ rest = frame S (counter_ c) p → rest ≠ [] → payload_ok p →
  wf pt → offset pt = 0 → (CHUNK_SIZE_MASK <= Z.of_nat (capacity pt))%Z →
  ∃ pt' b', chunk_decrypt_frame c (counter_ c) pt b = Some (EAGAIN, counter_ c, impl_ c, pt', b') ∧
    wf b' ∧ span b' = span b.
Proof.
  intros Hd Ht Hs Hwf Hspan Hr Hp Wpt Opt Cpt. pose proof (length_span b Hwf) as Hlb.
  pose proof (f_equal length Hspan) as Hlf. rewrite length_app, length_frame in Hlf.
  assert (0 < length rest) by (destruct rest; [done|simpl; lia]).
  destruct (decide (size b < sl_tag + 2 + sl_tag)) as [Hsm|Hbig]; [by rewrite (chunk_decrypt_frame_tiny S); eauto|].
  pose proof (sl_seal_length (counter_ c) (be16_bytes (Z.land (Z.of_nat (length p)) CHUNK_SIZE_MASK))) as L1.
  simpl length in L1. unfold frame in Hspan.
  assert (∃ tail, span b = sl_seal (counter_ c) (be16_bytes (Z.land (Z.of_nat (length p)) CHUNK_SIZE_MASK)) ++ tail)
    as [tail Htail].
  { apply (f_equal (take (length (span b)))) in Hspan.
    rewrite take_app_length, take_app, (take_ge (sl_seal _ _)) in Hspan by lia. by eexists. }
  pose proof (f_equal length Htail) as Hlt. rewrite length_app in Hlt.
  by eapply chunk_decrypt_frame_short; try done; lia.
Qed.

(** ** The decoder's loop *)

Section Loop.
Context `{Visitor V}.
(** The visitor accepts non-empty buffers as long as it is in a state of [Inv]. *)
Variable Inv : V → Prop.
Hypothesis accepts : ∀ v b, Inv v → wf b → span b ≠ [] →
  snd (on_received_data v b) = true ∧ Inv (fst (on_received_data v b)).

(** A decoder past the salt, holding the pending bytes [b]. *)
Record dec_ready (S : Sealing) (c : cipher) (b : GrowableIOBuffer) : Prop := {
  dr_chunk : chunk_ c = Some b;
  dr_wf : wf b;
  dr_init : init_ c = true;
  dr_impl : dec_implements S (impl_ c);
  dr_tag : tag_len_ c = @sl_tag S;
  dr_aead : is_stream c = false }.

(** The visitor after a list of buffers. *)
Definition visit (v : V) (bufs : list GrowableIOBuffer) : V :=
  fold_left (λ v b, fst (on_received_data v b)) bufs v.

Lemma visit_app v xs ys : visit v (xs ++ ys) = visit (visit v xs) ys.
Proof. apply fold_left_app. Qed.

(** The fresh plaintext buffer, and what is handed to the visitor. *)
Lemma plaintext_buffer :
  ∃ pt, SetCapacity make SOCKET_BUF_SIZE = Some pt ∧ wf pt ∧ offset pt = 0 ∧
        (CHUNK_SIZE_MASK <= Z.of_nat (capacity pt))%Z.
Proof.
  destruct (SetCapacity_grow make SOCKET_BUF_SIZE) as (pt & -> & W & C & O & _);
    [apply wf_make|unfold SOCKET_BUF_SIZE; simpl; lia|].
  exists pt. split; [done|]. split; [done|]. split; [done|]. rewrite C.
  unfold SOCKET_BUF_SIZE, CHUNK_SIZE_MASK. lia.
Qed.

Lemma plaintext_delivered pt p :
  wf pt → offset pt = length p → capacity pt = length p → everything pt = p →
  ∃ pt', (pt ← SetCapacity pt (Z.of_nat (offset pt)); set_offset pt 0) = Some pt' ∧
         wf pt' ∧ span pt' = p.
Proof.
  intros W O C E. destruct (SetCapacity_shrink pt (offset pt)) as (p1 & -> & W1 & C1 & O1 & R1 & _);
    [done|lia|]. cbn [mbind option_bind]. rewrite set_offset_spec by (done || lia).
  eexists; split; [done|]. split; [unfold wf in *; simpl; lia|].
  unfold span, size. simpl. rewrite drop_0, Nat.sub_0_r, R1, C1, O. unfold everything in E.
  by rewrite <- C.
Qed.

Lemma loop_round S fuel c v b p rest :
  Inv v → dec_ready S c b → payload_ok p → span b = frame S (counter_ c) p ++ rest →
  ∃ c' b' buf, process_loop (1 + fuel) c v = process_loop fuel c' (visit v [buf]) ∧
    dec_ready S c' b' ∧ span b' = rest ∧ span buf = p ∧ wf buf ∧
    counter_ c' = next (next (counter_ c)) ∧ Inv (visit v [buf]).
Proof.
  intros Hv [Hc Hwf Hi Hd Ht Hs] Hp Hspan. cbn [process_loop Nat.add]. rewrite Hc. cbn [mbind option_bind].
  destruct (empty b) eqn:Hemp.
  { apply empty_span in Hemp; [|done]. rewrite Hemp in Hspan. apply (f_equal length) in Hspan.
    rewrite length_app, length_frame in Hspan. simpl in Hspan. lia. }
  destruct plaintext_buffer as (pt & -> & Wpt & Opt & Cpt). cbn [mbind option_bind].
  destruct (chunk_decrypt_frame_ok S c pt p b rest) as (pt' & b' & -> & Wb' & Sb' & Wp' & Op' & Cp' & Ep');
    try done. cbn [mbind option_bind].
  destruct (plaintext_delivered pt' p) as (buf & E & Wbuf & Sbuf); try done.
  destruct (SetCapacity pt' (Z.of_nat (offset pt'))) as [p1|]; [|done]. cbn [mbind option_bind] in E |- *.
  rewrite E. cbn [mbind option_bind].
  assert (span buf ≠ []) as Hnb by (rewrite Sbuf; by destruct p; unfold payload_ok in Hp; simpl in Hp; [lia|]).
  destruct (accepts v buf Hv Wbuf Hnb) as [Hok Hv']. unfold visit. cbn [fold_left].
  destruct (on_received_data v buf) as [v' ok] eqn:Ev. simpl in Hok. subst ok.
  exists (with_counter (with_chunk (with_impl c (impl_ c)) b') (next (next (counter_ c)))), b', buf.
  rewrite Ev. done.
Qed.

Lemma loop_stop S fuel c v b p rest :
  dec_ready S c b → payload_ok p → rest ≠ [] → span b ++ rest = frame S (counter_ c) p →
  ∃ c' b', process_loop (1 + fuel) c v = Some (c', v) ∧ dec_ready S c' b' ∧ span b' = span b ∧
    counter_ c' = counter_ c.
Proof.
  intros [Hc Hwf Hi Hd Ht Hs] Hp Hr Hspan. cbn [process_loop Nat.add]. rewrite Hc. cbn [mbind option_bind].
  destruct (empty b) eqn:Hemp; [by exists c, b|].
  destruct plaintext_buffer as (pt & -> & Wpt & Opt & Cpt). cbn [mbind option_bind].
  destruct (chunk_decrypt_frame_again S c pt p b rest) as (pt' & b' & -> & Wb' & Sb'); try done.
  cbn [mbind option_bind]. by exists (with_chunk (with_impl c (impl_ c)) b'), b'.
Qed.

Lemma process_loop_spec S pts : ∀ fuel c v b rest,
  Inv v → dec_ready S c b → Forall payload_ok pts → span b ++ rest = frames S (counter_ c) pts →
  size b < fuel →
  ∃ done todo bufs c' b', pts = done ++ todo ∧ Inv (visit v bufs) ∧
    process_loop fuel c v = Some (c', visit v bufs) ∧ dec_ready S c' b' ∧
    map span bufs = done ∧ Forall wf bufs ∧
    span b' ++ rest = frames S (counter_ c') todo ∧ (rest = [] → todo = []) ∧ counter_ c' = advance (counter_ c) done.
Proof.
  induction pts as [|p pts IH]; intros fuel c v b rest Hv R Hp Hspan Hfuel.
  - simpl in Hspan. apply app_eq_nil in Hspan as [Hb ->]. pose proof R as [Hc Hwf _ _ _ _].
    exists [], [], [], c, b. rewrite app_nil_r.
    destruct fuel; [lia|]. simpl. rewrite Hc. simpl.
    rewrite (proj2 (empty_span b Hwf)) by done. split_and!; try done. by rewrite Hb.
  - apply Forall_cons_1 in Hp as [Hp Hps]. simpl in Hspan.
    pose proof (length_span b (dr_wf _ _ _ R)) as Hlb. destruct fuel as [|fuel]; [lia|].
    destruct (decide (length (frame S (counter_ c) p) <= length (span b))) as [Hle|Hgt].
    + assert (∃ s, span b = frame S (counter_ c) p ++ s ∧ s ++ rest = frames S (next (next (counter_ c))) pts)
        as (s & Hb & Hs).
      { exists (drop (length (frame S (counter_ c) p)) (span b)).
        pose proof (f_equal (take (length (frame S (counter_ c) p))) Hspan) as X1.
        pose proof (f_equal (drop (length (frame S (counter_ c) p))) Hspan) as X2.
        rewrite take_app_length, take_app_le in X1 by done.
        rewrite drop_app_length, drop_app_le in X2 by done.
        split; [|done]. by rewrite <- X1 at 1; rewrite take_drop. }
      destruct (loop_round S fuel c v b p s Hv R Hp Hb) as (c1 & b1 & buf & E & R1 & Sb1 & Sbuf & Wbuf & C1 & V1).
      destruct (IH fuel c1 (visit v [buf]) b1 rest V1 R1 Hps) as (dn & td & bufs & c2 & b2 & -> & V2 & E2 & R2 & M & W & F & Z & Cn).
      { by rewrite Sb1, C1. }
      { rewrite <- (length_span b1 (dr_wf _ _ _ R1)), Sb1.
        apply (f_equal length) in Hb. rewrite length_app, length_frame in Hb. lia. }
      exists (p :: dn), td, (buf :: bufs), c2, b2. split; [done|].
      change (Datatypes.S fuel) with (1 + fuel). rewrite E, E2. change (buf :: bufs) with ([buf] ++ bufs).
      rewrite visit_app. split_and!; try done; [by simpl; rewrite Sbuf, M|by constructor|by rewrite Cn, C1].
    + assert (∃ r1, r1 ≠ [] ∧ span b ++ r1 = frame S (counter_ c) p) as (r1 & Hr1 & Hb).
      { exists (drop (length (span b)) (frame S (counter_ c) p)). split.
        - intros E. apply (f_equal length) in E. rewrite length_drop in E. simpl in E. lia.
        - pose proof (f_equal (take (length (span b))) Hspan) as X1.
          rewrite take_app_length, take_app_le in X1 by lia. rewrite X1 at 1. apply take_drop. }
      destruct (loop_stop S fuel c v b p r1 R Hp Hr1 Hb) as (c1 & b1 & E & R1 & Sb1 & C1).
      exists [], (p :: pts), [], c1, b1. change (Datatypes.S fuel) with (1 + fuel).
      split_and!; try done; [by rewrite Sb1, C1|].
      intros ->. rewrite app_nil_r in Hspan. apply (f_equal length) in Hspan.
      rewrite length_app in Hspan. lia.
Qed.

(** Bytes at the start of a frame that the key does not authenticate: the length,
    or the payload behind a good length. *)
Definition forged (S : Sealing) (n : Z) (bs : list byte) : Prop :=
  sl_tag + 2 + sl_tag <= length bs ∧
  (sl_open n (take (2 + sl_tag) bs) = None ∨
   ∃ p blk tail, payload_ok p ∧ length blk = length p + sl_tag ∧ sl_open (next n) blk = None ∧
     bs = sl_seal n (be16_bytes (Z.land (Z.of_nat (length p)) CHUNK_SIZE_MASK)) ++ blk ++ tail).

Lemma chunk_decrypt_forged S c pt b :
  dec_ready S c b → wf pt → offset pt = 0 → (CHUNK_SIZE_MASK <= Z.of_nat (capacity pt))%Z →
  forged S (counter_ c) (span b) →
  ∃ n pt' b', chunk_decrypt_frame c (counter_ c) pt b = Some (EBADMSG, n, impl_ c, pt', b').
Proof.
  intros [Hc Hwf Hi Hd Ht Hs] Wpt Opt Cpt [Hl [Hbad|(p & blk & tail & Hp & Hb & Hbad & Hsp)]].
  - unfold chunk_decrypt_frame. rewrite Hs. unfold chunk_decrypt_frame_aead, CHUNK_SIZE_LEN. rewrite Ht.
    pose proof (length_span b Hwf). destruct (Nat.ltb_spec (size b) (sl_tag + 2 + sl_tag)); [lia|].
    destruct (rd_slice_total (span b) 0 (2 + sl_tag)) as (q & Hq & Hlq); [lia|]. rewrite Hq.
    cbn [mbind option_bind]. destruct Hd as [_ Hd]. rewrite Hd by lia.
    apply rd_slice_Some in Hq as (-> & _ & _). rewrite drop_0, Hbad. cbn. by do 3 eexists.
  - destruct (chunk_decrypt_header S c pt p b (blk ++ tail)) as (pt1 & b1 & W1 & O1 & C1 & W2 & S2 & O2 & C2 & R2 & ->);
      try done; [len|].
    pose proof (length_span b1 W2) as Hl1. rewrite S2, length_app in Hl1.
    destruct (Nat.ltb_spec (size b1) (sl_tag + length p)); [lia|].
    rewrite rd_slice_prefix by lia. cbn [mbind option_bind]. destruct Hd as [_ Hd]. rewrite Hd by lia.
    rewrite Hbad. cbn [fmap option_fmap option_map mbind option_bind].
    rewrite set_offset_spec by (done || (unfold wf in *; lia)). cbn [mbind option_bind]. by do 3 eexists.
Qed.

(** A beginning of a forged frame: more is waited for, or it is seen. *)
Lemma chunk_decrypt_part S c pt b rest bs :
  dec_ready S c b → wf pt → offset pt = 0 → (CHUNK_SIZE_MASK <= Z.of_nat (capacity pt))%Z →
  span b ++ rest = bs → forged S (counter_ c) bs →
  (∃ n pt' b', chunk_decrypt_frame c (counter_ c) pt b = Some (EBADMSG, n, impl_ c, pt', b')) ∨
  (rest ≠ [] ∧ ∃ pt' b', chunk_decrypt_frame c (counter_ c) pt b = Some (EAGAIN, counter_ c, impl_ c, pt', b') ∧
     wf b' ∧ span b' = span b).
Proof.
  intros R Wpt Opt Cpt <- Hf. pose proof R as [Hc Hwf Hi Hd Ht Hs]. pose proof (length_span b Hwf) as Hlb.
  assert (rest = [] ∨ rest ≠ []) as [->|Hr] by (destruct rest; auto).
  { rewrite app_nil_r in Hf. left. by apply (chunk_decrypt_forged S). }
  destruct (decide (size b < sl_tag + 2 + sl_tag)) as [Hsm|Hbig]; [right; split; [done|]; rewrite (chunk_decrypt_frame_tiny S) by done; by eexists _, _|].
  destruct Hf as [Hl [Hbad|(q & blk & tail & Hq & Hb & Hbad & Hsp)]].
  { left. apply (chunk_decrypt_forged S); try done. split; [lia|]. left. by rewrite take_app_le in Hbad by lia. }
  pose proof (sl_seal_length (counter_ c) (be16_bytes (Z.land (Z.of_nat (length q)) CHUNK_SIZE_MASK))) as L1. simpl length in L1.
  set (hd := sl_seal _ _) in *.
  assert (span b = hd ++ drop (length hd) (span b)) as Eh.
  { pose proof (f_equal (take (length hd)) Hsp) as X. rewrite take_app_length, take_app_le in X by lia.
    rewrite <- X at 1. by rewrite take_drop. }
  set (t := drop (length hd) (span b)) in *. rewrite Eh, <- app_assoc in Hsp. apply app_inv_head in Hsp.
  assert (length t = size b - length hd) as Hlt by (unfold t; rewrite length_drop; lia).
  destruct (decide (length t < length blk)) as [Hsh|Hlg].
  - right. split; [done|]. eapply (chunk_decrypt_frame_short S c pt q b t); try done; lia.
  - left. apply (chunk_decrypt_forged S); try done. split; [lia|]. right. exists q, blk, (drop (length blk) t).
    split_and!; try done. rewrite Eh. f_equal. pose proof (f_equal (take (length blk)) Hsp) as X.
    rewrite take_app_length, take_app_le in X by lia. rewrite <- X at 1. by rewrite take_drop.
Qed.

(** The loop over genuine frames and a forged one behind them, of which [rest] is still to come. *)
Lemma process_loop_forged S bs pts : ∀ fuel c v b rest,
  Inv v → dec_ready S c b → Forall payload_ok pts →
  span b ++ rest = frames S (counter_ c) pts ++ bs → forged S (advance (counter_ c) pts) bs → size b < fuel →
  (∃ bufs c', process_loop fuel c v = Some (c', on_protocol_error (visit v bufs)) ∧ map span bufs = pts ∧ Forall wf bufs) ∨
  (∃ dn todo bufs c' b', pts = dn ++ todo ∧ Inv (visit v bufs) ∧ process_loop fuel c v = Some (c', visit v bufs) ∧
     dec_ready S c' b' ∧ map span bufs = dn ∧ Forall wf bufs ∧
     span b' ++ rest = frames S (counter_ c') todo ++ bs ∧ rest ≠ [] ∧ counter_ c' = advance (counter_ c) dn).
Proof.
  induction pts as [|p pts IH]; intros fuel c v b rest Hv R Hp Hspan Hf Hfuel; (destruct fuel as [|fuel]; [lia|]).
  - simpl in Hspan, Hf. cbn [process_loop]. rewrite (dr_chunk _ _ _ R). cbn [mbind option_bind].
    destruct (empty b) eqn:He.
    { right. exists [], [], [], c, b. split_and!; try done. intros ->.
      apply empty_span in He; [|apply R]. destruct Hf as [Hl _]. rewrite <- Hspan, He in Hl. simpl in Hl. lia. }
    destruct plaintext_buffer as (pt & -> & Wpt & Opt & Cpt). cbn [mbind option_bind].
    destruct (chunk_decrypt_part S c pt b rest bs R Wpt Opt Cpt Hspan Hf) as [(n & pt' & b' & ->)|(Hr & pt' & b' & -> & Wb' & Sb')];
      cbn [mbind option_bind].
    + left. by eexists [], _.
    + right. exists [], [], [], (with_chunk (with_impl c (impl_ c)) b'), b'. destruct R. split_and!; try done. by rewrite Sb'.
  - apply Forall_cons_1 in Hp as [Hp Hps]. cbn [frames] in Hspan. rewrite <- app_assoc in Hspan.
    pose proof (length_span b (dr_wf _ _ _ R)) as Hlb.
    set (fr := frame S (counter_ c) p) in *.
    destruct (decide (length fr <= length (span b))) as [Hle|Hgt].
    + assert (span b = fr ++ drop (length fr) (span b) ∧
        drop (length fr) (span b) ++ rest = frames S (next (next (counter_ c))) pts ++ bs) as [Hb Hs].
      { pose proof (f_equal (take (length fr)) Hspan) as X1. pose proof (f_equal (drop (length fr)) Hspan) as X2.
        rewrite take_app_length, take_app_le in X1 by done. rewrite drop_app_length, drop_app_le in X2 by done.
        split; [|done]. by rewrite <- X1 at 1; rewrite take_drop. }
      destruct (loop_round S fuel c v b p _ Hv R Hp Hb) as (c1 & b1 & buf & E & R1 & Sb1 & Sbuf & Wbuf & C1 & V1).
      change (Datatypes.S fuel) with (1 + fuel). rewrite E.
      assert (size b1 < fuel) as Hfu.
      { rewrite <- (length_span b1 (dr_wf _ _ _ R1)), Sb1, length_drop. unfold fr in *. rewrite length_frame in *. lia. }
      destruct (IH fuel c1 (visit v [buf]) b1 rest V1 R1 Hps) as [(bufs & c2 & -> & M & W)|
        (dn & td & bufs & c2 & b2 & -> & V2 & -> & R2 & M & W & F & Z & Cn)]; [by rewrite Sb1, C1|by rewrite C1|done| |].
      * left. exists (buf :: bufs), c2. split; [done|]. split; [by simpl; rewrite Sbuf, M|by constructor].
      * right. exists (p :: dn), td, (buf :: bufs), c2, b2. split_and!; try done; [by simpl; rewrite Sbuf, M|by constructor|].
        by rewrite Cn, C1.
    + assert (span b ++ drop (length (span b)) fr = fr) as Hb.
      { pose proof (f_equal (take (length (span b))) Hspan) as X1. rewrite take_app_length, take_app_le in X1 by lia.
        rewrite X1 at 1. apply take_drop. }
      destruct (loop_stop S fuel c v b p (drop (length (span b)) fr) R Hp) as (c1 & b1 & E & R1 & Sb1 & C1); [|exact Hb|].
      { intros E. apply (f_equal length) in E. rewrite length_drop in E. simpl in E. lia. }
      right. exists [], (p :: pts), [], c1, b1. change (Datatypes.S fuel) with (1 + fuel).
      split_and!; try done; [by rewrite Sb1, C1; cbn [frames]; rewrite <- app_assoc|].
      intros ->. rewrite app_nil_r in Hspan. apply (f_equal length) in Hspan. rewrite length_app in Hspan. lia.
Qed.

End Loop.

(** ** Keys *)

(** EVP_BytesToKey(3) with MD5, no salt and one round: D(1) = MD5(pass),
    D(i) = MD5(D(i-1) pass), and the key is the first bytes of D(1) D(2) ... *)
Fixpoint bytes_to_key (n : nat) (prev pass : list byte) : list byte :=
  match n with
  | 0 => []
  | S n => let d := md5 (prev ++ pass) in d ++ bytes_to_key n d pass
  end.

Lemma copy_digest_spec md skey j k :
  j <= k → k <= length skey →
  copy_digest md skey j k
  = (splice j (take (k - j) md) skey, j + length md `min` (k - j)).
Proof.
  revert skey j. induction md as [|b md IH]; intros skey j Hj Hk; simpl.
  - rewrite take_nil. unfold splice. simpl. by rewrite !Nat.add_0_r, take_drop.
  - destruct (Nat.leb_spec k j).
    + assert (k - j = 0) as -> by lia. unfold splice. simpl. by rewrite !Nat.add_0_r, take_drop.
    + rewrite IH by (rewrite ?length_insert; lia). destruct (k - j) as [|d] eqn:Ed; [lia|].
      replace (k - (j + 1)) with d by lia. simpl take. f_equal; [|simpl; lia].
      unfold splice. replace (j + 1) with (Datatypes.S j) by lia.
      rewrite (take_S_r _ j b) by (apply list_lookup_insert_eq; lia).
      rewrite take_insert_ge, drop_insert_lt by lia. rewrite <- app_assoc. simpl.
      by rewrite Nat.add_succ_r.
Qed.

Lemma bytes_to_key_length n prev pass : length (bytes_to_key n prev pass) = 16 * n.
Proof.
  revert prev. induction n as [|n IH]; intros prev; simpl; [done|].
  rewrite length_app, md5_length, IH. lia.
Qed.

Lemma bytes_to_key_take n n' k prev pass :
  k <= 16 * n → n <= n' → take k (bytes_to_key n prev pass) = take k (bytes_to_key n' prev pass).
Proof.
  revert n' k prev. induction n as [|n IH]; intros n' k prev Hk Hn.
  - assert (k = 0) as -> by lia. by rewrite !take_0.
  - destruct n' as [|n']; [lia|]. cbn [bytes_to_key]. cbv zeta. rewrite !take_app, md5_length.
    f_equal. apply IH; lia.
Qed.

Lemma derive_loop_spec fuel pass md skey first j k :
  j <= k → k <= length skey → k <= j + fuel →
  derive_loop fuel pass md skey first j k
  = Some (take j skey ++ take (k - j) (bytes_to_key fuel (if first then [] else md) pass) ++ drop k skey).
Proof.
  revert md skey first j. induction fuel as [|fuel IH]; intros md skey first j Hj Hk Hf.
  - assert (j = k) as -> by lia. cbn [derive_loop]. rewrite Nat.leb_refl, Nat.sub_diag, take_0.
    cbn [app]. by rewrite take_drop.
  - cbn [derive_loop bytes_to_key]. destruct (Nat.leb_spec k j).
    { assert (j = k) as -> by lia. rewrite Nat.sub_diag, take_0. cbn [app]. by rewrite take_drop. }
    cbv zeta. set (d := md5 _). assert (length d = 16) as Hd by apply md5_length.
    rewrite copy_digest_spec by done. rewrite Hd.
    assert (length (take (k - j) d) = 16 `min` (k - j)) as Hl by (rewrite length_take; lia).
    rewrite IH by (rewrite ?length_splice; lia). f_equal.
    rewrite <- Hl at 1. rewrite take_splice by lia. rewrite take_app, Hd, <- !app_assoc. do 2 f_equal.
    f_equal; [f_equal; lia|]. unfold splice. rewrite app_assoc, drop_app_ge by (len).
    rewrite drop_drop. f_equal. len.
Qed.

Lemma derive_key_spec pass skey k :
  pass ≠ [] → k <= length skey →
  derive_key pass skey k = Some (k, take k (bytes_to_key (k + 1) [] pass) ++ drop k skey).
Proof.
  intros Hp Hk. unfold derive_key. destruct pass; [done|].
  rewrite derive_loop_spec by lia. cbn [mbind option_bind]. by rewrite Nat.sub_0_r.
Qed.

(** ** Setting up the two ends *)

Lemma SetKey_nonce_size c key : nonce_size_ (snd (SetKey c key)) = nonce_size_ c.
Proof.
  unfold SetKey, Evp_SetKey, Mbedtls_SetKey, AeadBase_SetKey.
  destruct (back c), (length key =? key_size_ c); simpl; try done;
    repeat (case_match; simpl); done.
Qed.

(** The parameters of an AEAD suite, as the two factories agree on them. *)
Record suite := mkSuite { su_method : cipher_method; su_back : backend; su_key : nat; su_tag : nat; su_nonce : nat }.

Definition suite_ok (u : suite) : Prop :=
  is_aead (su_method u) = true ∧
  (su_back u = Evp (aead_of (su_back u)) ∨ su_back u = Sodium (aead_of (su_back u))) ∧
  su_key u = evp_key_length (aead_of (su_back u)) ∧ 12 <= su_tag u <= 16 ∧ 12 <= su_nonce u <= 24.

Definition suite_impl (e : bool) (u : suite) : Crypter :=
  AeadBase e (su_method u) (su_back u) (su_key u) (su_tag u) (su_nonce u).

Lemma suite_key_bound u : suite_ok u → 16 <= su_key u <= 32.
Proof. intros (_ & _ & -> & _). destruct (aead_of _); simpl; lia. Qed.

(** A cipher object before its first byte, with key memory [km]. *)
Definition fresh (e : bool) (u : suite) (km : list byte) : cipher :=
  mkCipher (replicate MAX_KEY_LENGTH x00) km (su_key u) (su_tag u) (suite_impl e u) 0 false None.

Lemma make_cipher_fresh m password :
  is_aead m = true →
  ∃ u km, suite_ok u ∧ su_method u = m ∧ length km = MAX_KEY_LENGTH ∧
    ∀ e, make_cipher [] password m e = Some (fresh e u km).
Proof.
  intros Hm. destruct (create_aead true m Hm) as (b & k & t & n & E1 & Hb & Hk & Ht & Hn & E2).
  exists (mkSuite m b k t n).
  assert (16 <= k <= 32) as Hkb by (apply (suite_key_bound (mkSuite m b k t n)); done).
  destruct password as [|p pw].
  - exists (replicate MAX_KEY_LENGTH x00). split; [done|]. split; [done|].
    split; [apply length_replicate|]. intros [|]; unfold make_cipher; simpl in E1, E2;
      [rewrite E1|rewrite E2]; done.
  - exists (take k (bytes_to_key (k + 1) [] (p :: pw)) ++ drop k (replicate MAX_KEY_LENGTH x00)).
    split; [done|]. split; [done|]. split.
    { rewrite length_app, length_take, bytes_to_key_length, length_drop, length_replicate.
      unfold MAX_KEY_LENGTH. lia. }
    intros [|]; unfold make_cipher; simpl in E1, E2; [rewrite E1|rewrite E2]; cbn [mbind option_bind];
      rewrite derive_key_spec by (done || (rewrite length_replicate; unfold MAX_KEY_LENGTH; simpl; lia));
      done.
Qed.

(** The subkey of a salt. *)
Definition subkey (u : suite) (km salt : list byte) : list byte :=
  let k := su_key u in
  take k (Hkdf.rfc5869_stream (Hkdf.rfc2104 salt (take k km)) SUBKEY_INFO
            (if k `mod` 20 =? 0 then k `div` 20 else k `div` 20 + 1)).

Lemma subkey_length u km salt : suite_ok u → length (subkey u km salt) = su_key u.
Proof.
  intros Hu. unfold subkey. rewrite length_take, Hkdf.rfc5869_stream_length.
  pose proof (Hkdf.ceil20 (su_key u)) as [Hc _]. cbv zeta in Hc. lia.
Qed.

Definition stream_sealing (u : suite) (km salt : list byte) : Sealing :=
  method_sealing (su_back u) (su_nonce u) (su_tag u) (subkey u km salt).

Lemma set_key_aead_spec T0 e u c salt :
  suite_ok u → impl_ c = suite_impl e u → key_len_ c = su_key u →
  set_key_aead T0 c salt
  = Some (with_impl (with_counter c 0) (install (suite_impl e u) (subkey u (key_ c) salt))).
Proof.
  intros Hu Hi Hk. pose proof (suite_key_bound u Hu) as Hb. unfold set_key_aead. rewrite Hk.
  rewrite Hkdf.crypto_hkdf_spec by (rewrite length_replicate; unfold MAX_KEY_LENGTH; lia).
  destruct (Nat.ltb_spec (255 * 20) (su_key u)); [lia|]. cbn [mbind option_bind].
  fold (subkey u (key_ c) salt). pose proof (subkey_length u (key_ c) salt Hu) as Hl.
  cbn [with_counter impl_ key_len_]. rewrite Hk, Hi, take_app_length' by done. do 2 f_equal.
  unfold install. f_equal. f_equal. unfold GetNoncePrefixSize. rewrite SetKey_nonce_size, Nat.min_id.
  rewrite take_replicate. f_equal. destruct Hu as (_ & _ & _ & _ & ?).
  unfold suite_impl, MAX_NONCE_LENGTH. simpl. lia.
Qed.

(** Both ends after the salt. *)
Lemma install_enc u km salt :
  suite_ok u → enc_implements (stream_sealing u km salt) (install (suite_impl true u) (subkey u km salt)) ∧
  cipher_id (install (suite_impl true u) (subkey u km salt)) = su_method u.
Proof.
  intros Hu. pose proof (subkey_length u km salt Hu). destruct Hu as (Hm & Hb & Hk & Ht & Hn).
  unfold suite_impl. rewrite install_eq by done. split; [by apply keyed_enc|done].
Qed.

Lemma install_dec u km salt :
  suite_ok u → dec_implements (stream_sealing u km salt) (install (suite_impl false u) (subkey u km salt)) ∧
  cipher_id (install (suite_impl false u) (subkey u km salt)) = su_method u.
Proof.
  intros Hu. pose proof (subkey_length u km salt Hu). destruct Hu as (Hm & Hb & Hk & Ht & Hn).
  unfold suite_impl. rewrite install_eq by done. split; [by apply keyed_dec|done].
Qed.

Lemma is_stream_aead c : is_aead (cipher_id (impl_ c)) = true → is_stream c = false.
Proof. unfold is_stream. by destruct (cipher_id (impl_ c)). Qed.

(** ** The encoder over a sequence of calls *)


Lemma frames_app S n xs ys : frames S n (xs ++ ys) = frames S n xs ++ frames S (advance n xs) ys.
Proof.
  revert n. induction xs as [|x xs IH]; intros n; simpl; [done|]. by rewrite IH, app_assoc.
Qed.

Lemma advance_app n xs ys : advance n (xs ++ ys) = advance (advance n xs) ys.
Proof. revert n. induction xs; intros n; simpl; auto. Qed.

Record enc_ready (S : Sealing) (c : cipher) : Prop := {
  er_init : init_ c = true;
  er_impl : enc_implements S (impl_ c);
  er_tag : tag_len_ c = @sl_tag S;
  er_aead : is_stream c = false }.

Lemma encrypt_ready S T0 c pt ct :
  enc_ready S c → wf ct →
  ∃ c' ct', encrypt T0 c pt ct = Some (c', ct', false) ∧ enc_ready S c' ∧
    counter_ c' = next (next (counter_ c)) ∧ wf ct' ∧
    span ct' = span ct ++ frame S (counter_ c) pt ∧ offset ct' = offset ct.
Proof.
  intros [Hi He Ht Hs] Hwf.
  destruct (encrypt_init_spec S T0 c pt ct Hi He Ht Hs Hwf) as (ct' & -> & W & Sp & O).
  do 2 eexists. split; [done|]. done.
Qed.

(** [EncryptData] past the salt: the appended bytes are frames of the plaintext. *)
Lemma encrypt_loop_ready S T0 plaintext : ∀ fuel c off cb err,
  enc_ready S c → wf cb → off <= length plaintext → length plaintext - off <= fuel →
  ∃ c' cb' pts, encrypt_loop fuel T0 c plaintext off cb err = Some (c', cb', err) ∧
    enc_ready S c' ∧ counter_ c' = advance (counter_ c) pts ∧ wf cb' ∧ offset cb' = offset cb ∧
    span cb' = span cb ++ frames S (counter_ c) pts ∧ Forall payload_ok pts ∧
    concat pts = drop off plaintext.
Proof.
  induction fuel as [|fuel IH]; intros c off cb err R Hwf Hoff Hf; cbn [encrypt_loop].
  - destruct (Nat.ltb_spec off (length plaintext)); [lia|].
    exists c, cb, []. simpl. rewrite app_nil_r, drop_ge by lia. split_and!; done.
  - destruct (Nat.ltb_spec off (length plaintext)).
    2:{ exists c, cb, []. simpl. rewrite app_nil_r, drop_ge by lia. split_and!; done. }
    cbv zeta. set (n := (length plaintext - off) `min` SS_FRAME_SIZE).
    assert (1 <= n <= length plaintext - off ∧ (Z.of_nat n <= CHUNK_SIZE_MASK)%Z) as [Hn Hm]
      by (unfold n, SS_FRAME_SIZE, CHUNK_SIZE_MASK; lia).
    clearbody n. destruct (rd_slice_total plaintext off n) as (p & Hp & Hl); [lia|].
    rewrite Hp. cbn [mbind option_bind].
    destruct (encrypt_ready S T0 c p cb R Hwf) as (c1 & cb1 & -> & R1 & C1 & W1 & S1 & O1).
    cbn [mbind option_bind]. rewrite orb_false_r.
    destruct (IH c1 (off + n) cb1 err R1 W1) as (c2 & cb2 & pts & E & R2 & C2 & W2 & O2 & S2 & P2 & K2);
      [lia|lia|].
    exists c2, cb2, (p :: pts). rewrite E, C2, C1, S2, S1, C1. simpl.
    rewrite <- app_assoc. split_and!; try done; [congruence|constructor; [unfold payload_ok; lia|done]|].
    rewrite K2. apply rd_slice_Some in Hp as (-> & _ & _). rewrite <- drop_drop. apply take_drop.
Qed.

(** The first piece is preceded by the salt. *)
Lemma encrypt_fresh u km T0 pt ct :
  suite_ok u → length km = MAX_KEY_LENGTH → wf ct →
  let S := stream_sealing u km (rand_bytes (su_key u)) in
  ∃ c' ct', encrypt T0 (fresh true u km) pt ct = Some (c', ct', false) ∧ enc_ready S c' ∧
    counter_ c' = next (next 0) ∧ wf ct' ∧ offset ct' = offset ct ∧
    span ct' = span ct ++ rand_bytes (su_key u) ++ frame S 0 pt.
Proof.
  intros Hu Hkm Hwf S. pose proof (suite_key_bound u Hu) as Hkb. pose proof Hu as (Hm & _).
  set (salt := rand_bytes (su_key u)). assert (length salt = su_key u) as Hls by apply rand_length.
  unfold encrypt. cbn [fresh init_].
  assert (∃ c1 b1, encrypt_salt T0 (fresh true u km) ct = Some (c1, b1) ∧ enc_ready S (with_init c1) ∧
    counter_ c1 = 0%Z ∧ wf b1 ∧ offset b1 = offset ct ∧ span b1 = span ct ++ salt) as
    (c1 & b1 & E1 & R1 & C1 & W1 & O1 & S1).
  { unfold encrypt_salt. rewrite is_stream_aead by done. cbv zeta. cbn [fresh key_len_ salt_]. fold salt.
    destruct (SetCapacity_extend ct (su_key u) Hwf) as (b1 & junk & -> & W1 & C1 & O1 & S1 & J1).
    cbn [mbind option_bind with_salt salt_]. rewrite (splice_0 salt), take_app_length' by done.
    pose proof (length_span ct Hwf) as Hlc. pose proof (length_span b1 W1) as Hlb. rewrite S1, length_app in Hlb.
    replace (capacity ct) with (offset b1 + size ct) by (unfold wf, size in *; lia).
    change (write_at b1 (offset b1 + size ct) salt) with (write_data b1 (size ct) salt).
    destruct (write_data_span b1 (size ct) salt W1) as (b2 & -> & W2 & C2 & O2 & S2); [lia|].
    cbn [mbind option_bind].
    rewrite (set_key_aead_spec T0 true u) by done. cbn [mbind option_bind key_ with_salt].
    do 2 eexists. split; [done|]. destruct (install_enc u km salt Hu) as [He Hid].
    split; [split; [done|exact He|done|apply is_stream_aead; simpl; by rewrite Hid]|].
    split; [done|]. split; [done|]. split; [congruence|].
    rewrite S2, S1, splice_app_r, drop_ge, app_nil_r by lia. done. }
  cbn [fresh] in E1 |- *. rewrite E1. cbn [mbind option_bind].
  destruct R1 as [Hi He Ht Hs].
  destruct (chunk_encrypt_frame_spec S (with_init c1) (counter_ (with_init c1)) pt b1 He Ht Hs W1) as (ct' & E & W & Sp & O).
  rewrite E. cbn [mbind option_bind]. do 2 eexists. split; [done|].
  split; [done|]. assert (counter_ (with_init c1) = 0%Z) as C2 by exact C1. rewrite C2 in Sp |- *.
  split; [done|]. split; [done|]. split; [congruence|]. by rewrite Sp, S1, <- app_assoc.
Qed.

(** A call is a plaintext and the buffer that [EncryptData] appends to; the
    result is the bytes the calls appended, in order. *)
Fixpoint encrypt_calls (T0 : list byte) (c : cipher) (calls : list (list byte * GrowableIOBuffer))
  : option (cipher * list byte * bool) :=
  match calls with
  | [] => Some (c, [], false)
  | (plaintext, cb) :: calls =>
      '(c, cb', e) ← encrypt_loop (length plaintext) T0 c plaintext 0 cb false;
      '(c, out, e') ← encrypt_calls T0 c calls;
      Some (c, drop (size cb) (span cb') ++ out, e || e')
  end.

Lemma encrypt_calls_ready S T0 calls : ∀ c,
  enc_ready S c → Forall (λ cl, wf (snd cl)) calls →
  ∃ c' pts, encrypt_calls T0 c calls = Some (c', frames S (counter_ c) pts, false) ∧
    Forall payload_ok pts ∧ concat pts = concat (map fst calls).
Proof.
  induction calls as [|[p cb] calls IH]; intros c R Hw; cbn [encrypt_calls].
  - exists c, []. split_and!; done.
  - apply Forall_cons_1 in Hw as [Hcb Hw]. simpl in Hcb.
    destruct (encrypt_loop_ready S T0 p (length p) c 0 cb false)
      as (c1 & cb1 & pts1 & -> & R1 & C1 & W1 & O1 & S1 & P1 & K1); [done|done|lia|lia|].
    cbn [mbind option_bind]. destruct (IH c1 R1 Hw) as (c2 & pts2 & -> & P2 & K2).
    cbn [mbind option_bind]. exists c2, (pts1 ++ pts2).
    rewrite S1, drop_app_length' by by rewrite length_span. rewrite frames_app, C1.
    split; [done|]. split; [by apply Forall_app|].
    rewrite concat_app, K1, K2, drop_0. done.
Qed.

(** [EncryptData] of a non-empty plaintext by a fresh encoder. *)
Lemma encrypt_loop_fresh u km T0 p cb :
  suite_ok u → length km = MAX_KEY_LENGTH → p ≠ [] → wf cb →
  let salt := rand_bytes (su_key u) in
  let S := stream_sealing u km salt in
  ∃ c1 cb1 pts1, encrypt_loop (length p) T0 (fresh true u km) p 0 cb false = Some (c1, cb1, false) ∧
    enc_ready S c1 ∧ counter_ c1 = advance 0 pts1 ∧ wf cb1 ∧ offset cb1 = offset cb ∧
    span cb1 = span cb ++ salt ++ frames S 0 pts1 ∧ Forall payload_ok pts1 ∧ concat pts1 = p ∧
    (length p <= SS_FRAME_SIZE → pts1 = [p]).
Proof.
  intros Hu Hkm Hp Hcb salt S. assert (1 <= length p) as Hlp by (destruct p; [done|simpl; lia]).
  destruct (length p) as [|fuel] eqn:Hlen; [lia|]. cbn [encrypt_loop]. rewrite Hlen.
  cbn [Nat.ltb Nat.leb]. cbv zeta. rewrite Nat.sub_0_r.
  set (n := Datatypes.S fuel `min` SS_FRAME_SIZE).
  assert (1 <= n <= Datatypes.S fuel ∧ (Z.of_nat n <= CHUNK_SIZE_MASK)%Z) as [Hn Hm]
    by (unfold n, SS_FRAME_SIZE, CHUNK_SIZE_MASK; lia).
  assert (Datatypes.S fuel <= SS_FRAME_SIZE → n = Datatypes.S fuel) as Hone by (unfold n; lia).
  clearbody n. destruct (rd_slice_total p 0 n) as (q & Hq & Hl); [lia|].
  rewrite Hq. cbn [mbind option_bind].
  destruct (encrypt_fresh u km T0 q cb Hu Hkm Hcb) as (c1 & cb1 & -> & R1 & C1 & W1 & O1 & S1).
  cbn [mbind option_bind orb].
  destruct (encrypt_loop_ready S T0 p fuel c1 (0 + n) cb1 false R1 W1)
    as (c2 & cb2 & pts & -> & R2 & C2 & W2 & O2 & S2 & P2 & K2); [lia|lia|].
  exists c2, cb2, (q :: pts). split; [done|]. split; [done|].
  split; [by rewrite C2, C1|]. split; [done|]. split; [congruence|].
  split; [rewrite S2, S1, C1; simpl; by rewrite <- !app_assoc|].
  split; [constructor; [unfold payload_ok; lia|done]|].
  simpl. rewrite K2. apply rd_slice_Some in Hq as (-> & _ & _). rewrite drop_0, take_drop.
  split; [done|]. intros Hsm. rewrite (Hone Hsm), <- Hlen, firstn_all. f_equal.
  rewrite (Hone Hsm), <- Hlen, Nat.add_0_l, drop_all in K2.
  destruct pts as [|pt pts]; [done|]. apply Forall_cons_1 in P2 as [Pt _]. unfold payload_ok in Pt.
  destruct pt; [simpl in Pt; lia|done].
Qed.

Lemma encrypt_calls_fresh u km T0 calls :
  suite_ok u → length km = MAX_KEY_LENGTH → calls ≠ [] →
  Forall (λ cl, fst cl ≠ [] ∧ wf (snd cl)) calls →
  let salt := rand_bytes (su_key u) in
  ∃ c' pts, encrypt_calls T0 (fresh true u km) calls
            = Some (c', salt ++ frames (stream_sealing u km salt) 0 pts, false) ∧
    Forall payload_ok pts ∧ concat pts = concat (map fst calls).
Proof.
  intros Hu Hkm Hne Hw salt. destruct calls as [|[p cb] calls]; [done|].
  apply Forall_cons_1 in Hw as [[Hp Hcb] Hw]. simpl in Hp, Hcb.
  set (S := stream_sealing u km salt).
  destruct (encrypt_loop_fresh u km T0 p cb Hu Hkm Hp Hcb)
    as (c1 & cb1 & pts1 & E1 & R1 & C1 & W1 & O1 & S1 & P1 & K1 & _).
  fold salt in R1, S1. fold S in R1, S1.
  cbn [encrypt_calls]. rewrite E1. cbn [mbind option_bind].
  destruct (encrypt_calls_ready S T0 calls c1 R1) as (c2 & pts2 & -> & P2 & K2).
  { eapply Forall_impl; [|exact Hw]. by intros ? []. }
  cbn [mbind option_bind]. exists c2, (pts1 ++ pts2).
  rewrite S1, drop_app_length' by by rewrite length_span. rewrite frames_app, C1, <- app_assoc.
  split; [done|]. split; [by apply Forall_app|]. rewrite concat_app, K1, K2. done.
Qed.

(** ** The decoder over a sequence of segments *)

Lemma join_chunk_spec (prev : option GrowableIOBuffer) ct :
  (∀ b, prev = Some b → wf b) → wf ct →
  ∃ chunk, join_chunk prev ct = Some chunk ∧ wf chunk ∧
    span chunk = (match prev with Some b => span b | None => [] end) ++ span ct.
Proof.
  unfold join_chunk. intros Hc Hwf. destruct prev as [p|]; [|by exists ct].
  specialize (Hc p eq_refl). cbv zeta. pose proof (length_span p Hc) as Lp. pose proof (length_span ct Hwf) as Lc.
  destruct (SetCapacity_make (RemainingCapacity p + size ct)) as (b0 & -> & W0 & O0 & C0 & L0).
  cbn [mbind option_bind]. assert (RemainingCapacity p = length (span p)) as Hr by by rewrite Lp.
  pose proof (length_span b0 W0) as Lb0.
  destruct (write_data_span b0 0 (span p) W0) as (b1 & -> & W1 & C1 & O1 & S1); [lia|].
  cbn [mbind option_bind]. assert (size b1 = size b0) as Z1 by (unfold size; congruence).
  destruct (write_data_span b1 (RemainingCapacity p) (span ct) W1) as (b2 & -> & W2 & C2 & O2 & S2); [lia|].
  exists b2. split; [done|]. split; [done|].
  rewrite S2, S1, splice_0, splice_app_r, drop_ge, app_nil_r by (len). done.
Qed.

Section Decoder.
Context `{Visitor V}.
Variable Inv : V → Prop.
Hypothesis accepts : ∀ v b, Inv v → wf b → span b ≠ [] →
  snd (on_received_data v b) = true ∧ Inv (fst (on_received_data v b)).

(** [process_bytes] joins the pending bytes and the new ones. *)
Definition pending (c : cipher) : list byte :=
  match chunk_ c with Some b => span b | None => [] end.

Lemma merge_chunk c ct :
  (∀ b, chunk_ c = Some b → wf b) → wf ct →
  ∃ chunk, join_chunk (chunk_ c) ct = Some chunk ∧ wf chunk ∧ span chunk = pending c ++ span ct.
Proof. unfold pending. apply join_chunk_spec. Qed.

(** How far the decoder has come: [rest] is the ciphertext still to arrive and
    [dn] the payloads it has delivered. *)
Inductive dec_rel (u : suite) (km salt : list byte) (pts : list (list byte))
  : cipher → list byte → list (list byte) → Prop :=
  | rel_salt c rest :
      init_ c = false → impl_ c = suite_impl false u → key_len_ c = su_key u → tag_len_ c = su_tag u →
      key_ c = km → length (salt_ c) = MAX_KEY_LENGTH →
      (∀ b, chunk_ c = Some b → wf b) →
      pending c ++ rest = salt ++ frames (stream_sealing u km salt) 0 pts →
      length (pending c) < su_key u →
      dec_rel u km salt pts c rest []
  | rel_frames c b rest dn todo :
      dec_ready (stream_sealing u km salt) c b → pts = dn ++ todo →
      span b ++ rest = frames (stream_sealing u km salt) (counter_ c) todo →
      (rest = [] → todo = []) → counter_ c = advance 0 dn →
      dec_rel u km salt pts c rest dn.

(** The read that completes the salt: the keys are installed and the loop starts. *)
Lemma process_bytes_start u salt T0 c v seg tl :
  suite_ok u → length salt = su_key u → wf seg →
  init_ c = false → impl_ c = suite_impl false u → key_len_ c = su_key u → tag_len_ c = su_tag u →
  length (salt_ c) = MAX_KEY_LENGTH → (∀ b, chunk_ c = Some b → wf b) →
  pending c ++ span seg = salt ++ tl →
  ∃ c1 b1, process_bytes T0 c v seg = process_loop (size b1 + 1) c1 v ∧
    dec_ready (stream_sealing u (key_ c) salt) c1 b1 ∧ counter_ c1 = 0%Z ∧ span b1 = tl.
Proof.
  intros Hu Hsalt Wseg Hi Him Hk Ht Hsl Hwc Hpend. pose proof (suite_key_bound u Hu) as Hkb.
  unfold process_bytes. destruct (merge_chunk c seg Hwc Wseg) as (chunk & -> & Wc & Sc). cbn [mbind option_bind].
  change (init_ (with_chunk c chunk)) with (init_ c). rewrite Hi.
  change (key_len_ (with_chunk c chunk)) with (key_len_ c). rewrite Hk.
  rewrite <- Sc in Hpend. pose proof (length_span chunk Wc) as Hlc. rewrite Hpend, length_app in Hlc.
  destruct (Nat.ltb_spec (size chunk) (su_key u)); [lia|].
  unfold decrypt_salt. rewrite is_stream_aead by (simpl; rewrite Him; apply Hu). cbv zeta.
  cbn [with_chunk key_len_ salt_]. rewrite Hk, Hpend, rd_slice_prefix by done. cbn [mbind option_bind].
  destruct (set_offset_advance chunk (su_key u)) as (b1 & -> & W1 & S1 & _); [done|lia|].
  cbn [mbind option_bind with_salt salt_]. rewrite splice_0, take_app_length' by done.
  rewrite (set_key_aead_spec T0 false u) by done. cbn [mbind option_bind key_ with_salt with_chunk].
  eexists _, b1. split; [done|]. rewrite Hpend, drop_app_length' in S1 by done. split; [|done].
  destruct (install_dec u (key_ c) salt Hu) as [Hd Hid].
  split; [done|done|done|exact Hd|done|]. apply is_stream_aead. simpl. rewrite Hid. apply Hu.
Qed.

Lemma process_bytes_rel u km salt pts T0 c v seg rest dn :
  suite_ok u → length salt = su_key u → Forall payload_ok pts → wf seg →
  Inv v → dec_rel u km salt pts c (span seg ++ rest) dn →
  ∃ c' bufs, process_bytes T0 c v seg = Some (c', visit v bufs) ∧ Forall wf bufs ∧
    Inv (visit v bufs) ∧ dec_rel u km salt pts c' rest (dn ++ map span bufs).
Proof.
  intros Hu Hsalt Hpts Wseg Hv Hrel. unfold process_bytes. pose proof (suite_key_bound u Hu) as Hkb.
  inversion Hrel as [c0 r0 Hi Him Hk Ht Hkey Hsl Hwc Hpend Hlp|c0 b r0 d0 todo R Hp Hspan Hend Hcn]; subst.
  - destruct (merge_chunk c seg Hwc Wseg) as (chunk & Ej & Wc & Sc). rewrite Ej. cbn [mbind option_bind].
    change (init_ (with_chunk c chunk)) with (init_ c). rewrite Hi.
    change (key_len_ (with_chunk c chunk)) with (key_len_ c). rewrite Hk.
    rewrite app_assoc, <- Sc in Hpend. pose proof (length_span chunk Wc) as Hlc.
    destruct (Nat.ltb_spec (size chunk) (su_key u)).
    + exists (with_chunk c chunk), []. split; [done|]. split; [by constructor|]. split; [done|].
      apply rel_salt; try done; [by intros b [= <-]|unfold pending; simpl; lia].
    + assert (span chunk = salt ++ drop (length salt) (span chunk)) as Hc.
      { pose proof (f_equal (take (length salt)) Hpend) as X. rewrite take_app_length, take_app_le in X by lia.
        rewrite <- X at 1. symmetry. apply take_drop. }
      set (tl := drop (length salt) (span chunk)) in *.
      rewrite Hc, <- app_assoc in Hpend. apply app_inv_head in Hpend.
      destruct (process_bytes_start u salt T0 c v seg tl) as (c1 & b1 & E1 & R1 & C1 & S1); try done;
        [by rewrite <- Sc|]. unfold process_bytes in E1. rewrite Ej in E1. cbn [mbind option_bind] in E1.
      change (init_ (with_chunk c chunk)) with (init_ c) in E1. rewrite Hi in E1.
      change (key_len_ (with_chunk c chunk)) with (key_len_ c) in E1. rewrite Hk in E1.
      destruct (Nat.ltb_spec (size chunk) (su_key u)); [lia|].
      destruct (process_loop_spec Inv accepts (stream_sealing u (key_ c) salt) pts (size b1 + 1) c1 v b1 rest Hv R1 Hpts)
        as (d & td & bufs & c2 & b2 & -> & V2 & E & R2 & M & W2 & F & Z & Cn); [by rewrite S1, C1|lia|].
      exists c2, bufs. rewrite E1. split; [exact E|]. split; [done|]. split; [done|]. subst d. simpl.
      eapply rel_frames; try done. by rewrite Cn, C1.
  - pose proof R as [Hc Wb Hi Hd Ht Hs].
    destruct (merge_chunk c seg) as (chunk & -> & Wc & Sc); [intros b' Hb'; by simplify_eq|done|].
    cbn [mbind option_bind]. change (init_ (with_chunk c chunk)) with (init_ c). rewrite Hi.
    unfold pending in Sc. rewrite Hc in Sc. rewrite app_assoc, <- Sc in Hspan.
    apply Forall_app in Hpts as [_ Htodo].
    destruct (process_loop_spec Inv accepts (stream_sealing u km salt) todo (size chunk + 1)
      (with_chunk c chunk) v chunk rest) as (d & td & bufs & c2 & b2 & -> & V2 & E & R2 & M & W2 & F & Z & Cn);
      [done|done|done|done|lia|].
    exists c2, bufs. split; [exact E|]. split; [done|]. split; [done|]. subst d.
    eapply rel_frames; [done| |done|done|]; [by rewrite app_assoc|]. by rewrite Cn, advance_app, <- Hcn.
Qed.

Fixpoint process_segments (T0 : list byte) (c : cipher) (v : V) (segs : list GrowableIOBuffer)
  : option (cipher * V) :=
  match segs with
  | [] => Some (c, v)
  | seg :: segs => '(c, v) ← process_bytes T0 c v seg; process_segments T0 c v segs
  end.

Lemma process_segments_rel u km salt pts T0 segs : ∀ c v dn,
  suite_ok u → length salt = su_key u → Forall payload_ok pts → Forall wf segs →
  Inv v → dec_rel u km salt pts c (concat (map span segs)) dn →
  ∃ c' bufs, process_segments T0 c v segs = Some (c', visit v bufs) ∧ Forall wf bufs ∧
    Inv (visit v bufs) ∧ dec_rel u km salt pts c' [] (dn ++ map span bufs).
Proof.
  induction segs as [|seg segs IH]; intros c v dn Hu Hs Hp Hw Hv R; cbn [process_segments].
  - exists c, []. rewrite app_nil_r. done.
  - apply Forall_cons_1 in Hw as [Wseg Hw]. simpl in R.
    destruct (process_bytes_rel u km salt pts T0 c v seg _ dn Hu Hs Hp Wseg Hv R) as (c1 & bufs & -> & W1 & V1 & R1).
    cbn [mbind option_bind].
    destruct (IH c1 (visit v bufs) _ Hu Hs Hp Hw V1 R1) as (c2 & bufs2 & -> & W2 & V2 & R2).
    exists c2, (bufs ++ bufs2). rewrite visit_app, map_app, app_assoc. split; [done|].
    split; [by apply Forall_app|done].
Qed.

(** A decoder in a stream whose frames [pts] are followed by the forged [bs], which it has not seen yet. *)
Inductive bad_rel (u : suite) (km salt : list byte) (pts : list (list byte)) (bs : list byte)
  : cipher → list byte → list (list byte) → Prop :=
  | bad_salt c rest :
      init_ c = false → impl_ c = suite_impl false u → key_len_ c = su_key u → tag_len_ c = su_tag u →
      key_ c = km → length (salt_ c) = MAX_KEY_LENGTH →
      (∀ b, chunk_ c = Some b → wf b) →
      pending c ++ rest = salt ++ frames (stream_sealing u km salt) 0 pts ++ bs →
      length (pending c) < su_key u →
      bad_rel u km salt pts bs c rest []
  | bad_frames c b rest dn todo :
      dec_ready (stream_sealing u km salt) c b → pts = dn ++ todo →
      span b ++ rest = frames (stream_sealing u km salt) (counter_ c) todo ++ bs →
      rest ≠ [] → counter_ c = advance 0 dn →
      bad_rel u km salt pts bs c rest dn.

(** A segment of such a stream: the decoder goes on, or it reports the error with all the genuine payloads delivered. *)
Lemma process_bytes_bad u km salt pts bs T0 c v seg rest dn :
  suite_ok u → length salt = su_key u → Forall payload_ok pts → forged (stream_sealing u km salt) (advance 0 pts) bs → wf seg →
  Inv v → bad_rel u km salt pts bs c (span seg ++ rest) dn →
  (∃ c' bufs, process_bytes T0 c v seg = Some (c', on_protocol_error (visit v bufs)) ∧ Forall wf bufs ∧ dn ++ map span bufs = pts) ∨
  (∃ c' bufs, process_bytes T0 c v seg = Some (c', visit v bufs) ∧ Forall wf bufs ∧
    Inv (visit v bufs) ∧ bad_rel u km salt pts bs c' rest (dn ++ map span bufs)).
Proof.
  intros Hu Hsalt Hpts Hf Wseg Hv Hrel. pose proof (suite_key_bound u Hu) as Hkb.
  inversion Hrel as [c0 r0 Hi Him Hk Ht Hkey Hsl Hwc Hpend Hlp|c0 b r0 d0 todo R Hp Hspan Hend Hcn]; subst c0 r0; [subst dn|subst d0].
  - destruct (merge_chunk c seg Hwc Wseg) as (chunk & Ej & Wc & Sc).
    rewrite app_assoc, <- Sc in Hpend. pose proof (length_span chunk Wc) as Hlc.
    destruct (decide (size chunk < su_key u)) as [Hsh|Hlg].
    + right. exists (with_chunk c chunk), []. unfold process_bytes. rewrite Ej. cbn [mbind option_bind].
      change (init_ (with_chunk c chunk)) with (init_ c). rewrite Hi.
      change (key_len_ (with_chunk c chunk)) with (key_len_ c). rewrite Hk.
      destruct (Nat.ltb_spec (size chunk) (su_key u)); [|lia]. split; [done|]. split; [by constructor|]. split; [done|].
      apply bad_salt; try done; [by intros b [= <-]|unfold pending; simpl; lia].
    + assert (span chunk = salt ++ drop (length salt) (span chunk)) as Hc.
      { pose proof (f_equal (take (length salt)) Hpend) as X. rewrite take_app_length, take_app_le in X by lia.
        rewrite <- X at 1. symmetry. apply take_drop. }
      set (tl := drop (length salt) (span chunk)) in *.
      rewrite Hc, <- app_assoc in Hpend. apply app_inv_head in Hpend.
      destruct (process_bytes_start u salt T0 c v seg tl) as (c1 & b1 & -> & R1 & C1 & S1); try done; [by rewrite <- Sc|].
      rewrite Hkey in R1.
      destruct (process_loop_forged Inv accepts (stream_sealing u km salt) bs pts (size b1 + 1) c1 v b1 rest Hv R1 Hpts)
        as [(bufs & c2 & E & M & W)|(d & td & bufs & c2 & b2 & -> & V2 & E & R2 & M & W & F & Z & Cn)];
        [by rewrite S1, C1|by rewrite C1|lia|left; by exists c2, bufs|].
      right. exists c2, bufs. split; [done|]. split; [done|]. split; [done|]. subst d. simpl.
      eapply bad_frames; try done. by rewrite Cn, C1.
  - pose proof R as [Hc Wb Hi Hd Ht Hs]. unfold process_bytes.
    destruct (merge_chunk c seg) as (chunk & -> & Wc & Sc); [intros b' Hb'; by simplify_eq|done|].
    cbn [mbind option_bind]. change (init_ (with_chunk c chunk)) with (init_ c). rewrite Hi.
    unfold pending in Sc. rewrite Hc in Sc. rewrite app_assoc, <- Sc in Hspan.
    assert (Forall payload_ok todo) as Htodo by (rewrite Hp in Hpts; by apply Forall_app in Hpts as [_ ?]).
    destruct (process_loop_forged Inv accepts (stream_sealing u km salt) bs todo (size chunk + 1) (with_chunk c chunk) v chunk rest)
      as [(bufs & c2 & E & M & W)|(d & td & bufs & c2 & b2 & -> & V2 & E & R2 & M & W & F & Z & Cn)];
      [done|done|done|done| |lia| |].
    + change (counter_ (with_chunk c chunk)) with (counter_ c). rewrite Hcn, <- advance_app. by rewrite <- Hp.
    + left. exists c2, bufs. split; [done|]. split; [done|]. by rewrite M.
    + right. exists c2, bufs. split; [done|]. split; [done|]. split; [done|]. subst d.
      eapply bad_frames; [done| |done|done|]; [by rewrite Hp, app_assoc|]. by rewrite Cn, advance_app, <- Hcn.
Qed.

(** Somewhere in the segments of such a stream the error is reported, with exactly the genuine payloads delivered before. *)
Lemma process_segments_bad u km salt pts bs T0 segs : ∀ c v dn,
  suite_ok u → length salt = su_key u → Forall payload_ok pts → forged (stream_sealing u km salt) (advance 0 pts) bs → Forall wf segs →
  Inv v → bad_rel u km salt pts bs c (concat (map span segs)) dn →
  ∃ pre seg post c1 bufs1 c' bufs, segs = pre ++ seg :: post ∧
    process_segments T0 c v pre = Some (c1, visit v bufs1) ∧
    process_bytes T0 c1 (visit v bufs1) seg = Some (c', on_protocol_error (visit v (bufs1 ++ bufs))) ∧
    Forall wf (bufs1 ++ bufs) ∧ dn ++ map span (bufs1 ++ bufs) = pts.
Proof.
  induction segs as [|seg segs IH]; intros c v dn Hu Hs Hp Hf Hw Hv R.
  - exfalso. cbn in R. inversion R as [c0 r0 Hi Him Hk Ht Hkey Hsl Hwc Hpend Hlp|c0 b r0 d0 todo R0 Hpt Hspan Hend Hcn]; subst; [|done].
    apply (f_equal length) in Hpend. rewrite app_nil_r, length_app in Hpend. lia.
  - apply Forall_cons_1 in Hw as [Wseg Hw]. cbn [map concat] in R.
    destruct (process_bytes_bad u km salt pts bs T0 c v seg _ dn Hu Hs Hp Hf Wseg Hv R) as [(c1 & bufs & E & W & M)|(c1 & bufs & E & W1 & V1 & R1)].
    { exists [], seg, segs, c, [], c1, bufs. by split_and!. }
    destruct (IH c1 (visit v bufs) _ Hu Hs Hp Hf Hw V1 R1) as (pre & sg & post & c2 & bufs2 & c3 & bufs3 & -> & E2 & E3 & W2 & M2).
    exists (seg :: pre), sg, post, c2, (bufs ++ bufs2), c3, bufs3. cbn [process_segments]. rewrite E. cbn [mbind option_bind].
    rewrite <- app_assoc in M2. rewrite <- map_app in M2. rewrite <- app_assoc, !visit_app in *.
    split_and!; try done; by apply Forall_app.
Qed.

Lemma dec_rel_end u km salt pts c dn :
  length salt = su_key u → dec_rel u km salt pts c [] dn → dn = pts.
Proof.
  intros Hs R. inversion R as [c0 r0 Hi Him Hk Ht Hkey Hsl Hwc Hpend Hlp|c0 b r0 d0 todo R0 Hp Hspan Hend _]; subst.
  - apply (f_equal length) in Hpend. rewrite app_nil_r, length_app in Hpend. lia.
  - rewrite Hend by done. by rewrite app_nil_r.
Qed.

(** The other end has sent more. *)
Lemma dec_rel_more u km salt pts pts' c rest dn :
  dec_rel u km salt pts c rest dn →
  dec_rel u km salt (pts ++ pts') c (rest ++ frames (stream_sealing u km salt) (advance 0 pts) pts') dn.
Proof.
  intros [c0 r0 Hi Him Hk Ht Hkey Hsl Hwc Hpend Hlp|c0 b r0 d0 todo R Hp Hspan Hend Hcn].
  - apply rel_salt; try done. by rewrite frames_app, !app_assoc, Hpend.
  - eapply (rel_frames _ _ _ _ _ b _ _ (todo ++ pts')); try done.
    + by rewrite Hp, app_assoc.
    + by rewrite frames_app, app_assoc, Hspan, Hcn, Hp, advance_app.
    + intros [-> E]%app_eq_nil. rewrite Hend by done. destruct pts' as [|p pts']; [done|].
      apply (f_equal length) in E. cbn [frames] in E. rewrite length_app, length_frame in E. simpl in E. lia.
Qed.

Lemma dec_rel_start u km salt pts :
  suite_ok u → length km = MAX_KEY_LENGTH →
  dec_rel u km salt pts (fresh false u km) (salt ++ frames (stream_sealing u km salt) 0 pts) [].
Proof.
  intros Hu Hk. pose proof (suite_key_bound u Hu). apply rel_salt; try (done || (simpl; lia)).
Qed.

End Decoder.

(** ** Properties *)

(** C2: the shadowsocks stream, end to end.  For every AEAD method and password,
    whatever non-empty plaintexts are given to [EncryptData] (of any size, cut into
    frames of at most 16256 bytes) and whatever buffers they are appended to,
    encryption never fails; and however the produced bytes are cut into segments,
    [process_bytes] on the segments never aborts, never reports a protocol
    error, and hands the visitor (any visitor that accepts non-empty buffers) well-formed buffers whose contents are
    exactly the plaintext bytes, in order. *)
Theorem shadowsocks_stream_roundtrip `{Visitor V} (Inv : V → Prop) m password T0 T1 (v : V)
    ce cd calls segs :
  (∀ v b, Inv v → wf b → span b ≠ [] →
     snd (on_received_data v b) = true ∧ Inv (fst (on_received_data v b))) →
  Inv v →
  is_aead m = true →
  make_cipher [] password m true = Some ce → make_cipher [] password m false = Some cd →
  calls ≠ [] → Forall (λ cl, fst cl ≠ [] ∧ wf (snd cl)) calls → Forall wf segs →
  ∃ ce' out, encrypt_calls T0 ce calls = Some (ce', out, false) ∧
    (concat (map span segs) = out →
     ∃ cd' bufs, process_segments T1 cd v segs = Some (cd', visit v bufs) ∧ Forall wf bufs ∧
       Inv (visit v bufs) ∧ concat (map span bufs) = concat (map fst calls)).
Proof.
  intros Ha Hv Hm He Hd Hne Hcalls Hsegs.
  destruct (make_cipher_fresh m password Hm) as (u & km & Hu & Hum & Hkm & Hmk).
  rewrite Hmk in He, Hd. simplify_eq.
  destruct (encrypt_calls_fresh u km T0 calls Hu Hkm Hne Hcalls) as (ce' & pts & E & P & K).
  do 2 eexists. split; [exact E|]. intros Hcut.
  destruct (process_segments_rel Inv Ha u km (rand_bytes (su_key u)) pts T1 segs (fresh false u km) v [])
    as (cd' & bufs & E2 & W & V2 & R); [done|apply rand_length|done|done|done| |].
  { rewrite Hcut. by apply dec_rel_start. }
  exists cd', bufs. split; [done|]. split; [done|]. split; [done|].
  apply dec_rel_end in R; [|apply rand_length]. simpl in R. by rewrite R.
Qed.

(** C13: integrity.  A stream whose first frames are genuine and whose next frame
    has a length or a payload that does not authenticate, cut into segments in any way: the
    decoder takes the segments without an error up to one in which it reports a
    protocol error, and by then the genuine payloads and nothing else have been delivered. *)
Theorem tampered_frame_rejected `{Visitor V} (Inv : V → Prop) m password T0 (v : V) :
  (∀ v b, Inv v → wf b → span b ≠ [] →
     snd (on_received_data v b) = true ∧ Inv (fst (on_received_data v b))) →
  Inv v → is_aead m = true →
  ∃ u km, suite_ok u ∧ su_method u = m ∧ make_cipher [] password m false = Some (fresh false u km) ∧
    ∀ salt pts bs segs, let S := stream_sealing u km salt in
      length salt = su_key u → Forall payload_ok pts → forged S (advance 0 pts) bs →
      Forall wf segs → concat (map span segs) = salt ++ frames S 0 pts ++ bs →
      ∃ pre seg post c1 bufs1 cd' bufs, segs = pre ++ seg :: post ∧
        process_segments T0 (fresh false u km) v pre = Some (c1, visit v bufs1) ∧
        process_bytes T0 c1 (visit v bufs1) seg = Some (cd', on_protocol_error (visit v (bufs1 ++ bufs))) ∧
        map span (bufs1 ++ bufs) = pts ∧ Forall wf (bufs1 ++ bufs).
Proof.
  intros Ha Hv Hm. destruct (make_cipher_fresh m password Hm) as (u & km & Hu & Hum & Hkm & Hmk).
  exists u, km. split; [done|]. split; [done|]. split; [done|]. intros salt pts bs segs S Hs Hp Hf W Sp.
  destruct (process_segments_bad Inv Ha u km salt pts bs T0 segs (fresh false u km) v [])
    as (pre & seg & post & c1 & bufs1 & c' & bufs & -> & E1 & E2 & Wb & M); try done.
  { pose proof (suite_key_bound u Hu). apply bad_salt; try (done || (simpl; lia)). }
  by exists pre, seg, post, c1, bufs1, c', bufs.
Qed.

(** The master key of a password is that of EVP_BytesToKey(3): the first [k]
    bytes of D(1) D(2) ... with D(i) = MD5(D(i-1) password); the derivation
    terminates and leaves the rest of the key memory alone. *)
Theorem derive_key_bytes_to_key password skey k :
  password ≠ [] → k <= length skey →
  derive_key password skey k = Some (k, take k (bytes_to_key (k + 1) [] password) ++ drop k skey).
Proof. exact (derive_key_spec password skey k). Qed.

(** A base64 key never works.  [parse_key] stores the success flag of
    [EVP_DecodeBase64] in the variable it then compares with the wanted length,
    so for every key text and every decoder it answers length 0 and leaves the
    key memory at zero; the cipher object built from a configured key has an
    empty salt and master key. *)
Theorem parse_key_never_succeeds key password m c e :
  (∀ skey k, 2 <= k → parse_key key skey k = (0, skey)) ∧
  (is_aead m = true → key ≠ [] → make_cipher key password m e = Some c →
   key_len_ c = 0 ∧ Cipher.key_ c = replicate MAX_KEY_LENGTH x00).
Proof.
  assert (∀ skey k, 2 <= k → parse_key key skey k = (0, skey)) as Hp.
  { intros skey k Hk. unfold parse_key. destruct (evp_decoded_length _) as [n|]; [|done].
    destruct (evp_decode_base64 key n); simpl; [|done].
    by destruct (Nat.leb_spec k 1); [lia|]. }
  split; [exact Hp|]. intros Hm Hkey Hc.
  destruct (create_aead e m Hm) as (b & k & t & n & E1 & _ & Hk & _).
  assert (2 <= k) by (rewrite Hk; destruct (aead_of b); simpl; lia).
  unfold make_cipher in Hc. unfold create in E1. rewrite E1 in Hc. cbn [mbind option_bind] in Hc.
  destruct key as [|b0 key]; [done|]. cbn [AeadBase key_size_] in Hc. rewrite Hp in Hc by done.
  cbn [mbind option_bind] in Hc. by simplify_eq.
Qed.

End Proofs.

(** ** Witnesses *)

Definition example_keylib : KeyLib := {|
  md5 _ := replicate 16 x07;
  evp_decoded_length n := Some n;
  evp_decode_base64 s _ := Some s |}.

Definition example_rand : RandLib := {| rand_bytes n := replicate n x05 |}.

Definition log_visitor : Visitor (list (list byte)) := {|
  on_received_data v b := (v ++ [span b], true);
  on_protocol_error v := v ++ [[]] |}.

Lemma example_keylaws : @KeyLaws example_keylib.
Proof. split; intros; apply length_replicate. Qed.

Lemma example_randlaws : RandLaws example_rand.
Proof. split; intros; apply length_replicate. Qed.

Lemma example_sha1laws : @Sha1Laws (λ _, replicate 20 x09).
Proof. intros m. apply length_replicate. Qed.

Lemma shadowsocks_stream_roundtrip_witness :
  let HA := (λ _, x00) : Allocator in
  let HC := example_lib in
  let HS := (λ _, replicate 20 x09) : Sha1 in
  let HK := example_keylib in
  let HN := example_rand in
  let HV := log_visitor in
  ∃ ce cd, make_cipher [] [x70] CRYPTO_AES128GCMSHA256_EVP true = Some ce ∧
    make_cipher [] [x70] CRYPTO_AES128GCMSHA256_EVP false = Some cd ∧
    ∃ ce' out, encrypt_calls [] ce [([x41; x42], make)] = Some (ce', out, false) ∧
      (concat (map span [mkBuf out (length out) 0]) = out →
       ∃ cd' bufs, process_segments [] cd [] [mkBuf out (length out) 0] = Some (cd', visit [] bufs) ∧
         Forall wf bufs ∧ True ∧ concat (map span bufs) = [x41; x42]).
Proof.
  intros HA HC HS HK HN HV.
  pose proof example_laws as L1. pose proof example_sha1laws as L2. pose proof example_keylaws as L3. pose proof example_randlaws as L4.
  do 2 eexists. split; [reflexivity|]. split; [reflexivity|].
  set (ce := mkCipher _ _ _ _ _ _ _ _). set (cd := mkCipher _ _ _ _ _ _ _ _).
  destruct (shadowsocks_stream_roundtrip (λ _, True) CRYPTO_AES128GCMSHA256_EVP [x70] [] [] [] ce cd
    [([x41; x42], make)] []) as (ce' & out & E & _); [done|done|reflexivity|reflexivity|reflexivity|done| |done|].
  { constructor; [split; [done|apply wf_make]|constructor]. }
  exists ce', out. split; [exact E|]. intros Hcut.
  destruct (shadowsocks_stream_roundtrip (λ _, True) CRYPTO_AES128GCMSHA256_EVP [x70] [] [] [] ce cd
    [([x41; x42], make)] [mkBuf out (length out) 0]) as (ce2 & out2 & E2 & R);
    [done|done|reflexivity|reflexivity|reflexivity|done| | |].
  { constructor; [split; [done|apply wf_make]|constructor]. }
  { constructor; [unfold wf; simpl; lia|constructor]. }
  apply R. rewrite E in E2. injection E2 as _ <-. exact Hcut.
Defined.

Lemma tampered_frame_rejected_witness :
  let HA := (λ _, x00) : Allocator in
  let HC := example_lib in
  let HS := (λ _, replicate 20 x09) : Sha1 in
  let HK := example_keylib in
  let HN := example_rand in
  let HV := log_visitor in
  let L1 := example_laws in
  ∃ u km, suite_ok u ∧
    make_cipher [] [x70] CRYPTO_AES128GCMSHA256_EVP false = Some (fresh false u km) ∧
    let S := stream_sealing u km (replicate (su_key u) x03) in
    let bs := replicate 18 x01 ++ replicate (@sl_tag S) x02 in
    forged S 2 bs ∧
    let m := replicate (su_key u) x03 ++ frames S 0 [[x41]] ++ bs in
    ∃ pre seg post c1 bufs1 cd' bufs, [mkBuf (take 30 m) 30 0; mkBuf (drop 30 m) (length (drop 30 m)) 0] = pre ++ seg :: post ∧
      process_segments [] (fresh false u km) ([] : list (list byte)) pre = Some (c1, visit [] bufs1) ∧
      process_bytes [] c1 (visit [] bufs1) seg = Some (cd', on_protocol_error (visit [] (bufs1 ++ bufs))) ∧
      map span (bufs1 ++ bufs) = [[x41]].
Proof.
  intros HA HC HS HK HN HV L1.
  pose proof example_sha1laws as L2. pose proof example_keylaws as L3. pose proof example_randlaws as L4.
  destruct (tampered_frame_rejected (λ _, True) CRYPTO_AES128GCMSHA256_EVP [x70] [] [])
    as (u & km & Hu & Hm & E & T); [done|done|reflexivity|].
  exists u, km. split; [done|]. split; [done|]. cbv zeta.
  set (S := stream_sealing u km (replicate (su_key u) x03)).
  set (bs := replicate 18 x01 ++ replicate (@sl_tag S) x02).
  assert (forged S 2 bs ∧ 30 <= length (replicate (su_key u) x03 ++ frames S 0 [[x41]] ++ bs)) as [Hf Hl].
  { pose proof E as E'. vm_compute in E'. injection E' as Ek Et Em.
    destruct u as [um ub uk ut un]. cbn in *. subst. split; [split; [vm_compute; lia|left; reflexivity]|vm_compute; lia]. }
  split; [done|]. set (m := replicate (su_key u) x03 ++ frames S 0 [[x41]] ++ bs) in *.
  destruct (T (replicate (su_key u) x03) [[x41]] bs [mkBuf (take 30 m) 30 0; mkBuf (drop 30 m) (length (drop 30 m)) 0])
    as (pre & seg & post & c1 & bufs1 & cd' & bufs & E1 & E2 & E3 & M & _).
  - apply length_replicate.
  - constructor; [vm_compute; split; congruence|constructor].
  - exact Hf.
  - repeat constructor; unfold wf; cbn [offset capacity real_data]; rewrite ?length_take; lia.
  - cbn [map concat]. unfold span, size. cbn [offset capacity real_data]. rewrite !Nat.sub_0_r, !drop_0, app_nil_r, firstn_all.
    rewrite (take_ge (take 30 m)) by (rewrite length_take; lia). apply take_drop.
  - by exists pre, seg, post, c1, bufs1, cd', bufs.
Defined.

Lemma derive_key_bytes_to_key_witness :
  let HK := example_keylib in
  let HN := example_rand in
  derive_key [x70; x77] (replicate 64 x00) 24
  = Some (24, take 24 (bytes_to_key 25 [] [x70; x77]) ++ drop 24 (replicate 64 x00)).
Proof.
  intros HK HN. pose proof example_keylaws as L3. pose proof example_randlaws as L4.
  apply (derive_key_bytes_to_key [x70; x77] (replicate 64 x00) 24); [done|rewrite length_replicate; lia].
Defined.

Lemma parse_key_never_succeeds_witness :
  let HC := example_lib in
  let HK := example_keylib in
  let HN := example_rand in
  parse_key (replicate 44 x41) (replicate 64 x00) 32 = (0, replicate 64 x00).
Proof.
  intros HC HK HN. pose proof example_laws as L1. pose proof example_keylaws as L3. pose proof example_randlaws as L4.
  apply (parse_key_never_succeeds (replicate 44 x41) [] CRYPTO_AES256GCMSHA256
           (mkCipher [] [] 0 0 Aes256GcmSodiumEncrypter 0 false None) true). lia.
Defined.

End Cipher.
