(* ===== verification/Conn.v ===== *)
(** * What the two connection classes share

    Reading from a socket into a buffer (src/src/net/connection.hpp
    [Downlink::read_some], src/src/net/asio.hpp [tail_buffer]), the memory a
    parser is given, and [EncryptData] of src/src/cli/cli_connection.cpp and
    src/src/server/server_connection.cpp. *)

From Stdlib Require Import ZArith Lia.
From stdpp Require Import base list numbers option.
From S2P Require Import Prelude IoBuffer IoQueue Addr Hkdf Crypter Cipher.

Module Conn.
Import IoBuffer Addr Crypter Cipher.

Definition SOCKET_DEBUF_SIZE : Z := 17 * 1024.

(** What [read_some] on the downlink answers: bytes, would-block, or an error
    (end of file included). *)
Inductive read_result := Read (bs : list byte) | TryAgain | ReadError.

(** A write takes [n] bytes at most; [yield] tells whether the loop has run long
    enough to yield after it. *)
Inductive write_result := Wrote (n : nat) (yield : bool) | WriteAgain | WriteError.

(** [CIPHER_METHOD_IS_SOCKS]. *)
Definition is_socks (m : cipher_method) : bool :=
  bool_decide (m = CRYPTO_SOCKS4 ∨ m = CRYPTO_SOCKS4A ∨ m = CRYPTO_SOCKS5 ∨ m = CRYPTO_SOCKS5H).

(** [data()]: the memory from the offset on, up to the end of the allocation. *)
Definition data (b : GrowableIOBuffer) : list byte := drop (offset b) (real_data b).

(** asio's [address::is_unspecified()]. *)
Definition is_unspecified (a : address) : bool :=
  match a with address_v4 b | address_v6 b => bool_decide (Forall (eq x00) b) end.

Section Conn.
Context `{Allocator}.

(** [buf->SetCapacity(n); read_some(buf); buf->SetCapacity(bytes_transferred)]:
    the socket fills at most [size()] bytes from [data()] on. *)
Definition read_buf (n : Z) (bs : list byte) : option GrowableIOBuffer :=
  buf ← SetCapacity make n;
  let bs := take (size buf) bs in
  buf ← write_data buf 0 bs;
  SetCapacity buf (Z.of_nat (length bs)).

(** Appending a list of pieces, [appendBytesAtEnd] for each. *)
Fixpoint append_all (b : GrowableIOBuffer) (l : list (list byte)) : option GrowableIOBuffer :=
  match l with
  | [] => Some b
  | bs :: l => b ← appendBytesAtEnd b bs; append_all b l
  end.

Lemma read_buf_spec n bs :
  (Z.of_nat (length bs) <= n)%Z →
  ∃ b, read_buf n bs = Some b ∧ wf b ∧ span b = bs ∧ offset b = 0 ∧ size b = length bs ∧
    length (real_data b) = Z.to_nat n ∧ take (length bs) (data b) = bs.
Proof.
  intros Hn. unfold read_buf.
  assert (∃ k, n = Z.of_nat k) as [k ->] by (exists (Z.to_nat n); lia). rewrite Nat2Z.id.
  assert (∃ b0, SetCapacity make (Z.of_nat k) = Some b0 ∧ wf b0 ∧ offset b0 = 0 ∧ capacity b0 = k ∧
    length (real_data b0) = k) as (b0 & -> & W0 & O0 & C0 & L0).
  { unfold SetCapacity, set_offset. cbn [make capacity offset real_data].
    change (Z.of_nat 0) with 0%Z. change (0 <? 0)%Z with false.
    destruct (Z.ltb_spec (Z.of_nat k) 0); [lia|]. rewrite Nat2Z.id.
    destruct (Z.leb_spec (Z.of_nat k) 0), (Z.ltb_spec (Z.of_nat k) 0); try lia.
    - eexists. split; [done|]. unfold wf. simpl. lia.
    - eexists. split; [done|]. unfold wf. simpl. rewrite length_realloc. lia. }
  cbn [mbind option_bind]. cbv zeta.
  assert (size b0 = k) as Z0 by (unfold size; lia). rewrite Z0, take_ge by lia.
  destruct (write_data_span b0 0 bs W0) as (b1 & E1 & W1 & C1 & O1 & S1); [lia|].
  pose proof E1 as E1'. rewrite E1. cbn [mbind option_bind].
  destruct (SetCapacity_shrink b1 (length bs) W1) as (b2 & E2 & W2 & C2 & O2 & R2 & S2); [lia|].
  assert (length (real_data b1) = k) as L1.
  { unfold write_data, write_at in E1'. case_decide; simplify_eq. simpl. rewrite length_splice; lia. }
  assert (span b2 = bs) as Sp.
  { rewrite S2, S1, splice_0, O1, O0, Nat.sub_0_r. apply take_app_length. }
  exists b2. rewrite E2. split_and!; try done; [congruence|unfold size; lia|by rewrite R2|].
  unfold data. unfold span, size in Sp. rewrite O2, O1, O0, C2, Nat.sub_0_r in Sp. by rewrite O2, O1, O0.
Qed.

Lemma append_all_spec l : ∀ b,
  wf b → ∃ b', append_all b l = Some b' ∧ wf b' ∧ span b' = span b ++ concat l.
Proof.
  induction l as [|bs l IH]; intros b W; simpl.
  - exists b. by rewrite app_nil_r.
  - destruct (appendBytesAtEnd_spec b bs W) as (b1 & -> & W1 & S1 & _). cbn [mbind option_bind].
    destruct (IH b1 W1) as (b2 & -> & W2 & S2). exists b2. by rewrite S2, S1, <- app_assoc.
Qed.

(** What [data()] shows of a buffer. *)
Lemma data_span b : wf b → ∃ slack, data b = span b ++ slack.
Proof. intros W. exists (drop (size b) (data b)). unfold span. by rewrite take_drop. Qed.

(** Advancing past a message that the window starts with. *)
Lemma advance_past buf msg rest n :
  wf buf → span buf = msg ++ rest → n = length msg →
  ∃ buf', set_offset buf (Z.of_nat (offset buf) + Z.of_nat n) = Some buf' ∧ wf buf' ∧ span buf' = rest.
Proof.
  intros W Sp ->. destruct (set_offset_advance buf (length msg)) as (b' & E & W' & S' & _); [done| |].
  - rewrite <- length_span, Sp by done. len.
  - exists b'. rewrite E, S', Sp, drop_app_length. done.
Qed.

Lemma data_msg buf msg rest :
  wf buf → span buf = msg ++ rest →
  ∃ tl, data buf = msg ++ tl ∧ length msg <= size buf ∧ length msg <= length (data buf).
Proof.
  intros W Sp. destruct (data_span buf W) as [slack E]. rewrite Sp, <- app_assoc in E.
  exists (rest ++ slack). rewrite <- length_span, Sp, E by done. split; [done|]. len.
Qed.

(** The bytes of a list of buffers; buffers with bytes and without. *)
Definition cat (xs : list GrowableIOBuffer) : list byte := concat (map span xs).

Definition full (b : GrowableIOBuffer) : Prop := wf b ∧ span b ≠ [].
Definition blank (b : GrowableIOBuffer) : Prop := wf b ∧ span b = [].

Lemma cat_app xs ys : cat (xs ++ ys) = cat xs ++ cat ys.
Proof. unfold cat. by rewrite map_app, concat_app. Qed.

Lemma cat_blank xs : Forall blank xs → cat xs = [].
Proof. induction 1 as [|b xs [_ Hb] _ IH]; [done|]. unfold cat in *. simpl. by rewrite Hb, IH. Qed.

Lemma full_empty b : full b → empty b = false.
Proof. intros [W N]. destruct (empty b) eqn:E; [|done]. by apply empty_span in E. Qed.

Lemma blank_empty b : blank b → empty b = true.
Proof. intros [W N]. by apply empty_span. Qed.

Lemma empty_full b : wf b → empty b = false → full b.
Proof. intros W E. split; [done|]. intros Sp. by apply empty_span in Sp; [rewrite Sp in E|]. Qed.

(** The queue of a connection holds buffers with these bytes. *)
Definition holds (D : nat) (q : IoQueue.IoQueue GrowableIOBuffer) (bs : list byte) : Prop :=
  ∃ xs, IoQueue.represents D q xs ∧ Forall wf xs ∧ concat (map span xs) = bs.

Lemma holds_push D q bs b :
  holds D q bs → wf b → holds D (IoQueue.push_back q b) (bs ++ span b).
Proof.
  intros (xs & R & W & E) Wb. exists (xs ++ [b]). split; [by apply IoQueue.push_back_represents|].
  split; [by apply Forall_app; split; [|constructor]|].
  by rewrite map_app, concat_app, E, <- (app_nil_r (span b)).
Qed.

Lemma holds_make D : 2 <= D → holds D (IoQueue.make D) [].
Proof. intros HD. exists []. split; [by apply IoQueue.represents_make|done]. Qed.

(** [EncryptData]: the ciphertext goes to the last buffer of the queue, which the
    queue shares, or to a new one.  The boolean says whether the cipher reported
    a protocol error. *)
Definition EncryptData `{CryptoLib} `{Sha1} `{RND : RandLib} (T0 : list byte) (encoder : cipher)
    (queue : IoQueue.IoQueue GrowableIOBuffer) (plaintext : list byte)
  : option (cipher * IoQueue.IoQueue GrowableIOBuffer * bool) :=
  '(cipherbuf, queue) ← (if IoQueue.empty queue then Some (make, IoQueue.push_back queue make)
                         else slot ← IoQueue.back queue; b ← slot; Some (b, queue));
  '(encoder, cipherbuf, err) ← encrypt_loop (length plaintext) T0 encoder plaintext 0 cipherbuf false;
  Some (encoder, IoQueue.set_back queue cipherbuf, err).

End Conn.
End Conn.
