(* ===== verification/Relay.v ===== *)
(** * The server's relay

    What [ServerConnection] of src/src/server/server_connection.cpp does when the
    handshake is over: the two pipes [WriteStreamInPipe] (from the channel to the
    client) and [WriteUpstreamInPipe] (from the client to the channel) with the
    getters that feed them, their completion handlers, the loss of either side, and
    [stream] of src/src/net/stream.hpp as far as they use it.

    What the sockets answer while a handler runs is its argument, [env]; a list that
    is used up would block.  [None] is an abort, the use of an absent object, or a
    loop without fuel.  The two lists of bytes sent and the two of bytes read are
    records of the past, which no handler looks at.  Rate limits are off, and
    HTTP/2 is not modelled. *)

From Stdlib Require Import ZArith Lia.
From stdpp Require Import base list numbers option.
From S2P Require Import Prelude IoBuffer IoQueue Addr Hkdf Crypter Cipher Conn.

Module Relay.
Import IoBuffer Addr Crypter Cipher Conn.

(** ** [stream] *)

Record stream := mkStream {
  connected_ : bool; eof_ : bool; gone_ : bool; read_inprogress_ : bool; channel_write_inprogress_ : bool }.

(** A stream whose connection is on its way. *)
Definition connecting : stream := mkStream false false false false false.

Definition stream_close (c : stream) : stream :=
  if gone_ c then c else mkStream false true true (read_inprogress_ c) (channel_write_inprogress_ c).

Definition wait_read (c : stream) : stream :=
  if negb (connected_ c) || gone_ c then c
  else mkStream (connected_ c) (eof_ c) (gone_ c) true (channel_write_inprogress_ c).

Definition wait_write (c : stream) : stream :=
  if negb (connected_ c) || gone_ c then c
  else mkStream (connected_ c) (eof_ c) (gone_ c) (read_inprogress_ c) true.

(** ** The connection *)

Definition queue := IoQueue.IoQueue GrowableIOBuffer.

Record relay := mkRelay {
  error_ : bool;
  closed_ : bool;
  shutdown_ : bool;
  upstream_ : queue;
  upstream_writable_ : bool;
  downstream_ : queue;
  downstream_read_inprogress_ : bool;
  write_inprogress_ : bool;
  pending_upstream_read_error_ : bool;
  pending_downstream_read_error_ : bool;
  channel_ : stream;
  encoder_ : option cipher;
  decoder_ : option cipher;
  down_got_ : list byte;
  up_sent_ : list byte;
  up_got_ : list byte;
  down_sent_ : list byte
}.

Definition set_error (s : relay) : relay :=
  mkRelay true (closed_ s) (shutdown_ s) (upstream_ s) (upstream_writable_ s) (downstream_ s)
    (downstream_read_inprogress_ s) (write_inprogress_ s) (pending_upstream_read_error_ s)
    (pending_downstream_read_error_ s) (channel_ s) (encoder_ s) (decoder_ s) (down_got_ s) (up_sent_ s)
    (up_got_ s) (down_sent_ s).
Definition set_shutdown (s : relay) : relay :=
  mkRelay (error_ s) (closed_ s) true (upstream_ s) (upstream_writable_ s) (downstream_ s)
    (downstream_read_inprogress_ s) (write_inprogress_ s) (pending_upstream_read_error_ s)
    (pending_downstream_read_error_ s) (channel_ s) (encoder_ s) (decoder_ s) (down_got_ s) (up_sent_ s)
    (up_got_ s) (down_sent_ s).
Definition set_upstream (s : relay) (q : queue) (w : bool) : relay :=
  mkRelay (error_ s) (closed_ s) (shutdown_ s) q w (downstream_ s)
    (downstream_read_inprogress_ s) (write_inprogress_ s) (pending_upstream_read_error_ s)
    (pending_downstream_read_error_ s) (channel_ s) (encoder_ s) (decoder_ s) (down_got_ s) (up_sent_ s)
    (up_got_ s) (down_sent_ s).
Definition set_downstream (s : relay) (q : queue) : relay :=
  mkRelay (error_ s) (closed_ s) (shutdown_ s) (upstream_ s) (upstream_writable_ s) q
    (downstream_read_inprogress_ s) (write_inprogress_ s) (pending_upstream_read_error_ s)
    (pending_downstream_read_error_ s) (channel_ s) (encoder_ s) (decoder_ s) (down_got_ s) (up_sent_ s)
    (up_got_ s) (down_sent_ s).
Definition set_waits (s : relay) (r w : bool) : relay :=
  mkRelay (error_ s) (closed_ s) (shutdown_ s) (upstream_ s) (upstream_writable_ s) (downstream_ s)
    r w (pending_upstream_read_error_ s)
    (pending_downstream_read_error_ s) (channel_ s) (encoder_ s) (decoder_ s) (down_got_ s) (up_sent_ s)
    (up_got_ s) (down_sent_ s).
Definition set_read_errors (s : relay) (u d : bool) : relay :=
  mkRelay (error_ s) (closed_ s) (shutdown_ s) (upstream_ s) (upstream_writable_ s) (downstream_ s)
    (downstream_read_inprogress_ s) (write_inprogress_ s) u d (channel_ s) (encoder_ s) (decoder_ s)
    (down_got_ s) (up_sent_ s) (up_got_ s) (down_sent_ s).
Definition set_channel (s : relay) (c : stream) : relay :=
  mkRelay (error_ s) (closed_ s) (shutdown_ s) (upstream_ s) (upstream_writable_ s) (downstream_ s)
    (downstream_read_inprogress_ s) (write_inprogress_ s) (pending_upstream_read_error_ s)
    (pending_downstream_read_error_ s) c (encoder_ s) (decoder_ s) (down_got_ s) (up_sent_ s)
    (up_got_ s) (down_sent_ s).
Definition set_ciphers (s : relay) (e d : option cipher) : relay :=
  mkRelay (error_ s) (closed_ s) (shutdown_ s) (upstream_ s) (upstream_writable_ s) (downstream_ s)
    (downstream_read_inprogress_ s) (write_inprogress_ s) (pending_upstream_read_error_ s)
    (pending_downstream_read_error_ s) (channel_ s) e d (down_got_ s) (up_sent_ s) (up_got_ s) (down_sent_ s).
Definition record (s : relay) (dg us ug ds : list byte) : relay :=
  mkRelay (error_ s) (closed_ s) (shutdown_ s) (upstream_ s) (upstream_writable_ s) (downstream_ s)
    (downstream_read_inprogress_ s) (write_inprogress_ s) (pending_upstream_read_error_ s)
    (pending_downstream_read_error_ s) (channel_ s) (encoder_ s) (decoder_ s) (down_got_ s ++ dg) (up_sent_ s ++ us)
    (up_got_ s ++ ug) (down_sent_ s ++ ds).

(** Reads and writes on the downlink and on the channel. *)
Record env := mkEnv {
  dreads : list read_result; dwrites : list write_result; creads : list read_result; cwrites : list write_result }.

(** The error codes that the pipes tell apart. *)
Inductive code := success | again | failed.

#[export] Instance code_eq_dec : EqDecision code.
Proof. solve_decision. Defined.

Section Relay.
Context `{Allocator} `{CryptoLib} `{Sha1} `{KeyLib} `{RND : RandLib}.

(** The method, whether the downlink is TLS, and the contents of the array [T] of
    the cipher. *)
Variable method : cipher_method.
Variable tls : bool.
Variable T0 : list byte.

Definition plain : bool := bool_decide (method = CRYPTO_HTTPS) || is_socks method.

(** [close()], unless closing. *)
Definition OnDisconnect (s : relay) : relay :=
  if closed_ s then s
  else mkRelay (error_ s) true (shutdown_ s || tls) (upstream_ s) (upstream_writable_ s) (downstream_ s)
    (downstream_read_inprogress_ s) (write_inprogress_ s) (pending_upstream_read_error_ s)
    (pending_downstream_read_error_ s) (stream_close (channel_ s)) (encoder_ s) (decoder_ s) (down_got_ s)
    (up_sent_ s) (up_got_ s) (down_sent_ s).

(** The connection is the visitor of its decoder. *)
#[export] Instance relay_visitor : Visitor relay := {|
  on_received_data s buf :=
    if error_ s || empty buf then (s, false)
    else (set_upstream s (IoQueue.push_back (upstream_ s) buf) (upstream_writable_ s), true);
  on_protocol_error := OnDisconnect |}.

(** [ProcessReceivedData] and [ProcessSentData] with an error. *)
Definition process_error (s : relay) : relay := OnDisconnect (set_error s).

(** [OnDownstreamWriteFlush]: [WriteStream] registers the handler of the downlink. *)
Definition OnDownstreamWriteFlush (s : relay) : relay :=
  if negb (IoQueue.empty (downstream_ s)) && negb (write_inprogress_ s)
  then set_waits s (downstream_read_inprogress_ s) true else s.

Definition OnUpstreamWriteFlush (s : relay) : relay :=
  if negb (IoQueue.empty (upstream_ s)) && upstream_writable_ s
  then set_channel (set_upstream s (upstream_ s) false) (wait_write (channel_ s)) else s.

Definition ReadStream (s : relay) : relay :=
  if closed_ s then s else set_waits s true (write_inprogress_ s).

(** The downlink is shut down when the channel is at its end and nothing is left. *)
Definition OnStreamWrite (s : relay) : relay :=
  if eof_ (channel_ s) && IoQueue.empty (downstream_ s) && negb (shutdown_ s) then set_shutdown s
  else OnDownstreamWriteFlush s.

(** [wt] tells whether any byte was written. *)
Definition ProcessSentData (s : relay) (ec : code) (wt : bool) : relay :=
  match ec with
  | success => if error_ s then process_error s else if wt then OnStreamWrite s else s
  | _ => process_error s
  end.

(** ** From the channel to the client *)

(** [disconnected]; [pipe] is [WriteStreamInPipe]. *)
Definition disconnected (pipe : relay → env → option (relay * env)) (s : relay) (e : env) : option (relay * env) :=
  let s := set_channel (set_upstream s (upstream_ s) false) (stream_close (channel_ s)) in
  if IoQueue.empty (downstream_ s) && negb (shutdown_ s) then Some (set_shutdown s, e) else pipe s e.

(** Data of the channel goes to the queue as it is or encrypted. *)
Definition push_downstream (s : relay) (buf : GrowableIOBuffer) : option relay :=
  if plain then Some (set_downstream s (IoQueue.push_back (downstream_ s) buf))
  else
    encoder ← encoder_ s;
    '(encoder, q, err) ← EncryptData T0 encoder (downstream_ s) (span buf);
    let s := set_ciphers (set_downstream s q) (Some encoder) (decoder_ s) in
    Some (if (err : bool) then OnDisconnect s else s).

(** The front of the queue. *)
Definition front_of (q : queue) : option GrowableIOBuffer := slot ← IoQueue.front q; slot.

(** The label [out] of [GetNextDownstreamBuf]; [rd] tells whether bytes were read. *)
Definition next_downstream (s : relay) (e : env) (ec : code) (rd : bool)
  : option (relay * env * code * bool * option GrowableIOBuffer * bool) :=
  if IoQueue.empty (downstream_ s)
  then Some (s, e, match ec with success => again | _ => ec end, rd, None, rd)
  else
    buf ← front_of (downstream_ s);
    let s := match ec with failed => set_read_errors s (pending_upstream_read_error_ s) true | _ => s end in
    Some (s, e, ec, false, Some buf, rd).

(** The state, the error, [downstream_blocked], the buffer to write, and whether bytes
    were read. *)
Definition GetNextDownstreamBuf (pipe : relay → env → option (relay * env)) (s : relay) (e : env)
  : option (relay * env * code * bool * option GrowableIOBuffer * bool) :=
  if negb (IoQueue.empty (downstream_ s)) then
    buf ← front_of (downstream_ s); Some (s, e, success, false, Some buf, false)
  else if pending_downstream_read_error_ s then Some (s, e, failed, false, None, false)
  else if negb (connected_ (channel_ s)) then Some (s, e, again, false, None, false)
  else if eof_ (channel_ s) then Some (s, e, failed, false, None, false)
  else
    match creads e with
    | [] => next_downstream s e again false
    | r :: rs =>
        let e := mkEnv (dreads e) (dwrites e) rs (cwrites e) in
        match r with
        | TryAgain => next_downstream s e again false
        | ReadError => '(s, e) ← disconnected pipe s e; next_downstream s e failed false
        | Read bs =>
            buf ← read_buf SOCKET_BUF_SIZE bs;
            if empty buf then next_downstream s e success false
            else
              let s := record s [] [] (span buf) [] in
              s ← push_downstream s buf;
              next_downstream s e success true
        end
    end.

(** The end of [WriteStreamInPipe]: [bt] and [wt] tell whether bytes were read and
    written. *)
Definition end_stream_pipe (s : relay) (e : env) (bt wt try_again : bool) (ec : code) : option (relay * env) :=
  let s := if try_again && connected_ (channel_ s) && negb (read_inprogress_ (channel_ s))
           then set_channel s (wait_read (channel_ s)) else s in
  let s := match ec with again => OnDownstreamWriteFlush s | _ => s end in
  let sent ec := Some (if negb bt && bool_decide (ec = success) && negb try_again then OnStreamWrite s
                       else ProcessSentData s ec wt, e) in
  match ec with
  | again => if negb wt then Some (s, e) else sent success
  | _ => sent ec
  end.

(** A part of the front buffer has been written; the buffer leaves the queue. *)
Definition write_downstream (s : relay) (buf : GrowableIOBuffer) (sent : list byte) : relay :=
  record (set_downstream s (IoQueue.set_front (downstream_ s) buf)) [] [] [] sent.
Definition pop_downstream (s : relay) : relay := set_downstream s (IoQueue.pop_front (downstream_ s)).

(** The loop.  Each round but the last uses up a write or an answer of the channel. *)
Fixpoint stream_pipe (fuel : nat) (bt wt : bool) (s : relay) (e : env) : option (relay * env) :=
  match fuel with
  | 0 => None
  | S fuel =>
      '(s, e, ec, blocked, next, rd) ← GetNextDownstreamBuf (stream_pipe fuel false false) s e;
      let bt := bt || rd in
      match ec with
      | failed => end_stream_pipe s e bt wt false success
      | _ =>
          let try_again := bool_decide (ec = again) && negb blocked in
          let ec := if blocked && bool_decide (ec = again) then again else success in
          match next with
          | None => end_stream_pipe s e bt wt try_again ec
          | Some buf =>
              if empty buf || closed_ s then end_stream_pipe s e bt wt try_again ec
              else
                match dwrites e with
                | [] => end_stream_pipe s e bt wt try_again again
                | w :: ws =>
                    let e := mkEnv (dreads e) ws (creads e) (cwrites e) in
                    match w with
                    | WriteAgain => end_stream_pipe s e bt wt try_again again
                    | WriteError => end_stream_pipe s e bt wt try_again failed
                    | Wrote n yield =>
                        let n := n `min` size buf in
                        let sent := take n (span buf) in
                        buf ← set_offset buf (Z.of_nat (offset buf) + Z.of_nat n);
                        let s := write_downstream s buf sent in
                        let wt := wt || (0 <? n) in
                        if negb (empty buf) then end_stream_pipe s e bt wt try_again again
                        else
                          let s := pop_downstream s in
                          if (yield : bool) then
                            if IoQueue.empty (downstream_ s) then end_stream_pipe s e bt wt true success
                            else end_stream_pipe s e bt wt try_again again
                          else stream_pipe fuel bt wt s e
                    end
                end
          end
      end
  end.

Definition WriteStreamInPipe (s : relay) (e : env) : option (relay * env) :=
  stream_pipe (length (dwrites e) + length (creads e) + 1) false false s e.

(** ** From the client to the channel *)

(** Data of the client goes to the queue as it is or decrypted. *)
Definition push_upstream (s : relay) (buf : GrowableIOBuffer) : option relay :=
  if plain then Some (set_upstream s (IoQueue.push_back (upstream_ s) buf) (upstream_writable_ s))
  else
    decoder ← decoder_ s;
    '(decoder, s) ← process_bytes T0 decoder s buf;
    Some (set_ciphers s (encoder_ s) (Some decoder)).

(** The label [out] of [GetNextUpstreamBuf]. *)
Definition next_upstream (s : relay) (e : env) (ec : code) : option (relay * env * code * option GrowableIOBuffer) :=
  if IoQueue.empty (upstream_ s) then Some (s, e, match ec with success => again | _ => ec end, None)
  else
    buf ← front_of (upstream_ s);
    let s := match ec with failed => set_read_errors s true (pending_downstream_read_error_ s) | _ => s end in
    Some (s, e, ec, Some buf).

Definition GetNextUpstreamBuf (s : relay) (e : env) : option (relay * env * code * option GrowableIOBuffer) :=
  if negb (IoQueue.empty (upstream_ s)) then
    buf ← front_of (upstream_ s); Some (s, e, success, Some buf)
  else if pending_upstream_read_error_ s then Some (s, e, failed, None)
  else if closed_ s then Some (s, e, failed, None)
  else
    match dreads e with
    | [] => next_upstream s e again
    | r :: rs =>
        let e := mkEnv rs (dwrites e) (creads e) (cwrites e) in
        match r with
        | TryAgain => next_upstream s e again
        | ReadError => next_upstream (process_error s) e failed
        | Read bs =>
            buf ← read_buf SOCKET_DEBUF_SIZE bs;
            if empty buf then next_upstream s e success
            else
              s ← push_upstream (record s (span buf) [] [] []) buf;
              next_upstream s e success
        end
    end.

(** The end of [WriteUpstreamInPipe]. *)
Definition end_upstream_pipe (s : relay) (e : env) (try_again : bool) (ec : code) : option (relay * env) :=
  let s := if try_again && negb (downstream_read_inprogress_ s) then ReadStream s else s in
  Some (match ec with again => OnUpstreamWriteFlush s | _ => s end, e).

Definition write_upstream (s : relay) (buf : GrowableIOBuffer) (sent : list byte) : relay :=
  record (set_upstream s (IoQueue.set_front (upstream_ s) buf) (upstream_writable_ s)) [] sent [] [].
Definition pop_upstream (s : relay) : relay :=
  set_upstream s (IoQueue.pop_front (upstream_ s)) (upstream_writable_ s).

(** The loop.  Each round but the last uses up a write. *)
Fixpoint upstream_pipe (fuel : nat) (s : relay) (e : env) : option (relay * env) :=
  match fuel with
  | 0 => None
  | S fuel =>
      '(s, e, ec, next) ← GetNextUpstreamBuf s e;
      match ec with
      | failed => Some (s, e)
      | _ =>
          let try_again := bool_decide (ec = again) in
          match next with
          | None => end_upstream_pipe s e try_again success
          | Some buf =>
              if empty buf then end_upstream_pipe s e try_again success
              else if negb (connected_ (channel_ s)) || eof_ (channel_ s) then end_upstream_pipe s e try_again again
              else
                match cwrites e with
                | [] => end_upstream_pipe s e try_again again
                | w :: ws =>
                    let e := mkEnv (dreads e) (dwrites e) (creads e) ws in
                    match w with
                    | WriteAgain => end_upstream_pipe s e try_again again
                    | WriteError =>
                        '(s, e) ← disconnected WriteStreamInPipe s e;
                        Some (OnDisconnect s, e)
                    | Wrote n yield =>
                        let n := n `min` size buf in
                        let sent := take n (span buf) in
                        buf ← set_offset buf (Z.of_nat (offset buf) + Z.of_nat n);
                        let s := write_upstream s buf sent in
                        if negb (empty buf) then end_upstream_pipe s e try_again again
                        else
                          let s := pop_upstream s in
                          if (yield : bool) then
                            if IoQueue.empty (upstream_ s) then end_upstream_pipe s e true success
                            else end_upstream_pipe s e try_again again
                          else upstream_pipe fuel s e
                    end
                end
          end
      end
  end.

Definition WriteUpstreamInPipe (s : relay) (e : env) : option (relay * env) :=
  if channel_write_inprogress_ (channel_ s) then Some (s, e)
  else upstream_pipe (length (cwrites e) + 1) s e.

(** ** Completion handlers *)

Definition flush_upstream (r : relay * env) : relay * env := (OnUpstreamWriteFlush (fst r), snd r).

(** [connected], [received] and [sent]. *)
Definition on_connected (s : relay) (e : env) : option (relay * env) :=
  let s := set_upstream s (upstream_ s) true in
  '(s, e) ← WriteStreamInPipe s e;
  flush_upstream <$> WriteUpstreamInPipe s e.

Definition received (s : relay) (e : env) : option (relay * env) :=
  '(s, e) ← WriteStreamInPipe s e;
  Some (OnDownstreamWriteFlush s, e).

Definition sent (s : relay) (e : env) : option (relay * env) :=
  let s := set_upstream s (upstream_ s) true in
  flush_upstream <$> WriteUpstreamInPipe s e.

(** [ok] is false when the wait ended with an error. *)
Inductive event :=
  | ClientReadable (ok : bool)
  | ClientWritable (ok : bool)
  | ClientError
  | ChannelConnected (ok : bool)
  | ChannelReadable (ok : bool)
  | ChannelWritable (ok : bool)
  | ShutdownFailed.

Definition read_over (c : stream) : stream :=
  mkStream (connected_ c) (eof_ c) (gone_ c) false (channel_write_inprogress_ c).
Definition write_over (c : stream) : stream :=
  mkStream (connected_ c) (eof_ c) (gone_ c) (read_inprogress_ c) false.

(** A handler runs when it is registered, and only then. *)
Definition step (s : relay) (ev : event) (e : env) : option (relay * env) :=
  match ev with
  | ClientReadable ok =>
      if negb (downstream_read_inprogress_ s) then Some (s, e)
      else
        let s := set_waits s false (write_inprogress_ s) in
        if closed_ s then Some (s, e)
        else if ok then flush_upstream <$> WriteUpstreamInPipe s e
        else Some (process_error s, e)
  | ClientWritable ok =>
      if negb (write_inprogress_ s) then Some (s, e)
      else
        let s := set_waits s (downstream_read_inprogress_ s) false in
        if closed_ s then Some (s, e)
        else if ok then WriteStreamInPipe s e
        else Some (process_error s, e)
  | ClientError => Some (OnDisconnect s, e)
  | ChannelConnected ok =>
      if closed_ s || connected_ (channel_ s) || gone_ (channel_ s) then Some (s, e)
      else if ok
           then on_connected (set_channel s (mkStream true false false (read_inprogress_ (channel_ s))
                                               (channel_write_inprogress_ (channel_ s)))) e
           else disconnected WriteStreamInPipe s e
  | ChannelReadable ok =>
      if negb (read_inprogress_ (channel_ s)) then Some (s, e)
      else
        let s := set_channel s (read_over (channel_ s)) in
        if negb (connected_ (channel_ s)) || gone_ (channel_ s) || closed_ s then Some (s, e)
        else if ok then received s e
        else disconnected WriteStreamInPipe s e
  | ChannelWritable ok =>
      if negb (channel_write_inprogress_ (channel_ s)) then Some (s, e)
      else
        let s := set_channel s (write_over (channel_ s)) in
        if negb (connected_ (channel_ s)) || gone_ (channel_ s) || closed_ s then Some (s, e)
        else if ok then sent s e
        else disconnected WriteStreamInPipe s e
  | ShutdownFailed => if shutdown_ s && negb (closed_ s) then Some (OnDisconnect s, e) else Some (s, e)
  end.

(** What the client sends is read from one list; every event comes with what the
    other operations answer while it is handled. *)
Fixpoint run (s : relay) (rs : list read_result)
    (evs : list (event * (list write_result * list read_result * list write_result)))
  : option (relay * list read_result) :=
  match evs with
  | [] => Some (s, rs)
  | (ev, (dw, cr, cw)) :: evs =>
      '(s, e) ← step s ev (mkEnv rs dw cr cw);
      run s (dreads e) evs
  end.

End Relay.
End Relay.
