(* ===== verification/RelayInv.v ===== *)
(** * The invariant of a relay

    What the relays of the server (RelayFlow.v) and of the client (CliFlow.v) have in
    common: what the queues hold, which handlers wait, how the bytes of the four
    directions are related, and what the operations that both classes have make of
    it. *)

From Stdlib Require Import ZArith Lia.
From stdpp Require Import base list numbers option.
From S2P Require Import Prelude IoBuffer IoQueue Addr Hkdf Crypter Cipher Conn Relay.

Module RelayInv.
Import IoBuffer Addr Crypter Cipher Conn Relay.

(** The bytes of a list of reads. *)
Definition stream_of (rs : list read_result) : list byte :=
  concat (map (λ r, match r with Read bs => bs | _ => [] end) rs).

Definition fits (r : read_result) : Prop :=
  match r with Read bs => (Z.of_nat (length bs) <= SOCKET_DEBUF_SIZE)%Z | _ => True end.

(** Nothing to read or write is left without a handler that waits for it. *)
Definition downs (f : bool) (s : relay) (ds : list GrowableIOBuffer) : Prop :=
  closed_ s = false →
    (ds ≠ [] → write_inprogress_ s = true) ∧
    (f = true → connected_ (channel_ s) = true → ds = [] → read_inprogress_ (channel_ s) = true) ∧
    (gone_ (channel_ s) = true → ds = [] → shutdown_ s = true).

Definition ups (f : bool) (s : relay) (us : list GrowableIOBuffer) : Prop :=
  closed_ s = false →
    (connected_ (channel_ s) = false → upstream_writable_ s = false) ∧
    (connected_ (channel_ s) = true →
       upstream_writable_ s = negb (channel_write_inprogress_ (channel_ s)) ∧
       (channel_write_inprogress_ (channel_ s) = true → us ≠ []) ∧
       (f = true → us ≠ [] → channel_write_inprogress_ (channel_ s) = true) ∧
       (f = true → us = [] → downstream_read_inprogress_ s = true)).

Definition chan_ok (c : stream) : Prop :=
  eof_ c = gone_ c ∧ (connected_ c = true → gone_ c = false) ∧
  (connected_ c = false → gone_ c = false → read_inprogress_ c = false ∧ channel_write_inprogress_ c = false).

Lemma chan_close c : chan_ok c → chan_ok (stream_close c) ∧ gone_ (stream_close c) = true ∧ connected_ (stream_close c) = false.
Proof.
  intros (E & C & W). unfold stream_close. destruct (gone_ c) eqn:G; [|by split_and!].
  destruct (connected_ c) eqn:K; [by specialize (C eq_refl)|]. rewrite G. split_and!; try done.
  split; [congruence|]. rewrite K, G. split; [done|]. congruence.
Qed.

Lemma chan_wait_read c : chan_ok c → chan_ok (wait_read c) ∧ gone_ (wait_read c) = gone_ c ∧
  connected_ (wait_read c) = connected_ c ∧ (connected_ c = true → read_inprogress_ (wait_read c) = true) ∧
  channel_write_inprogress_ (wait_read c) = channel_write_inprogress_ c.
Proof.
  intros (E & C & W). unfold wait_read. destruct (connected_ c) eqn:K; simpl.
  - rewrite (C eq_refl). simpl. unfold chan_ok; simpl. rewrite E, (C eq_refl). split_and!; congruence.
  - unfold chan_ok. rewrite K. split_and!; done || congruence.
Qed.

Lemma chan_wait_write c : chan_ok c → chan_ok (wait_write c) ∧ gone_ (wait_write c) = gone_ c ∧
  connected_ (wait_write c) = connected_ c ∧ (connected_ c = true → channel_write_inprogress_ (wait_write c) = true) ∧
  read_inprogress_ (wait_write c) = read_inprogress_ c.
Proof.
  intros (E & C & W). unfold wait_write. destruct (connected_ c) eqn:K; simpl.
  - rewrite (C eq_refl). simpl. unfold chan_ok; simpl. rewrite E, (C eq_refl). split_and!; congruence.
  - unfold chan_ok. rewrite K. split_and!; done || congruence.
Qed.

(** What waits has a handler registered: data for the client, the channel when there
    is none, data for the channel, and the client when there is none; and when the
    channel is gone and its data delivered, the client's side is half-closed. *)
Definition awake (s : relay) (ds us : list GrowableIOBuffer) : Prop :=
  closed_ s = false →
    (ds ≠ [] → write_inprogress_ s = true) ∧
    (connected_ (channel_ s) = true → ds = [] → read_inprogress_ (channel_ s) = true) ∧
    (connected_ (channel_ s) = true → us ≠ [] → channel_write_inprogress_ (channel_ s) = true) ∧
    (connected_ (channel_ s) = true → us = [] → downstream_read_inprogress_ s = true) ∧
    (gone_ (channel_ s) = true → ds = [] → shutdown_ s = true).

(** What the two queues hold. *)
Definition queued (D : nat) (s : relay) (ds us : list GrowableIOBuffer) : Prop :=
  IoQueue.represents D (downstream_ s) ds ∧ Forall full ds ∧ IoQueue.represents D (upstream_ s) us ∧ Forall full us.

Definition lost (s : relay) : relay := set_channel (set_upstream s (upstream_ s) false) (stream_close (channel_ s)).

Definition ready (wt : bool) (s : relay) (ds : list GrowableIOBuffer) : Prop :=
  closed_ s = false → gone_ (channel_ s) = true → ds = [] → shutdown_ s = true ∨ wt = true.

(** No wait for the channel to take data; [wr] is [upstream_writable_]. *)
Definition idle (wr : bool) (s : relay) : Prop :=
  closed_ s = false →
    (connected_ (channel_ s) = false → upstream_writable_ s = false) ∧
    (connected_ (channel_ s) = true → upstream_writable_ s = wr ∧ channel_write_inprogress_ (channel_ s) = false).

(** What the pipe to the channel leaves. *)
Definition piped (wr : bool) (s : relay) (us : list GrowableIOBuffer) : Prop :=
  if wr then ups true s us else idle false s.

(** A socket that takes the buffers whole. *)
Definition whole (xs : list GrowableIOBuffer) : list write_result := map (λ b, Wrote (size b) false) xs.

Lemma read_buf_full `{Allocator} n bs :
  (0 <= n)%Z → ∃ b, read_buf n bs = Some b ∧ wf b ∧ span b = take (Z.to_nat n) bs.
Proof.
  intros Hn. destruct (read_buf_spec n (take (Z.to_nat n) bs)) as (b & E & W' & S & _).
  { rewrite length_take. lia. }
  exists b. split; [|done]. rewrite <- E. unfold read_buf.
  destruct (SetCapacity make n) as [b0|] eqn:E0; [|done]. cbn [mbind option_bind].
  assert (size b0 = Z.to_nat n) as ->.
  { destruct (SetCapacity_make (Z.to_nat n)) as (b1 & E1 & _ & O1 & C1 & _).
    rewrite Z2Nat.id, E0 in E1 by done. simplify_eq. unfold size. lia. }
  by rewrite take_take, Nat.min_id.
Qed.

Section Inv.

(** The reads on the client of a server, on the channel of a client come from one
    list; [srv] tells which, and [rd_rel] relates what was read to what is to come.
    [D0] and [U0] are what was queued before the run; [down_rel] and [up_rel] say what a
    cipher has made of the bytes it was given. *)
Context {srv : bool} {D : nat} {down_rel up_rel : option cipher → list byte → list byte → Prop}
  {D0 U0 : list byte} {rd_rel : list byte → list byte → Prop}.

Definition down_cipher (s : relay) : option cipher := if srv then encoder_ s else decoder_ s.
Definition up_cipher (s : relay) : option cipher := if srv then decoder_ s else encoder_ s.
Definition peer_got (s : relay) : list byte := if srv then down_got_ s else up_got_ s.

Record inv (rs : list read_result) (s : relay) (ds us : list GrowableIOBuffer) : Prop := {
  i_down : IoQueue.represents D (downstream_ s) ds;
  i_dfull : Forall full ds;
  i_up : IoQueue.represents D (upstream_ s) us;
  i_ufull : Forall full us;
  i_error : error_ s = true → closed_ s = true;
  i_pend : pending_upstream_read_error_ s = false ∧ pending_downstream_read_error_ s = false;
  i_chan : chan_ok (channel_ s);
  i_closed : closed_ s = true → gone_ (channel_ s) = true;
  i_drel : ∃ w, down_rel (down_cipher s) (up_got_ s) w ∧ down_sent_ s ++ cat ds = D0 ++ w;
  i_urel : ∃ w, up_rel (up_cipher s) (down_got_ s) w ∧ up_sent_ s ++ cat us = U0 ++ w;
  i_fits : Forall fits rs;
  i_read : rd_rel (peer_got s) (stream_of rs);
  i_shut : shutdown_ s = true → closed_ s = false → ds = [] ∧ gone_ (channel_ s) = true }.

#[local] Arguments i_down {_ _ _ _}.
#[local] Arguments i_dfull {_ _ _ _}.
#[local] Arguments i_up {_ _ _ _}.
#[local] Arguments i_ufull {_ _ _ _}.
#[local] Arguments i_error {_ _ _ _}.
#[local] Arguments i_pend {_ _ _ _}.
#[local] Arguments i_chan {_ _ _ _}.
#[local] Arguments i_closed {_ _ _ _}.
#[local] Arguments i_drel {_ _ _ _}.
#[local] Arguments i_urel {_ _ _ _}.
#[local] Arguments i_fits {_ _ _ _}.
#[local] Arguments i_read {_ _ _ _}.
#[local] Arguments i_shut {_ _ _ _}.

Lemma inv_empty_down rs s ds us : inv rs s ds us → IoQueue.empty (downstream_ s) = bool_decide (ds = []).
Proof. intros I. by eapply IoQueue.empty_represents, i_down. Qed.

Lemma inv_empty_up rs s ds us : inv rs s ds us → IoQueue.empty (upstream_ s) = bool_decide (us = []).
Proof. intros I. by eapply IoQueue.empty_represents, i_up. Qed.

#[local] Arguments inv_empty_down {_ _ _ _}.
#[local] Arguments inv_empty_up {_ _ _ _}.

Lemma inv_disconnect tls rs s ds us :
  inv rs s ds us → inv rs (OnDisconnect tls s) ds us ∧ closed_ (OnDisconnect tls s) = true.
Proof.
  intros I. unfold OnDisconnect. destruct (closed_ s) eqn:C; [done|]. split; [|done].
  destruct (chan_close _ (i_chan I)) as (? & ? & ?). destruct I. by split.
Qed.

Lemma inv_process_error tls rs s ds us :
  inv rs s ds us → inv rs (process_error tls s) ds us ∧ closed_ (process_error tls s) = true.
Proof.
  intros I. unfold process_error, OnDisconnect. cbn [set_error closed_].
  destruct (closed_ s) eqn:C.
  - split; [|done]. destruct I. split; done.
  - split; [|done]. destruct (chan_close _ (i_chan I)) as (? & ? & ?). destruct I. by split.
Qed.

Lemma closed_downs f s ds : closed_ s = true → downs f s ds.
Proof. intros C C'. congruence. Qed.

Lemma closed_ups f s us : closed_ s = true → ups f s us.
Proof. intros C C'. congruence. Qed.

Lemma inv_lost rs f s ds us : inv rs s ds us → inv rs (lost s) ds us ∧ ups f (lost s) us ∧ gone_ (channel_ (lost s)) = true.
Proof.
  intros I. destruct (chan_close _ (i_chan I)) as (C1 & C2 & C3).
  split_and!; [|intros C; simpl; by rewrite C3|done].
  destruct I as [? ? ? ? ? ? ? ? ? ? ? ? Sh]. split; try done. intros S C. split; [|done]. by apply Sh.
Qed.

Lemma front_of_rep q b xs : IoQueue.represents D q (b :: xs) → front_of q = Some b.
Proof. intros R. unfold front_of. by rewrite (IoQueue.front_represents _ _ _ R). Qed.

Lemma downstream_written rs s b ds us n :
  inv rs s (b :: ds) us → n <= size b →
  ∃ b', set_offset b (Z.of_nat (offset b) + Z.of_nat n) = Some b' ∧
    let s1 := write_downstream s b' (take n (span b)) in
    (empty b' = false → inv rs s1 (b' :: ds) us) ∧
    (empty b' = true → inv rs (pop_downstream s1) ds us ∧ (0 <? n) = true).
Proof.
  intros I Hn. pose proof (i_dfull I) as F. apply Forall_cons_1 in F as [[Wb Nb] Fd].
  destruct (set_offset_advance b n Wb Hn) as (b' & E & W' & S' & _). exists b'. split; [done|]. intros s1.
  pose proof (IoQueue.set_front_represents D _ _ _ b' (i_down I)) as R1.
  destruct (i_drel I) as (w & Ew & Es). unfold cat in Es. cbn [map concat] in Es.
  split; intros Em.
  - destruct I. split; unfold peer_got in *; simpl; rewrite ?app_nil_r; try done.
    + constructor; [by apply empty_full|done].
    + exists w. split; [done|]. rewrite <- Es. unfold cat. cbn [map concat].
      by rewrite S', <- app_assoc, (app_assoc (take n _)), take_drop.
    + intros S C. by destruct i_shut0 as [? _].
  - apply empty_span in Em; [|done]. rewrite S' in Em. split.
    + destruct (IoQueue.pop_front_represents D _ _ _ R1) as [_ R2].
      destruct I. split; unfold peer_got in *; simpl; rewrite ?app_nil_r; try done.
      * exists w. split; [done|]. rewrite <- Es, <- app_assoc.
        rewrite <- (take_drop n (span b)) at 2. by rewrite Em, app_nil_r.
      * intros S C. by destruct i_shut0 as [? _].
    + destruct n; [|done]. by rewrite drop_0 in Em.
Qed.

Lemma inv_flush_up rs f wr s ds us :
  inv rs s ds us → downs f s ds → let s' := OnUpstreamWriteFlush s in
  inv rs s' ds us ∧ downs f s' ds ∧ (ups true s us → ups true s' us) ∧ (us ≠ [] → idle wr s → piped wr s' us) ∧
  write_inprogress_ s' = write_inprogress_ s ∧ closed_ s' = closed_ s ∧ connected_ (channel_ s') = connected_ (channel_ s).
Proof.
  intros I Dn s'. unfold s', OnUpstreamWriteFlush. rewrite (inv_empty_up I).
  destruct (chan_wait_write _ (i_chan I)) as (C1 & C2 & C3 & C4 & C5).
  destruct (bool_decide (us = [])) eqn:Eu; simpl.
  { apply bool_decide_eq_true in Eu. by split_and!. }
  apply bool_decide_eq_false in Eu.
  destruct (upstream_writable_ s) eqn:Wr.
  - split; [destruct I; split; simpl; try done; by rewrite C2|].
    split; [unfold downs in *; simpl; by rewrite C2, C3, C5|].
    split; [|split; [|done]].
    + intros U C. simpl in *. destruct (U C) as [Un Uc]. rewrite C3. split; [done|]. intros K.
      destruct (Uc K) as (Hw & _ & Hi & _). rewrite (Hi eq_refl Eu) in Hw. simpl in Hw. congruence.
    + intros _ Id. destruct wr; intros C; simpl in *; rewrite C3; (split; [done|]); intros K.
      * by rewrite (C4 K).
      * destruct (proj2 (Id C) K). congruence.
  - split_and!; try done. intros _ Id. destruct wr; [|done]. intros C. destruct (Id C) as [In Ic]. split; [done|]. intros K.
    destruct (Ic K) as [? _]. congruence.
Qed.

Lemma end_upstream_ok rs f wr s e ds us ta ec :
  inv rs s ds us → downs f s ds → idle wr s →
  match ec with
  | failed => False
  | again => us ≠ []
  | success => us = [] ∧ ta = true
  end →
  ∃ s', end_upstream_pipe s e ta ec = Some (s', e) ∧ inv rs s' ds us ∧ downs f s' ds ∧ piped wr s' us ∧
    write_inprogress_ s' = write_inprogress_ s ∧ closed_ s' = closed_ s ∧ connected_ (channel_ s') = connected_ (channel_ s).
Proof.
  intros I Dn Id Hec. unfold end_upstream_pipe.
  set (s1 := if ta && negb (downstream_read_inprogress_ s) then ReadStream s else s).
  assert (inv rs s1 ds us ∧ downs f s1 ds ∧ idle wr s1 ∧ closed_ s1 = closed_ s ∧
    (closed_ s = false → ta = true → downstream_read_inprogress_ s1 = true) ∧
    write_inprogress_ s1 = write_inprogress_ s ∧ connected_ (channel_ s1) = connected_ (channel_ s))
    as (I1 & D1 & Id1 & C1 & Hr & Wi & K1).
  { unfold s1, ReadStream. destruct ta, (downstream_read_inprogress_ s) eqn:Rd, (closed_ s) eqn:C; simpl;
      try (split_and!; done). split_and!; try done. destruct I. by split. }
  clearbody s1. eexists; split; [done|].
  destruct ec; [|destruct (inv_flush_up rs f wr s1 ds us I1 D1) as (? & ? & _ & ? & ? & ? & ?); split_and!; by auto; congruence|done].
  destruct Hec as [-> Hta]. split; [done|]. split; [done|]. split; [|done].
  destruct wr; [|done]. intros C. destruct (Id1 C) as [In Ic]. split; [done|]. intros K. destruct (Ic K) as [-> ->].
  split_and!; try done. intros _ _. apply Hr; [congruence|done].
Qed.

Lemma upstream_written rs s b ds us n :
  inv rs s ds (b :: us) → n <= size b →
  ∃ b', set_offset b (Z.of_nat (offset b) + Z.of_nat n) = Some b' ∧
    let s1 := write_upstream s b' (take n (span b)) in
    (empty b' = false → inv rs s1 ds (b' :: us)) ∧ (empty b' = true → inv rs (pop_upstream s1) ds us).
Proof.
  intros I Hn. pose proof (i_ufull I) as F. apply Forall_cons_1 in F as [[Wb Nb] Fd].
  destruct (set_offset_advance b n Wb Hn) as (b' & E & W' & S' & _). exists b'. split; [done|]. intros s1.
  pose proof (IoQueue.set_front_represents D _ _ _ b' (i_up I)) as R1.
  destruct (i_urel I) as (w & Ew & Es). unfold cat in Es. cbn [map concat] in Es.
  split; intros Em.
  - destruct I. split; unfold peer_got in *; simpl; rewrite ?app_nil_r; try done.
    + constructor; [by apply empty_full|done].
    + exists w. split; [done|]. rewrite <- Es. unfold cat. cbn [map concat].
      by rewrite S', <- app_assoc, (app_assoc (take n _)), take_drop.
  - apply empty_span in Em; [|done]. rewrite S' in Em.
    destruct (IoQueue.pop_front_represents D _ _ _ R1) as [_ R2].
    destruct I. split; unfold peer_got in *; simpl; rewrite ?app_nil_r; try done.
    exists w. split; [done|]. rewrite <- Es, <- app_assoc.
    rewrite <- (take_drop n (span b)) at 2. by rewrite Em, app_nil_r.
Qed.

(** The invariant of a connection between two events. *)
Definition sound (rs : list read_result) (s : relay) (ds us : list GrowableIOBuffer) : Prop :=
  inv rs s ds us ∧ downs true s ds ∧ ups true s us.

Lemma downs_ready f s ds : downs f s ds → ready false s ds.
Proof. intros Dn C G E. left. by apply Dn. Qed.

Lemma ups_weaken s us : ups true s us → ups false s us.
Proof. intros U C. destruct (U C) as [Un Uc]. split; [done|]. intros K. by destruct (Uc K) as (? & ? & ? & ?). Qed.

Lemma sound_closed rs s ds us : inv rs s ds us → closed_ s = true → sound rs s ds us.
Proof. intros I C. split_and!; auto using closed_downs, closed_ups. Qed.

Lemma inv_queued rs s ds us :
  inv rs s ds us → queued D s ds us.
Proof. by intros []. Qed.

Lemma sound_awake rs s ds us :
  sound rs s ds us → awake s ds us.
Proof.
  intros (I & Dn & U) Cl. destruct (Dn Cl) as (? & ? & ?), (U Cl) as [_ Uc]. split_and!; try done; [by auto|intros K; by apply Uc..].
Qed.

Lemma push_all_represents bufs : ∀ q (xs : list GrowableIOBuffer),
  IoQueue.represents D q xs → IoQueue.represents D (fold_left IoQueue.push_back bufs q) (xs ++ bufs).
Proof.
  induction bufs as [|b bufs IH]; intros q xs R; simpl; [by rewrite app_nil_r|].
  rewrite cons_middle, app_assoc. by apply IH, IoQueue.push_back_represents.
Qed.

End Inv.

Arguments inv : clear implicits.
Arguments sound : clear implicits.
Arguments peer_got : clear implicits.
Arguments down_cipher : clear implicits.
Arguments up_cipher : clear implicits.
Arguments inv_empty_down {_ _ _ _ _ _ _ _ _ _ _}.
Arguments inv_empty_up {_ _ _ _ _ _ _ _ _ _ _}.
Arguments i_down {_ _ _ _ _ _ _ _ _ _ _}.
Arguments i_dfull {_ _ _ _ _ _ _ _ _ _ _}.
Arguments i_up {_ _ _ _ _ _ _ _ _ _ _}.
Arguments i_ufull {_ _ _ _ _ _ _ _ _ _ _}.
Arguments i_error {_ _ _ _ _ _ _ _ _ _ _}.
Arguments i_pend {_ _ _ _ _ _ _ _ _ _ _}.
Arguments i_chan {_ _ _ _ _ _ _ _ _ _ _}.
Arguments i_closed {_ _ _ _ _ _ _ _ _ _ _}.
Arguments i_drel {_ _ _ _ _ _ _ _ _ _ _}.
Arguments i_urel {_ _ _ _ _ _ _ _ _ _ _}.
Arguments i_fits {_ _ _ _ _ _ _ _ _ _ _}.
Arguments i_read {_ _ _ _ _ _ _ _ _ _ _}.
Arguments i_shut {_ _ _ _ _ _ _ _ _ _ _}.

(** The relations and what is to be read change between two events. *)
Lemma inv_change srv D (dn up dn' up' : option cipher → list byte → list byte → Prop) D0 U0
    (rd rd' : list byte → list byte → Prop) rs rs' s ds us :
  inv srv D dn up D0 U0 rd rs s ds us →
  (∃ w, dn' (down_cipher srv s) (up_got_ s) w ∧ down_sent_ s ++ cat ds = D0 ++ w) →
  (∃ w, up' (up_cipher srv s) (down_got_ s) w ∧ up_sent_ s ++ cat us = U0 ++ w) →
  Forall fits rs' → rd' (peer_got srv s) (stream_of rs') → inv srv D dn' up' D0 U0 rd' rs' s ds us.
Proof. intros []. by split. Qed.

Lemma inv_mono srv D (dn up dn' up' : option cipher → list byte → list byte → Prop) D0 U0
    (rd rd' : list byte → list byte → Prop) rs rs' s ds us :
  inv srv D dn up D0 U0 rd rs s ds us → (∀ c p w, dn c p w → dn' c p w) → (∀ c p w, up c p w → up' c p w) →
  Forall fits rs' → rd' (peer_got srv s) (stream_of rs') → inv srv D dn' up' D0 U0 rd' rs' s ds us.
Proof.
  intros I Hd Hu Hf Hr. destruct (i_drel I) as (w & ? & ?), (i_urel I) as (w' & ? & ?).
  eapply inv_change; [exact I|exists w|exists w'|..]; by auto.
Qed.

(** ** Shadowsocks streams *)

Section Streams.
Context `{Allocator} `{CryptoLaws} `{Sha1Laws} `{KeyLaws} `{RND : RandLib} `{!RandLaws RND}.
Variable T0 : list byte.

(** The suite and the key. *)
Variables (u : suite) (km : list byte).
(** The sealing of what this end sends. *)
Definition own_sealing : Sealing := stream_sealing u km (rand_bytes (su_key u)).

(** What an encoder makes of the bytes [p]: nothing of nothing, or its salt and
    frames. *)
Definition sealed (p w : list byte) : Prop :=
  (p = [] ∧ w = []) ∨
  ∃ qts, w = rand_bytes (su_key u) ++ frames own_sealing 0 qts ∧ Forall payload_ok qts ∧ concat qts = p.

(** An encoder past the payloads [qts]. *)
Definition encoded (c : cipher) (qts : list (list byte)) : Prop :=
  enc_ready own_sealing c ∧ counter_ c = advance 0 qts ∧ Forall payload_ok qts.

(** [low] are payloads sealed before. *)
Definition ss_enc (low : list (list byte)) (enc : option cipher) (p w : list byte) : Prop :=
  ∃ c, enc = Some c ∧
    ((c = fresh true u km ∧ p = [] ∧ w = [] ∧ low = []) ∨
     ∃ qts, encoded c qts ∧ w = rand_bytes (su_key u) ++ frames own_sealing 0 qts ∧ concat qts = p ∧ low `prefix_of` qts).

Lemma ss_enc_sealed low enc p w : ss_enc low enc p w → sealed p w.
Proof. intros (c & _ & [(_ & -> & -> & _)|(qts & (_ & _ & ?) & -> & ? & _)]); [by left|]. right. by exists qts. Qed.

Lemma frames_nonempty S n qts : concat qts ≠ [] → frames S n qts ≠ [].
Proof.
  destruct qts as [|qt qts]; [done|]. intros _ Hn. cbn [frames] in Hn. apply (f_equal length) in Hn.
  rewrite length_app, length_frame in Hn. simpl in Hn. lia.
Qed.

(** [EncryptData] of an encoder past its salt, whatever the queue holds. *)
Lemma EncryptData_ready D c q xs buf qts :
  full buf → IoQueue.represents D q xs → Forall full xs → encoded c qts →
  ∃ c' q' ys qts', EncryptData T0 c q (span buf) = Some (c', q', false) ∧ IoQueue.represents D q' ys ∧
    Forall full ys ∧ ys ≠ [] ∧ encoded c' (qts ++ qts') ∧
    cat ys = cat xs ++ frames own_sealing (advance 0 qts) qts' ∧ concat qts' = span buf.
Proof.
  intros [Wb Nb] R F (Rd & Cn & Pq). unfold EncryptData.
  assert (∃ cb pre q1, (if IoQueue.empty q then Some (make, IoQueue.push_back q make)
      else slot ← IoQueue.back q; b ← slot; Some (b, q)) = Some (cb, q1) ∧ wf cb ∧ Forall full pre ∧
      IoQueue.represents D q1 (pre ++ [cb]) ∧ cat xs = cat pre ++ span cb) as (cb & pre & q1 & -> & Wcb & Fp & R1 & Ec).
  { rewrite (IoQueue.empty_represents _ _ _ R). destruct (bool_decide (xs = [])) eqn:Ex.
    - apply bool_decide_eq_true in Ex as ->. exists make, [], (IoQueue.push_back q make).
      split_and!; try done. by apply (IoQueue.push_back_represents D _ []).
    - apply bool_decide_eq_false in Ex. destruct (exists_last Ex) as (pre & b & ->).
      rewrite (IoQueue.back_represents _ _ _ _ R). apply Forall_app in F as [Fp [[Wx _] _]%Forall_cons_1].
      exists b, pre, q. split_and!; try done. rewrite cat_app. unfold cat at 2. simpl. by rewrite app_nil_r. }
  cbn [mbind option_bind].
  destruct (encrypt_loop_ready own_sealing T0 (span buf) (length (span buf)) c 0 cb false Rd Wcb)
    as (c1 & cb1 & qts1 & -> & R' & C' & W' & _ & S' & P' & K'); [lia|lia|]. cbn [mbind option_bind].
  rewrite drop_0 in K'. rewrite Cn in C', S'. exists c1, (IoQueue.set_back q1 cb1), (pre ++ [cb1]), qts1.
  split; [done|]. split; [by eapply IoQueue.set_back_represents|].
  assert (full cb1) as Fcb.
  { split; [done|]. rewrite S'. intros [_ E]%app_eq_nil. revert E. apply frames_nonempty. congruence. }
  split; [apply Forall_app; split; [done|by constructor]|]. split; [by destruct pre|].
  split; [split_and!; [done|by rewrite advance_app|by apply Forall_app]|].
  split; [|done]. rewrite cat_app, Ec, <- app_assoc, <- S'. f_equal. unfold cat. simpl. by rewrite app_nil_r.
Qed.

Hypothesis suite_good : suite_ok u.

(** The first use of an encoder, on an empty queue. *)
Lemma EncryptData_fresh D q buf :
  length km = MAX_KEY_LENGTH → full buf → IoQueue.represents D q [] →
  ∃ c' q' y qts, EncryptData T0 (fresh true u km) q (span buf) = Some (c', q', false) ∧
    IoQueue.represents D q' [y] ∧ full y ∧ encoded c' qts ∧
    span y = rand_bytes (su_key u) ++ frames own_sealing 0 qts ∧ concat qts = span buf ∧
    (length (span buf) <= SS_FRAME_SIZE → qts = [span buf]).
Proof.
  intros km_length [Wb Nb] R. unfold EncryptData. rewrite (IoQueue.empty_represents _ _ _ R).
  rewrite bool_decide_eq_true_2 by done. cbn [mbind option_bind].
  destruct (encrypt_loop_fresh u km T0 (span buf) make suite_good km_length Nb wf_make)
    as (c1 & cb & qts & -> & R' & C' & W' & _ & S' & P' & K' & One). cbn [mbind option_bind].
  change (span make) with (@nil byte) in S'. cbn [app] in S'.
  exists c1, (IoQueue.set_back (IoQueue.push_back q make) cb), cb, qts. split; [done|].
  split; [apply (IoQueue.set_back_represents D _ [] make), (IoQueue.push_back_represents D _ []), R|].
  split; [split; [done|]; rewrite S'; intros [_ E]%app_eq_nil; revert E; apply frames_nonempty; congruence|].
  by split_and!.
Qed.

(** The other end: its salt and payloads, those that were delivered before, and what
    is to come of its stream. *)
Variables (salt : list byte) (pts dn0 : list (list byte)) (wire : list byte).
Hypothesis salt_length : length salt = su_key u.
Hypothesis pts_ok : Forall payload_ok pts.

Definition ss_dec (dec : option cipher) (p w : list byte) : Prop :=
  ∃ c dn rest, dec = Some c ∧ dec_rel u km salt pts c rest (dn0 ++ dn) ∧ p ++ rest = wire ∧ w = concat dn.

Lemma dec_rel_prefix c rest dn : dec_rel u km salt pts c rest dn → dn `prefix_of` pts.
Proof. intros R. destruct R as [|c b rest dn todo _ E _ _ _]; [apply prefix_nil|by exists todo]. Qed.

Lemma ss_dec_step `{Visitor V} (Inv : V → Prop) c v buf p w rest :
  (∀ v b, Inv v → wf b → span b ≠ [] →
     snd (on_received_data v b) = true ∧ Inv (fst (on_received_data v b))) →
  wf buf → Inv v → ss_dec (Some c) p w → (p ++ span buf ++ rest) `prefix_of` wire →
  ∃ c' bufs, process_bytes T0 c v buf = Some (c', visit v bufs) ∧ Forall full bufs ∧ Inv (visit v bufs) ∧
    ss_dec (Some c') (p ++ span buf) (w ++ cat bufs).
Proof.
  intros accepts Wb Hv (c0 & dn & rest0 & [= <-] & Rel & Ew & ->) [tl Htl].
  rewrite <- Ew, <- !app_assoc in Htl. apply app_inv_head in Htl as ->.
  destruct (process_bytes_rel Inv accepts u km salt pts T0 c v buf (rest ++ tl) (dn0 ++ dn)
    suite_good salt_length pts_ok Wb Hv Rel) as (c' & bufs & -> & Wbufs & Hv' & Rel').
  exists c', bufs. split; [done|]. split.
  { pose proof (dec_rel_prefix _ _ _ Rel') as [td Htd]. rewrite Htd in pts_ok.
    apply Forall_app in pts_ok as [P _]. apply Forall_app in P as [_ P]. apply Forall_forall. intros b Hb.
    split; [by apply (proj1 (Forall_forall _ _) Wbufs)|]. intros E.
    assert (payload_ok (span b)) as Hp by by apply (proj1 (Forall_forall _ _) P), in_map.
    rewrite E in Hp. by destruct Hp. }
  split; [done|]. exists c', (dn ++ map span bufs), (rest ++ tl). rewrite app_assoc. split_and!; try done.
  + by rewrite <- Ew, <- !app_assoc.
  + by rewrite concat_app.
Qed.

End Streams.

(** ** Concrete queues *)

Definition byte_buf (bs : list byte) : GrowableIOBuffer := mkBuf bs (length bs) 0.

Definition queue_of (bufs : list GrowableIOBuffer) : queue := fold_left IoQueue.push_back bufs (IoQueue.make 4).

Lemma queue_of_represents bufs : IoQueue.represents 4 (queue_of bufs) bufs.
Proof. apply (push_all_represents bufs _ []), IoQueue.represents_make. lia. Qed.

Lemma byte_buf_full b bs : full (byte_buf (b :: bs)).
Proof. split; [unfold wf, byte_buf; simpl; lia|done]. Qed.

End RelayInv.
