(* ===== verification/RelayFlow.v ===== *)
(** * The relay loses nothing and does not hang

    The invariant of the relay of Relay.v, for any method that fulfils the interface
    [Codec]; the methods that do: SOCKS and HTTP CONNECT, which hand the bytes on, and
    shadowsocks with a genuine client.  The theorems follow for every sequence of
    events and every answer of the sockets.  The loops have fuel for one round per
    write that the sockets answer and one more, which the proofs show to be enough. *)

From Stdlib Require Import ZArith Lia.
From stdpp Require Import base list numbers option.
From S2P Require Import Prelude IoBuffer IoQueue Addr Hkdf Crypter Cipher Conn Relay RelayInv.

Module RelayFlow.
Import IoBuffer Addr Crypter Cipher Conn Relay RelayInv.

(** The answer of a getter, with what it leaves alone. *)
Ltac answers := do 5 eexists; split; [reflexivity|]; do 4 (split; [done|]).

Section Flow.
Context `{Allocator} `{CryptoLib} `{Sha1} `{KeyLib} `{RND : RandLib}.
Variable method : cipher_method.
Variable tls : bool.
Variable T0 : list byte.
Variable D : nat.

(** What the relay needs of a method: bytes of the channel become bytes for the
    client, and bytes of the client, which are a prefix of [W], become bytes for the
    channel. *)
Class Codec (W : list byte) := {
  enc_inv : option cipher → list byte → list byte → Prop;
  dec_inv : option cipher → list byte → list byte → Prop;
  encodes s buf p w :
    full buf → IoQueue.represents D (downstream_ s) [] → enc_inv (encoder_ s) p w →
    ∃ enc q ys, push_downstream method tls T0 s buf = Some (set_ciphers (set_downstream s q) enc (decoder_ s)) ∧
      IoQueue.represents D q ys ∧ Forall full ys ∧ ys ≠ [] ∧ enc_inv enc (p ++ span buf) (w ++ cat ys);
  decodes s buf p w rest :
    full buf → error_ s = false → IoQueue.represents D (upstream_ s) [] → dec_inv (decoder_ s) p w →
    p ++ span buf ++ rest = W →
    ∃ dec q ys, push_upstream method tls T0 s buf
                = Some (set_ciphers (set_upstream s q (upstream_writable_ s)) (encoder_ s) dec) ∧
      IoQueue.represents D q ys ∧ Forall full ys ∧ dec_inv dec (p ++ span buf) (w ++ cat ys) }.

(** The bytes for the client before the run, and those for the channel. *)
Context (D0 U0 W : list byte) `{Codec W}.

Local Abbreviation inv := (RelayInv.inv true D enc_inv dec_inv D0 U0 (λ p r, p ++ r = W)).
Local Abbreviation sound := (RelayInv.sound true D enc_inv dec_inv D0 U0 (λ p r, p ++ r = W)).

Lemma inv_flush_down rs f s ds us :
  inv rs s ds us → ups f s us → let s' := OnDownstreamWriteFlush s in
  inv rs s' ds us ∧ ups f s' us ∧ (ds ≠ [] → write_inprogress_ s' = true) ∧
  channel_ s' = channel_ s ∧ shutdown_ s' = shutdown_ s ∧ closed_ s' = closed_ s ∧ error_ s' = error_ s.
Proof.
  intros I U s'. unfold s', OnDownstreamWriteFlush. rewrite (inv_empty_down I).
  case_bool_decide; simpl; [by split_and!|].
  destruct (write_inprogress_ s) eqn:Wr; simpl; [by split_and!|].
  split_and!; try done. destruct I. by split.
Qed.

Lemma inv_OnStreamWrite rs f s ds us :
  inv rs s ds us → ups f s us →
  (closed_ s = false → connected_ (channel_ s) = true → ds = [] → read_inprogress_ (channel_ s) = true) →
  let s' := OnStreamWrite s in inv rs s' ds us ∧ ups f s' us ∧ downs true s' ds.
Proof.
  intros I U Hr s'. unfold s', OnStreamWrite. rewrite (inv_empty_down I).
  destruct (i_chan I) as (Ee & Ec & _). rewrite Ee.
  destruct (gone_ (channel_ s) && bool_decide (ds = []) && negb (shutdown_ s)) eqn:E.
  - apply andb_true_iff in E as [E _]. apply andb_true_iff in E as [E1 E2].
    apply bool_decide_eq_true in E2. split_and!; [destruct I; by split|done|].
    intros C. split_and!; [done|auto|done].
  - destruct (inv_flush_down rs f s ds us I U) as (I' & U' & Wr & Ec' & Es & Ecl & _).
    split_and!; try done. intros C. rewrite Ec', Es. rewrite Ecl in C. split_and!; [done|auto|].
    intros G ->. rewrite G in E. by destruct (shutdown_ s).
Qed.

Lemma end_stream_ok rs f s e ds us bt wt ta ec :
  inv rs s ds us → ups f s us →
  match ec with
  | failed => True
  | again => ds ≠ []
  | success => closed_ s = true ∨ ds = [] ∧ (connected_ (channel_ s) = true → ta = true) ∧
      (closed_ s = false → gone_ (channel_ s) = true → shutdown_ s = true ∨ wt = true)
  end →
  ∃ s', end_stream_pipe tls s e bt wt ta ec = Some (s', e) ∧ inv rs s' ds us ∧ ups f s' us ∧ downs true s' ds.
Proof.
  intros I U Hec. unfold end_stream_pipe.
  set (s1 := if ta && connected_ (channel_ s) && negb (read_inprogress_ (channel_ s))
             then set_channel s (wait_read (channel_ s)) else s).
  assert (inv rs s1 ds us ∧ ups f s1 us ∧ closed_ s1 = closed_ s ∧ shutdown_ s1 = shutdown_ s ∧
    gone_ (channel_ s1) = gone_ (channel_ s) ∧ connected_ (channel_ s1) = connected_ (channel_ s) ∧
    (ta = true → connected_ (channel_ s) = true → read_inprogress_ (channel_ s1) = true))
    as (I1 & U1 & Ecl & Es & Eg & Ec & Hr).
  { unfold s1. destruct ta, (connected_ (channel_ s)) eqn:K, (read_inprogress_ (channel_ s)) eqn:Rd; simpl;
      try (split_and!; done).
    destruct (chan_wait_read _ (i_chan I)) as (C1 & C2 & C3 & C4 & C5).
    split_and!; try done; try (simpl; congruence); simpl.
    - destruct I. split; simpl; try done; by rewrite C2.
    - unfold ups in *. simpl. by rewrite C3, C5.
    - auto. }
  clearbody s1.
  destruct ec; cbn [bool_decide decide_rel].
  - (* success *)
    rewrite bool_decide_eq_true_2 by done.
    destruct Hec as [C|(-> & Hta & Hsh)].
    { rewrite <- Ecl in C.
      destruct (negb bt && true && negb ta) eqn:E.
      - destruct (inv_OnStreamWrite rs f s1 ds us I1 U1) as (? & ? & ?); [congruence|]. by eexists.
      - eexists; split; [done|]. unfold ProcessSentData.
        destruct (error_ s1); [destruct (inv_process_error tls rs s1 ds us I1); split_and!; auto using closed_ups, closed_downs|].
        destruct wt; [apply inv_OnStreamWrite; try done; congruence|split_and!; auto using closed_ups, closed_downs]. }
    assert (closed_ s1 = false → connected_ (channel_ s1) = true → @nil GrowableIOBuffer = [] → read_inprogress_ (channel_ s1) = true)
      as Hr1 by (rewrite Ec; auto).
    destruct (negb bt && true && negb ta) eqn:E.
    { eexists; split; [done|]. by apply inv_OnStreamWrite. }
    eexists; split; [done|]. unfold ProcessSentData.
    destruct (error_ s1).
    { destruct (inv_process_error tls rs s1 [] us I1); split_and!; auto using closed_ups, closed_downs. }
    destruct wt; [by apply inv_OnStreamWrite|]. split_and!; try done.
    intros C. split_and!; [done|auto|]. intros G _. rewrite Es. rewrite Ecl in C. rewrite Eg in G.
    by destruct (Hsh C G).
  - destruct (inv_flush_down rs f s1 ds us I1 U1) as (I2 & U2 & Wr & Ec2 & Es2 & Ecl2 & Eer2).
    set (s2 := OnDownstreamWriteFlush s1) in *. clearbody s2.
    assert (downs true s2 ds) as D2 by (intros C; by split_and!).
    destruct wt; simpl; [|by eexists].
    assert (∀ P, inv rs (if P : bool then OnStreamWrite s2 else ProcessSentData tls s2 success true) ds us ∧
      ups f (if P : bool then OnStreamWrite s2 else ProcessSentData tls s2 success true) us ∧
      downs true (if P : bool then OnStreamWrite s2 else ProcessSentData tls s2 success true) ds) as HP.
    { intros P. assert (inv rs (OnStreamWrite s2) ds us ∧ ups f (OnStreamWrite s2) us ∧ downs true (OnStreamWrite s2) ds)
        as HW by (apply inv_OnStreamWrite; done).
      destruct P; [done|]. simpl. destruct (error_ s2); [|done].
      destruct (inv_process_error tls rs s2 ds us I2); split_and!; auto using closed_ups, closed_downs. }
    eexists; split; [done|]. apply HP.
  - try rewrite bool_decide_eq_false_2 by done. rewrite andb_false_r. simpl. eexists; split; [done|].
    destruct (inv_process_error tls rs s1 ds us I1); split_and!; auto using closed_ups, closed_downs.
Qed.

(** *** The channel is lost *)

(** Without data for the client the downlink is half-closed. *)
Lemma disconnected_empty rs f pipe s e us :
  inv rs s [] us → connected_ (channel_ s) = true ∨ shutdown_ s = false →
  ∃ s', disconnected pipe s e = Some (s', e) ∧ inv rs s' [] us ∧ ups f s' us ∧ downs true s' [] ∧
    gone_ (channel_ s') = true ∧ shutdown_ s' = true.
Proof.
  intros I Hs. assert (shutdown_ s = false) as Hsh.
  { destruct Hs as [K|]; [|done]. destruct (shutdown_ s) eqn:S; [|done].
    destruct (i_chan I) as (_ & G & _). specialize (G K). destruct (closed_ s) eqn:C.
    - rewrite (i_closed I C) in G. done.
    - destruct (i_shut I S C) as [_ G']. congruence. }
  unfold disconnected. fold (lost s). destruct (inv_lost rs f s [] us I) as (I' & U' & G').
  rewrite (inv_empty_down I'). rewrite bool_decide_eq_true_2 by done.
  change (shutdown_ (lost s)) with (shutdown_ s). rewrite Hsh. eexists; split; [done|].
  assert (inv rs (set_shutdown (lost s)) [] us) as I2 by (destruct I'; by split).
  split_and!; try done. intros C. split_and!; try done.
  intros _ K. destruct (i_chan I') as (_ & G2 & _). specialize (G2 K). congruence.
Qed.

(** *** From the channel to the client *)

Lemma GetNextDownstreamBuf_ok rs f pipe s e ds us wt :
  inv rs s ds us → ups f s us → ready wt s ds →
  ∃ s' e' ec next rd,
    GetNextDownstreamBuf method tls T0 pipe s e = Some (s', e', ec, false, next, rd) ∧
    dreads e' = dreads e ∧ dwrites e' = dwrites e ∧ cwrites e' = cwrites e ∧ ups f s' us ∧
    ((∃ b ds', next = Some b ∧ ec = success ∧ inv rs s' (b :: ds') us)
     ∨ (next = None ∧ ec = again ∧ inv rs s' [] us ∧ ready wt s' [])
     ∨ (next = None ∧ ec = failed ∧ inv rs s' [] us ∧ shutdown_ s' = true ∧ gone_ (channel_ s') = true)).
Proof.
  intros I U Hrd. unfold GetNextDownstreamBuf. rewrite (inv_empty_down I).
  destruct ds as [|b ds].
  2:{ rewrite bool_decide_eq_false_2 by done. simpl. rewrite (front_of_rep _ b ds) by apply I. simpl.
      answers. left. by exists b, ds. }
  rewrite bool_decide_eq_true_2 by done. simpl.
  destruct (i_pend I) as [_ ->]. destruct (i_chan I) as (Ee & Eg & _).
  destruct (connected_ (channel_ s)) eqn:K; simpl.
  2:{ answers. right. left. by split_and!. }
  rewrite Ee, (Eg eq_refl).
  assert (∀ e', next_downstream s e' again false = Some (s, e', again, false, None, false)) as Hagain.
  { intros e'. unfold next_downstream. rewrite (inv_empty_down I). by rewrite bool_decide_eq_true_2. }
  destruct (creads e) as [|r cs].
  { rewrite Hagain. answers. right. left. by split_and!. }
  destruct r as [bs| |].
  - destruct (read_buf_full SOCKET_BUF_SIZE bs) as (buf & -> & Wb & Sb); [done|]. cbn [mbind option_bind].
    destruct (empty buf) eqn:Eb.
    { unfold next_downstream. rewrite (inv_empty_down I), bool_decide_eq_true_2 by done.
      answers. right. left. by split_and!. }
    assert (full buf) as Fb by by apply empty_full.
    set (s1 := record s [] [] (span buf) []).
    destruct (i_drel I) as (w & Ew & Es).
    destruct (encodes s1 buf (up_got_ s) w Fb) as (enc & q & ys & -> & Rq & Fy & Ny & Ew'); [apply I|done|].
    cbn [mbind option_bind]. destruct ys as [|y ys]; [done|]. unfold next_downstream.
    cbn [set_ciphers set_downstream downstream_]. rewrite (IoQueue.empty_represents _ _ _ Rq).
    rewrite bool_decide_eq_false_2 by done. rewrite (front_of_rep _ y ys) by done. cbn [mbind option_bind].
    answers. left. exists y, ys. split_and!; try done.
    destruct I. split; simpl; rewrite ?app_nil_r; try done.
    + exists (w ++ cat (y :: ys)). split; [done|]. rewrite app_nil_r in Es. by rewrite Es, app_assoc.
    + intros S C. destruct i_shut0 as [_ G]; [done|done|]. rewrite (Eg eq_refl) in G. done.
  - rewrite Hagain. answers. right. left. by split_and!.
  - destruct (disconnected_empty rs f pipe s (mkEnv (dreads e) (dwrites e) cs (cwrites e)) us I) as (s' & -> & I' & U' & _ & G' & S').
    { by left. }
    cbn [mbind option_bind]. unfold next_downstream. rewrite (inv_empty_down I'), bool_decide_eq_true_2 by done.
    answers. right. right. by split_and!.
Qed.

Lemma stream_pipe_ok fuel : ∀ rs f bt wt s e ds us,
  inv rs s ds us → ups f s us → ready wt s ds → length (dwrites e) < fuel →
  ∃ s' e' ds', stream_pipe method tls T0 fuel bt wt s e = Some (s', e') ∧ dreads e' = dreads e ∧
    inv rs s' ds' us ∧ ups f s' us ∧ downs true s' ds'.
Proof.
  induction fuel as [|fuel IH]; intros rs f bt wt s e ds us I U Hrd Hf; [lia|]. cbn [stream_pipe].
  destruct (GetNextDownstreamBuf_ok rs f (stream_pipe method tls T0 fuel false false) s e ds us wt I U Hrd)
    as (s1 & e1 & ec & next & rd & -> & Er & Edw & Ecw & U1 & Hcases). cbn [mbind option_bind].
  assert (∀ s2 e2 ds2 bt wt ta ec, dreads e2 = dreads e1 → inv rs s2 ds2 us → ups f s2 us →
    match ec with
    | failed => True
    | again => ds2 ≠ []
    | success => closed_ s2 = true ∨ ds2 = [] ∧ (connected_ (channel_ s2) = true → ta = true) ∧
      (closed_ s2 = false → gone_ (channel_ s2) = true → shutdown_ s2 = true ∨ wt = true)
    end →
    ∃ s' e' ds', end_stream_pipe tls s2 e2 bt wt ta ec = Some (s', e') ∧ dreads e' = dreads e ∧
      inv rs s' ds' us ∧ ups f s' us ∧ downs true s' ds') as Hend.
  { intros s2 e2 ds2 bt2 wt2 ta2 ec2 Hr I2 U2 Hc.
    destruct (end_stream_ok rs f s2 e2 ds2 us bt2 wt2 ta2 ec2 I2 U2 Hc) as (s' & E' & ? & ? & ?).
    exists s', e2, ds2. rewrite E'. split_and!; try done. congruence. }
  destruct Hcases as [(b & ds' & -> & -> & I1)|[(-> & -> & I1 & Hr1)|(-> & -> & I1 & Sh & G)]].
  - rewrite (bool_decide_eq_false_2 (success = again)) by done. cbn [andb].
    pose proof (i_dfull I1) as F. apply Forall_cons_1 in F as [Fb _]. rewrite (full_empty b Fb). cbn [orb].
    destruct (closed_ s1) eqn:Cl. { apply (Hend s1 e1 (b :: ds')); try done. by left. }
    destruct (dwrites e1) as [|w ws] eqn:Ews. { by apply (Hend s1 e1 (b :: ds')). }
    destruct w as [n yield| |].
    + destruct (downstream_written rs s1 b ds' us (n `min` size b) I1) as (b' & -> & Hne & He); [lia|].
      cbn [mbind option_bind]. cbv zeta in Hne, He.
      destruct (empty b') eqn:Em; cbn [negb].
      2:{ apply (Hend _ _ (b' :: ds')); try done. by apply Hne. }
      destruct (He eq_refl) as [I2 Hn]. rewrite Hn, orb_true_r.
      set (s2 := pop_downstream (write_downstream s1 b' (take (n `min` size b) (span b)))) in *.
      assert (ups f s2 us) as U2 by done. rewrite (inv_empty_down I2).
      destruct yield.
      * case_bool_decide as Ed; [apply (Hend _ _ ds')|apply (Hend _ _ ds')]; try done.
        right. split_and!; try done. by right.
      * destruct (IH rs f (bt || rd) true s2 (mkEnv (dreads e1) ws (creads e1) (cwrites e1)) ds' us I2 U2)
          as (s' & e' & ds2 & E' & Hr' & ?); [by intros ? ? ?; right|cbn [dwrites]; rewrite <- Edw in Hf; simpl in Hf; lia|].
        exists s', e', ds2. split; [exact E'|]. split; [simpl in Hr'; congruence|done].
    + by apply (Hend _ _ (b :: ds')).
    + by apply (Hend _ _ (b :: ds')).
  - rewrite (bool_decide_eq_true_2 (again = again)) by done. cbn [andb negb]. apply (Hend _ _ []); try done.
    right. split_and!; try done. intros C G. by apply Hr1.
  - apply (Hend _ _ []); try done. right. split_and!; try done; [|by left].
    destruct (i_chan I1) as (_ & G2 & _). intros K. specialize (G2 K). congruence.
Qed.

Lemma WriteStreamInPipe_ok rs f s e ds us :
  inv rs s ds us → ups f s us → ready false s ds →
  ∃ s' e' ds', WriteStreamInPipe method tls T0 s e = Some (s', e') ∧ dreads e' = dreads e ∧
    inv rs s' ds' us ∧ ups f s' us ∧ downs true s' ds'.
Proof. intros I U R. apply (stream_pipe_ok _ rs f false false s e ds us); try done. lia. Qed.

Lemma disconnected_ok rs f s e ds us :
  inv rs s ds us → ready false s ds →
  ∃ s' e' ds', disconnected (WriteStreamInPipe method tls T0) s e = Some (s', e') ∧ dreads e' = dreads e ∧
    inv rs s' ds' us ∧ ups f s' us ∧ downs true s' ds'.
Proof.
  intros I R. destruct (inv_lost rs f s ds us I) as (I' & U' & G').
  destruct (bool_decide (ds = [])) eqn:Ed, (shutdown_ s) eqn:S; simpl.
  2:{ apply bool_decide_eq_true in Ed as ->.
      destruct (disconnected_empty rs f (WriteStreamInPipe method tls T0) s e us I) as (s' & E & I1 & U1 & D1 & _); [by right|].
      by exists s', e, []. }
  all: unfold disconnected; fold (lost s); rewrite (inv_empty_down I'), Ed;
    change (shutdown_ (lost s)) with (shutdown_ s); rewrite S; simpl;
    apply (WriteStreamInPipe_ok rs f _ _ ds us); try done;
    intros C _ ->; simpl in *; try (by left); by apply bool_decide_eq_false in Ed.
Qed.

(** *** From the client to the channel *)

Lemma GetNextUpstreamBuf_ok s e ds us :
  inv (dreads e) s ds us → downs true s ds → idle true s →
  ∃ s' e' ec next us', GetNextUpstreamBuf method tls T0 s e = Some (s', e', ec, next) ∧
    cwrites e' = cwrites e ∧ inv (dreads e') s' ds us' ∧ downs true s' ds ∧ idle true s' ∧
    ((∃ b us2, next = Some b ∧ ec = success ∧ us' = b :: us2)
     ∨ (next = None ∧ ec = again ∧ us' = [])
     ∨ (next = None ∧ ec = failed ∧ closed_ s' = true)).
Proof.
  intros I Dn Id. unfold GetNextUpstreamBuf. rewrite (inv_empty_up I).
  destruct us as [|b us].
  2:{ rewrite bool_decide_eq_false_2 by done. simpl. rewrite (front_of_rep _ b us) by apply I. simpl.
      answers. left. by exists b, us. }
  rewrite bool_decide_eq_true_2 by done. simpl. destruct (i_pend I) as [-> _].
  destruct (closed_ s) eqn:C. { answers. right. right. by split_and!. }
  assert (error_ s = false) as Er by (destruct (error_ s) eqn:Er; [rewrite (i_error I) in C; done|done]).
  assert (∀ e' ec, ec ≠ failed → next_upstream s e' ec = Some (s, e', again, None)) as Hagain.
  { intros e' ec Hc. unfold next_upstream. rewrite (inv_empty_up I), bool_decide_eq_true_2 by done.
    by destruct ec. }
  destruct (dreads e) as [|r rs] eqn:Ed.
  { rewrite Hagain by done. do 5 eexists. split; [reflexivity|]. rewrite Ed. split_and!; try done. right. left. by split_and!. }
  assert (∀ bs, r = Read bs → stream_of (r :: rs) = bs ++ stream_of rs) as Hst by by intros bs ->.
  assert ((∀ bs, r ≠ Read bs) → inv rs s ds []) as Hskip.
  { intros Hn. destruct I. split; try done; [by inversion i_fits0|]. rewrite <- i_read0. by destruct r; [destruct (Hn bs)| |]. }
  destruct r as [bs| |].
  - pose proof (i_fits I) as F. apply Forall_cons_1 in F as [Fb Frs]. simpl in Fb.
    destruct (read_buf_spec SOCKET_DEBUF_SIZE bs Fb) as (buf & -> & Wb & Sb & _). cbn [mbind option_bind].
    pose proof (i_read I) as Rd. rewrite (Hst bs eq_refl), <- Sb in Rd.
    destruct (empty buf) eqn:Eb.
    { rewrite Hagain by done. do 5 eexists. split; [reflexivity|]. cbn [dreads cwrites]. apply empty_span in Eb; [|done].
      rewrite Eb in Rd. split_and!; try done; [|right; left; by split_and!]. destruct I. by split. }
    assert (full buf) as Fbuf by by apply empty_full.
    set (s1 := record s (span buf) [] [] []). destruct (i_urel I) as (w & Ew & Es).
    destruct (decodes s1 buf (down_got_ s) w (stream_of rs) Fbuf) as (dec & q & ys & -> & Rq & Fy & Ew'); [done|apply I|done|done|].
    cbn [mbind option_bind]. set (s2 := set_ciphers _ _ _).
    assert (inv rs s2 ds ys) as I2.
    { destruct I. split; simpl; rewrite ?app_nil_r; try done.
      - exists (w ++ cat ys). split; [done|]. rewrite app_nil_r in Es. by rewrite Es, app_assoc.
      - by rewrite <- app_assoc. }
    unfold next_upstream. rewrite (inv_empty_up I2). destruct ys as [|y ys].
    + rewrite bool_decide_eq_true_2 by done. do 5 eexists. split; [reflexivity|]. cbn [dreads cwrites].
      split_and!; try done. right. left. by split_and!.
    + rewrite bool_decide_eq_false_2 by done. rewrite (front_of_rep _ y ys) by apply I2. cbn [mbind option_bind].
      do 5 eexists. split; [reflexivity|]. cbn [dreads cwrites]. split_and!; try done. left. by exists y, ys.
  - rewrite Hagain by done. do 5 eexists. split; [reflexivity|]. cbn [dreads cwrites].
    split_and!; try done; [by apply Hskip|]. right. left. by split_and!.
  - destruct (inv_process_error tls rs s ds [] (Hskip ltac:(done))) as [I1 C1].
    unfold next_upstream.
    rewrite (inv_empty_up I1), bool_decide_eq_true_2 by done.
    do 5 eexists. split; [reflexivity|]. cbn [dreads cwrites]. split_and!; try done; [by apply closed_downs|congruence|].
    right. right. by split_and!.
Qed.

Lemma upstream_pipe_ok fuel : ∀ s e ds us,
  inv (dreads e) s ds us → downs true s ds → idle true s → length (cwrites e) < fuel →
  ∃ s' e' ds' us', upstream_pipe method tls T0 fuel s e = Some (s', e') ∧
    inv (dreads e') s' ds' us' ∧ downs true s' ds' ∧ ups true s' us'.
Proof.
  induction fuel as [|fuel IH]; intros s e ds us I Dn Id Hf; [lia|]. cbn [upstream_pipe].
  destruct (GetNextUpstreamBuf_ok s e ds us I Dn Id)
    as (s1 & e1 & ec & next & us1 & -> & Ecw & I1 & D1 & Id1 & Hcases). cbn [mbind option_bind].
  assert (∀ s2 e2 us2 ta ec, dreads e2 = dreads e1 → inv (dreads e1) s2 ds us2 → downs true s2 ds → idle true s2 →
    match ec with failed => False | again => us2 ≠ [] | success => us2 = [] ∧ ta = true end →
    ∃ s' e' ds' us', end_upstream_pipe s2 e2 ta ec = Some (s', e') ∧
      inv (dreads e') s' ds' us' ∧ downs true s' ds' ∧ ups true s' us') as Hend.
  { intros s2 e2 us2 ta2 ec2 Hr I2 D2 Id2 Hc.
    destruct (end_upstream_ok (dreads e1) true true s2 e2 ds us2 ta2 ec2 I2 D2 Id2 Hc) as (s' & E' & ? & ? & ? & _).
    exists s', e2, ds, us2. rewrite E', Hr. by split_and!. }
  destruct Hcases as [(b & us2 & -> & -> & ->)|[(-> & -> & ->)|(-> & -> & C)]].
  - rewrite (bool_decide_eq_false_2 (success = again)) by done.
    pose proof (i_ufull I1) as F. apply Forall_cons_1 in F as [Fb _]. rewrite (full_empty b Fb).
    destruct (negb (connected_ (channel_ s1)) || eof_ (channel_ s1)). { by apply (Hend s1 e1 (b :: us2)). }
    destruct (cwrites e1) as [|w ws] eqn:Ews. { by apply (Hend s1 e1 (b :: us2)). }
    destruct w as [n yield| |].
    + destruct (upstream_written (dreads e1) s1 b ds us2 (n `min` size b) I1) as (b' & -> & Hne & He); [lia|].
      cbn [mbind option_bind]. cbv zeta in Hne, He.
      destruct (empty b') eqn:Em; cbn [negb].
      2:{ apply (Hend _ _ (b' :: us2)); try done. by apply Hne. }
      specialize (He eq_refl).
      set (s2 := pop_upstream (write_upstream s1 b' (take (n `min` size b) (span b)))) in *.
      assert (downs true s2 ds ∧ idle true s2) as [D2 Id2] by done. rewrite (inv_empty_up He).
      destruct yield; [case_bool_decide; by apply (Hend _ _ us2)|].
      by apply (IH s2 (mkEnv (dreads e1) (dwrites e1) (creads e1) ws) ds us2 He); [..|rewrite <- Ecw in Hf; simpl in Hf |- *; lia].
    + by apply (Hend _ _ (b :: us2)).
    + destruct (disconnected_ok (dreads e1) true s1 (mkEnv (dreads e1) (dwrites e1) (creads e1) ws) ds (b :: us2) I1)
        as (s2 & e2 & ds2 & -> & Hr & I2 & U2 & D2).
      { intros C G ->. left. by apply D1. }
      cbn [mbind option_bind]. destruct (inv_disconnect tls (dreads e1) s2 ds2 (b :: us2) I2) as [I3 C3].
      exists (OnDisconnect tls s2), e2, ds2, (b :: us2). rewrite Hr. split_and!; auto using closed_ups, closed_downs.
  - rewrite (bool_decide_eq_true_2 (again = again)) by done. by apply (Hend _ _ []).
  - exists s1, e1, ds, us1. split_and!; auto using closed_ups.
Qed.

Lemma WriteUpstreamInPipe_ok s e ds us :
  inv (dreads e) s ds us → downs true s ds → ups false s us →
  ∃ s' e' ds' us', WriteUpstreamInPipe method tls T0 s e = Some (s', e') ∧
    inv (dreads e') s' ds' us' ∧ downs true s' ds' ∧ ups true s' us'.
Proof.
  intros I Dn U. unfold WriteUpstreamInPipe. destruct (channel_write_inprogress_ (channel_ s)) eqn:Wi.
  - exists s, e, ds, us. split_and!; try done. intros C. destruct (U C) as [Un Uc]. split; [done|].
    intros K. destruct (Uc K) as (? & Hne & _). rewrite Wi in *. split_and!; try done. intros _ ->. by destruct Hne.
  - apply (upstream_pipe_ok _ s e ds us); try done; [|lia]. intros C. destruct (U C) as [Un Uc]. split; [done|].
    intros K. destruct (Uc K) as (Hw & _). by rewrite Wi in *.
Qed.

Lemma flushed_pipe_ok s e ds us :
  inv (dreads e) s ds us → downs true s ds → ups false s us →
  ∃ s' e' ds' us', flush_upstream <$> WriteUpstreamInPipe method tls T0 s e = Some (s', e') ∧
    inv (dreads e') s' ds' us' ∧ downs true s' ds' ∧ ups true s' us'.
Proof.
  intros I Dn U. destruct (WriteUpstreamInPipe_ok s e ds us I Dn U) as (s' & e' & ds' & us' & -> & I' & D' & U').
  destruct (inv_flush_up (dreads e') true true s' ds' us' I' D') as (I2 & D2 & U2 & _).
  exists (OnUpstreamWriteFlush s'), e', ds', us'. by split_and!; auto.
Qed.

(** *** Events *)

(** The channel is lost while the client's side is sound. *)
Lemma sound_lost s e ds us :
  inv (dreads e) s ds us → ready false s ds →
  ∃ s' e' ds' us', disconnected (WriteStreamInPipe method tls T0) s e = Some (s', e') ∧ sound (dreads e') s' ds' us'.
Proof.
  intros I R. destruct (disconnected_ok (dreads e) true s e ds us I R) as (s' & e' & ds' & -> & Hr & I' & U' & D').
  exists s', e', ds', us. rewrite Hr. by split_and!.
Qed.

Lemma step_client_readable ok s e ds us :
  sound (dreads e) s ds us →
  ∃ s' e' ds' us', step method tls T0 s (ClientReadable ok) e = Some (s', e') ∧ sound (dreads e') s' ds' us'.
Proof.
  intros (I & Dn & U). cbn [step]. destruct (downstream_read_inprogress_ s); simpl; [|by exists s, e, ds, us].
  set (s1 := set_waits s false (write_inprogress_ s)).
  assert (inv (dreads e) s1 ds us) as I1 by (destruct I; by split).
  destruct (closed_ s) eqn:C; [exists s1, e, ds, us; split; [done|by apply sound_closed]|].
  destruct ok; [apply (flushed_pipe_ok s1 e ds us I1); [done|]|].
  - intros C1. destruct (ups_weaken s us U C) as [Un Uc]. split; [done|]. intros K. by destruct (Uc K) as (? & ? & _).
  - destruct (inv_process_error tls _ s1 ds us I1) as [I2 C2]. eexists _, e, ds, us. split; [done|by apply sound_closed].
Qed.

Lemma step_client_writable ok s e ds us :
  sound (dreads e) s ds us →
  ∃ s' e' ds' us', step method tls T0 s (ClientWritable ok) e = Some (s', e') ∧ sound (dreads e') s' ds' us'.
Proof.
  intros (I & Dn & U). cbn [step]. destruct (write_inprogress_ s); simpl; [|by exists s, e, ds, us].
  set (s1 := set_waits s (downstream_read_inprogress_ s) false).
  assert (inv (dreads e) s1 ds us) as I1 by (destruct I; by split).
  destruct (closed_ s) eqn:C; [exists s1, e, ds, us; split; [done|by apply sound_closed]|].
  destruct ok.
  - destruct (WriteStreamInPipe_ok (dreads e) true s1 e ds us I1 U) as (s' & e' & ds' & -> & Hr & I' & U' & D').
    { by apply (downs_ready true s). }
    exists s', e', ds', us. rewrite Hr. by split_and!.
  - destruct (inv_process_error tls _ s1 ds us I1) as [I2 C2]. eexists _, e, ds, us. split; [done|by apply sound_closed].
Qed.

Lemma step_channel_connected ok s e ds us :
  sound (dreads e) s ds us →
  ∃ s' e' ds' us', step method tls T0 s (ChannelConnected ok) e = Some (s', e') ∧ sound (dreads e') s' ds' us'.
Proof.
  intros (I & Dn & U). cbn [step]. destruct (closed_ s) eqn:C; simpl; [by exists s, e, ds, us|].
  destruct (connected_ (channel_ s)) eqn:K; simpl; [by exists s, e, ds, us|].
  destruct (gone_ (channel_ s)) eqn:G; simpl; [by exists s, e, ds, us|].
  destruct ok; [|apply (sound_lost s e ds us I), (downs_ready true), Dn].
  destruct (i_chan I) as (_ & _ & Hi). destruct (Hi K G) as [Hr Hw]. rewrite Hr, Hw.
  unfold on_connected. set (s1 := set_upstream _ _ true).
  assert (inv (dreads e) s1 ds us) as I1.
  { destruct I. split; try done; simpl; [congruence|]. intros Sh _. destruct (i_shut0 Sh C). congruence. }
  destruct (WriteStreamInPipe_ok (dreads e) false s1 e ds us I1) as (s2 & e2 & ds2 & -> & Hr2 & I2 & U2 & D2).
  { intros _. by split. }
  { by intros ? ?. }
  cbn [mbind option_bind]. apply (flushed_pipe_ok s2 e2 ds2 us); try done. by rewrite Hr2.
Qed.

Lemma step_channel_readable ok s e ds us :
  sound (dreads e) s ds us →
  ∃ s' e' ds' us', step method tls T0 s (ChannelReadable ok) e = Some (s', e') ∧ sound (dreads e') s' ds' us'.
Proof.
  intros (I & Dn & U). cbn [step]. destruct (read_inprogress_ (channel_ s)) eqn:Rd; simpl; [|by exists s, e, ds, us].
  set (s1 := set_channel s (read_over (channel_ s))).
  assert (inv (dreads e) s1 ds us) as I1.
  { destruct I as [? ? ? ? ? ? (E1 & E2 & E3) ? ? ? ? ? ?]. split; try done. split_and!; try done.
    intros K G. split; [done|]. by apply E3. }
  assert (ready false s1 ds) as R1 by by apply (downs_ready true s).
  destruct (connected_ (channel_ s)) eqn:K; simpl.
  2:{ exists s1, e, ds, us. split; [done|]. split; [done|]. split; [|done].
      intros C. destruct (Dn C) as (? & ? & ?). split; [done|]. split; [simpl; congruence|done]. }
  destruct (i_chan I) as (_ & G & _). rewrite (G K). simpl.
  destruct (closed_ s) eqn:C; [exists s1, e, ds, us; split; [done|by apply sound_closed]|].
  destruct ok; [|by apply (sound_lost s1 e ds us)]. unfold received.
  destruct (WriteStreamInPipe_ok (dreads e) true s1 e ds us I1) as (s' & e' & ds' & -> & Hr & I' & U' & D'); [done|done|].
  cbn [mbind option_bind]. destruct (inv_flush_down (dreads e) true s' ds' us I' U') as (I2 & U2 & W2 & Ec & Es & Ecl & _).
  exists (OnDownstreamWriteFlush s'), e', ds', us. rewrite Hr.
  split; [done|]. split; [done|]. split; [|done]. intros C2. rewrite Ecl in C2. destruct (D' C2) as (? & ? & ?). rewrite Ec, Es. by split_and!.
Qed.

Lemma step_channel_writable ok s e ds us :
  sound (dreads e) s ds us →
  ∃ s' e' ds' us', step method tls T0 s (ChannelWritable ok) e = Some (s', e') ∧ sound (dreads e') s' ds' us'.
Proof.
  intros (I & Dn & U). cbn [step].
  destruct (channel_write_inprogress_ (channel_ s)) eqn:Wi; simpl; [|by exists s, e, ds, us].
  set (s1 := set_channel s (write_over (channel_ s))).
  assert (inv (dreads e) s1 ds us) as I1.
  { destruct I as [? ? ? ? ? ? (E1 & E2 & E3) ? ? ? ? ? ?]. split; try done. split_and!; try done.
    intros K G. split; [|done]. by apply E3. }
  destruct (connected_ (channel_ s)) eqn:K; simpl.
  2:{ exists s1, e, ds, us. split; [done|]. split; [done|]. split; [done|].
      intros C. destruct (U C) as (? & ?). split; [done|]. simpl. congruence. }
  destruct (i_chan I) as (_ & G & _). rewrite (G K). simpl.
  destruct (closed_ s) eqn:C; [exists s1, e, ds, us; split; [done|by apply sound_closed]|].
  destruct ok; [|apply (sound_lost s1 e ds us I1); by apply (downs_ready true s)]. unfold sent.
  apply (flushed_pipe_ok _ e ds us); [destruct I1; by split|done|].
  intros _. split; [simpl; congruence|]. done.
Qed.

Lemma step_sound s ev e ds us :
  sound (dreads e) s ds us →
  ∃ s' e' ds' us', step method tls T0 s ev e = Some (s', e') ∧ sound (dreads e') s' ds' us'.
Proof.
  intros S. destruct ev; [by eapply step_client_readable|by eapply step_client_writable| |by eapply step_channel_connected|
    by eapply step_channel_readable|by eapply step_channel_writable|].
  - destruct (inv_disconnect tls _ s ds us (proj1 S)) as [I' C']. eexists _, e, ds, us. split; [done|by apply sound_closed].
  - cbn [step]. destruct (shutdown_ s && negb (closed_ s)); [|by exists s, e, ds, us].
    destruct (inv_disconnect tls _ s ds us (proj1 S)) as [I' C']. eexists _, e, ds, us. split; [done|by apply sound_closed].
Qed.

Lemma run_sound evs : ∀ s rs ds us,
  sound rs s ds us →
  ∃ s' rs' ds' us', run method tls T0 s rs evs = Some (s', rs') ∧ sound rs' s' ds' us'.
Proof.
  induction evs as [|[ev [[dw cr] cw]] evs IH]; intros s rs ds us S; cbn [run].
  - by exists s, rs, ds, us.
  - destruct (step_sound s ev (mkEnv rs dw cr cw) ds us S) as (s1 & e1 & ds1 & us1 & -> & S1). cbn [mbind option_bind].
    by apply (IH s1 (dreads e1) ds1 us1).
Qed.

(** *** Progress *)

Definition keeps (s s' : relay) : Prop :=
  up_got_ s' = up_got_ s ∧ gone_ (channel_ s') = gone_ (channel_ s) ∧ closed_ s' = closed_ s.

Lemma end_stream_keeps s e bt wt s' e' :
  error_ s = false → end_stream_pipe tls s e bt wt true success = Some (s', e') → keeps s s'.
Proof.
  intros Er E. unfold end_stream_pipe in E. rewrite andb_false_r in E.
  set (s1 := if true && connected_ (channel_ s) && negb (read_inprogress_ (channel_ s))
             then set_channel s (wait_read (channel_ s)) else s) in *.
  assert (keeps s s1 ∧ error_ s1 = false) as [K Er1].
  { unfold s1, wait_read. repeat case_match; done. }
  clearbody s1. injection E as <- <-. unfold ProcessSentData. rewrite Er1.
  destruct wt; [|done]. unfold OnStreamWrite, OnDownstreamWriteFlush. repeat case_match; done.
Qed.

Lemma stream_pipe_drains ds : ∀ fuel rs bt wt s rds cw us,
  inv rs s ds us → ups true s us → ready wt s ds → closed_ s = false → length ds < fuel →
  ∃ s' e', stream_pipe method tls T0 fuel bt wt s (mkEnv rds (whole ds) [] cw) = Some (s', e') ∧
    dreads e' = rds ∧ sound rs s' [] us ∧ keeps s s'.
Proof.
  induction ds as [|b ds IH]; intros fuel rs bt wt s rds cw us I U Hrd C Hf;
    (destruct fuel as [|fuel]; [simpl in Hf; lia|]); cbn [stream_pipe].
  - set (e := mkEnv rds (whole []) [] cw). assert (error_ s = false) as Er.
    { destruct (error_ s) eqn:Er; [|done]. rewrite (i_error I Er) in C. done. }
    assert (GetNextDownstreamBuf method tls T0 (stream_pipe method tls T0 fuel false false) s e
            = Some (s, e, again, false, None, false)) as ->.
    { unfold GetNextDownstreamBuf, next_downstream. rewrite (inv_empty_down I), bool_decide_eq_true_2 by done.
      destruct (i_pend I) as [_ ->], (i_chan I) as (-> & Hg & _). simpl.
      destruct (connected_ (channel_ s)); [by rewrite Hg|done]. }
    cbn [mbind option_bind]. rewrite (bool_decide_eq_true_2 (again = again)) by done. cbn [andb negb].
    destruct (end_stream_ok rs true s e [] us (bt || false) wt true success I U) as (s' & E & I' & U' & D').
    { right. split_and!; try done. intros _ G. by apply Hrd. }
    exists s', e. rewrite E. split; [done|]. split; [done|]. split; [done|]. by eapply end_stream_keeps.
  - unfold GetNextDownstreamBuf. rewrite (inv_empty_down I), bool_decide_eq_false_2 by done. cbn [negb].
    rewrite (front_of_rep _ b ds) by apply I. cbn [mbind option_bind].
    rewrite (bool_decide_eq_false_2 (success = again)) by done. cbn [andb].
    pose proof (i_dfull I) as F. apply Forall_cons_1 in F as [Fb _]. rewrite (full_empty b Fb), C. cbn [orb].
    cbn [whole map dwrites]. rewrite Nat.min_id.
    destruct (downstream_written rs s b ds us (size b) I) as (b' & Eb & _ & He); [done|]. rewrite Eb. cbn [mbind option_bind].
    destruct (set_offset_advance b (size b)) as (b2 & Eb2 & W2 & S2 & _); [apply Fb|done|].
    rewrite Eb in Eb2. simplify_eq. assert (empty b2 = true) as Em.
    { apply empty_span; [done|]. rewrite S2. apply drop_ge. rewrite length_span; [done|apply Fb]. }
    rewrite Em in He |- *. cbn [negb]. destruct (He eq_refl) as [I2 ->]. rewrite orb_true_r.
    set (s2 := pop_downstream (write_downstream s b2 (take (size b) (span b)))) in *.
    destruct (IH fuel rs (bt || false) true s2 rds cw us I2) as (s' & e' & E & Hr & S' & K');
      [done|by intros ? ?; right|done|simpl in Hf; lia|].
    exists s', e'. split; [exact E|]. split; [done|]. split; [done|].
    unfold keeps in *. simpl in K'. by rewrite app_nil_r in K'.
Qed.

(** What waits for the client is written when the client takes it. *)
Lemma run_drains s rs ds us :
  sound rs s ds us → closed_ s = false → ds ≠ [] →
  ∃ s', run method tls T0 s rs [(ClientWritable true, (whole ds, [], []))] = Some (s', rs) ∧
    sound rs s' [] us ∧ keeps s s'.
Proof.
  intros (I & Dn & U) C Hne. cbn [run step]. rewrite (proj1 (Dn C) Hne). cbn [negb set_waits closed_]. rewrite C.
  set (s1 := set_waits s (downstream_read_inprogress_ s) false). unfold WriteStreamInPipe.
  destruct (stream_pipe_drains ds (length (dwrites (mkEnv rs (whole ds) [] [])) + 0 + 1) rs false false s1 rs [] us)
    as (s' & e' & E & Hr & S' & K'); [destruct I; by split|done|by apply (downs_ready true s)|done|unfold whole; simpl; rewrite length_map; lia|].
  exists s'. split; [|done]. cbn [length creads] in *. by rewrite E, <- Hr.
Qed.

Lemma relay_run_app evs1 evs2 : ∀ s rs,
  run method tls T0 s rs (evs1 ++ evs2) = '(s, rs) ← run method tls T0 s rs evs1; run method tls T0 s rs evs2.
Proof.
  induction evs1 as [|[ev [[dw cr] cw]] evs1 IH]; intros s rs; [done|]. cbn [run app].
  destruct (step _ _ _ _ _ _) as [[s1 e1]|]; [|done]. cbn [mbind option_bind]. apply IH.
Qed.

End Flow.

(** ** The methods *)

(** HTTP CONNECT and SOCKS: the bytes themselves. *)
Section Plain.
Context `{Allocator} `{CryptoLib} `{Sha1} `{KeyLib} `{RND : RandLib}.
Variable method : cipher_method.
Hypothesis is_plain : plain method = true.

Definition plain_codec tls T0 D W : Codec method tls T0 D W.
Proof.
  refine {| enc_inv := λ _ p w, w = p; dec_inv := λ _ p w, w = p |}.
  - intros s buf p w Fb R ->. unfold push_downstream. rewrite is_plain.
    exists (encoder_ s), (IoQueue.push_back (downstream_ s) buf), [buf]. split; [done|].
    split; [by apply (IoQueue.push_back_represents D _ [])|]. split; [by constructor|]. split; [done|].
    unfold cat. simpl. by rewrite app_nil_r.
  - intros s buf p w rest Fb _ R -> _. unfold push_upstream. rewrite is_plain.
    exists (decoder_ s), (IoQueue.push_back (upstream_ s) buf), [buf]. split; [done|].
    split; [by apply (IoQueue.push_back_represents D _ [])|]. split; [by constructor|].
    unfold cat. simpl. by rewrite app_nil_r.
Defined.

End Plain.

(** Shadowsocks, with a client that sends the rest of a genuine stream. *)
Section Ss.
Context `{Allocator} `{CryptoLaws} `{Sha1Laws} `{KeyLaws} `{RND : RandLib} `{!RandLaws RND}.
Variable method : cipher_method.
Hypothesis not_plain : plain method = false.
Variables (tls : bool) (T0 : list byte) (D : nat).

(** The suite and the key of the server and payloads sealed before; the client's salt and payloads, those
    already delivered, and what is to come of its stream, of which [W] is read. *)
Variables (u : suite) (km : list byte) (low : list (list byte)) (salt : list byte) (pts dn0 : list (list byte)) (wire W : list byte).
Hypothesis suite_good : suite_ok u.
Hypothesis km_length : length km = MAX_KEY_LENGTH.
Hypothesis salt_length : length salt = su_key u.
Hypothesis pts_ok : Forall payload_ok pts.
Hypothesis W_prefix : W `prefix_of` wire.

(** The decoder's visitor in the relay. *)
Lemma visit_push bufs : ∀ s,
  error_ s = false → Forall full bufs →
  @visit _ (relay_visitor tls) s bufs = set_upstream s (fold_left IoQueue.push_back bufs (upstream_ s)) (upstream_writable_ s).
Proof.
  induction bufs as [|b bufs IH]; intros s Er F; [by destruct s|].
  apply Forall_cons_1 in F as [Fb F]. unfold visit in *. cbn [fold_left].
  cbn [on_received_data relay_visitor]. rewrite Er, (full_empty b Fb). cbn [orb fst].
  by rewrite IH.
Qed.

Lemma EncryptData_empty c q buf p w :
  full buf → IoQueue.represents D q [] → ss_enc u km low (Some c) p w →
  ∃ c' q' ys, EncryptData T0 c q (span buf) = Some (c', q', false) ∧ IoQueue.represents D q' ys ∧ Forall full ys ∧
    ys ≠ [] ∧ ss_enc u km low (Some c') (p ++ span buf) (w ++ cat ys).
Proof.
  intros Fb R (c0 & [= <-] & [(-> & -> & -> & ->)|(qts & En & -> & <- & Lw)]).
  - destruct (EncryptData_fresh T0 u km suite_good D q buf km_length Fb R) as (c' & q' & y & qts & E & R' & Fy & En' & Sy & K' & _).
    exists c', q', [y]. split_and!; try done; [by constructor|]. exists c'. split; [done|]. right. exists qts.
    unfold cat. simpl. rewrite app_nil_r. split_and!; try done. apply prefix_nil.
  - destruct (EncryptData_ready T0 u km D c q [] buf qts) as (c' & q' & ys & qts' & E & R' & Fy & Ny & En' & Sy & K');
      [done..|]. exists c', q', ys. split_and!; try done. exists c'. split; [done|].
    right. exists (qts ++ qts'). rewrite concat_app, K', frames_app, <- app_assoc, Sy. split_and!; try done. by apply prefix_app_r.
Qed.

Definition ss_codec : Codec method tls T0 D W.
Proof.
  refine {| enc_inv := ss_enc u km low; dec_inv := ss_dec u km salt pts dn0 wire |}.
  - intros s buf p w Fb R Hc. unfold push_downstream. rewrite not_plain.
    pose proof Hc as (c & Ec & _). rewrite Ec in Hc |- *. cbn [mbind option_bind].
    destruct (EncryptData_empty c (downstream_ s) buf p w Fb R Hc) as (c' & q' & ys & -> & R' & Fy & Ny & Hc').
    cbn [mbind option_bind]. by exists (Some c'), q', ys.
  - intros s buf p w rest [Wb Nb] Er R Hd Hw. unfold push_upstream.
    pose proof Hd as (c & _ & _ & Ec & _). rewrite not_plain, Ec in *. cbn [mbind option_bind].
    destruct (ss_dec_step T0 u km suite_good salt pts dn0 wire salt_length pts_ok (H6 := relay_visitor tls)
      (λ v : relay, error_ v = false) c s buf p w rest) as (c' & bufs & -> & Fb & _ & Hd'); try done.
    { intros v b Ev Wv Nv. cbn [on_received_data relay_visitor]. by rewrite Ev, full_empty. }
    { by rewrite Hw. }
    cbn [mbind option_bind]. rewrite visit_push by done.
    exists (Some c'), (fold_left IoQueue.push_back bufs (upstream_ s)), bufs.
    split; [done|]. split; [by apply (push_all_represents bufs _ [])|]. by split.
Defined.

End Ss.

(** ** Properties *)

(** The connection when the handshake is over: [up] and [down] are queued, and the
    channel is on its way. *)
Definition start (up down : queue) (enc dec : option cipher) (reading writing : bool) : relay :=
  mkRelay false false false up false down reading writing false false connecting enc dec [] [] [] [].

Section Start.
Context `{Allocator} `{CryptoLib} `{Sha1} `{KeyLib} `{RND : RandLib}.
Variables (method : cipher_method) (tls : bool) (T0 : list byte) (D : nat).

Lemma start_sound up down enc dec reading writing us ds rs W (C : Codec method tls T0 D W) :
  let s := start up down enc dec reading writing in
  queued D s ds us → (ds ≠ [] → writing = true) → Forall fits rs → stream_of rs = W →
  @enc_inv _ _ _ _ method tls T0 D W C enc [] [] → @dec_inv _ _ _ _ method tls T0 D W C dec [] [] →
  RelayInv.sound true D (@enc_inv _ _ _ _ method tls T0 D W C) (@dec_inv _ _ _ _ method tls T0 D W C) (cat ds) (cat us)
    (λ p r, p ++ r = W) rs s ds us.
Proof.
  intros s (Rd & Fd & Ru & Fu) Hw Hf HW He Hd. split_and!; [split; try done; by exists []; rewrite app_nil_r|done|done].
Qed.

End Start.

Section Properties.
Context `{Allocator} `{CryptoLaws} `{Sha1Laws} `{KeyLaws} `{RND : RandLib} `{!RandLaws RND}.
Variables (method : cipher_method) (tls : bool) (T0 : list byte) (D : nat).

(** C6: the relay of a SOCKS or HTTP connection is two pipes.  Whatever happens on the
    two sockets, in whatever order, however they cut what they read and take, and
    whenever one of them fails: the handlers never abort; what the client has been
    sent and what is queued for it is exactly what was queued at the start and what
    the channel delivered, in order, and likewise in the other direction; what was read
    from the client is what it sent.  The client's side is half-closed only when all
    of that has been written and the channel is gone. *)
Theorem relay_transparent up down enc dec reading writing us ds rs evs :
  let s0 := start up down enc dec reading writing in
  plain method = true → queued D s0 ds us → (ds ≠ [] → writing = true) → Forall fits rs →
  ∃ s rs' ds' us', run method tls T0 s0 rs evs = Some (s, rs') ∧ queued D s ds' us' ∧
    down_sent_ s ++ cat ds' = cat ds ++ up_got_ s ∧
    up_sent_ s ++ cat us' = cat us ++ down_got_ s ∧
    down_got_ s ++ stream_of rs' = stream_of rs ∧
    (shutdown_ s = true → closed_ s = false →
     gone_ (channel_ s) = true ∧ down_sent_ s = cat ds ++ up_got_ s).
Proof.
  intros s0 Hp Hq Hw Hf.
  destruct (run_sound method tls T0 D (cat ds) (cat us) (stream_of rs) (H3 := plain_codec method Hp tls T0 D _) evs s0 rs ds us)
    as (s & rs' & ds' & us' & E & I & _). { by apply start_sound. }
  destruct (i_drel I) as (w & -> & Es), (i_urel I) as (w' & -> & Eu).
  exists s, rs', ds', us'. split; [done|]. split; [by eapply inv_queued|]. split_and!; try done; [apply I|]. intros Sh Cl.
  destruct (i_shut I Sh Cl) as [-> G]. split; [done|]. by rewrite <- Es, app_nil_r.
Qed.

(** C8: the relay of a SOCKS or HTTP connection does not hang.  After any sequence of
    events on an open connection every queue that has data and every socket that may
    deliver some has a handler waiting for it; one notice that the client can take
    data, and its taking it, delivers all that is queued, and half-closes the client's
    side when the channel is gone. *)
Theorem relay_awake up down enc dec reading writing us ds rs evs :
  let s0 := start up down enc dec reading writing in
  plain method = true → queued D s0 ds us → (ds ≠ [] → writing = true) → Forall fits rs →
  ∃ s rs' ds' us', run method tls T0 s0 rs evs = Some (s, rs') ∧ queued D s ds' us' ∧ awake s ds' us' ∧
    (closed_ s = false → ds' ≠ [] →
     ∃ s', run method tls T0 s0 rs (evs ++ [(ClientWritable true, (whole ds', [], []))]) = Some (s', rs') ∧
       down_sent_ s' = cat ds ++ up_got_ s ∧ (gone_ (channel_ s) = true → shutdown_ s' = true)).
Proof.
  intros s0 Hp Hq Hw Hf.
  destruct (run_sound method tls T0 D (cat ds) (cat us) (stream_of rs) (H3 := plain_codec method Hp tls T0 D _) evs s0 rs ds us)
    as (s & rs' & ds' & us' & E & Sd). { by apply start_sound. }
  pose proof Sd as (I & _). exists s, rs', ds', us'. split; [done|]. split; [by eapply inv_queued|].
  split; [by eapply sound_awake|]. intros Cl Hne.
  destruct (run_drains _ _ _ _ _ _ _ s rs' ds' us' Sd Cl Hne) as (s' & E' & (I' & Dn' & _) & Kg & Kc & Kl).
  exists s'. rewrite relay_run_app, E. split; [done|].
  destruct (i_drel I') as (w & -> & Es). rewrite app_nil_r, Kg in Es. split; [done|].
  intros G. apply Dn'; [congruence|congruence|done].
Qed.

(** C7: the relay of a shadowsocks connection, for every AEAD method and password.
    Whatever happens on the sockets, while the client sends (a part of) a genuine
    stream of which the decoder has delivered [dn0]: the handlers never abort; what the
    client has been sent and what is queued for it are, behind what was queued at the
    start, the server's salt and frames of exactly the bytes the channel delivered;
    the channel is sent the payloads of the client in order, all of them once the
    stream has been read; and the relay does not hang. *)
Theorem relay_shadowsocks password ce :
  is_aead method = true → make_cipher [] password method true = Some ce →
  ∃ u km, suite_ok u ∧ length km = MAX_KEY_LENGTH ∧ make_cipher [] password method false = Some (fresh false u km) ∧
  ∀ salt pts dn0 cd rest up down reading writing us ds rs evs,
  let s0 := start up down (Some ce) (Some cd) reading writing in
  length salt = su_key u → Forall payload_ok pts → dec_rel u km salt pts cd rest dn0 →
  stream_of rs `prefix_of` rest →
  queued D s0 ds us → (ds ≠ [] → writing = true) → Forall fits rs →
  ∃ s rs' ds' us' w dn, run method tls T0 s0 rs evs = Some (s, rs') ∧ queued D s ds' us' ∧ awake s ds' us' ∧
    sealed u km (up_got_ s) w ∧ down_sent_ s ++ cat ds' = cat ds ++ w ∧
    up_sent_ s ++ cat us' = cat us ++ concat dn ∧ (dn0 ++ dn) `prefix_of` pts ∧
    (stream_of rs = rest → stream_of rs' = [] → dn0 ++ dn = pts).
Proof.
  intros Hm He. destruct (make_cipher_fresh method password Hm) as (u & km & Hu & _ & Hkm & Hmk).
  rewrite Hmk in He. simplify_eq. exists u, km. split; [done|]. split; [done|]. split; [done|].
  intros salt pts dn0 cd rest up down reading writing us ds rs evs s0 Hs Hpts Hrel Hpre Hq Hw Hf.
  assert (plain method = false) as Hp by by destruct method.
  pose (C := ss_codec method Hp tls T0 D u km [] salt pts dn0 rest (stream_of rs) Hu Hkm Hs Hpts Hpre).
  destruct (run_sound method tls T0 D (cat ds) (cat us) (stream_of rs) (H3 := C) evs s0 rs ds us)
    as (s & rs' & ds' & us' & E & Sd).
  { apply start_sound; try done.
    - exists (fresh true u km). split; [done|]. by left.
    - exists cd, [], rest. by rewrite app_nil_r. }
  pose proof Sd as (I & _).
  destruct (i_drel I) as (w & Ew & Es), (i_urel I) as (w' & Ed & Eu).
  pose proof (ss_enc_sealed u km _ _ _ _ Ew) as Hsl.
  destruct Ed as (c & dn & rest' & _ & Rel & Hr & ->).
  exists s, rs', ds', us', w, dn. split; [done|]. split; [by eapply inv_queued|]. split; [by eapply sound_awake|].
  split_and!; try done; [by eapply dec_rel_prefix|].
  intros Hall Hnil. pose proof (i_read I) as Rd. cbn [peer_got] in Rd. rewrite Hnil, app_nil_r, Hall in Rd.
  rewrite <- Rd in Hr. rewrite <- (app_nil_r (down_got_ s)) in Hr at 2. apply app_inv_head in Hr as ->.
  by eapply dec_rel_end.
Qed.

End Properties.

(** ** Witnesses *)

Lemma relay_transparent_witness :
  let HA := (λ _, x00) : Allocator in
  let HC := example_lib in
  let HS := (λ _, replicate 20 x09) : Sha1 in
  let HK := example_keylib in
  let HN := example_rand in
  let s0 := start (queue_of [byte_buf [x47]]) (queue_of []) None None true false in
  let evs := [(ChannelConnected true, ([Wrote 1 false], [Read [x61; x62]], [Wrote 9 false; Wrote 9 false]));
              (ClientWritable true, ([Wrote 9 false], [Read [x63]], []));
              (ClientWritable true, ([Wrote 9 false], [ReadError], []))] in
  ∃ s rs', run CRYPTO_SOCKS5 false [] s0 [Read [x41; x42]; TryAgain] evs = Some (s, rs') ∧
    down_sent_ s = [x61; x62; x63] ∧ up_sent_ s = [x47; x41; x42] ∧ shutdown_ s = true ∧ closed_ s = false.
Proof.
  intros HA HC HS HK HN s0 evs.
  destruct (relay_transparent CRYPTO_SOCKS5 false [] 4 (queue_of [byte_buf [x47]]) (queue_of []) None None true false
    [byte_buf [x47]] [] [Read [x41; x42]; TryAgain] evs) as (s & rs' & ds' & us' & E & _);
    [reflexivity| |done|repeat constructor; simpl; unfold SOCKET_DEBUF_SIZE; lia|].
  { split_and!; try apply queue_of_represents; [constructor|repeat constructor; apply byte_buf_full]. }
  exists s, rs'. split; [exact E|]. vm_compute in E. injection E as <- <-. by vm_compute.
Defined.

Lemma relay_awake_witness :
  let HA := (λ _, x00) : Allocator in
  let HC := example_lib in
  let HS := (λ _, replicate 20 x09) : Sha1 in
  let HK := example_keylib in
  let HN := example_rand in
  let s0 := start (queue_of []) (queue_of []) None None true false in
  let evs := [(ChannelConnected true, ([Wrote 1 false], [Read [x61; x62]], []))] in
  ∃ s ds', run CRYPTO_SOCKS5 false [] s0 [] evs = Some (s, []) ∧ down_sent_ s = [x61] ∧ write_inprogress_ s = true ∧
    ∃ s', run CRYPTO_SOCKS5 false [] s0 [] (evs ++ [(ClientWritable true, (whole ds', [], []))]) = Some (s', []) ∧
      down_sent_ s' = [x61; x62].
Proof.
  intros HA HC HS HK HN s0 evs.
  destruct (relay_awake CRYPTO_SOCKS5 false [] 4 (queue_of []) (queue_of []) None None true false [] [] [] evs)
    as (s & rs' & ds' & us' & E & (Rd & _) & A & P); [reflexivity| |done|constructor|].
  { split_and!; try apply queue_of_represents; constructor. }
  exists s, ds'. pose proof E as E'. vm_compute in E'. injection E' as Es Er. subst rs'.
  split; [exact E|]. assert (closed_ s = false) as Cl by by rewrite <- Es.
  assert (ds' ≠ []) as Hne.
  { intros ->. apply IoQueue.empty_represents in Rd. rewrite <- Es in Rd. vm_compute in Rd. done. }
  destruct (P Cl Hne) as (s' & E2 & Hs & _).
  split; [by rewrite <- Es|]. split; [by apply A|]. exists s'. split; [exact E2|]. rewrite Hs, <- Es. reflexivity.
Defined.

Lemma relay_shadowsocks_witness :
  let HA := (λ _, x00) : Allocator in
  let HC := example_lib in
  let HS := (λ _, replicate 20 x09) : Sha1 in
  let HK := example_keylib in
  let HN := example_rand in
  let L1 := example_laws in
  let m := CRYPTO_AES128GCMSHA256_EVP in
  ∃ ce u km, make_cipher [] [x70] m true = Some ce ∧ make_cipher [] [x70] m false = Some (fresh false u km) ∧
    let salt := replicate (su_key u) x03 in
    let wire := salt ++ frames (stream_sealing u km salt) 0 [[x41; x42]] in
    ∃ s, run m false [] (start (queue_of []) (queue_of []) (Some ce) (Some (fresh false u km)) true false)
        [Read wire; TryAgain] [(ChannelConnected true, ([Wrote 999 false], [Read [x61]], [Wrote 9 false]))]
        = Some (s, []) ∧ up_sent_ s = [x41; x42] ∧ up_got_ s = [x61] ∧ sealed u km [x61] (down_sent_ s).
Proof.
  intros HA HC HS HK HN L1 m. pose proof example_sha1laws as L2. pose proof example_keylaws as L3. pose proof example_randlaws as L4.
  destruct (make_cipher [] [x70] m true) as [ce|] eqn:Ece; [|done].
  destruct (relay_shadowsocks m false [] 4 [x70] ce) as (u & km & Hu & Hkm & E & T); [reflexivity|exact Ece|].
  exists ce, u, km. split; [done|]. split; [done|]. cbv zeta. set (salt := replicate (su_key u) x03).
  set (wire := salt ++ frames (stream_sealing u km salt) 0 [[x41; x42]]).
  set (evs := [(ChannelConnected true, _)]).
  destruct (T salt [[x41; x42]] [] (fresh false u km) wire (queue_of []) (queue_of []) true false [] []
    [Read wire; TryAgain] evs) as (s & rs' & ds' & us' & w & dn & R & (Rd & _ & Ru & _) & _ & Hs & Hd & Hup & _ & Hall).
  - apply length_replicate.
  - repeat constructor; vm_compute; congruence.
  - by apply dec_rel_start.
  - unfold stream_of. simpl. by rewrite app_nil_r.
  - split_and!; try apply queue_of_represents; constructor.
  - done.
  - pose proof E as E'. vm_compute in E'. injection E' as Ek Et Em.
    destruct u as [um ub uk ut un]. cbn in Ek, Et, Em. subst. repeat constructor; vm_compute; congruence.
  - pose proof R as R'. pose proof E as E'. vm_compute in E'. injection E' as Ek Et Em. clear T Hu Hkm.
    destruct u as [um ub uk ut un]. cbn in Ek, Et, Em. subst.
    vm_compute in Ece. injection Ece as <-. vm_compute in R'. injection R' as Es <-. exists s. split; [exact R|].
    rewrite <- Es in Hs, Hd, Rd |- *. split; [reflexivity|]. split; [reflexivity|].
    assert (ds' = []) as ->. { apply IoQueue.empty_represents in Rd. by destruct ds'. }
    rewrite app_nil_r in Hd. cbn [cat map concat app] in Hd. rewrite <- Hd in Hs. exact Hs.
Defined.

End RelayFlow.
