(* ===== verification/Dns.v ===== *)
(** * DNS messages

    src/src/net/dns_message_request.hpp ([request::init]) and
    src/src/net/dns_message_response_parser.hpp ([response_parser::parse] with
    [skipqname] and [rdata]).

    Iterators are positions in the object [mem] that starts at [init]; the position
    [e] is the end that the parser is given.  A computation ends with a value, leaves an
    object ([Fault]) or is still running when its fuel is used up ([Running]): the
    expansion of a compressed name is a loop that does not always end, so
    [parse] takes fuel, and the theorems say which messages need some amount of it
    and which need more than any amount. *)

From Stdlib Require Import ZArith Lia.
From stdpp Require Import base list numbers option.
From S2P Require Import Prelude Addr.

Module Dns.
Import Addr.

(** ** Computations *)

Inductive outcome (A : Type) :=
  | Done (a : A)
  | Fault
  | Running.
Arguments Done {A} a.
Arguments Fault {A}.
Arguments Running {A}.

Definition of_option {A} (o : option A) : outcome A :=
  match o with Some a => Done a | None => Fault end.

#[export] Instance outcome_ret : MRet outcome := λ A a, Done a.

#[export] Instance outcome_bind : MBind outcome := λ A B f m,
  match m with Done a => f a | Fault => Fault | Running => Running end.

(** ** dns_message.hpp *)

Definition DNS_TYPE_A : Z := 1.
Definition DNS_TYPE_CNAME : Z := 5.
Definition DNS_TYPE_AAAA : Z := 28.
Definition DNS_TYPE_DNAME : Z := 39.
Definition DNS_CLASS_IN : Z := 1.

(** The packed header: id, two bytes of flags, four counts. *)
Definition header_bytes : nat := 12.

Definition header_zero : list byte := replicate header_bytes x00.

(** ** [request] *)

Record request := mkRequest { header_ : list byte; body_ : list byte }.

Definition request_init : request := mkRequest header_zero [].

(** [std::string::c_str] read as a C string: up to the first NUL. *)
Fixpoint c_str (s : list byte) : list byte :=
  match s with
  | [] => []
  | c :: s => if decide (c = x00) then [] else c :: c_str s
  end.

Definition dot : byte := x2e.

(** [strchr(hostp, '.')]: the label before the first dot and what follows the dot, if
    there is one. *)
Fixpoint next_label (hostp : list byte) : list byte * option (list byte) :=
  match hostp with
  | [] => ([], None)
  | c :: s =>
      if decide (c = dot) then ([], Some s)
      else let '(l, r) := next_label s in (c :: l, r)
  end.

(** A store of [bs] at [dnsp]. *)
Definition store (body : list byte) (dnsp : nat) (bs : list byte) : outcome (list byte) :=
  if decide (dnsp + length bs <= length body) then Done (splice dnsp bs body) else Fault.

(** [while ( *hostp )]: the labels of the QNAME; [None] is the early [return false]. *)
Fixpoint label_loop (fuel : nat) (hostp : list byte) (dnsp : nat) (body : list byte)
  : outcome (option nat * list byte) :=
  match hostp with
  | [] => Done (Some dnsp, body)
  | _ :: _ =>
      match fuel with
      | O => Running
      | S fuel =>
          let '(label, after) := next_label hostp in
          let labellen := length label in
          if decide (63 < labellen ∨ labellen = 0) then Done (None, body)
          else
            body ← store body dnsp [to_u8 (Z.of_nat labellen)];
            body ← store body (dnsp + 1) label;
            label_loop fuel (default [] after) (dnsp + 1 + labellen) body
      end
  end.

(** [std::vector::resize]. *)
Definition resize (n : nat) (v : list byte) : list byte := take n v ++ replicate (n - length v) x00.

Definition init (q : request) (host_name : list byte) (dnstype : Z) : outcome (bool * request) :=
  match host_name !! (length host_name - 1) with
  | None => Done (false, q)
  | Some c =>
      let hostlen := length host_name in
      let expected_len := 12 + 1 + hostlen + 4 + (if decide (c = dot) then 0 else 1) in
      if decide (256 + 16 < expected_len) then Done (false, q)
      else
        (* header_.rd = 1, the lowest bit of the first byte of flags; qdcount = 0x0100 in host order *)
        let h := alter (λ b, to_u8 (Z.lor (u8 b) 1)) 2 (header_ q) in
        let h := splice 4 [x00; x01] h in
        let body := resize (expected_len - 12) (body_ q) in
        '(p, body) ← label_loop (S hostlen) (c_str host_name) 0 body;
        match p with
        | None => Done (false, mkRequest h body)
        | Some dnsp =>
            body ← store body dnsp [x00];
            body ← store body (dnsp + 1)
                     [to_u8 (Z.land 255 (Z.shiftr dnstype 8)); to_u8 (Z.land 255 dnstype); x00; to_u8 DNS_CLASS_IN];
            Done (true, mkRequest h body)
        end
  end.

Definition buffers (q : request) : list byte := header_ q ++ body_ q.

(** ** [response] *)

Record response := mkResponse {
  rheader_ : list byte;
  a_ : list (list byte);
  aaaa_ : list (list byte);
  cname_ : list (list byte)
}.

Definition response_init : response := mkResponse header_zero [] [] [].

Definition set_rheader (r : response) (h : list byte) : response := mkResponse h (a_ r) (aaaa_ r) (cname_ r).
Definition push_a (r : response) (b : list byte) : response :=
  mkResponse (rheader_ r) (a_ r ++ [b]) (aaaa_ r) (cname_ r).
Definition push_aaaa (r : response) (b : list byte) : response :=
  mkResponse (rheader_ r) (a_ r) (aaaa_ r ++ [b]) (cname_ r).
Definition push_cname (r : response) (b : list byte) : response :=
  mkResponse (rheader_ r) (a_ r) (aaaa_ r) (cname_ r ++ [b]).

(** Members of the header: [get16bit] of a count, [qr]. *)
Definition count_at (k : nat) (r : response) : nat :=
  Z.to_nat (be16 (nth k (rheader_ r) x00) (nth (k + 1) (rheader_ r) x00)).
Definition qdcount : response → nat := count_at 4.
Definition ancount : response → nat := count_at 6.
Definition nscount : response → nat := count_at 8.
Definition arcount : response → nat := count_at 10.
Definition qr (r : response) : bool := Z.testbit (u8 (nth 2 (rheader_ r) x00)) 7.

(** ** [response_parser] *)

Inductive result_type := good | bad | indeterminate.

Inductive state :=
  | response_start
  | response_qd_start
  | response_an_start
  | response_ns_start
  | response_ar_start.

(** [end - i]. *)
Definition distance (e i : nat) : Z := (Z.of_nat e - Z.of_nat i)%Z.

Definition read8 (mem : list byte) (i : nat) : outcome byte := of_option (rd mem i).

Definition get16bit (mem : list byte) (i : nat) : outcome Z :=
  hi ← read8 mem i; lo ← read8 mem (i + 1); Done (be16 hi lo).

(** The four bytes of a TTL, which is only logged. *)
Definition get32bit (mem : list byte) (i : nat) : outcome (list byte) := of_option (rd_slice mem i 4).

(** The loop of [skipqname]: [dohlen] is the distance at its start, in an
    [unsigned short].  Whether the name was skipped, and the new position. *)
Fixpoint skip_loop (fuel : nat) (mem : list byte) (dohlen : Z) (i : nat) : outcome (bool * nat) :=
  match fuel with
  | O => Running
  | S fuel =>
      if (dohlen <? 1)%Z then Done (false, i)
      else
        b ← read8 mem i;
        let length := u8 b in
        if (Z.land length 192 =? 192)%Z then
          if (dohlen <? 2)%Z then Done (false, i) else Done (true, i + 2)
        else if negb (Z.land length 192 =? 0)%Z then Done (false, i)
        else if (dohlen <? 1 + length)%Z then Done (false, i)
        else
          let i := i + Z.to_nat (1 + length) in
          if (length =? 0)%Z then Done (true, i) else skip_loop fuel mem dohlen i
  end.

(** Every round reads one byte and moves on, so one round per byte is enough. *)
Definition skipqname (mem : list byte) (i e : nat) : outcome (bool * nat) :=
  skip_loop (S (length mem)) mem (distance e i mod 65536) i.

(** The [while (true)] of a CNAME: the expansion of a name with its pointers,
    appended to [name]. *)
Fixpoint cname_loop (fuel : nat) (mem : list byte) (e i : nat) (name : list byte) : outcome (bool * list byte) :=
  match fuel with
  | O => Running
  | S fuel =>
      b ← read8 mem i;
      let length := u8 b in
      if (Z.land length 192 =? 192)%Z then
        if (distance e i <? 1)%Z then Done (false, name)
        else
          lo ← read8 mem (i + 1);
          cname_loop fuel mem e (Z.to_nat (Z.lor (Z.shiftl (Z.land length 63) 8) (u8 lo))) name
      else if negb (Z.land length 192 =? 0)%Z then Done (false, name)
      else
        let i := i + 1 in
        if (length =? 0)%Z then Done (true, name)
        else if (distance e i <? length)%Z then Done (false, name)
        else
          label ← of_option (rd_slice mem i (Z.to_nat length));
          let name := (if decide (name = []) then [] else name ++ [dot]) ++ label in
          cname_loop fuel mem e (i + Z.to_nat length) name
  end.

Definition rdata (fuel : nat) (resp : response) (mem : list byte) (i e : nat) (rdlength type : Z)
  : outcome (bool * response) :=
  if (type =? DNS_TYPE_A)%Z then
    if negb (rdlength =? 4)%Z then Done (false, resp)
    else bytes ← of_option (rd_slice mem i 4); Done (true, push_a resp bytes)
  else if (type =? DNS_TYPE_AAAA)%Z then
    if negb (rdlength =? 16)%Z then Done (false, resp)
    else bytes ← of_option (rd_slice mem i 16); Done (true, push_aaaa resp bytes)
  else if (type =? DNS_TYPE_CNAME)%Z then
    '(ok, name) ← cname_loop fuel mem e i [];
    Done (ok, push_cname resp name)
  else Done (true, resp).

(** The loops of the sections.  [true]: the section is over; [false]: the parser has
    answered [indeterminate] at this position. *)
Fixpoint qd_loop (count : nat) (mem : list byte) (i e : nat) : outcome (bool * nat) :=
  match count with
  | O => Done (true, i)
  | S count =>
      '(ok, i) ← skipqname mem i e;
      if negb ok then Done (false, i)
      else if (distance e i <? 4)%Z then Done (false, i)
      else qd_loop count mem (i + 4) e
  end.

Definition known_type (type : Z) : bool :=
  (type =? DNS_TYPE_A)%Z || (type =? DNS_TYPE_AAAA)%Z || (type =? DNS_TYPE_CNAME)%Z || (type =? DNS_TYPE_DNAME)%Z.

(** One answer. *)
Definition answer (fuel : nat) (resp : response) (mem : list byte) (i e : nat) : outcome (bool * nat * response) :=
  '(ok, i) ← skipqname mem i e;
  if negb ok then Done (false, i, resp)
  else if (distance e i <? 2)%Z then Done (false, i, resp)
  else
    type ← get16bit mem i;
    if negb (known_type type) then Done (false, i, resp)
    else
      let i := i + 2 in
      if (distance e i <? 2)%Z then Done (false, i, resp)
      else
        clazz ← get16bit mem i;
        if negb (clazz =? DNS_CLASS_IN)%Z then Done (false, i, resp)
        else
          let i := i + 2 in
          if (distance e i <? 4)%Z then Done (false, i, resp)
          else
            _ ← get32bit mem i;
            let i := i + 4 in
            if (distance e i <? 2)%Z then Done (false, i, resp)
            else
              rdlength ← get16bit mem i;
              let i := i + 2 in
              if (distance e i <? rdlength)%Z then Done (false, i, resp)
              else
                '(ok, resp) ← rdata fuel resp mem i e rdlength type;
                if negb ok then Done (false, i, resp) else Done (true, i + Z.to_nat rdlength, resp).

Fixpoint an_loop (fuel count : nat) (resp : response) (mem : list byte) (i e : nat)
  : outcome (bool * nat * response) :=
  match count with
  | O => Done (true, i, resp)
  | S count =>
      '(ok, i, resp) ← answer fuel resp mem i e;
      if negb ok then Done (false, i, resp) else an_loop fuel count resp mem i e
  end.

(** The records of the authority and the additional section, which are skipped
    by the same text. *)
Fixpoint rr_loop (count : nat) (mem : list byte) (i e : nat) : outcome (bool * nat) :=
  match count with
  | O => Done (true, i)
  | S count =>
      '(ok, i) ← skipqname mem i e;
      if negb ok then Done (false, i)
      else if (distance e i <? 8)%Z then Done (false, i)
      else
        let i := i + (2 + 2 + 4) in
        if (distance e i <? 2)%Z then Done (false, i)
        else
          rdlength ← get16bit mem i;
          let i := i + 2 in
          if (distance e i <? rdlength)%Z then Done (false, i)
          else rr_loop count mem (i + Z.to_nat rdlength) e
  end.

(** [parse], one function per state; the result, the position, the state of the
    parser and the response. *)
Definition parse_ar (resp : response) (mem : list byte) (i e : nat)
  : outcome (result_type * nat * state * response) :=
  '(ok, i) ← rr_loop (arcount resp) mem i e;
  Done (if ok : bool then good else indeterminate, i, response_ar_start, resp).

Definition parse_ns (resp : response) (mem : list byte) (i e : nat)
  : outcome (result_type * nat * state * response) :=
  '(ok, i) ← rr_loop (nscount resp) mem i e;
  if negb ok then Done (indeterminate, i, response_ns_start, resp) else parse_ar resp mem i e.

Definition parse_an (fuel : nat) (resp : response) (mem : list byte) (i e : nat)
  : outcome (result_type * nat * state * response) :=
  '(ok, i, resp) ← an_loop fuel (ancount resp) resp mem i e;
  if negb ok then Done (indeterminate, i, response_an_start, resp) else parse_ns resp mem i e.

Definition parse_qd (fuel : nat) (resp : response) (mem : list byte) (i e : nat)
  : outcome (result_type * nat * state * response) :=
  '(ok, i) ← qd_loop (qdcount resp) mem i e;
  if negb ok then Done (indeterminate, i, response_qd_start, resp) else parse_an fuel resp mem i e.

Definition parse_start (fuel : nat) (resp : response) (mem : list byte) (i e : nat)
  : outcome (result_type * nat * state * response) :=
  if (distance e i <? 12)%Z then Done (indeterminate, i, response_start, resp)
  else
    h ← of_option (rd_slice mem i header_bytes);
    let resp := set_rheader resp h in
    if negb (qr resp) then Done (bad, i, response_start, resp)
    else parse_qd fuel resp mem (i + header_bytes) e.

Definition parse (fuel : nat) (state_ : state) (resp : response) (mem : list byte) (begin e : nat)
  : outcome (result_type * nat * state * response) :=
  match state_ with
  | response_start => parse_start fuel resp mem begin e
  | response_qd_start => parse_qd fuel resp mem begin e
  | response_an_start => parse_an fuel resp mem begin e
  | response_ns_start => parse_ns resp mem begin e
  | response_ar_start => parse_ar resp mem begin e
  end.

(** ** The format of RFC 1035 *)

(** A label on the wire, and the names without compression. *)
Definition label_ok (l : list byte) : Prop := 0 < length l <= 63.

Definition label_wire (l : list byte) : list byte := to_u8 (Z.of_nat (length l)) :: l.

Definition labels_wire (ls : list (list byte)) : list byte := concat (map label_wire ls).

Definition qname (ls : list (list byte)) : list byte := labels_wire ls ++ [x00].

(** Labels joined by dots. *)
Fixpoint dotted (ls : list (list byte)) : list byte :=
  match ls with
  | [] => []
  | [l] => l
  | l :: ls => l ++ [dot] ++ dotted ls
  end.

(** A label of a host name, and the host names with given labels: the final dot may be
    left out. *)
Definition host_label (l : list byte) : Prop := label_ok l ∧ dot ∉ l.

Definition host_of (ls : list (list byte)) (host : list byte) : Prop :=
  host = dotted ls ∨ (ls ≠ [] ∧ host = dotted ls ++ [dot]).

(** A query for one name. *)
Definition query_header : list byte := [x00; x00; x01; x00; x00; x01] ++ replicate 6 x00.

Definition query (ls : list (list byte)) (type : Z) : request :=
  mkRequest query_header (qname ls ++ be16_bytes type ++ [x00; x01]).

(** [name_at mem i j]: a name starts at [i], and what follows it at [j]. *)
Inductive name_at (mem : list byte) : nat → nat → Prop :=
  | name_root i : rd mem i = Some x00 → name_at mem i (i + 1)
  | name_pointer i b : rd mem i = Some b → (192 <= u8 b)%Z → name_at mem i (i + 2)
  | name_label i b j :
      rd mem i = Some b → (0 < u8 b < 64)%Z → name_at mem (i + Z.to_nat (1 + u8 b)) j → name_at mem i j.

(** [expands mem e i ls]: the name at [i] has the labels [ls], its pointers
    followed, and everything read for it is before [e]. *)
Inductive expands (mem : list byte) (e : nat) : nat → list (list byte) → Prop :=
  | expands_root i : i < e → rd mem i = Some x00 → expands mem e i []
  | expands_pointer i b lo ls :
      i + 1 < e → rd mem i = Some b → (192 <= u8 b)%Z → rd mem (i + 1) = Some lo →
      expands mem e (Z.to_nat ((u8 b - 192) * 256 + u8 lo)) ls → expands mem e i ls
  | expands_label i b l ls :
      i + Z.to_nat (1 + u8 b) <= e → rd mem i = Some b → (0 < u8 b < 64)%Z →
      rd_slice mem (i + 1) (Z.to_nat (u8 b)) = Some l →
      expands mem e (i + Z.to_nat (1 + u8 b)) ls → expands mem e i (l :: ls).

(** What an answer says. *)
Inductive fact :=
  | is_a (bytes : list byte)
  | is_aaaa (bytes : list byte)
  | is_cname (labels : list (list byte))
  | is_dname.

Inductive data_at (mem : list byte) (e i : nat) : Z → Z → fact → Prop :=
  | data_a b : rd_slice mem i 4 = Some b → data_at mem e i DNS_TYPE_A 4 (is_a b)
  | data_aaaa b : rd_slice mem i 16 = Some b → data_at mem e i DNS_TYPE_AAAA 16 (is_aaaa b)
  | data_cname n ls : expands mem e i ls → data_at mem e i DNS_TYPE_CNAME n (is_cname ls)
  | data_dname n : data_at mem e i DNS_TYPE_DNAME n is_dname.

(** A question, an answer of class IN and any record. *)
Inductive question_at (mem : list byte) (e i : nat) : unit → nat → Prop :=
  | question_intro j : name_at mem i j → j + 4 <= e → question_at mem e i tt (j + 4).

Inductive answer_at (mem : list byte) (e i : nat) : fact → nat → Prop :=
  | answer_intro j type n ttl f :
      name_at mem i j → (0 <= type < 65536)%Z → (0 <= n < 65536)%Z → length ttl = 4 →
      rd_slice mem j 10 = Some (be16_bytes type ++ [x00; x01] ++ ttl ++ be16_bytes n) →
      j + 10 + Z.to_nat n <= e → data_at mem e (j + 10) type n f →
      answer_at mem e i f (j + 10 + Z.to_nat n).

Inductive record_at (mem : list byte) (e i : nat) : unit → nat → Prop :=
  | record_intro j n fixed :
      name_at mem i j → (0 <= n < 65536)%Z → length fixed = 8 →
      rd_slice mem j 10 = Some (fixed ++ be16_bytes n) →
      j + 10 + Z.to_nat n <= e → record_at mem e i tt (j + 10 + Z.to_nat n).

(** [n] items behind each other. *)
Inductive items {A} (R : nat → A → nat → Prop) : nat → nat → list A → nat → Prop :=
  | items_nil i : items R 0 i [] i
  | items_cons n i x j xs k : R i x j → items R n j xs k → items R (S n) i (x :: xs) k.

(** The response that a list of answers amounts to. *)
Definition add_fact (r : response) (f : fact) : response :=
  match f with
  | is_a b => push_a r b
  | is_aaaa b => push_aaaa r b
  | is_cname ls => push_cname r (dotted ls)
  | is_dname => r
  end.

(** A whole response before [e]: the response and the position behind it. *)
Definition message (mem : list byte) (e : nat) (r : response) (k : nat) : Prop :=
  ∃ h qs fs i1 i2 rs1 i3 rs2,
    rd_slice mem 0 12 = Some h ∧ 12 <= e ∧
    let r0 := set_rheader response_init h in
    qr r0 = true ∧
    items (question_at mem e) (qdcount r0) 12 qs i1 ∧
    items (answer_at mem e) (ancount r0) i1 fs i2 ∧
    items (record_at mem e) (nscount r0) i2 rs1 i3 ∧
    items (record_at mem e) (arcount r0) i3 rs2 k ∧
    r = foldl add_fact r0 fs.

(** ** Lemmas: computations and bytes *)

Lemma bind_Done {A B} (m : outcome A) (f : A → outcome B) y :
  m ≫= f = Done y → ∃ x, m = Done x ∧ f x = Done y.
Proof. destruct m; simpl; [eauto|done..]. Qed.

Lemma of_option_Done {A} (o : option A) x : of_option o = Done x → o = Some x.
Proof. destruct o; simpl; congruence. Qed.

Lemma read8_Done mem i b : read8 mem i = Done b → rd mem i = Some b.
Proof. apply of_option_Done. Qed.

(** Decides the tests on integers of a goal that arithmetic settles. *)
Ltac tests :=
  repeat match goal with
  | |- context [Z.ltb ?a ?b] =>
      first [rewrite (proj2 (Z.ltb_lt a b)) by lia | rewrite (proj2 (Z.ltb_ge a b)) by lia]
  | |- context [Z.leb ?a ?b] =>
      first [rewrite (proj2 (Z.leb_le a b)) by lia | rewrite (proj2 (Z.leb_gt a b)) by lia]
  | |- context [Z.eqb ?a ?b] =>
      first [rewrite (proj2 (Z.eqb_eq a b)) by lia | rewrite (proj2 (Z.eqb_neq a b)) by lia]
  end; simpl.

Lemma pointer_bits b : (Z.land (u8 b) 192 =? 192)%Z = (192 <=? u8 b)%Z.
Proof. by destruct b. Qed.

Lemma label_bits b : (Z.land (u8 b) 192 =? 0)%Z = (u8 b <? 64)%Z.
Proof. by destruct b. Qed.

Lemma pointer_target b lo :
  (192 <= u8 b)%Z → Z.lor (Z.shiftl (Z.land (u8 b) 63) 8) (u8 lo) = ((u8 b - 192) * 256 + u8 lo)%Z.
Proof.
  intros Hb. rewrite lor_shiftl_add by (pose proof (u8_range lo); simpl; lia). change (2 ^ 8)%Z with 256%Z.
  do 2 f_equal. revert Hb. destruct b; first [reflexivity | intros Hb; exfalso; revert Hb; vm_compute; intros H; exact (H eq_refl)].
Qed.

Lemma u8_zero b : u8 b = 0%Z → b = x00.
Proof. intros H. by apply u8_inj. Qed.

(** Takes a computation that ended with a value apart. *)
Ltac run_inv :=
  repeat match goal with
  | H : Done _ = Done _ |- _ => injection H as H; subst
  | H : false = true |- _ => discriminate H
  | H : Done _ = Fault |- _ => discriminate H
  | H : Done _ = Running |- _ => discriminate H
  | H : mbind _ _ = Done _ |- _ =>
      let x := fresh "x" in let E := fresh "E" in apply bind_Done in H as (x & E & H); try destruct_product x
  | H : of_option _ = Done _ |- _ => apply of_option_Done in H
  | H : read8 _ _ = Done _ |- _ => apply read8_Done in H
  | H : (if negb ?c then _ else _) = Done _ |- _ => destruct c eqn:?; simpl in H
  | H : (if ?c then _ else _) = Done _ |- _ => destruct c eqn:?
  | H : (_, _) = (_, _) |- _ => injection H as H; subst
  | H : context [(Z.land (u8 ?b) 192 =? 192)%Z] |- _ => rewrite (pointer_bits b) in H
  | H : context [(Z.land (u8 ?b) 192 =? 0)%Z] |- _ => rewrite (label_bits b) in H
  | H : (_ <? _)%Z = false |- _ => apply Z.ltb_ge in H
  | H : (_ <=? _)%Z = true |- _ => apply Z.leb_le in H
  | H : (_ <=? _)%Z = false |- _ => apply Z.leb_gt in H
  | H : (_ <? _)%Z = true |- _ => apply Z.ltb_lt in H
  | H : (_ =? _)%Z = true |- _ => apply Z.eqb_eq in H
  | H : (_ =? _)%Z = false |- _ => apply Z.eqb_neq in H
  end
with destruct_product x :=
  match type of x with prod _ _ => let a := fresh "x" in let b := fresh "x" in destruct x as [a b]; try destruct_product a end.

(** ** [skipqname] *)

Lemma name_at_lt mem i j : name_at mem i j → i < j.
Proof. induction 1; lia. Qed.

Lemma skip_loop_complete mem i j D fuel :
  name_at mem i j → (Z.of_nat j <= Z.of_nat i + D)%Z → length mem < fuel + i →
  skip_loop fuel mem D i = Done (true, j).
Proof.
  intros N. revert fuel. induction N as [i R|i b R Hb|i b j R Hb N IH]; intros fuel HD Hf;
    pose proof (lookup_lt_Some _ _ _ R) as Hi; (destruct fuel as [|fuel]; [lia|]); simpl; unfold read8; rewrite R; simpl.
  - change (u8 x00) with 0%Z. by tests.
  - rewrite pointer_bits. by tests.
  - pose proof (name_at_lt _ _ _ N).
    rewrite pointer_bits, label_bits. tests. apply IH; lia.
Qed.

Lemma skip_loop_sound mem fuel : ∀ D i j, skip_loop fuel mem D i = Done (true, j) → name_at mem i j.
Proof.
  induction fuel as [|fuel IH]; intros D i j; simpl; [done|]. intros H. run_inv; try done.
  - by eapply name_pointer.
  - assert (x = x00) as -> by (apply u8_zero; lia). by apply (name_root _ i).
  - pose proof (u8_range x). eapply name_label; [done|lia|eauto].
Qed.

(** It always ends: its fuel is enough. *)
Lemma skip_loop_ends mem fuel : ∀ D i, 0 < fuel → length mem < fuel + i → skip_loop fuel mem D i ≠ Running.
Proof.
  induction fuel as [|fuel IH]; intros D i H0 Hf; [lia|]. simpl. unfold read8.
  destruct (rd mem i) as [b|] eqn:R; [|by destruct (D <? 1)%Z]. apply lookup_lt_Some in R. simpl.
  repeat (case_match; try done). pose proof (u8_range b). apply IH; lia.
Qed.

Lemma skipqname_ends mem i e : skipqname mem i e ≠ Running.
Proof. apply skip_loop_ends; lia. Qed.

Lemma skipqname_complete mem i j e :
  name_at mem i j → j <= e → (Z.of_nat e < 65536)%Z → skipqname mem i e = Done (true, j).
Proof.
  intros N Hj He. pose proof (name_at_lt _ _ _ N). unfold skipqname, distance.
  rewrite Z.mod_small by lia. apply skip_loop_complete; [done|lia..].
Qed.

Lemma skipqname_sound mem i j e : skipqname mem i e = Done (true, j) → name_at mem i j.
Proof. apply skip_loop_sound. Qed.

Lemma labels_wire_cons l ls : labels_wire (l :: ls) = to_u8 (Z.of_nat (length l)) :: l ++ labels_wire ls.
Proof. done. Qed.

Lemma length_labels_wire ls : length ls <= length (labels_wire ls).
Proof. induction ls as [|l ls IH]; [done|]. rewrite labels_wire_cons. simpl. rewrite length_app. lia. Qed.

(** Labels up to the end of the object, and no end of the name. *)
Lemma skip_loop_overrun ls : ∀ pre D fuel,
  Forall label_ok ls → (Z.of_nat (length (labels_wire ls)) <= D)%Z → (1 <= D)%Z → length ls < fuel →
  skip_loop fuel (pre ++ labels_wire ls) D (length pre) = Fault.
Proof.
  induction ls as [|l ls IH]; intros pre D fuel F HD H1 Hf; (destruct fuel as [|fuel]; [simpl in Hf; lia|]).
  - simpl. tests. rewrite app_nil_r. unfold read8, rd.
    by rewrite (lookup_ge_None_2 pre) by lia.
  - apply Forall_cons_1 in F as [[Hl0 Hl] F]. rewrite labels_wire_cons in *.
    assert (u8 (to_u8 (Z.of_nat (length l))) = Z.of_nat (length l)) as Eb by (apply u8_to_u8_small; lia).
    cbn [skip_loop]. unfold read8. rewrite (rd_app pre _ _ (length pre)) by done. simpl.
    rewrite pointer_bits, label_bits, Eb.
    simpl length in HD, Hf. rewrite length_app in HD.
    tests.
    specialize (IH (pre ++ to_u8 (Z.of_nat (length l)) :: l) D fuel F ltac:(lia) H1 ltac:(lia)).
    rewrite <- app_assoc in IH. simpl in IH. rewrite <- IH. f_equal. len.
Qed.

(** ** Names in answers *)

Definition join (name label : list byte) : list byte := (if decide (name = []) then [] else name ++ [dot]) ++ label.

Lemma foldl_join ls : ∀ name, name ≠ [] → foldl join name ls = name ++ concat (map (λ l, dot :: l) ls).
Proof.
  induction ls as [|l ls IH]; intros name Hn; simpl; [by rewrite app_nil_r|].
  unfold join at 2. rewrite decide_False by done. rewrite IH by (by destruct name). by rewrite <- !app_assoc.
Qed.

Lemma dotted_cons l ls : dotted (l :: ls) = l ++ concat (map (λ l, dot :: l) ls).
Proof.
  revert l. induction ls as [|m ls IH]; intros l; [by rewrite app_nil_r|].
  change (dotted (l :: m :: ls)) with (l ++ [dot] ++ dotted (m :: ls)). by rewrite IH.
Qed.

Lemma foldl_join_dotted ls : Forall label_ok ls → foldl join [] ls = dotted ls.
Proof.
  destruct ls as [|l ls]; [done|]. intros [[Hl _] _]%Forall_cons_1. rewrite dotted_cons.
  change (foldl join l ls = l ++ concat (map (λ l, dot :: l) ls)).
  apply foldl_join. by destruct l; [simpl in *; lia|].
Qed.

Lemma expands_ok mem e i ls : expands mem e i ls → Forall label_ok ls.
Proof.
  induction 1; auto. constructor; [|done]. unfold label_ok.
  match goal with H : rd_slice _ _ _ = Some _ |- _ => apply rd_slice_Some in H as (_ & -> & _) end. lia.
Qed.

Lemma cname_loop_complete mem e i ls :
  expands mem e i ls → ∃ N, ∀ fuel name, N <= fuel → cname_loop fuel mem e i name = Done (true, foldl join name ls).
Proof.
  induction 1 as [i Hi R|i b lo ls Hi R Hb R' X [N IH]|i b l ls Hi R Hb R' X [N IH]].
  - exists 1. intros [|fuel] name Hf; [lia|]. simpl. unfold read8. by rewrite R.
  - exists (S N). intros [|fuel] name Hf; [lia|]. simpl. unfold read8. rewrite R. simpl. rewrite R'. simpl.
    rewrite pointer_bits, pointer_target by lia. unfold distance. tests. apply IH. lia.
  - exists (S N). intros [|fuel] name Hf; [lia|]. simpl. unfold read8. rewrite R. simpl. rewrite R'. simpl.
    rewrite pointer_bits, label_bits. unfold distance. tests.
    replace (i + 1 + Z.to_nat (u8 b)) with (i + Z.to_nat (1 + u8 b)) by lia. apply IH. lia.
Qed.

Lemma cname_loop_sound mem fuel : ∀ i name name',
  cname_loop fuel mem (length mem) i name = Done (true, name') →
  ∃ ls, expands mem (length mem) i ls ∧ name' = foldl join name ls.
Proof.
  induction fuel as [|fuel IH]; intros i name name'; simpl; [done|]. intros H. run_inv; try done; pose proof (u8_range x).
  - apply IH in H as (ls & X & ->). rewrite pointer_target in X by lia. exists ls. split; [|done].
    eapply expands_pointer; [by eapply lookup_lt_Some|done|lia|done|done].
  - exists []. split; [|done]. assert (x = x00) as -> by (apply u8_zero; lia).
    apply expands_root; [by eapply lookup_lt_Some|done].
  - apply IH in H as (ls & X & ->). exists (x0 :: ls). split; [|done].
    pose proof (rd_slice_Some _ _ _ _ E0) as (_ & _ & ?).
    eapply expands_label; [|done|lia|done|]; [lia|].
    by replace (i + Z.to_nat (1 + u8 x)) with (i + 1 + Z.to_nat (u8 x)) by lia.
Qed.

(** ** Sections *)

Lemma be16_bytes_of hi lo : be16_bytes (be16 hi lo) = [hi; lo].
Proof.
  unfold be16_bytes. pose proof (u8_range hi). pose proof (u8_range lo).
  f_equal; [|f_equal]; apply u8_inj; rewrite ?u8_be16_hi, ?u8_be16_lo, be16_spec; symmetry.
  - rewrite Z.mul_comm, Z.div_add_l, (Z.div_small (u8 lo)), Z.add_0_r by lia. by rewrite Z.mod_small.
  - rewrite Z.mul_comm, Z.add_comm, Z.mod_add by lia. by rewrite Z.mod_small.
Qed.

Lemma get16bit_slice mem i n pre v suf k :
  rd_slice mem i n = Some (pre ++ be16_bytes v ++ suf) → (0 <= v < 65536)%Z → k = i + length pre →
  get16bit mem k = Done v.
Proof.
  intros R Hv ->. unfold get16bit, read8.
  rewrite (rd_in_slice mem i n _ (i + length pre) (to_u8 (Z.land (Z.shiftr v 8) 255)) R);
    [|rewrite lookup_app_r by lia; by replace (i + length pre - i - length pre) with 0 by lia|lia].
  rewrite (rd_in_slice mem i n _ (i + length pre + 1) (to_u8 (Z.land v 255)) R);
    [|rewrite lookup_app_r by lia; by replace (i + length pre + 1 - i - length pre) with 1 by lia|lia].
  simpl. by rewrite be16_roundtrip.
Qed.

Lemma get16bit_inv mem i v :
  get16bit mem i = Done v → rd_slice mem i 2 = Some (be16_bytes v) ∧ (0 <= v < 65536)%Z.
Proof.
  unfold get16bit. intros H. run_inv. rewrite be16_bytes_of. split; [|apply be16_range].
  apply rd_slice_1 in E, E0. exact (rd_slice_join mem i (i + 1) 1 1 _ _ E E0 eq_refl).
Qed.

Lemma rdata_complete mem e i type n f :
  data_at mem e i type n f →
  known_type type = true ∧
  ∃ N, ∀ fuel r, N <= fuel → rdata fuel r mem i e n type = Done (true, add_fact r f).
Proof.
  destruct 1 as [b R|b R|n ls X|n]; (split; [done|]).
  - exists 0. intros fuel r _. unfold rdata. simpl. by rewrite R.
  - exists 0. intros fuel r _. unfold rdata. simpl. by rewrite R.
  - destruct (cname_loop_complete _ _ _ _ X) as [N HN]. exists N. intros fuel r Hf. unfold rdata. simpl.
    rewrite HN by done. simpl. rewrite foldl_join_dotted; [done|by eapply expands_ok].
  - by exists 0.
Qed.

Lemma rdata_sound mem i type n fuel r r' :
  known_type type = true → rdata fuel r mem i (length mem) n type = Done (true, r') →
  ∃ f, data_at mem (length mem) i type n f ∧ r' = add_fact r f.
Proof.
  unfold rdata. intros K H.
  run_inv; subst.
  - eexists. split; [by apply data_a|done].
  - eexists. split; [by apply data_aaaa|done].
  - apply cname_loop_sound in E as (ls & X & ->).
    exists (is_cname ls). split; [by apply data_cname|]. simpl. by rewrite foldl_join_dotted by by eapply expands_ok.
  - exists is_dname. split; [|done]. replace type with DNS_TYPE_DNAME; [apply data_dname|].
    unfold known_type, DNS_TYPE_A, DNS_TYPE_AAAA, DNS_TYPE_CNAME, DNS_TYPE_DNAME in *. lia.
Qed.

Lemma qd_loop_complete mem e n i qs j :
  items (question_at mem e) n i qs j → (Z.of_nat e < 65536)%Z → qd_loop n mem i e = Done (true, j).
Proof.
  intros I He. induction I as [|n i x j xs k [j' N Hj] _ IH]; [done|]. simpl.
  rewrite (skipqname_complete mem i j' e) by (done || lia). simpl. unfold distance. tests. done.
Qed.

Lemma qd_loop_sound mem e n : ∀ i j,
  qd_loop n mem i e = Done (true, j) → ∃ qs, items (question_at mem e) n i qs j.
Proof.
  induction n as [|n IH]; intros i j; simpl; intros H; run_inv; try done; [eexists; constructor|].
  apply IH in H as [qs I]. apply skipqname_sound in E. unfold distance in *.
  exists (tt :: qs). econstructor; [|done]. constructor; [done|lia].
Qed.

Lemma rr_loop_complete mem e n i rs j :
  items (record_at mem e) n i rs j → (Z.of_nat e < 65536)%Z → rr_loop n mem i e = Done (true, j).
Proof.
  intros I He. induction I as [|n i x j xs k [j' v fixed N Hv Hx R Hj] _ IH]; [done|]. simpl.
  rewrite (skipqname_complete mem i j' e) by (done || lia). simpl. unfold distance. tests.
  rewrite (get16bit_slice mem j' 10 fixed v []) by (rewrite ?app_nil_r; done || lia). simpl. tests.
  by replace (j' + 8 + 2 + Z.to_nat v) with (j' + 10 + Z.to_nat v) by lia.
Qed.

Lemma rr_loop_sound mem e n : ∀ i j,
  rr_loop n mem i e = Done (true, j) → e <= length mem → ∃ rs, items (record_at mem e) n i rs j.
Proof.
  induction n as [|n IH]; intros i j; simpl; intros H He; run_inv; try done; [eexists; constructor|].
  apply IH in H as [rs I]; [|done]. apply skipqname_sound in E. apply get16bit_inv in E0 as [R Hv].
  unfold distance in *. exists (tt :: rs). econstructor; [|done].
  destruct (rd_slice_total mem x1 8) as (fixed & F & Hfx); [lia|].
  replace (x1 + 8 + 2 + Z.to_nat x) with (x1 + 10 + Z.to_nat x) by lia.
  eapply record_intro; [done|done|done| |lia].
  exact (rd_slice_join mem x1 (x1 + 8) 8 2 _ _ F R eq_refl).
Qed.

(** The fixed part of an answer. *)
Lemma answer_to_data mem e i j type n ttl fuel r :
  name_at mem i j → (0 <= type < 65536)%Z → (0 <= n < 65536)%Z → length ttl = 4 →
  rd_slice mem j 10 = Some (be16_bytes type ++ [x00; x01] ++ ttl ++ be16_bytes n) →
  j + 10 + Z.to_nat n <= e → known_type type = true → (Z.of_nat e < 65536)%Z →
  answer fuel r mem i e =
    '(ok, resp) ← rdata fuel r mem (j + 10) e n type;
    if negb ok then Done (false, j + 10, resp) else Done (true, j + 10 + Z.to_nat n, resp).
Proof.
  intros Nm Ht Hn Httl R Hj K He. unfold answer.
  rewrite (skipqname_complete mem i j e) by (done || lia). simpl. unfold distance. tests.
  rewrite (get16bit_slice mem j 10 [] type ([x00; x01] ++ ttl ++ be16_bytes n) j) by (done || simpl; lia). simpl.
  rewrite K. simpl. tests.
  rewrite (get16bit_slice mem j 10 (be16_bytes type) 1 (ttl ++ be16_bytes n) (j + 2)) by (done || simpl; lia).
  simpl. tests. unfold get32bit.
  rewrite (rd_slice_in_slice mem j 10 (be16_bytes type ++ [x00; x01]) ttl (be16_bytes n) (j + 2 + 2) 4)
    by (done || simpl; lia). simpl. tests.
  rewrite (get16bit_slice mem j 10 (be16_bytes type ++ [x00; x01] ++ ttl) n [] (j + 2 + 2 + 4))
    by (rewrite ?app_nil_r, <- ?app_assoc; done || (len)). simpl. tests.
  by replace (j + 2 + 2 + 4 + 2) with (j + 10) by lia.
Qed.

Lemma answer_complete mem e i f j :
  answer_at mem e i f j → (Z.of_nat e < 65536)%Z →
  ∃ N, ∀ fuel r, N <= fuel → answer fuel r mem i e = Done (true, j, add_fact r f).
Proof.
  intros [j' type n ttl f' Nm Ht Hn Httl R Hj D] He.
  destruct (rdata_complete _ _ _ _ _ _ D) as (K & N & HN). exists N. intros fuel r Hf.
  rewrite (answer_to_data _ _ _ _ _ _ _ _ _ Nm Ht Hn Httl R Hj K He). by rewrite HN.
Qed.

Lemma answer_sound mem i j fuel r r' :
  answer fuel r mem i (length mem) = Done (true, j, r') →
  ∃ f, answer_at mem (length mem) i f j ∧ r' = add_fact r f.
Proof.
  unfold answer. intros H. run_inv. unfold distance in *.
  repeat match goal with
  | E : skipqname _ _ _ = Done _ |- _ => apply skipqname_sound in E
  | E : get16bit _ _ = Done _ |- _ => apply get16bit_inv in E as [? ?]
  | E : get32bit _ _ = Done _ |- _ => apply of_option_Done in E; pose proof (rd_slice_Some _ _ _ _ E) as (_ & ? & _)
  | E : rdata _ _ _ _ _ _ _ = Done _ |- _ => apply rdata_sound in E as (f & D & ->); [|done]
  end.
  exists f. split; [|done].
  match goal with
  | A : rd_slice _ ?p 2 = Some (be16_bytes ?type), B : rd_slice _ (?p + 2) 2 = Some (be16_bytes ?class),
    C : rd_slice _ (?p + 2 + 2) 4 = Some ?ttl, D : rd_slice _ (?p + 2 + 2 + 4) 2 = Some (be16_bytes ?n) |- _ =>
      pose proof (rd_slice_join _ _ _ _ _ _ _ C D eq_refl) as CD;
      pose proof (rd_slice_join _ _ _ _ _ _ _ B CD eq_refl) as BD;
      pose proof (rd_slice_join _ _ _ _ _ _ _ A BD eq_refl) as AD;
      replace (p + 2 + 2 + 4 + 2) with (p + 10) in * by lia; subst;
      apply (answer_intro _ _ _ p type n ttl); [done..| |lia|done]
  end.
  exact AD.
Qed.

Lemma an_loop_complete mem e n i fs j :
  items (answer_at mem e) n i fs j → (Z.of_nat e < 65536)%Z →
  ∃ N, ∀ fuel r, N <= fuel → an_loop fuel n r mem i e = Done (true, j, foldl add_fact r fs).
Proof.
  intros I He. induction I as [i|n i f j fs k A _ [N IH]]; [by exists 0|].
  destruct (answer_complete _ _ _ _ _ A He) as [M HM]. exists (N + M). intros fuel r Hf. simpl.
  rewrite HM by lia. simpl. apply IH. lia.
Qed.

Lemma an_loop_sound mem fuel n : ∀ i j r r',
  an_loop fuel n r mem i (length mem) = Done (true, j, r') →
  ∃ fs, items (answer_at mem (length mem)) n i fs j ∧ r' = foldl add_fact r fs.
Proof.
  induction n as [|n IH]; intros i j r r'; simpl; intros H; run_inv.
  - exists []. split; [constructor|done].
  - apply answer_sound in E as (f & A & ->). apply IH in H as (fs & I & ->).
    exists (f :: fs). split; [by econstructor|done].
Qed.

(** Answers leave the header alone. *)
Lemma foldl_add_fact_header fs : ∀ r, rheader_ (foldl add_fact r fs) = rheader_ r.
Proof. induction fs as [|f fs IH]; intros r; [done|]. simpl. rewrite IH. by destruct f. Qed.

Lemma foldl_add_fact_counts fs r :
  nscount (foldl add_fact r fs) = nscount r ∧ arcount (foldl add_fact r fs) = arcount r.
Proof. unfold nscount, arcount, count_at. by rewrite foldl_add_fact_header. Qed.

Lemma parse_complete mem e r k :
  (Z.of_nat e < 65536)%Z → message mem e r k →
  ∃ N, ∀ fuel, N <= fuel →
    parse fuel response_start response_init mem 0 e = Done (good, k, response_ar_start, r).
Proof.
  intros He (h & qs & fs & i1 & i2 & rs1 & i3 & rs2 & R & H12 & Hqr & Iq & Ia & In & Ir & ->).
  destruct (an_loop_complete _ _ _ _ _ _ Ia He) as [N HN]. exists N. intros fuel Hf. simpl.
  unfold parse_start, distance, header_bytes. tests. rewrite R. simpl. rewrite Hqr. simpl.
  unfold parse_qd. rewrite (qd_loop_complete _ _ _ _ _ _ Iq He). simpl.
  unfold parse_an. rewrite HN by done. simpl. unfold parse_ns, parse_ar.
  destruct (foldl_add_fact_counts fs (set_rheader response_init h)) as [-> ->].
  rewrite (rr_loop_complete _ _ _ _ _ _ In He). simpl. by rewrite (rr_loop_complete _ _ _ _ _ _ Ir He).
Qed.

Lemma parse_sound mem fuel r k st :
  parse fuel response_start response_init mem 0 (length mem) = Done (good, k, st, r) → message mem (length mem) r k.
Proof.
  simpl. unfold parse_start, parse_qd, parse_an, parse_ns, parse_ar, distance.
  intros H. run_inv; try done. destruct x8; [|done].
  apply qd_loop_sound in E0 as [qs Iq]. apply an_loop_sound in E1 as (fs & Ia & ->).
  destruct (foldl_add_fact_counts fs (set_rheader response_init x)) as [Cn Cr]. rewrite Cn in E2. rewrite Cr in E3.
  apply rr_loop_sound in E2 as [rs1 In]; [|done]. apply rr_loop_sound in E3 as [rs2 Ir]; [|done].
  exists x, qs, fs, x2, x5, rs1, x7, rs2. split_and!; try done. lia.
Qed.

(** C35: a response that is well formed before the end is accepted with exactly the addresses and names it
    states, whatever follows it in memory; and what is accepted from an object that ends with the message is
    a well-formed response, with what it states. *)
Theorem dns_response_parse mem e :
  (Z.of_nat e < 65536)%Z →
  (∀ r k, message mem e r k →
     ∃ N, ∀ fuel, N <= fuel →
       parse fuel response_start response_init mem 0 e = Done (good, k, response_ar_start, r)) ∧
  (e = length mem → ∀ fuel r k st,
     parse fuel response_start response_init mem 0 e = Done (good, k, st, r) → message mem e r k).
Proof.
  intros He. split; [intros r k; by apply parse_complete|]. intros -> fuel r k st. apply parse_sound.
Qed.

(** ** Names and messages in a larger object *)

Lemma rd_mono mem suf i b : rd mem i = Some b → rd (mem ++ suf) i = Some b.
Proof. apply lookup_app_l_Some. Qed.

Lemma rd_slice_mono mem suf i n bs : rd_slice mem i n = Some bs → rd_slice (mem ++ suf) i n = Some bs.
Proof.
  intros R. pose proof (rd_slice_Some _ _ _ _ R) as (-> & _ & Hi). unfold rd_slice.
  rewrite decide_True by (len). f_equal. rewrite drop_app_le, take_app_le by (len). done.
Qed.

#[local] Hint Resolve rd_mono rd_slice_mono : core.

Lemma name_at_mono mem suf i j : name_at mem i j → name_at (mem ++ suf) i j.
Proof. induction 1; [apply name_root|eapply name_pointer|eapply name_label]; eauto. Qed.

Lemma expands_mono mem suf e i ls : expands mem e i ls → expands (mem ++ suf) e i ls.
Proof. induction 1; [apply expands_root|eapply expands_pointer|eapply expands_label]; eauto. Qed.

Lemma items_impl {A} (R R' : nat → A → nat → Prop) n i xs j :
  (∀ i x j, R i x j → R' i x j) → items R n i xs j → items R' n i xs j.
Proof. intros HR. induction 1; econstructor; eauto. Qed.

Lemma message_mono mem suf e r k : message mem e r k → message (mem ++ suf) e r k.
Proof.
  intros (h & qs & fs & i1 & i2 & rs1 & i3 & rs2 & R & H12 & Hqr & Iq & Ia & In & Ir & ->).
  exists h, qs, fs, i1, i2, rs1, i3, rs2. split; [auto|]. split; [done|]. split; [done|].
  split_and!; [..|done]; (eapply items_impl; [|eassumption]).
  - intros i x j [j' N ?]. constructor; [by apply name_at_mono|done].
  - intros i x j [j' type n ttl f N ? ? ? ? ? D]. apply (answer_intro _ _ _ j' type n ttl); eauto using name_at_mono.
    destruct D; [apply data_a|apply data_aaaa|apply data_cname|apply data_dname]; auto using expands_mono.
  - intros i x j [j' n fixed N ? ? ? ?]. apply (record_intro _ _ _ j' n fixed); eauto using name_at_mono.
  - intros i x j [j' n fixed N ? ? ? ?]. apply (record_intro _ _ _ j' n fixed); eauto using name_at_mono.
Qed.

(** ** Names that are never left *)

Lemma cname_loop_self mem e i b lo fuel name :
  rd mem i = Some b → (192 <= u8 b)%Z → rd mem (i + 1) = Some lo → i < e →
  Z.to_nat ((u8 b - 192) * 256 + u8 lo) = i → cname_loop fuel mem e i name = Running.
Proof.
  intros R Hb R' Hi Ht. induction fuel as [|fuel IH]; [done|]. simpl. unfold read8. rewrite R. simpl. rewrite R'. simpl.
  rewrite pointer_bits, pointer_target, Ht by done. unfold distance. tests. done.
Qed.

(** An answer whose name is the root and whose data is a pointer to itself. *)
Definition looping_answer (ttl : list byte) : list byte :=
  [x00] ++ be16_bytes DNS_TYPE_CNAME ++ [x00; x01] ++ ttl ++ be16_bytes 2 ++ [xc0; x17].

(** C38: a response whose CNAME is a pointer to itself never ends the parser, for any amount of fuel. *)
Theorem dns_cname_loop h ttl rest e fuel :
  length h = 12 → length ttl = 4 →
  let r0 := set_rheader response_init h in
  qr r0 = true → qdcount r0 = 0 → 0 < ancount r0 →
  let mem := h ++ looping_answer ttl ++ rest in
  25 <= e <= length mem → (Z.of_nat e < 65536)%Z →
  parse fuel response_start response_init mem 0 e = Running.
Proof.
  intros Hh Ht r0 Hqr Hqd Han mem He He'. simpl. unfold parse_start, distance, header_bytes. tests.
  assert (rd_slice mem 0 12 = Some h) as -> by by apply rd_slice_prefix. simpl. fold r0. rewrite Hqr. simpl.
  unfold parse_qd. rewrite Hqd. simpl. unfold parse_an. destruct (ancount r0) as [|n]; [lia|]. simpl.
  assert (rd mem 12 = Some x00) as R12 by (apply rd_app; lia).
  assert (rd_slice mem 13 10 = Some (be16_bytes DNS_TYPE_CNAME ++ [x00; x01] ++ ttl ++ be16_bytes 2)) as R13.
  { replace mem with ((h ++ [x00]) ++ (be16_bytes DNS_TYPE_CNAME ++ [x00; x01] ++ ttl ++ be16_bytes 2) ++ [xc0; x17] ++ rest)
      by (unfold mem, looping_answer; by rewrite <- !app_assoc).
    apply rd_slice_app'; len. }
  assert (rd mem 23 = Some xc0 ∧ rd mem 24 = Some x17) as [R23 R24].
  { replace mem with ((h ++ [x00] ++ be16_bytes DNS_TYPE_CNAME ++ [x00; x01] ++ ttl ++ be16_bytes 2) ++ xc0 :: x17 :: rest)
      by (unfold mem, looping_answer; by rewrite <- !app_assoc).
    split; [apply rd_app; len|].
    rewrite (cons_middle xc0), app_assoc. apply rd_app; len. }
  rewrite (answer_to_data mem e 12 13 DNS_TYPE_CNAME 2 ttl) by (done || lia || by apply (name_root mem 12)).
  unfold rdata. simpl. by rewrite (cname_loop_self mem e 23 xc0 x17) by (done || lia).
Qed.

(** A name that runs up to the end of the response without its final zero is followed beyond the end of
    the object. *)
Theorem dns_name_overrun h ls fuel :
  length h = 12 → Forall label_ok ls → ls ≠ [] → (Z.of_nat (length (labels_wire ls)) < 65536)%Z →
  let r0 := set_rheader response_init h in
  qr r0 = true → 0 < qdcount r0 →
  let mem := h ++ labels_wire ls in
  parse fuel response_start response_init mem 0 (length mem) = Fault.
Proof.
  intros Hh F Hls Hl r0 Hqr Hqd mem.
  assert (length mem = 12 + length (labels_wire ls)) as Hm by (unfold mem; rewrite length_app; lia).
  pose proof (length_labels_wire ls) as Hn.
  assert (skipqname mem 12 (length mem) = Fault) as Sk.
  { unfold skipqname, distance. rewrite Z.mod_small by lia. rewrite <- Hh at 2.
    apply skip_loop_overrun; [done|lia| |lia]. destruct ls; [done|]. simpl length in *. lia. }
  assert (rd_slice mem 0 12 = Some h) as R by by apply rd_slice_prefix.
  simpl. unfold parse_start, distance, header_bytes. tests. rewrite R. simpl. fold r0. rewrite Hqr. simpl.
  unfold parse_qd. destruct (qdcount r0) as [|n]; [lia|]. simpl. by rewrite Sk.
Qed.

(** ** Queries *)

Lemma next_label_inv s l r :
  next_label s = (l, r) → (dot ∉ l) ∧ s = l ++ (match r with Some s' => dot :: s' | None => [] end).
Proof.
  revert l r. induction s as [|c s IH]; simpl; intros l r H; simplify_eq; [split; [apply not_elem_of_nil|done]|].
  case_decide; simplify_eq; [split; [apply not_elem_of_nil|done]|].
  destruct (next_label s) as [l' r'] eqn:E. simplify_eq. destruct (IH _ _ eq_refl) as [Hd ->].
  split; [|done]. by apply not_elem_of_cons.
Qed.

Lemma next_label_app l s : dot ∉ l → next_label (l ++ dot :: s) = (l, Some s).
Proof.
  induction l as [|c l IH]; simpl; intros Hd; [done|]. apply not_elem_of_cons in Hd as [Hc Hd].
  rewrite decide_False by done. by rewrite IH.
Qed.

Lemma next_label_all l : dot ∉ l → next_label l = (l, None).
Proof.
  induction l as [|c l IH]; simpl; intros Hd; [done|]. apply not_elem_of_cons in Hd as [Hc Hd].
  rewrite decide_False by done. by rewrite IH.
Qed.

Lemma store_app pre old bs :
  length bs <= length old → store (pre ++ old) (length pre) bs = Done ((pre ++ bs) ++ drop (length bs) old).
Proof.
  intros H. unfold store. rewrite decide_True by (len). by rewrite splice_app_r, <- app_assoc by done.
Qed.

(** One round of the loop. *)
Lemma label_loop_round fuel host l after pre old :
  next_label host = (l, after) → host ≠ [] → label_ok l → 1 + length l <= length old →
  label_loop (S fuel) host (length pre) (pre ++ old)
  = label_loop fuel (default [] after) (length (pre ++ label_wire l))
      ((pre ++ label_wire l) ++ drop (1 + length l) old).
Proof.
  intros N Hh [Hl0 Hl] Ho. destruct host as [|c host]; [done|]. cbn [label_loop]. rewrite N.
  rewrite decide_False by lia. rewrite store_app by (simpl; lia). cbn [mbind outcome_bind].
  replace (length pre + 1) with (length (pre ++ [to_u8 (Z.of_nat (length l))])) by (len).
  rewrite store_app by (len). cbn [mbind outcome_bind]. rewrite <- !app_assoc, drop_drop.
  unfold label_wire. simpl. f_equal. len.
Qed.

Lemma label_loop_bad fuel host l after dnsp body :
  next_label host = (l, after) → host ≠ [] → 63 < length l ∨ length l = 0 →
  label_loop (S fuel) host dnsp body = Done (None, body).
Proof. intros N Hh Hl. destruct host; [done|]. cbn [label_loop]. rewrite N. by rewrite decide_True. Qed.

Lemma dotted_cons_2 l m ls : dotted (l :: m :: ls) = l ++ dot :: dotted (m :: ls).
Proof. done. Qed.

Lemma host_of_next l ls host :
  dot ∉ l → host_of (l :: ls) host → ∃ after, next_label host = (l, after) ∧ host_of ls (default [] after).
Proof.
  intros Hd [->|[_ ->]]; destruct ls as [|m ls].
  - exists None. split; [by apply next_label_all|by left].
  - exists (Some (dotted (m :: ls))). rewrite dotted_cons_2. split; [by apply next_label_app|by left].
  - exists (Some []). split; [by apply next_label_app|by left].
  - exists (Some (dotted (m :: ls) ++ [dot])). rewrite dotted_cons_2, <- app_assoc.
    split; [by apply next_label_app|by right].
Qed.

Lemma host_of_cons l ls s : host_of ls s → host_of (l :: ls) (l ++ dot :: s).
Proof.
  intros [->|[Hne ->]]; destruct ls as [|m ls]; try done.
  - by right.
  - left. by rewrite dotted_cons_2.
  - right. split; [done|]. by rewrite dotted_cons_2, <- app_assoc.
Qed.

Lemma host_of_nonempty l ls host : label_ok l → host_of (l :: ls) host → host ≠ [].
Proof.
  intros [Hl _] [->|[_ ->]] E; apply (f_equal length) in E; rewrite dotted_cons in E; len.
Qed.

Lemma length_dotted l ls : length (labels_wire (l :: ls)) = length (dotted (l :: ls)) + 1.
Proof.
  revert l. induction ls as [|m ls IH]; intros l; rewrite labels_wire_cons.
  - change (labels_wire []) with (@nil byte). rewrite app_nil_r. simpl. lia.
  - rewrite dotted_cons_2. specialize (IH m). simpl length at 1. rewrite !length_app, IH. simpl length. lia.
Qed.

Lemma dotted_last l ls : Forall host_label (l :: ls) → ∃ p c, dotted (l :: ls) = p ++ [c] ∧ c ≠ dot.
Proof.
  revert l. induction ls as [|m ls IH]; intros l F; apply Forall_cons_1 in F as [[[Hl _] Hd] F].
  - destruct l as [|c p _] using rev_ind; [simpl in Hl; lia|]. exists p, c. split; [done|].
    intros ->. apply Hd. apply elem_of_app. right. by apply list_elem_of_singleton.
  - destruct (IH m F) as (p & c & E & Hc). exists (l ++ dot :: p), c. split; [|done].
    by rewrite dotted_cons_2, E, <- app_assoc.
Qed.

(** The test of [init] on the last byte gives the length of the name. *)
Lemma host_of_last ls host :
  ls ≠ [] → Forall host_label ls → host_of ls host →
  ∃ c, host !! (length host - 1) = Some c ∧
    length (labels_wire ls) = length host + (if decide (c = dot) then 0 else 1).
Proof.
  intros Hne F H. destruct ls as [|l ls]; [done|]. rewrite length_dotted.
  destruct H as [->|[_ ->]].
  - destruct (dotted_last l ls F) as (p & c & -> & Hc). exists c. rewrite decide_False by done. split; [|done].
    rewrite length_app. simpl length. rewrite Nat.add_sub. by rewrite list_lookup_middle.
  - exists dot. rewrite length_app, decide_True by done. simpl length. rewrite Nat.add_sub. split; [|lia].
    by rewrite list_lookup_middle.
Qed.

(** The loop on a host name that is one ... *)
Lemma label_loop_good ls : ∀ fuel host pre old,
  Forall host_label ls → host_of ls host → length host < fuel → length (labels_wire ls) <= length old →
  label_loop fuel host (length pre) (pre ++ old)
  = Done (Some (length (pre ++ labels_wire ls)), (pre ++ labels_wire ls) ++ drop (length (labels_wire ls)) old).
Proof.
  induction ls as [|l ls IH]; intros fuel host pre old F H Hf Ho.
  - destruct H as [->|[? _]]; [|done]. change (labels_wire []) with (@nil byte). rewrite !app_nil_r. by destruct fuel.
  - apply Forall_cons_1 in F as [[Hl Hd] F]. destruct (host_of_next _ _ _ Hd H) as (after & N & H').
    pose proof (host_of_nonempty _ _ _ Hl H) as Hne. destruct (next_label_inv _ _ _ N) as [_ Hh].
    destruct fuel as [|fuel]; [lia|]. rewrite labels_wire_cons in *. simpl length in Ho. rewrite length_app in Ho.
    rewrite (label_loop_round _ _ _ _ _ _ N Hne Hl) by lia.
    rewrite IH; [|done|done| |len].
    + rewrite drop_drop. unfold label_wire. rewrite <- !app_assoc. simpl. by rewrite <- app_assoc, (length_app l).
    + destruct Hl. destruct after; subst host; simpl in *; rewrite ?length_app in Hf; simpl in *; lia.
Qed.

(** ... and on any other. *)
Lemma label_loop_other fuel : ∀ host pre old,
  length host < fuel → length host + 1 <= length old →
  (∃ ls, Forall host_label ls ∧ host_of ls host) ∨
  ∃ body, label_loop fuel host (length pre) (pre ++ old) = Done (None, body).
Proof.
  induction fuel as [|fuel IH]; intros host pre old Hf Ho; [lia|].
  destruct (decide (host = [])) as [->|Hne]; [left; exists []; split; [done|by left]|].
  destruct (next_label host) as [l after] eqn:N. destruct (next_label_inv _ _ _ N) as [Hd Hh].
  destruct (decide (63 < length l ∨ length l = 0)) as [Hl|Hl]; [right; eexists; by eapply label_loop_bad|].
  assert (label_ok l) as Hok by (unfold label_ok; lia).
  destruct after as [s|].
  - subst host. rewrite length_app in Hf, Ho. simpl in Hf, Ho.
    rewrite (label_loop_round _ _ _ _ _ _ N Hne Hok) by lia. simpl.
    destruct (IH s (pre ++ label_wire l) (drop (1 + length l) old)) as [(ls & F & H)|R]; [lia|len|left|by right].
    exists (l :: ls). split; [by constructor|]. by apply host_of_cons.
  - left. exists [l]. split; [by constructor|]. left. by rewrite Hh, app_nil_r.
Qed.

Lemma c_str_all host : x00 ∉ host → c_str host = host.
Proof.
  induction host as [|c host IH]; simpl; [done|]. intros [Hc H]%not_elem_of_cons.
  rewrite decide_False by done. by rewrite IH.
Qed.

Lemma c_str_length host : length (c_str host) <= length host.
Proof. induction host as [|c host IH]; simpl; [done|]. case_decide; simpl; lia. Qed.

Lemma resize_nil n : resize n [] = replicate n x00.
Proof. unfold resize. by rewrite take_nil, Nat.sub_0_r. Qed.

Lemma type_bytes t :
  [to_u8 (Z.land 255 (Z.shiftr t 8)); to_u8 (Z.land 255 t); x00; to_u8 DNS_CLASS_IN] = be16_bytes t ++ [x00; x01].
Proof. unfold be16_bytes. by rewrite !(Z.land_comm 255). Qed.

Lemma init_good ls host t :
  ls ≠ [] → Forall host_label ls → host_of ls host → x00 ∉ host → length (qname ls) <= 256 →
  init request_init host t = Done (true, query ls t).
Proof.
  intros Hne F H H0 Hq. destruct (host_of_last _ _ Hne F H) as (c & E & Hw). unfold init. rewrite E.
  unfold qname in Hq. rewrite length_app in Hq. simpl in Hq. rewrite decide_False by lia.
  rewrite c_str_all by done. change (body_ request_init) with (@nil byte). rewrite resize_nil.
  pose proof (label_loop_good ls (S (length host)) host [] (replicate (length (labels_wire ls) + 5) x00)) as L.
  rewrite length_replicate in L. specialize (L F H ltac:(lia) ltac:(lia)). simpl app in L.
  replace (12 + 1 + length host + 4 + (if decide (c = dot) then 0 else 1) - 12)
    with (length (labels_wire ls) + 5) by lia.
  change (length []) with 0 in L. rewrite L. cbn [mbind outcome_bind].
  rewrite drop_replicate. replace (length (labels_wire ls) + 5 - length (labels_wire ls)) with 5 by lia.
  rewrite store_app by (simpl; lia). cbn [mbind outcome_bind].
  replace (length (labels_wire ls) + 1) with (length (labels_wire ls ++ [x00])) by (len).
  rewrite store_app by (simpl; lia). cbn [mbind outcome_bind]. rewrite type_bytes. simpl.
  unfold query, qname. by rewrite app_nil_r, <- !app_assoc.
Qed.

Lemma init_bad host t :
  x00 ∉ host → (∀ ls, ls ≠ [] → Forall host_label ls → host_of ls host → 256 < length (qname ls)) →
  ∃ q, init request_init host t = Done (false, q).
Proof.
  intros H0 Hno. unfold init. destruct (host !! (length host - 1)) as [c|] eqn:E; [|by eexists].
  case_decide as Hl; [by eexists|]. rewrite c_str_all by done. change (body_ request_init) with (@nil byte). rewrite resize_nil.
  destruct (label_loop_other (S (length host)) host [] (replicate (12 + 1 + length host + 4 + (if decide (c = dot) then 0 else 1) - 12) x00)) as [(ls & F & H)|[body R]];
    [lia|rewrite length_replicate; lia| |].
  - exfalso. destruct ls as [|l ls]; [destruct H as [->|[? _]]; [discriminate E|done]|].
    specialize (Hno (l :: ls) ltac:(done) F H). destruct (host_of_last (l :: ls) host ltac:(done) F H) as (c' & E' & Hw). simplify_eq.
    unfold qname in Hno. rewrite length_app in Hno. simpl in Hno, Hw. lia.
  - rewrite app_nil_l in R. change (length []) with 0 in R. rewrite R. simpl. by eexists.
Qed.

(** Uncompressed names are names and stand for their labels. *)
Lemma qname_cons l ls : qname (l :: ls) = label_wire l ++ qname ls.
Proof. unfold qname. rewrite labels_wire_cons. unfold label_wire. simpl. by rewrite <- app_assoc. Qed.

Lemma length_label l : label_ok l → Z.to_nat (1 + u8 (to_u8 (Z.of_nat (length l)))) = length (label_wire l).
Proof. intros [? ?]. rewrite u8_to_u8_small by lia. simpl. lia. Qed.

Lemma name_at_wire ls : ∀ mem pre suf i j,
  mem = pre ++ qname ls ++ suf → i = length pre → j = i + length (qname ls) →
  Forall label_ok ls → name_at mem i j.
Proof.
  induction ls as [|l ls IH]; intros mem pre suf i j -> -> -> F.
  - apply name_root. by apply rd_app.
  - apply Forall_cons_1 in F as [Hok F]. pose proof Hok as [Hl0 Hl]. rewrite qname_cons, <- app_assoc.
    eapply name_label; [by apply rd_app|rewrite u8_to_u8_small; lia|]. rewrite length_label by done.
    apply (IH _ (pre ++ label_wire l) suf); [by rewrite <- app_assoc|by rewrite length_app| |done].
    rewrite length_app. lia.
Qed.

Lemma expands_wire ls : ∀ mem e pre suf i,
  mem = pre ++ qname ls ++ suf → i = length pre → i + length (qname ls) <= e →
  Forall label_ok ls → expands mem e i ls.
Proof.
  induction ls as [|l ls IH]; intros mem e pre suf i -> -> He F.
  - apply expands_root; [simpl in He; lia|]. by apply rd_app.
  - apply Forall_cons_1 in F as [Hok F]. pose proof Hok as [Hl0 Hl].
    rewrite qname_cons, length_app in He. rewrite qname_cons, <- app_assoc.
    eapply expands_label; [|by apply rd_app|rewrite u8_to_u8_small; lia| |].
    + rewrite length_label by done. lia.
    + rewrite u8_to_u8_small, Nat2Z.id by lia. unfold label_wire. simpl. rewrite cons_middle, app_assoc.
      apply rd_slice_app'; len.
    + rewrite length_label by done.
      apply (IH _ _ (pre ++ label_wire l) suf); [by rewrite <- app_assoc|by rewrite length_app|lia|done].
Qed.

(** A query is built exactly for the names of labels of 1 to 63 bytes that need at most 256 bytes, with or
    without the final dot; it is the header of a recursive query for one name, the name, its type and the
    class IN, and the name read back from it is the name asked for.  For every other name [init] answers
    [false]; it never writes outside of the body. *)
Theorem dns_request_query host t :
  x00 ∉ host →
  (∀ ls, ls ≠ [] → Forall host_label ls → host_of ls host → length (qname ls) <= 256 →
     init request_init host t = Done (true, query ls t) ∧
     let wire := buffers (query ls t) in
     expands wire (length wire) 12 ls ∧ question_at wire (length wire) 12 tt (length wire)) ∧
  ((∀ ls, ls ≠ [] → Forall host_label ls → host_of ls host → 256 < length (qname ls)) →
     ∃ q, init request_init host t = Done (false, q)).
Proof.
  intros H0. split; [|by apply init_bad]. intros ls Hne F H Hq. split; [by apply init_good|].
  assert (Forall label_ok ls) as F' by (eapply Forall_impl; [|exact F]; by intros ? []).
  unfold buffers, query. cbn [header_ body_]. cbv zeta.
  split; [apply (expands_wire ls _ _ query_header (be16_bytes t ++ [x00; x01])); [done..| |done]; len|].
  replace (length (query_header ++ qname ls ++ be16_bytes t ++ [x00; x01])) with (12 + length (qname ls) + 4) by (len).
  constructor; [|lia]. by apply (name_at_wire ls _ query_header (be16_bytes t ++ [x00; x01])).
Qed.

(** ** Examples *)

Definition example_header (qd an : byte) : list byte :=
  [x12; x34; x81; x80; x00; qd; x00; an; x00; x00; x00; x00].

(** A response for the name a: its alias b.a and the address 10.0.0.1. *)
Definition example_response : list byte :=
  example_header x01 x02 ++ [x01; x61; x00; x00; x01; x00; x01] ++
  [xc0; x0c; x00; x05; x00; x01; x00; x00; x00; x3c; x00; x04; x01; x62; xc0; x0c] ++
  [xc0; x0c; x00; x01; x00; x01; x00; x00; x00; x3c; x00; x04; x0a; x00; x00; x01].

Definition example_parsed : response :=
  mkResponse (example_header x01 x02) [[x0a; x00; x00; x01]] [] [str "b.a"].

Lemma example_message : message example_response 51 example_parsed 51.
Proof.
  exists (example_header x01 x02), [tt], [is_cname [[x62]; [x61]]; is_a [x0a; x00; x00; x01]], 19, 51, [], 51, [].
  split; [reflexivity|]. split; [lia|]. cbv zeta.
  split_and!; [reflexivity| | |apply items_nil|apply items_nil|reflexivity].
  - apply (items_cons _ 0 12 tt 19); [|apply items_nil]. apply (question_intro _ _ _ 15); [|lia].
    apply (name_label _ 12 x01 15); [reflexivity|vm_compute; split; reflexivity|]. by apply (name_root _ 14).
  - apply (items_cons _ 1 19 _ 35).
    + apply (answer_intro _ _ _ 21 DNS_TYPE_CNAME 4 [x00; x00; x00; x3c]);
        [by apply (name_pointer _ 19 xc0)|unfold DNS_TYPE_CNAME; lia|lia|reflexivity|reflexivity|lia|].
      apply data_cname. apply (expands_label _ _ 31 x01); [vm_compute; lia|reflexivity|vm_compute; split; reflexivity|reflexivity|].
      apply (expands_pointer _ _ 33 xc0 x0c); [lia|reflexivity|done|reflexivity|].
      apply (expands_label _ _ 12 x01); [vm_compute; lia|reflexivity|vm_compute; split; reflexivity|reflexivity|].
      apply (expands_root _ _ 14); [lia|reflexivity].
    + apply (items_cons _ 0 35 _ 51); [|apply items_nil].
      apply (answer_intro _ _ _ 37 DNS_TYPE_A 4 [x00; x00; x00; x3c]);
        [by apply (name_pointer _ 35 xc0)|unfold DNS_TYPE_A; lia|lia|reflexivity|reflexivity|lia|].
      apply data_a. reflexivity.
Qed.

(** With a byte behind the response, and from the response alone. *)
Lemma dns_response_parse_witness :
  (∃ N, ∀ fuel, N <= fuel →
     parse fuel response_start response_init (example_response ++ [xff]) 0 51
     = Done (good, 51, response_ar_start, example_parsed)) ∧
  message example_response 51 example_parsed 51.
Proof.
  split.
  - apply (proj1 (dns_response_parse (example_response ++ [xff]) 51 ltac:(lia))). apply message_mono, example_message.
  - apply (proj2 (dns_response_parse example_response 51 ltac:(lia)) eq_refl 10 _ _ response_ar_start). vm_compute. reflexivity.
Defined.

Lemma dns_cname_loop_witness :
  parse 1000 response_start response_init (example_header x00 x01 ++ looping_answer [x00; x00; x00; x3c] ++ []) 0 25
  = Running.
Proof.
  apply (dns_cname_loop (example_header x00 x01) [x00; x00; x00; x3c] [] 25 1000); vm_compute; lia || reflexivity || done.
Defined.

Lemma dns_name_overrun_witness :
  parse 10 response_start response_init (example_header x01 x00 ++ labels_wire [[x61]; [x62]]) 0 16 = Fault.
Proof.
  apply (dns_name_overrun (example_header x01 x00) [[x61]; [x62]] 10);
    [reflexivity| |discriminate|vm_compute; reflexivity|reflexivity|vm_compute; lia].
  repeat constructor; simpl; lia.
Defined.

Lemma dns_request_query_witness :
  init request_init (str "a.bc.") DNS_TYPE_AAAA = Done (true, query [str "a"; str "bc"] DNS_TYPE_AAAA) ∧
  ∃ q, init request_init [] DNS_TYPE_A = Done (false, q).
Proof.
  split.
  - apply (dns_request_query (str "a.bc.") DNS_TYPE_AAAA);
      [by apply (bool_decide_unpack _)|discriminate| |by right|vm_compute; lia].
    repeat constructor; try (vm_compute; lia); by apply (bool_decide_unpack _).
  - apply (dns_request_query [] DNS_TYPE_A); [by apply (bool_decide_unpack _)|].
    intros ls Hne F H. destruct F as [|l ls [Hl _] _]; [done|]. by destruct (host_of_nonempty _ _ _ Hl H).
Defined.

End Dns.
