(* ===== verification/Resolver.v ===== *)
(** * Name resolution over TLS and HTTPS

    src/src/net/dns_addrinfo_helper.cpp, the requests of
    src/src/net/dot_request.cpp and src/src/net/doh_request.cpp, and the resolver of
    src/src/net/dot_resolver.cpp, whose handlers are the same text in
    src/src/net/doh_resolver.cpp.

    A chain of [struct addrinfo] is a list, the null pointer the empty list.  A
    completion handler that is registered with a socket is a member of
    [pending_]; [step] runs one.  What the sockets answer is in the event. *)

From Stdlib Require Import ZArith Lia.
From stdpp Require Import base list numbers option sets.
From S2P Require Import Prelude IoBuffer IoQueue Addr Hkdf Crypter Cipher Conn Dns.

(** What [HttpResponseParser] answers after [Parse]. *)
Record http_response := mkHttpResponse {
  r_nparsed : nat; r_ok : bool; r_status_code : Z; r_content_type : list byte; r_content_length : Z }.

(** Balsa or http-parser. *)
Class HttpResponseLib := http_response_parse : list byte → http_response.

Module Resolver.
Import IoBuffer Addr Conn Dns.

(** ** dns_addrinfo_helper.cpp *)

Inductive family := AF_INET | AF_INET6.

Record addrinfo := mkAddrinfo {
  ai_family : family;
  ai_canonname : option (list byte);
  sin_addr : list byte;
  sin_port : Z
}.

(** [host.ends_with(s)]. *)
Definition ends_with (host s : list byte) : bool :=
  bool_decide (length s <= length host) && bool_decide (drop (length host - length s) host = s).

Definition is_localhost (host : list byte) : bool :=
  if decide (host = []) then false
  else if decide (host = str "localhost") then true
  else ends_with host (str ".localhost").

(** [htons(port)] of an [int]. *)
Definition in_port (port : Z) : Z := port mod 65536.

Definition addrinfo_loopback (is_ipv6 : bool) (port : Z) : list addrinfo :=
  if is_ipv6 then [mkAddrinfo AF_INET6 None (replicate 15 x00 ++ [x01]) (in_port port)]
  else [mkAddrinfo AF_INET None [x7f; x00; x00; x01] (in_port port)].

(** The loops of [addrinfo_dup]: the canonical name goes to the first node. *)
Fixpoint dup_loop (f : family) (canon_name : option (list byte)) (addrs : list (list byte)) (port : Z)
  : list addrinfo :=
  match addrs with
  | [] => []
  | a :: addrs => mkAddrinfo f canon_name a (in_port port) :: dup_loop f None addrs port
  end.

Definition addrinfo_dup (is_ipv6 : bool) (r : response) (port : Z) : list addrinfo :=
  let canon_name := match cname_ r with n :: _ => Some (c_str n) | [] => None end in
  if is_ipv6 then dup_loop AF_INET6 canon_name (aaaa_ r) port
  else dup_loop AF_INET canon_name (a_ r) port.

(** ** [DoTRequest] and [DoHRequest] *)

Inductive error :=
  | operation_aborted | bad_descriptor | interrupted | would_block | try_again
  | connection_refused | host_unreachable | operation_not_supported | timed_out | host_not_found
  | other_error (code : Z).

#[export] Instance error_eq_dec : EqDecision error.
Proof. solve_decision. Defined.

(** The two transports, with what the request knows of its server. *)
Inductive transport := DoT | DoH (doh_host : list byte) (doh_port : Z) (doh_path : list byte).

Inductive ReadState := Read_Header | Read_Body.

(** Completion handlers: the posted answer for a local name, [async_connect],
    [SSLSocket::Connect], [ConfirmHandshake], [WaitWrite] and [WaitRead]. *)
Inductive handler := h_post | h_connect | h_ssl | h_confirm | h_write | h_read.

#[export] Instance handler_eq_dec : EqDecision handler.
Proof. solve_decision. Defined.

(** [sent_] is what the socket has taken, [calls_] the calls of the callback. *)
Record request := mkReq {
  closed_ : bool;
  cb_ : bool;
  dns_type_ : Z;
  port_ : Z;
  send_buf_ : option GrowableIOBuffer;
  recv_buf_ : option GrowableIOBuffer;
  read_state_ : ReadState;
  body_length_ : Z;
  pending_ : list handler;
  sent_ : list byte;
  calls_ : list (option error * list addrinfo)
}.

Definition request_make : request := mkReq false false 0 0 None None Read_Header 0 [] [] [].

Definition set_send (s : request) (b : GrowableIOBuffer) (w : list byte) : request :=
  mkReq (closed_ s) (cb_ s) (dns_type_ s) (port_ s) (Some b) (recv_buf_ s) (read_state_ s) (body_length_ s)
    (pending_ s) (sent_ s ++ w) (calls_ s).
Definition set_recv (s : request) (b : GrowableIOBuffer) : request :=
  mkReq (closed_ s) (cb_ s) (dns_type_ s) (port_ s) (send_buf_ s) (Some b) (read_state_ s) (body_length_ s)
    (pending_ s) (sent_ s) (calls_ s).
Definition set_body (s : request) (n : Z) : request :=
  mkReq (closed_ s) (cb_ s) (dns_type_ s) (port_ s) (send_buf_ s) (recv_buf_ s) Read_Body n
    (pending_ s) (sent_ s) (calls_ s).
Definition set_pending (s : request) (p : list handler) : request :=
  mkReq (closed_ s) (cb_ s) (dns_type_ s) (port_ s) (send_buf_ s) (recv_buf_ s) (read_state_ s) (body_length_ s)
    p (sent_ s) (calls_ s).
Definition wait (s : request) (h : handler) : request := set_pending s (pending_ s ++ [h]).

(** [close()]: the callback is forgotten.  Handlers that are registered may still
    run, with whatever error. *)
Definition close (s : request) : request :=
  if closed_ s then s
  else mkReq true false (dns_type_ s) (port_ s) (send_buf_ s) (recv_buf_ s) (read_state_ s) (body_length_ s)
         (pending_ s) (sent_ s) (calls_ s).

(** [OnDoneRequest]: [cb_] is moved from, so it is called once. *)
Definition OnDoneRequest (s : request) (ec : option error) (ai : list addrinfo) : request :=
  if cb_ s then
    mkReq (closed_ s) false (dns_type_ s) (port_ s) (send_buf_ s) (recv_buf_ s) (read_state_ s) (body_length_ s)
      (pending_ s) (sent_ s) (calls_ s ++ [(ec, ai)])
  else s.

(** What a read or a write on the TLS socket answers. *)
Inductive io (A : Type) := IoOk (a : A) | IoError (ec : error).
Arguments IoOk {A} a.
Arguments IoError {A} ec.

Section Request.
Context `{Allocator} `{HttpResponseLib}.
Variable via : transport.

(** The text in front of a query. *)
Definition request_prefix (payload_size : nat) : list byte :=
  match via with
  | DoT => be16_bytes (Z.of_nat payload_size)
  | DoH doh_host doh_port doh_path =>
      str "POST " ++ doh_path ++ str " HTTP/1.1" ++ crlf ++
      str "Host: " ++ doh_host ++ str ":" ++ decimal doh_port ++ crlf ++
      str "Accept: */*" ++ crlf ++
      str "Content-Type: application/dns-message" ++ crlf ++
      str "Content-Length: " ++ decimal (Z.of_nat payload_size) ++ crlf ++ crlf
  end.

(** [open_ec] is what [socket_.open] answers. *)
Definition DoRequest (dns_type : Z) (host : list byte) (port : Z) (open_ec : option error) (s : request)
  : outcome request :=
  let s := mkReq (closed_ s) true dns_type port (send_buf_ s) (recv_buf_ s) (read_state_ s) (body_length_ s)
             (pending_ s) (sent_ s) (calls_ s) in
  if is_localhost host then Done (wait s h_post)
  else
    '(ok, msg) ← init request_init host dns_type;
    if negb ok then Done (OnDoneRequest s (Some host_unreachable) [])
    else
      buf ← of_option (append_all make [request_prefix (length (buffers msg)); header_ msg; body_ msg]);
      let s := set_send s buf [] in
      match open_ec with
      | Some ec => Done (OnDoneRequest s (Some ec) [])
      | None => Done (wait s h_connect)
      end.

Definition OnPosted (s : request) : request :=
  OnDoneRequest s None (addrinfo_loopback (bool_decide (dns_type_ s = DNS_TYPE_AAAA)) (port_ s)).

(** The handler of [async_connect]; [OnSocketConnect] starts the TLS handshake. *)
Definition OnConnected (ec : option error) (s : request) : request :=
  match ec with
  | Some operation_aborted | Some bad_descriptor => s
  | Some ec => OnDoneRequest s (Some ec) []
  | None => wait s h_ssl
  end.

Definition OnSSLConnect (s : request) : request :=
  let s := wait s h_confirm in
  if negb (cb_ s) then s
  else wait (wait (set_recv s make) h_write) h_read.

(** The handler of [SSLSocket::Connect]. *)
Definition OnSSLConnected (ok : bool) (s : request) : request :=
  if ok then OnSSLConnect s else OnDoneRequest s (Some connection_refused) [].

(** The handler of [ConfirmHandshake]. *)
Definition OnConfirmed (ok : bool) (s : request) : request :=
  if ok then s else OnDoneRequest s (Some connection_refused) [].

(** [w] is how much the socket takes of what it is given. *)
Definition OnSSLWritable (ec : option error) (w : io nat) (s : request) : outcome request :=
  match ec with
  | Some ec => Done (OnDoneRequest s (Some ec) [])
  | None =>
      buf ← of_option (send_buf_ s);
      match w with
      | IoError ec => Done (OnDoneRequest s (Some ec) [])
      | IoOk n =>
          let written := n `min` size buf in
          buf' ← of_option (set_offset buf (Z.of_nat (offset buf) + Z.of_nat written));
          let s := set_send s buf' (take written (span buf)) in
          Done (if empty buf' then s else wait s h_write)
      end
  end.

(** The end that the parser is given. *)
Definition response_end (recv : GrowableIOBuffer) (body_length : Z) : nat :=
  match via with DoT => RemainingCapacity recv | DoH _ _ _ => Z.to_nat body_length end.

(** [fuel] is that of the parser. *)
Definition OnParseDnsResponse (fuel : nat) (s : request) : outcome request :=
  recv ← of_option (recv_buf_ s);
  '(result, _, _, response) ←
    parse fuel response_start response_init (data recv) 0 (response_end recv (body_length_ s));
  match result with
  | good =>
      s ← (match via with
           | DoT => Done s
           | DoH _ _ _ =>
               recv ← of_option (set_offset recv (Z.of_nat (offset recv) + body_length_ s));
               Done (set_recv s recv)
           end);
      Done (OnDoneRequest s None
              (addrinfo_dup (bool_decide (dns_type_ s = DNS_TYPE_AAAA)) response (port_ s)))
  | _ => Done (OnDoneRequest s (Some operation_not_supported) [])
  end.

Definition OnReadBody (fuel : nat) (s : request) : outcome request :=
  recv ← of_option (recv_buf_ s);
  if (Z.of_nat (RemainingCapacity recv) <? body_length_ s)%Z then Done (wait s h_read)
  else OnParseDnsResponse fuel s.

(** [DoTRequest::OnReadHeader]. *)
Definition OnReadHeader_dot (fuel : nat) (s : request) : outcome request :=
  recv ← of_option (recv_buf_ s);
  if decide (RemainingCapacity recv < 2) then Done (OnDoneRequest s (Some operation_not_supported) [])
  else
    length ← get16bit (data recv) 0;
    recv ← of_option (set_offset recv (Z.of_nat (offset recv) + 2));
    OnReadBody fuel (set_body (set_recv s recv) length).

(** [DoHRequest::OnReadHeader]. *)
Definition OnReadHeader_doh (fuel : nat) (s : request) : outcome request :=
  let failed s := Done (OnDoneRequest s (Some operation_not_supported) []) in
  recv ← of_option (recv_buf_ s);
  let parser := http_response_parse (span recv) in
  if negb (r_ok parser) then failed s
  else
    recv ← of_option (set_offset recv (Z.of_nat (offset recv) + Z.of_nat (r_nparsed parser)));
    let s := set_recv s recv in
    if negb (r_status_code parser =? 200)%Z then failed s
    else if negb (bool_decide (r_content_type parser = str "application/dns-message")) then failed s
    else if (r_content_length parser =? 0)%Z then failed s
    else if (65535 <=? r_content_length parser)%Z then failed s
    else OnReadBody fuel (set_body s (r_content_length parser)).

Definition OnReadHeader (fuel : nat) (s : request) : outcome request :=
  match via with DoT => OnReadHeader_dot fuel s | DoH _ _ _ => OnReadHeader_doh fuel s end.

(** [sizeof(uint16_t) + UINT16_MAX] or [UINT16_MAX]. *)
Definition read_size : Z := match via with DoT => 2 + 65535 | DoH _ _ _ => 65535 end.

(** An interrupted read is an error: the [continue] ends [do { } while (false)]. *)
Definition OnSSLReadable (fuel : nat) (ec : option error) (r : io (list byte)) (s : request) : outcome request :=
  match ec with
  | Some ec => Done (OnDoneRequest s (Some ec) [])
  | None =>
      match r with
      | IoError try_again | IoError would_block => Done (wait s h_read)
      | IoError ec => Done (OnDoneRequest s (Some ec) [])
      | IoOk bs =>
          let bs := take (Z.to_nat read_size) bs in
          recv ← of_option (recv_buf_ s);
          let previous_capacity := capacity recv in
          recv ← of_option (SetCapacity recv (Z.of_nat previous_capacity + Z.of_nat (length bs)));
          recv ← of_option (write_at recv previous_capacity bs);
          let s := set_recv s recv in
          match read_state_ s with
          | Read_Header => OnReadHeader fuel s
          | Read_Body => OnReadBody fuel s
          end
      end
  end.

(** ** The request as a machine *)

Inductive event :=
  | Posted
  | Connected (ec : option error)
  | SSLConnected (ok : bool)
  | Confirmed (ok : bool)
  | Writable (ec : option error) (w : io nat)
  | Readable (ec : option error) (r : io (list byte))
  | Closed.

Definition handler_of (ev : event) : option handler :=
  match ev with
  | Posted => Some h_post
  | Connected _ => Some h_connect
  | SSLConnected _ => Some h_ssl
  | Confirmed _ => Some h_confirm
  | Writable _ _ => Some h_write
  | Readable _ _ => Some h_read
  | Closed => None
  end.

(** A handler runs once for each time it was registered. *)
Fixpoint remove_handler (h : handler) (p : list handler) : option (list handler) :=
  match p with
  | [] => None
  | g :: p => if decide (g = h) then Some p else p ← remove_handler h p; Some (g :: p)
  end.

Definition run_handler (fuel : nat) (ev : event) (s : request) : outcome request :=
  match ev with
  | Posted => Done (OnPosted s)
  | Connected ec => Done (OnConnected ec s)
  | SSLConnected ok => Done (OnSSLConnected ok s)
  | Confirmed ok => Done (OnConfirmed ok s)
  | Writable ec w => OnSSLWritable ec w s
  | Readable ec r => OnSSLReadable fuel ec r s
  | Closed => Done (close s)
  end.

(** An event whose handler is not registered does not happen. *)
Definition step (fuel : nat) (s : request) (ev : event) : outcome request :=
  match handler_of ev with
  | None => run_handler fuel ev s
  | Some h =>
      match remove_handler h (pending_ s) with
      | None => Done s
      | Some p => run_handler fuel ev (set_pending s p)
      end
  end.

Fixpoint run (fuel : nat) (s : request) (evs : list event) : outcome request :=
  match evs with
  | [] => Done s
  | ev :: evs => s ← step fuel s ev; run fuel s evs
  end.

End Request.

(** ** [DoTResolver] and [DoHResolver] *)

Inductive query_type := query_a | query_aaaa.

#[export] Instance query_type_eq_dec : EqDecision query_type.
Proof. solve_decision. Defined.

(** [reqs_] holds the requests that are open; [resolving_] says that the name of the server
    itself is being resolved; [answers_] are the calls of the callback. *)
Record resolver := mkResolver {
  init_ : bool;
  done_ : bool;
  rcb_ : bool;
  resolving_ : bool;
  endpoints_ : list endpoint;
  reqs_ : list query_type;
  addrinfo_ : list addrinfo;
  answers_ : list (option error * list endpoint)
}.

Definition resolver_make : resolver := mkResolver false true false false [] [] [] [].

(** [TLSEXT_MAXLEN_host_name]; [ssl_ec] is what [SetupSSLContext] answers.  [None] is
    success. *)
Inductive init_error := invalid_argument | ssl_error (ec : error).

Definition Init (host : list byte) (ssl_ec : option error) (r : resolver) : option init_error * resolver :=
  if decide (255 < length host) then (Some invalid_argument, r)
  else match ssl_ec with
       | Some ec => (Some (ssl_error ec), r)
       | None =>
           (None, mkResolver true (done_ r) (rcb_ r) (resolving_ r) (endpoints_ r) (reqs_ r) (addrinfo_ r) (answers_ r))
       end.

(** asio's [results_type::create] on a chain of addresses. *)
Definition endpoint_of (ai : addrinfo) : endpoint :=
  mkEndpoint (match ai_family ai with AF_INET => address_v4 (sin_addr ai) | AF_INET6 => address_v6 (sin_addr ai) end)
    (sin_port ai).

Definition set_reqs (r : resolver) (reqs : list query_type) (ai : list addrinfo) : resolver :=
  mkResolver (init_ r) (done_ r) (rcb_ r) (resolving_ r) (endpoints_ r) reqs ai (answers_ r).

(** The end of a resolution: [cb_] is moved from. *)
Definition finish (r : resolver) (ec : option error) (results : list endpoint) : resolver :=
  mkResolver (init_ r) true false (resolving_ r) (endpoints_ r) [] []
    (answers_ r ++ if rcb_ r then [(ec, results)] else []).

(** Closing the requests takes their callbacks away, so that nothing more
    comes of them. *)
Definition OnDoRequestDone (ec : option error) (r : resolver) : resolver :=
  let r := match ec with Some _ => set_reqs r [] (addrinfo_ r) | None => r end in
  match reqs_ r with
  | _ :: _ => r
  | [] =>
      if done_ r then r
      else
        let results := map endpoint_of (addrinfo_ r) in
        let ec := match results, ec with [], None => Some host_not_found | _, _ => ec end in
        finish r ec results
  end.

(** IPv4 addresses come first. *)
Definition OnDoRequestDoneA (ec : option error) (ai : list addrinfo) (r : resolver) : resolver :=
  OnDoRequestDone ec (set_reqs r (tail (reqs_ r)) (ai ++ addrinfo_ r)).

Definition OnDoRequestDoneAAAA (ec : option error) (ai : list addrinfo) (r : resolver) : resolver :=
  OnDoRequestDone ec (set_reqs r (take (length (reqs_ r) - 1) (reqs_ r)) (addrinfo_ r ++ ai)).

(** [DoRequest]: a request that fails at once calls back from within its
    [DoRequest]; [now_a] and [now_aaaa] are these errors. *)
Definition DoRequests (enable_ipv6 : bool) (now_a now_aaaa : option error) (r : resolver) : resolver :=
  let r := set_reqs r (reqs_ r ++ [query_a]) (addrinfo_ r) in
  let r := match now_a with Some ec => OnDoRequestDoneA (Some ec) [] r | None => r end in
  if enable_ipv6 then
    let r := set_reqs r (reqs_ r ++ [query_aaaa]) (addrinfo_ r) in
    match now_aaaa with Some ec => OnDoRequestDoneAAAA (Some ec) [] r | None => r end
  else r.

(** [ip] is the address of the server when its name is one. *)
Definition AsyncResolve (ip : option endpoint) (enable_ipv6 : bool) (now_a now_aaaa : option error) (r : resolver)
  : resolver :=
  let start eps resolving :=
    mkResolver (init_ r) false true resolving eps (reqs_ r) (addrinfo_ r) (answers_ r) in
  match endpoints_ r, ip with
  | _ :: _, _ => DoRequests enable_ipv6 now_a now_aaaa (start (endpoints_ r) (resolving_ r))
  | [], Some ep => DoRequests enable_ipv6 now_a now_aaaa (start [ep] (resolving_ r))
  | [], None => start [] true
  end.

Definition Cancel (r : resolver) : resolver :=
  if negb (init_ r) then r
  else mkResolver (init_ r) (done_ r) false (resolving_ r) (endpoints_ r) [] [] (answers_ r).

(** What the resolver of the operating system answers for the server: an error
    or at least one endpoint. *)
Inductive server_result := ServerError (ec : error) | ServerAt (ep : endpoint) (eps : list endpoint).

Inductive revent :=
  | ServerResolved (res : server_result) (enable_ipv6 : bool) (now_a now_aaaa : option error)
  | RequestDone (q : query_type) (ec : option error) (ai : list addrinfo)
  | TimedOut
  | Cancelled.

(** Only a request that is open calls back. *)
Definition rstep (r : resolver) (ev : revent) : resolver :=
  match ev with
  | ServerResolved res enable_ipv6 now_a now_aaaa =>
      if negb (resolving_ r) then r
      else
        let r := mkResolver (init_ r) (done_ r) (rcb_ r) false (endpoints_ r) (reqs_ r) (addrinfo_ r) (answers_ r) in
        match res with
        | ServerError operation_aborted => r
        | ServerError ec => OnDoRequestDone (Some ec) r
        | ServerAt ep eps =>
            DoRequests enable_ipv6 now_a now_aaaa
              (mkResolver (init_ r) (done_ r) (rcb_ r) false (endpoints_ r ++ ep :: eps) (reqs_ r) (addrinfo_ r) (answers_ r))
        end
  | RequestDone q ec ai =>
      if decide (q ∈ reqs_ r) then
        match q with query_a => OnDoRequestDoneA ec ai r | query_aaaa => OnDoRequestDoneAAAA ec ai r end
      else r
  | TimedOut => if done_ r then r else OnDoRequestDone (Some timed_out) r
  | Cancelled => Cancel r
  end.

Definition rrun (r : resolver) (evs : list revent) : resolver := foldl rstep r evs.

#[local] Arguments parse : simpl never.

(** ** Handlers that wait *)

Lemma remove_handler_in h p :
  NoDup p → h ∈ p → ∃ p', remove_handler h p = Some p' ∧ NoDup p' ∧ (h ∉ p') ∧ ∀ g, g ≠ h → g ∈ p' ↔ g ∈ p.
Proof.
  induction p as [|g p IH]; intros ND Hin; [by apply elem_of_nil in Hin|].
  pose proof (NoDup_cons_1_1 _ _ ND) as Hg. apply NoDup_cons_1_2 in ND. simpl. case_decide as E; [subst g|].
  - exists p. split_and!; try done. intros g Hne. rewrite elem_of_cons. naive_solver.
  - apply elem_of_cons in Hin as [->|Hin]; [done|]. destruct (IH ND Hin) as (p' & -> & ND' & Hn & Hiff).
    exists (g :: p'). simpl. split_and!; [done| | |].
    + constructor; [|done]. by rewrite Hiff.
    + rewrite not_elem_of_cons. done.
    + intros g' Hg'. rewrite !elem_of_cons, Hiff by done. done.
Qed.

Lemma remove_handler_out h p : h ∉ p → remove_handler h p = None.
Proof.
  induction p as [|g p IH]; [done|]. intros [Hg Hp]%not_elem_of_cons. simpl. rewrite decide_False by done. by rewrite IH.
Qed.

Lemma NoDup_wait (p : list handler) h : NoDup p → h ∉ p → NoDup (p ++ [h]).
Proof.
  induction 1 as [|g p Hg ND IH]; intros Hh; simpl; [by repeat constructor; apply not_elem_of_nil|].
  apply not_elem_of_cons in Hh as [Hne Hh]. constructor; [|by apply IH].
  rewrite elem_of_app, list_elem_of_singleton. naive_solver.
Qed.

(** ** A request and its answer *)

Section Answer.
Context `{Allocator} `{HttpResponseLib}.
Variable via : transport.

Lemma run_cons_event fuel s ev evs s1 :
  step via fuel s ev = Done s1 → run via fuel s (ev :: evs) = run via fuel s1 evs.
Proof. intros E. simpl. by rewrite E. Qed.

Lemma run_app fuel s evs1 evs2 s1 :
  run via fuel s evs1 = Done s1 → run via fuel s (evs1 ++ evs2) = run via fuel s1 evs2.
Proof.
  revert s. induction evs1 as [|ev evs1 IH]; intros s; simpl; [by intros [= ->]|].
  intros E. run_inv. rewrite E0. simpl. by apply IH.
Qed.

Lemma run_split fuel s evs1 evs2 s' :
  run via fuel s (evs1 ++ evs2) = Done s' → ∃ s1, run via fuel s evs1 = Done s1 ∧ run via fuel s1 evs2 = Done s'.
Proof.
  revert s. induction evs1 as [|ev evs1 IH]; intros s; simpl; [eauto|]. intros E. run_inv.
  rewrite E0. simpl. by apply IH.
Qed.

Lemma step_handler fuel s ev h p :
  handler_of ev = Some h → remove_handler h (pending_ s) = Some p →
  step via fuel s ev = run_handler via fuel ev (set_pending s p).
Proof. intros E1 E2. unfold step. by rewrite E1, E2. Qed.

(** *** Writing *)

(** The request [out] is on its way: what was taken and what is left. *)
Definition sending (out : list byte) (s : request) : Prop :=
  NoDup (pending_ s) ∧
  ∃ b, send_buf_ s = Some b ∧ wf b ∧ sent_ s ++ span b = out ∧ (h_write ∈ pending_ s ↔ span b ≠ []).

(** Members that writing does not touch. *)
Definition same_reading (s s' : request) : Prop :=
  cb_ s' = cb_ s ∧ dns_type_ s' = dns_type_ s ∧ port_ s' = port_ s ∧ recv_buf_ s' = recv_buf_ s ∧
  read_state_ s' = read_state_ s ∧ body_length_ s' = body_length_ s ∧ calls_ s' = calls_ s ∧
  (h_read ∈ pending_ s' ↔ h_read ∈ pending_ s).

Lemma same_reading_trans s s' s'' : same_reading s s' → same_reading s' s'' → same_reading s s''.
Proof. unfold same_reading. intros. destruct_and!. split_and!; try congruence. naive_solver. Qed.

Lemma write_step out s n :
  sending out s →
  ∃ s', (∀ fuel, step via fuel s (Writable None (IoOk n)) = Done s') ∧ sending out s' ∧ same_reading s s' ∧
    sent_ s' = take (length (sent_ s) + n) out.
Proof.
  intros (ND & b & Eb & Wb & Es & Hw). destruct (decide (h_write ∈ pending_ s)) as [Hin|Hout].
  - destruct (remove_handler_in _ _ ND Hin) as (p & Ep & NDp & Hp & Hiff).
    destruct (set_offset_advance b (n `min` size b)) as (b' & E' & W' & S' & _ & _ & _); [done|lia|].
    assert (sent_ s ++ take (n `min` size b) (span b) = take (length (sent_ s) + n) out) as Et.
    { rewrite <- Es, take_app_add. f_equal. rewrite <- length_span by done.
      destruct (decide (n <= length (span b))); [f_equal; lia|]. rewrite !take_ge by lia. done. }
    assert ((sent_ s ++ take (n `min` size b) (span b)) ++ span b' = out) as Eo
      by by rewrite S', <- app_assoc, take_drop.
    eexists. split.
    { intros fuel. rewrite (step_handler fuel s (Writable None (IoOk n)) h_write p eq_refl Ep). simpl. rewrite Eb. simpl.
      rewrite E'. simpl. reflexivity. }
    destruct (empty b') eqn:Ee.
    + apply empty_span in Ee; [|done]. split; [|split; [|done]].
      * split; [done|]. exists b'. simpl. split_and!; try done; naive_solver.
      * unfold same_reading. simpl. split_and!; try done; by apply Hiff.
    + assert (span b' ≠ []) as Hne by (intros E; apply empty_span in E; [congruence|done]).
      split; [|split; [|done]].
      * split; [by apply NoDup_wait|]. exists b'. simpl. split_and!; try done.
        rewrite elem_of_app, list_elem_of_singleton. naive_solver.
      * unfold same_reading. simpl. rewrite elem_of_app, list_elem_of_singleton. split_and!; try done; naive_solver.
  - exists s. split; [intros fuel; unfold step; simpl; by rewrite remove_handler_out|]. split_and!; try done.
    + split; [done|]. eauto 10.
    + destruct (span b) eqn:Eb'; [|naive_solver]. rewrite app_nil_r in Es. subst out. rewrite take_ge by lia. done.
Qed.

Lemma write_steps out ns : ∀ s,
  sending out s →
  ∃ s', (∀ fuel, run via fuel s (map (λ n, Writable None (IoOk n)) ns) = Done s') ∧ sending out s' ∧ same_reading s s' ∧
    sent_ s' = take (length (sent_ s) + sum_list ns) out.
Proof.
  induction ns as [|n ns IH]; intros s Hs.
  - exists s. simpl. split_and!; try done. destruct Hs as (_ & b & _ & _ & <- & _).
    by rewrite Nat.add_0_r, take_app_length.
  - destruct (write_step out s n Hs) as (s1 & E1 & Hs1 & R1 & T1).
    destruct (IH s1 Hs1) as (s2 & E2 & Hs2 & R2 & T2). exists s2.
    split; [intros fuel; cbn [map run]; rewrite E1; apply E2|]. split_and!; try done; [by eapply same_reading_trans|].
    rewrite T2, T1, length_take. simpl. destruct (decide (length (sent_ s) + n <= length out)); [f_equal; lia|].
    rewrite !take_ge by lia. done.
Qed.

(** *** Reading *)

(** A read appends to what was received. *)
Lemma read_append s b bs :
  recv_buf_ s = Some b → wf b → (Z.of_nat (length bs) <= read_size via)%Z →
  ∃ b', wf b' ∧ span b' = span b ++ bs ∧
    ∀ fuel, OnSSLReadable via fuel None (IoOk bs) s =
      match read_state_ s with
      | Read_Header => OnReadHeader via fuel (set_recv s b')
      | Read_Body => OnReadBody via fuel (set_recv s b')
      end.
Proof.
  intros Eb Wb Hl. destruct (appendBytesAtEnd_spec b bs Wb) as (b' & E & W' & S' & _).
  exists b'. split; [done|]. split; [done|]. intros fuel. unfold OnSSLReadable. rewrite take_ge by lia. rewrite Eb. simpl.
  unfold appendBytesAtEnd in E. destruct (SetCapacity b _) as [b1|]; [|done]. simpl in *. by rewrite E.
Qed.

(** The head of a response: the length of DNS over TLS, or an HTTP header. *)
Definition head_of (first head : list byte) (n : nat) : Prop :=
  match via with
  | DoT => head = be16_bytes (Z.of_nat n) ∧ (Z.of_nat n < 65536)%Z
  | DoH _ _ _ =>
      http_response_parse first
      = mkHttpResponse (length head) true 200 (str "application/dns-message") (Z.of_nat n) ∧ 0 < n ∧ (Z.of_nat n < 65535)%Z
  end.

Lemma head_of_range first head n : head_of first head n → (Z.of_nat n < 65536)%Z.
Proof. unfold head_of. destruct via; intros; destruct_and!; lia. Qed.

Lemma OnReadHeader_head s b head got n :
  recv_buf_ s = Some b → wf b → span b = head ++ got → head_of (span b) head n →
  ∃ b', wf b' ∧ span b' = got ∧
    ∀ fuel, OnReadHeader via fuel s = OnReadBody via fuel (set_body (set_recv s b') (Z.of_nat n)).
Proof.
  intros Eb Wb Sb Hh. destruct (advance_past b head got (length head) Wb Sb eq_refl) as (b' & E' & W' & S').
  exists b'. split; [done|]. split; [done|]. intros fuel. unfold OnReadHeader, head_of in *. destruct via.
  - destruct Hh as [-> Hn]. unfold OnReadHeader_dot. rewrite Eb. simpl.
    destruct (data_msg b _ _ Wb Sb) as (tl & D & Hs & _). simpl in Hs.
    rewrite decide_False by (unfold RemainingCapacity, size in *; lia).
    rewrite (get16bit_slice (data b) 0 2 [] (Z.of_nat n) [] 0); [|rewrite D; by apply rd_slice_prefix|lia|done].
    simpl. change (Z.of_nat (length (be16_bytes (Z.of_nat n)))) with 2%Z in E'. by rewrite E'.
  - destruct Hh as (P & H1 & H2). unfold OnReadHeader_doh. rewrite Eb. simpl. rewrite P. simpl. rewrite E'. simpl.
    rewrite (proj2 (Z.eqb_neq (Z.of_nat n) 0)), (proj2 (Z.leb_gt 65535 (Z.of_nat n))) by lia. done.
Qed.

Lemma OnReadBody_more s b fuel :
  recv_buf_ s = Some b → wf b → (Z.of_nat (length (span b)) < body_length_ s)%Z →
  OnReadBody via fuel s = Done (wait s h_read).
Proof.
  intros Eb Wb Hl. unfold OnReadBody. rewrite Eb. simpl. rewrite length_span in Hl by done.
  unfold RemainingCapacity, size in *. by rewrite (proj2 (Z.ltb_lt _ _)) by lia.
Qed.

(** What is delivered for a response. *)
Definition answer_of (s : request) (r : response) : option error * list addrinfo :=
  (None, addrinfo_dup (bool_decide (dns_type_ s = DNS_TYPE_AAAA)) r (port_ s)).

Lemma OnReadBody_all s b r k :
  recv_buf_ s = Some b → wf b → body_length_ s = Z.of_nat (length (span b)) → (body_length_ s < 65536)%Z →
  cb_ s = true → message (span b) (length (span b)) r k →
  ∃ N, ∀ fuel, N <= fuel → ∃ s', OnReadBody via fuel s = Done s' ∧
    calls_ s' = calls_ s ++ [answer_of s r] ∧ sent_ s' = sent_ s.
Proof.
  intros Eb Wb Hb Hl Hcb M. destruct (data_span b Wb) as [slack D].
  destruct (parse_complete (data b) (length (span b)) r k) as [N HN];
    [lia|rewrite D; by apply message_mono|]. exists N. intros fuel Hf.
  assert (response_end via b (body_length_ s) = length (span b)) as Ee
    by (unfold response_end, RemainingCapacity; rewrite Hb, length_span by done; destruct via; unfold size; lia).
  unfold OnReadBody, OnParseDnsResponse. rewrite Eb. simpl. rewrite Ee, HN by done. simpl.
  rewrite Hb, length_span by done. unfold RemainingCapacity, size. rewrite Z.ltb_irrefl.
  destruct via.
  - eexists. split; [done|]. unfold OnDoneRequest. by rewrite Hcb.
  - destruct (set_offset_advance b (size b)) as (b' & E' & _); [done|lia|]. unfold size in E'. rewrite E'. simpl.
    eexists. split; [done|]. unfold OnDoneRequest. simpl. by rewrite Hcb.
Qed.

(** The body comes in pieces. *)
Lemma read_body_steps body r k segs : ∀ s b,
  NoDup (pending_ s) → h_read ∈ pending_ s → cb_ s = true → read_state_ s = Read_Body →
  recv_buf_ s = Some b → wf b → body_length_ s = Z.of_nat (length body) → (Z.of_nat (length body) < 65536)%Z →
  segs ≠ [] → Forall (λ seg, seg ≠ []) segs → span b ++ concat segs = body → message body (length body) r k →
  ∃ N, ∀ fuel, N <= fuel → ∃ s', run via fuel s (map (λ bs, Readable None (IoOk bs)) segs) = Done s' ∧
    calls_ s' = calls_ s ++ [answer_of s r] ∧ sent_ s' = sent_ s.
Proof.
  induction segs as [|seg segs IH]; intros s b ND Hin Hcb Hst Eb Wb Hbl Hl Hne F Ec M; [done|].
  apply Forall_cons_1 in F as [Hseg F]. simpl in Ec.
  destruct (remove_handler_in _ _ ND Hin) as (p & Ep & NDp & Hp & _).
  assert (length body = length (span b) + length seg + length (concat segs)) as Hlen
    by (rewrite <- Ec, !length_app; lia).
  destruct (read_append (set_pending s p) b seg) as (b1 & W1 & S1 & E1); [done|done|destruct via; simpl; lia|].
  assert (∀ fuel, step via fuel s (Readable None (IoOk seg)) = OnReadBody via fuel (set_recv (set_pending s p) b1)) as E2.
  { intros fuel. rewrite (step_handler fuel s (Readable None (IoOk seg)) h_read p eq_refl Ep).
    cbn [run_handler]. rewrite E1. cbn [read_state_ set_pending]. by rewrite Hst. }
  assert (length (span b1) = length (span b) + length seg) as L1 by (rewrite S1, length_app; lia).
  destruct segs as [|seg' segs].
  - assert (span b1 = body) as Sb by (rewrite S1, <- Ec; simpl; by rewrite app_nil_r).
    destruct (OnReadBody_all (set_recv (set_pending s p) b1) b1 r k) as [N HN];
      [done|done|simpl; congruence|simpl; lia|done|by rewrite Sb|].
    exists N. intros fuel Hf. destruct (HN fuel Hf) as (s' & E & ? & ?). exists s'. simpl. rewrite E2, E. done.
  - assert (0 < length seg') by (apply Forall_cons_1 in F as [? _]; destruct seg'; [done|simpl; lia]).
    assert (length (concat (seg' :: segs)) >= length seg') by (simpl; rewrite length_app; lia).
    set (s1 := wait (set_recv (set_pending s p) b1) h_read).
    assert (∀ fuel, step via fuel s (Readable None (IoOk seg)) = Done s1) as E3.
    { intros fuel. rewrite E2. apply (OnReadBody_more _ b1); [done|done|simpl; lia]. }
    destruct (IH s1 b1) as [N HN]; try done.
    + simpl. by apply NoDup_wait.
    + simpl. apply elem_of_app. right. by apply list_elem_of_singleton.
    + by rewrite S1, <- app_assoc.
    + exists N. intros fuel Hf. destruct (HN fuel Hf) as (s' & E & ? & ?). exists s'.
      cbn [map]. by rewrite (run_cons_event _ _ _ _ _ (E3 fuel)).
Qed.

(** The first piece completes the head. *)
Lemma read_steps head got body r k segs s :
  NoDup (pending_ s) → h_read ∈ pending_ s → cb_ s = true → read_state_ s = Read_Header →
  recv_buf_ s = Some make → head_of (head ++ got) head (length body) →
  (Z.of_nat (length (head ++ got)) <= read_size via)%Z →
  Forall (λ seg, seg ≠ []) segs → got ++ concat segs = body → message body (length body) r k →
  ∃ N, ∀ fuel, N <= fuel →
    ∃ s', run via fuel s (map (λ bs, Readable None (IoOk bs)) ((head ++ got) :: segs)) = Done s' ∧
      calls_ s' = calls_ s ++ [answer_of s r] ∧ sent_ s' = sent_ s.
Proof.
  intros ND Hin Hcb Hst Eb Hh Hl F Ec M. pose proof (head_of_range _ _ _ Hh) as Hr.
  destruct (remove_handler_in _ _ ND Hin) as (p & Ep & NDp & Hp & _).
  destruct (read_append (set_pending s p) make (head ++ got)) as (b1 & W1 & S1 & E1); [done|apply wf_make|done|].
  simpl in S1. destruct (OnReadHeader_head (set_recv (set_pending s p) b1) b1 head got (length body)) as (b2 & W2 & S2 & E2);
    [done|done|done|by rewrite S1|].
  set (s1 := set_body (set_recv (set_recv (set_pending s p) b1) b2) (Z.of_nat (length body))).
  assert (∀ fuel, step via fuel s (Readable None (IoOk (head ++ got))) = OnReadBody via fuel s1) as E3.
  { intros fuel. rewrite (step_handler fuel s (Readable None (IoOk (head ++ got))) h_read p eq_refl Ep).
    cbn [run_handler]. rewrite E1. cbn [read_state_ set_pending]. rewrite Hst. apply E2. }
  destruct segs as [|seg segs].
  - assert (got = body) as -> by (by rewrite <- Ec, app_nil_r).
    destruct (OnReadBody_all s1 b2 r k) as [N HN]; [done|done|simpl; congruence|simpl; lia|done|by rewrite S2|].
    exists N. intros fuel Hf. destruct (HN fuel Hf) as (s' & E & ? & ?). exists s'. simpl. rewrite E3, E. done.
  - assert (length got < length body) as Hlt.
    { apply Forall_cons_1 in F as [? _]. rewrite <- Ec. simpl. rewrite !length_app. destruct seg; [done|simpl; lia]. }
    assert (∀ fuel, step via fuel s (Readable None (IoOk (head ++ got))) = Done (wait s1 h_read)) as E4.
    { intros fuel. rewrite E3. apply (OnReadBody_more _ b2); [done|done|]. simpl. rewrite S2. lia. }
    destruct (read_body_steps body r k (seg :: segs) (wait s1 h_read) b2) as [N HN]; try done.
    + simpl. by apply NoDup_wait.
    + simpl. apply elem_of_app. right. by apply list_elem_of_singleton.
    + by rewrite S2.
    + exists N. intros fuel Hf. destruct (HN fuel Hf) as (s' & E & ? & ?). exists s'.
      cbn [map]. by rewrite (run_cons_event _ _ _ _ _ (E4 fuel)).
Qed.

(** *** The whole request *)

(** What is sent for a query. *)
Definition request_text (q : Dns.request) : list byte := request_prefix via (length (buffers q)) ++ buffers q.

Lemma DoRequest_sends ls host t port :
  ls ≠ [] → Forall host_label ls → host_of ls host → x00 ∉ host → length (qname ls) <= 256 → is_localhost host = false →
  ∃ s, DoRequest via t host port None request_make = Done s ∧ pending_ s = [h_connect] ∧ cb_ s = true ∧
    dns_type_ s = t ∧ port_ s = port ∧ read_state_ s = Read_Header ∧ calls_ s = [] ∧ sent_ s = [] ∧
    ∃ b, send_buf_ s = Some b ∧ wf b ∧ span b = request_text (query ls t).
Proof.
  intros Hne F Hh Hz Hq Hloc. unfold DoRequest. rewrite Hloc, (init_good ls host t) by done. cbn [mbind outcome_bind negb].
  destruct (append_all_spec [request_prefix via (length (buffers (query ls t))); header_ (query ls t); body_ (query ls t)] make)
    as (b & -> & Wb & Sb); [apply wf_make|].
  eexists. split; [done|]. split_and!; try done. exists b. split_and!; try done.
  rewrite Sb. unfold request_text, buffers. cbn [concat]. by rewrite app_nil_r.
Qed.

Lemma connect_steps s b out :
  pending_ s = [h_connect] → cb_ s = true → calls_ s = [] → sent_ s = [] → send_buf_ s = Some b → wf b → span b = out → out ≠ [] →
  ∃ s', (∀ fuel, run via fuel s [Connected None; SSLConnected true] = Done s') ∧ sending out s' ∧ h_read ∈ pending_ s' ∧
    cb_ s' = true ∧ dns_type_ s' = dns_type_ s ∧ port_ s' = port_ s ∧ read_state_ s' = read_state_ s ∧
    recv_buf_ s' = Some make ∧ calls_ s' = [] ∧ sent_ s' = [].
Proof.
  intros Hp Hcb Hc Hs Eb Wb Sb Hne. eexists. split.
  { intros fuel. unfold run, step. cbn [handler_of]. rewrite Hp. simpl.
    unfold OnSSLConnect. simpl. rewrite Hcb. simpl. reflexivity. }
  split; [|split_and!; try done; simpl; by repeat constructor].
  split; [by apply (bool_decide_unpack _)|]. exists b. simpl. rewrite Hs. split_and!; try done.
  rewrite Sb. split; [done|]. intros _. by repeat constructor.
Qed.

(** C36: a request for a name that is not local sends the query behind its head, and when the response comes, in
    whatever pieces of which the first completes the head, the callback is called once, with the addresses that the
    response states for the type asked for.  The head is the length for DNS over TLS and an HTTP header for DNS over
    HTTPS. *)
Theorem request_answered ls host t port ns head got segs body r k :
  ls ≠ [] → Forall host_label ls → host_of ls host → x00 ∉ host → length (qname ls) <= 256 → is_localhost host = false →
  head_of (head ++ got) head (length body) → (Z.of_nat (length (head ++ got)) <= read_size via)%Z →
  Forall (λ seg, seg ≠ []) segs → got ++ concat segs = body → message body (length body) r k →
  ∃ s0 N, DoRequest via t host port None request_make = Done s0 ∧
    ∀ fuel, N <= fuel →
      ∃ s, run via fuel s0
             ([Connected None; SSLConnected true] ++ map (λ n, Writable None (IoOk n)) ns ++
              map (λ bs, Readable None (IoOk bs)) ((head ++ got) :: segs)) = Done s ∧
        sent_ s = take (sum_list ns) (request_text (query ls t)) ∧
        calls_ s = [(None, addrinfo_dup (bool_decide (t = DNS_TYPE_AAAA)) r port)].
Proof.
  intros Hne F Hh Hz Hq Hloc Hd Hl Fs Ec M.
  destruct (DoRequest_sends ls host t port Hne F Hh Hz Hq Hloc) as (s0 & E0 & P0 & B0 & T0 & R0 & D0 & C0 & S0 & b & Eb & Wb & Sb).
  destruct (connect_steps s0 b (request_text (query ls t))) as (s1 & E1 & W1 & I1 & B1 & T1 & R1 & D1 & V1 & C1 & S1); try done.
  { intros E. apply (f_equal length) in E. unfold request_text, buffers, query in E. rewrite !length_app in E. simpl in E. lia. }
  destruct (write_steps (request_text (query ls t)) ns s1 W1) as (s2 & E2 & (ND & _) & (B2 & T2 & R2 & V2 & D2 & _ & C2 & I2) & S2).
  destruct (read_steps head got body r k segs s2) as [N HN]; try done; [by apply I2|congruence..|].
  exists s0, N. split; [done|]. intros fuel Hf. destruct (HN fuel Hf) as (s & E & Ca & Sa). exists s.
  rewrite (run_app fuel s0 _ _ s1), (run_app fuel s1 _ _ s2) by done. split; [done|].
  rewrite Sa, S2, S1, Ca, C2, C1. unfold answer_of. by rewrite T2, R2, T1, R1, T0, R0.
Qed.

(** *** One call at most *)

(** A handler either leaves the callback and its calls alone, or calls it and forgets it; [close] forgets it. *)
Inductive called (s s' : request) : Prop :=
  | called_not : calls_ s' = calls_ s → (cb_ s' = true → cb_ s = true ∧ closed_ s' = closed_ s) → called s s'
  | called_once x : cb_ s = true → cb_ s' = false → calls_ s' = calls_ s ++ [x] → closed_ s' = closed_ s → called s s'.

Lemma called_done s s' ec ai :
  cb_ s' = cb_ s → calls_ s' = calls_ s → closed_ s' = closed_ s → called s (OnDoneRequest s' ec ai).
Proof.
  intros E1 E2 E3. unfold OnDoneRequest. destruct (cb_ s') eqn:E.
  - eapply called_once; simpl; [congruence|done|by rewrite E2|done].
  - apply called_not; [congruence|intros; split; congruence].
Qed.

Lemma called_refl s s' : cb_ s' = cb_ s → calls_ s' = calls_ s → closed_ s' = closed_ s → called s s'.
Proof. intros E1 E2 E3. apply called_not; [done|intros; split; congruence]. Qed.

#[local] Hint Resolve called_done called_refl : core.

Lemma called_OnReadBody v fuel s s' s0 :
  OnReadBody v fuel s' = Done s0 → cb_ s' = cb_ s → calls_ s' = calls_ s → closed_ s' = closed_ s → called s s0.
Proof.
  unfold OnReadBody, OnParseDnsResponse. intros E E1 E2 E3. run_inv; auto.
  destruct x2; run_inv; auto.
Qed.

Lemma called_run_handler fuel ev s s' : run_handler via fuel ev s = Done s' → called s s'.
Proof.
  destruct ev as [|ec|ok|ok|ec w|ec r|]; cbn [run_handler].
  - intros [= <-]. unfold OnPosted. auto.
  - intros [= <-]. unfold OnConnected. destruct ec as [[]|]; auto.
  - intros [= <-]. unfold OnSSLConnected, OnSSLConnect. destruct ok; [destruct (negb _)|]; auto.
  - intros [= <-]. unfold OnConfirmed. destruct ok; auto.
  - unfold OnSSLWritable. destruct ec; intros; run_inv; auto. destruct w; run_inv; auto. destruct (empty _); auto.
  - unfold OnSSLReadable, OnReadHeader. destruct ec; intros; run_inv; auto. destruct r as [bs|[]]; run_inv; auto.
    all: try (by eapply called_OnReadBody).
    all: destruct via; try discriminate; unfold OnReadHeader_dot, OnReadHeader_doh in *; cbv zeta in *; run_inv; auto.
    all: by eapply called_OnReadBody.
  - intros [= <-]. unfold close. destruct (closed_ s) eqn:?; [auto|]. by apply called_not.
Qed.

(** A request before its callback is called, and after. *)
Definition tidy (s : request) : Prop :=
  length (calls_ s) <= 1 ∧ (cb_ s = true → calls_ s = []) ∧ (closed_ s = true → cb_ s = false).

Lemma called_tidy s s' : called s s' → tidy s → tidy s'.
Proof.
  unfold tidy. intros [E C|x C C' E Cl] (H1 & H2 & H3).
  - split_and!; [by rewrite E|intros B; destruct (C B); rewrite E; auto|].
    intros B. destruct (cb_ s') eqn:E'; [|done]. destruct (C eq_refl) as [Cs Cc]. rewrite Cc in B. apply H3 in B. congruence.
  - split_and!; [rewrite E, H2 by done; simpl; lia|congruence|done].
Qed.

Lemma called_step fuel s ev s' : step via fuel s ev = Done s' → called s s'.
Proof.
  unfold step. destruct (handler_of ev) as [h|]; [|apply called_run_handler].
  destruct (remove_handler h (pending_ s)) as [p|]; [|intros [= <-]; by apply called_refl].
  intros E%called_run_handler. destruct E as [E C|x C C' E Cl]; [by apply called_not|by apply (called_once s s' x)].
Qed.

Lemma run_tidy fuel evs : ∀ s s',
  run via fuel s evs = Done s' → tidy s →
  tidy s' ∧ (cb_ s = false → cb_ s' = false ∧ calls_ s' = calls_ s).
Proof.
  induction evs as [|ev evs IH]; intros s s'; simpl; intros E T; run_inv; [done|].
  apply called_step in E0. pose proof (called_tidy _ _ E0 T) as T1. destruct (IH _ _ E T1) as [T2 C2]. split; [done|].
  intros Hcb. destruct E0 as [Ec C|]; [|congruence].
  assert (cb_ x = false) as B by (destruct (cb_ x); [by destruct (C eq_refl); congruence|done]).
  destruct (C2 B) as [? ->]. done.
Qed.

Lemma DoRequest_tidy t host port open_ec s : DoRequest via t host port open_ec request_make = Done s → tidy s.
Proof.
  unfold DoRequest. destruct open_ec; intros E; run_inv; unfold OnDoneRequest, tidy; simpl; split_and!; done || lia.
Qed.

(** Whatever the sockets do and in whatever order, the callback of a request is called at most once, and
    never after the request was closed. *)
Theorem request_called_once fuel t host port open_ec s0 evs1 evs2 s :
  DoRequest via t host port open_ec request_make = Done s0 →
  (run via fuel s0 evs1 = Done s → length (calls_ s) <= 1) ∧
  (run via fuel s0 (evs1 ++ Closed :: evs2) = Done s →
   ∃ s1, run via fuel s0 evs1 = Done s1 ∧ calls_ s = calls_ s1).
Proof.
  intros T%DoRequest_tidy. split.
  - intros E. apply run_tidy in E as [[? _] _]; done.
  - intros (s1 & E1 & E)%run_split. simpl in E.
    exists s1. split; [done|]. destruct (run_tidy _ _ _ _ E1 T) as [T1 _].
    assert (tidy (close s1) ∧ cb_ (close s1) = false ∧ calls_ (close s1) = calls_ s1) as (T2 & B2 & C2).
    { split; [by eapply called_tidy; [apply (called_run_handler fuel Closed)|]|].
      unfold close. destruct (closed_ s1) eqn:Ec; [|done]. split; [by apply T1|done]. }
    destruct (run_tidy _ _ _ _ E T2) as [_ C]. destruct (C B2) as [_ ->]. done.
Qed.

End Answer.

(** When the first read of DNS over TLS brings one byte, half of the length, the request fails, whatever the
    server goes on to send. *)
Theorem dot_first_byte_alone `{Allocator} `{HttpResponseLib} ls host t port ns b segs :
  ls ≠ [] → Forall host_label ls → host_of ls host → x00 ∉ host → length (qname ls) <= 256 → is_localhost host = false →
  ∃ s0, DoRequest DoT t host port None request_make = Done s0 ∧
    ∀ fuel, ∃ s,
      run DoT fuel s0
        ([Connected None; SSLConnected true] ++ map (λ n, Writable None (IoOk n)) ns ++
         [Readable None (IoOk [b])] ++ map (λ bs, Readable None (IoOk bs)) segs) = Done s ∧
      calls_ s = [(Some operation_not_supported, [])].
Proof.
  intros Hne F Hh Hz Hq Hloc.
  destruct (DoRequest_sends DoT ls host t port Hne F Hh Hz Hq Hloc) as (s0 & E0 & P0 & B0 & T0 & R0 & D0 & C0 & S0 & b0 & Eb & Wb & Sb).
  destruct (connect_steps DoT s0 b0 (request_text DoT (query ls t))) as (s1 & E1 & W1 & I1 & B1 & T1 & R1 & D1 & V1 & C1 & S1); try done.
  destruct (write_steps DoT (request_text DoT (query ls t)) ns s1 W1) as (s2 & E2 & (ND & _) & (B2 & T2 & R2 & V2 & D2 & _ & C2 & I2) & S2).
  destruct (remove_handler_in h_read _ ND) as (p & Ep & NDp & Hp & _); [by apply I2|].
  destruct (read_append DoT (set_pending s2 p) make [b]) as (b1 & W3 & S3 & E3); [simpl; congruence|apply wf_make|done|].
  exists s0. split; [done|]. intros fuel.
  set (s3 := OnDoneRequest (set_recv (set_pending s2 p) b1) (Some operation_not_supported) []).
  assert (step DoT fuel s2 (Readable None (IoOk [b])) = Done s3) as E4.
  { rewrite (step_handler DoT fuel s2 (Readable None (IoOk [b])) h_read p eq_refl Ep). cbn [run_handler]. rewrite E3.
    cbn [read_state_ set_pending]. rewrite D2, D1, D0. simpl. unfold OnReadHeader_dot. simpl.
    rewrite decide_True; [done|]. apply (f_equal length) in S3. rewrite length_span in S3 by done. simpl in S3.
    unfold size, RemainingCapacity in *. lia. }
  assert (h_read ∉ pending_ s3) as Hn by (unfold s3, OnDoneRequest; simpl; by rewrite B2, B1).
  exists s3. rewrite (run_app DoT fuel s0 _ _ s1), (run_app DoT fuel s1 _ _ s2) by done. cbn [app].
  rewrite (run_cons_event _ _ _ _ _ _ E4). split.
  - induction segs as [|seg segs IH]; [done|]. cbn [map].
    rewrite (run_cons_event _ _ _ _ _ s3); [done|]. unfold step. simpl. by rewrite remove_handler_out.
  - unfold s3, OnDoneRequest. simpl. rewrite B2, B1. simpl. by rewrite C2, C1.
Qed.

(** ** The resolver *)

(** Between two resolutions. *)
Definition idle (r : resolver) : Prop :=
  done_ r = true ∧ rcb_ r = false ∧ resolving_ r = false ∧ reqs_ r = [] ∧ addrinfo_ r = [].

(** A resolution that started with the answers [l0]: it is over, it has open requests, or it was cancelled. *)
Inductive under_way (l0 : list (option error * list endpoint)) (cancelled : Prop) (r : resolver) : Prop :=
  | way_over : idle r → (∃ x, answers_ r = l0 ++ [x]) ∨ (cancelled ∧ answers_ r = l0) → under_way l0 cancelled r
  | way_open :
      done_ r = false → resolving_ r = false → rcb_ r = true → answers_ r = l0 →
      reqs_ r ∈ [[query_a]; [query_aaaa]; [query_a; query_aaaa]] → under_way l0 cancelled r
  | way_cancelled :
      cancelled → done_ r = false → resolving_ r = false → rcb_ r = false → reqs_ r = [] → addrinfo_ r = [] →
      answers_ r = l0 → under_way l0 cancelled r.

Lemma way_mono l0 (c c' : Prop) r : (c → c') → under_way l0 c r → under_way l0 c' r.
Proof.
  intros Hc [I [X|[C E]]|?|C ? ? ? ? ? ?]; [apply way_over; auto|apply way_over; auto|by apply way_open|by apply way_cancelled; auto].
Qed.

(** [OnDoRequestDone] on a resolution with its callback. *)
Lemma way_done l0 c r ec :
  done_ r = false → resolving_ r = false → rcb_ r = true → answers_ r = l0 →
  reqs_ r ∈ [[]; [query_a]; [query_aaaa]] → under_way l0 c (OnDoRequestDone ec r).
Proof.
  intros D Rs B A Q. unfold OnDoRequestDone. destruct ec as [ec|].
  - simpl. rewrite D. apply way_over; [by split_and!|]. left. simpl. rewrite B, A. by eexists.
  - destruct (reqs_ r) as [|q qs] eqn:E.
    + rewrite D. apply way_over; [by split_and!|]. left. simpl. rewrite B, A. by eexists.
    + apply way_open; try done. rewrite E. set_solver.
Qed.

Lemma way_step l0 c r ev : under_way l0 c r → under_way l0 (c ∨ ev = Cancelled) (rstep r ev).
Proof.
  intros W. assert (resolving_ r = false) as Rs by (destruct W as [(? & ? & ? & _)|?|?]; done).
  destruct ev as [res v6 na nq|q ec ai| |]; simpl.
  - rewrite Rs. simpl. eapply way_mono; [|done]. by left.
  - case_decide as Hq; [|eapply way_mono; [|done]; by left].
    destruct W as [(? & ? & ? & E & ?) ?|D R B A Q|? ? ? ? E ? ?]; [by rewrite E in Hq; apply elem_of_nil in Hq| |by rewrite E in Hq; apply elem_of_nil in Hq].
    repeat (apply elem_of_cons in Q as [E|Q]); [..|by apply elem_of_nil in Q]; rewrite E in Hq;
      destruct q; try (exfalso; by apply (bool_decide_pack _) in Hq); apply way_done; try done; simpl; rewrite E;
      by apply (bool_decide_unpack _).
  - destruct (done_ r) eqn:D; [eapply way_mono; [|done]; by left|].
    destruct W as [(? & _) ?|? R B A Q|C ? R B E Ai A]; [congruence| |].
    + unfold OnDoRequestDone. simpl. rewrite D. apply way_over; [by split_and!|]. left. simpl. rewrite B, A. by eexists.
    + unfold OnDoRequestDone. simpl. rewrite D. apply way_over; [by split_and!|]. right. simpl. rewrite B, A, app_nil_r. auto.
  - unfold Cancel. destruct (init_ r); simpl; [|eapply way_mono; [|done]; by left].
    destruct W as [(D & B & R & Q & Ai) X|D R B A Q|C D R B Q Ai A].
    + apply way_over; [by split_and!|]. destruct X as [X|[? ?]]; auto.
    + apply way_cancelled; auto.
    + apply way_cancelled; auto.
Qed.

Lemma way_run l0 evs : ∀ c r, under_way l0 c r → under_way l0 (c ∨ Cancelled ∈ evs) (rrun r evs).
Proof.
  induction evs as [|ev evs IH]; intros c r W; simpl.
  - eapply way_mono; [|done]. by left.
  - eapply way_mono; [|exact (IH _ _ (way_step _ _ _ ev W))]. rewrite elem_of_cons. naive_solver.
Qed.

(** The requests of a resolution: either both names of a request fail at once or none of it does before the other is made. *)
Definition starts (enable_ipv6 : bool) (now_a now_aaaa : option error) : Prop :=
  now_a = None ∨ enable_ipv6 = false ∨ now_aaaa ≠ None.

Lemma way_start ip enable_ipv6 now_a now_aaaa r :
  idle r → endpoints_ r ≠ [] ∨ ip ≠ None → starts enable_ipv6 now_a now_aaaa →
  under_way (answers_ r) False (AsyncResolve ip enable_ipv6 now_a now_aaaa r).
Proof.
  intros (D & B & R & Q & Ai) Hep Hst.
  assert (∃ eps, AsyncResolve ip enable_ipv6 now_a now_aaaa r
    = DoRequests enable_ipv6 now_a now_aaaa (mkResolver (init_ r) false true false eps [] [] (answers_ r))) as [eps ->].
  { unfold AsyncResolve. rewrite R, Q, Ai. destruct (endpoints_ r); [destruct ip; [by eexists|naive_solver]|by eexists]. }
  unfold DoRequests. destruct now_a as [ea|], enable_ipv6, now_aaaa as [eq|]; simpl;
    unfold OnDoRequestDoneA, OnDoRequestDoneAAAA, OnDoRequestDone; simpl;
    try (destruct Hst as [?|[?|?]]; done);
    first [apply way_over; [by split_and!|left; by eexists] | apply way_open; try done; by apply (bool_decide_unpack _)].
Qed.

(** C37: a resolver whose server's address is known, because it is configured as an address or has been resolved
    before.  Of one resolution there is at most one answer, whatever the requests answer, whether the timer runs out and
    whenever it is cancelled; without being cancelled there is exactly one when no request is open, and then the
    resolver holds nothing of it any more.  A server's name that is still to be resolved is left out: its late answer
    may leave addresses behind ([resolver_late_answer]). *)
Theorem resolver_answers_once ip enable_ipv6 now_a now_aaaa r0 evs :
  idle r0 → endpoints_ r0 ≠ [] ∨ ip ≠ None → starts enable_ipv6 now_a now_aaaa →
  let r := rrun (AsyncResolve ip enable_ipv6 now_a now_aaaa r0) evs in
  ∃ l, answers_ r = answers_ r0 ++ l ∧ length l <= 1 ∧ (done_ r = true → idle r) ∧
    (Cancelled ∉ evs → reqs_ r = [] → length l = 1 ∧ idle r).
Proof.
  intros I Hep Hst r. pose proof (way_run _ evs _ _ (way_start ip enable_ipv6 now_a now_aaaa r0 I Hep Hst)) as W.
  fold r in W. destruct W as [Id [[x E]|[C E]]|D R B A Q|C D R B Q Ai A].
  - exists [x]. done.
  - exists []. rewrite app_nil_r. split_and!; try done; [simpl; lia|naive_solver].
  - exists []. rewrite app_nil_r. split_and!; [done|simpl; lia|congruence|]. intros _ E. rewrite E in Q.
    exfalso. by apply (bool_decide_pack _) in Q.
  - exists []. rewrite app_nil_r. split_and!; [done|simpl; lia|congruence|naive_solver].
Qed.

(** The endpoints of the addresses of a response. *)
Lemma endpoint_of_dup f c addrs port :
  map endpoint_of (dup_loop f c addrs port)
  = map (λ a, mkEndpoint (match f with AF_INET => address_v4 a | AF_INET6 => address_v6 a end) (in_port port)) addrs.
Proof. revert c. induction addrs as [|a addrs IH]; intros c; [done|]. simpl. by rewrite IH. Qed.

Lemma done_answer r eps :
  reqs_ r = [] → done_ r = false → rcb_ r = true → map endpoint_of (addrinfo_ r) = eps →
  answers_ (OnDoRequestDone None r) = answers_ r ++ [(if decide (eps = []) then Some host_not_found else None, eps)].
Proof. intros Q D B E. unfold OnDoRequestDone. rewrite Q, D, E. simpl. rewrite B. by destruct eps. Qed.

Definition found (ra rq : response) (port : Z) : list endpoint :=
  map (λ a, mkEndpoint (address_v4 a) (in_port port)) (a_ ra) ++
  map (λ a, mkEndpoint (address_v6 a) (in_port port)) (aaaa_ rq).

(** With the answers of both requests, in either order, the resolution yields the IPv4 addresses of the one
    response and then the IPv6 addresses of the other, or host_not_found when there are none. *)
Theorem resolver_result ip r0 ra rq port :
  idle r0 → endpoints_ r0 ≠ [] ∨ ip ≠ None →
  let evs := [RequestDone query_a None (addrinfo_dup false ra port); RequestDone query_aaaa None (addrinfo_dup true rq port)] in
  ∀ evs', evs' ≡ₚ evs →
    answers_ (rrun (AsyncResolve ip true None None r0) evs')
    = answers_ r0 ++ [(if decide (found ra rq port = []) then Some host_not_found else None, found ra rq port)].
Proof.
  intros (D & B & R & Q & Ai) Hep evs evs' P.
  assert (∃ eps, AsyncResolve ip true None None r0
    = mkResolver (init_ r0) false true false eps [query_a; query_aaaa] [] (answers_ r0)) as [eps ->].
  { unfold AsyncResolve, DoRequests. rewrite R, Q, Ai. destruct (endpoints_ r0); [destruct ip; [by eexists|naive_solver]|by eexists]. }
  assert (map endpoint_of (addrinfo_dup false ra port ++ addrinfo_dup true rq port) = found ra rq port) as F
    by (unfold found, addrinfo_dup; by rewrite map_app, !endpoint_of_dup).
  assert (evs' = evs ∨ evs' = reverse evs) as [-> | ->].
  { apply Permutation_length_2_inv. symmetry. exact P. }
  - unfold evs, rrun. cbn [foldl rstep reqs_]. rewrite decide_True by (by apply (bool_decide_unpack _)).
    change (reqs_ (OnDoRequestDoneA None _ _)) with [query_aaaa]. rewrite decide_True by (by apply (bool_decide_unpack _)).
    unfold OnDoRequestDoneAAAA. rewrite (done_answer _ (found ra rq port)); try done. simpl. by rewrite app_nil_r.
  - unfold evs, rrun. cbn [reverse rev_append foldl rstep reqs_]. rewrite decide_True by (by apply (bool_decide_unpack _)).
    change (reqs_ (OnDoRequestDoneAAAA None _ _)) with [query_a]. rewrite decide_True by (by apply (bool_decide_unpack _)).
    unfold OnDoRequestDoneA. by rewrite (done_answer _ (found ra rq port)).
Qed.

(** When the timer runs out while the name of the server is still being resolved, the late answer starts the
    requests all the same; what they find for the old name is kept and given out as an answer for the next name. *)
Theorem resolver_late_answer r0 ep eps ai bi :
  idle r0 → endpoints_ r0 = [] →
  let r1 := rrun (AsyncResolve None false None None r0)
              [TimedOut; ServerResolved (ServerAt ep eps) false None None; RequestDone query_a None ai] in
  answers_ r1 = answers_ r0 ++ [(Some timed_out, [])] ∧
  let r2 := rrun (AsyncResolve None false None None r1) [RequestDone query_a None bi] in
  bi ≠ [] →
  answers_ r2 = answers_ r1 ++ [(None, map endpoint_of bi ++ map endpoint_of ai)].
Proof.
  intros (D & B & R & Q & Ai) E. cbv zeta.
  set (r1 := rrun _ _).
  assert (r1 = mkResolver (init_ r0) true false false (ep :: eps) [] ai (answers_ r0 ++ [(Some timed_out, [])])) as ->.
  { unfold r1, AsyncResolve. rewrite E, Q, Ai. unfold rrun. simpl. unfold OnDoRequestDoneA, OnDoRequestDone. simpl.
    by rewrite app_nil_r. }
  split; [done|]. intros Hb. destruct bi as [|b bi]; [done|].
  unfold rrun, AsyncResolve, DoRequests, OnDoRequestDoneA, OnDoRequestDone. simpl. by rewrite map_app.
Qed.

(** ** Examples *)

(** The response of the example of Dns.v for a query of a, in three pieces. *)
Lemma request_answered_witness :
  let H := (λ _, x00) : Allocator in
  let L := (λ _, mkHttpResponse 0 false 0 [] 0) : HttpResponseLib in
  ∃ s0 N, DoRequest (H := H) DoT DNS_TYPE_A (str "a") 80 None request_make = Done s0 ∧
    ∀ fuel, N <= fuel →
      ∃ s, run (H := H) (H0 := L) DoT fuel s0
             ([Connected None; SSLConnected true] ++ map (λ n, Writable None (IoOk n)) [5; 100] ++
              map (λ bs, Readable None (IoOk bs))
                ((be16_bytes 51 ++ take 3 example_response) :: [take 20 (drop 3 example_response); drop 23 example_response]))
           = Done s ∧
        sent_ s = take 105 (request_text DoT (query [str "a"] DNS_TYPE_A)) ∧
        calls_ s = [(None, [mkAddrinfo AF_INET (Some (str "b.a")) [x0a; x00; x00; x01] 80])].
Proof.
  intros H L.
  apply (request_answered (H := H) (H0 := L) DoT [str "a"] (str "a") DNS_TYPE_A 80 [5; 100] (be16_bytes 51) (take 3 example_response)
           [take 20 (drop 3 example_response); drop 23 example_response] example_response example_parsed 51).
  - discriminate.
  - repeat constructor; try (vm_compute; lia); by apply (bool_decide_unpack _).
  - by left.
  - by apply (bool_decide_unpack _).
  - vm_compute. lia.
  - reflexivity.
  - split; reflexivity.
  - vm_compute. discriminate.
  - repeat constructor; discriminate.
  - reflexivity.
  - apply example_message.
Defined.

Lemma request_called_once_witness :
  let H := (λ _, x00) : Allocator in
  let L := (λ _, mkHttpResponse 0 false 0 [] 0) : HttpResponseLib in
  ∃ s0 s, DoRequest (H := H) DoT DNS_TYPE_A (str "a.localhost") 80 None request_make = Done s0 ∧
    run (H := H) (H0 := L) DoT 0 s0 [Posted] = Done s ∧ length (calls_ s) = 1 ∧ length (calls_ s) <= 1.
Proof.
  intros H L. eexists _, _. split; [reflexivity|]. split; [reflexivity|]. split; [reflexivity|].
  apply (proj1 (request_called_once (H := H) (H0 := L) DoT 0 DNS_TYPE_A (str "a.localhost") 80 None _ [Posted] [] _ eq_refl) eq_refl).
Defined.

Lemma dot_first_byte_alone_witness :
  let H := (λ _, x00) : Allocator in
  let L := (λ _, mkHttpResponse 0 false 0 [] 0) : HttpResponseLib in
  ∃ s0, DoRequest (H := H) DoT DNS_TYPE_A (str "a") 80 None request_make = Done s0 ∧
    ∀ fuel, ∃ s,
      run (H := H) (H0 := L) DoT fuel s0
        ([Connected None; SSLConnected true] ++ map (λ n, Writable None (IoOk n)) [100] ++
         [Readable None (IoOk [x00])] ++ map (λ bs, Readable None (IoOk bs)) [x33 :: example_response]) = Done s ∧
      calls_ s = [(Some operation_not_supported, [])].
Proof.
  intros H L.
  apply (dot_first_byte_alone (H := H) (H0 := L) [str "a"] (str "a") DNS_TYPE_A 80 [100] x00 [x33 :: example_response]);
    [discriminate| |by left|by apply (bool_decide_unpack _)|vm_compute; lia|reflexivity].
  repeat constructor; try (vm_compute; lia); by apply (bool_decide_unpack _).
Defined.

(** A resolver that has found its server. *)
Definition example_resolver (eps : list endpoint) : resolver := mkResolver true true false false eps [] [] [].

Lemma resolver_answers_once_witness :
  let r := rrun (AsyncResolve None true None None (example_resolver [endpoint_default]))
             [RequestDone query_aaaa None []; TimedOut] in
  answers_ r = [(Some timed_out, [])] ∧ idle r.
Proof.
  intros r. split; [reflexivity|].
  destruct (resolver_answers_once None true None None (example_resolver [endpoint_default])
              [RequestDone query_aaaa None []; TimedOut]) as (l & _ & _ & D & _);
    [by split_and!|by left|by left|]. by apply D.
Defined.

Lemma resolver_result_witness :
  answers_ (rrun (AsyncResolve (Some endpoint_default) true None None (example_resolver []))
    [RequestDone query_aaaa None (addrinfo_dup true example_parsed 80);
     RequestDone query_a None (addrinfo_dup false example_parsed 80)])
  = [(None, [mkEndpoint (address_v4 [x0a; x00; x00; x01]) 80])].
Proof.
  apply (resolver_result (Some endpoint_default) (example_resolver []) example_parsed example_parsed 80);
    [by split_and!|by right|]. apply perm_swap.
Defined.

Lemma resolver_late_answer_witness :
  let node b := mkAddrinfo AF_INET None [x0a; x00; x00; b] 80 in
  answers_ (rrun (AsyncResolve None false None None
    (rrun (AsyncResolve None false None None (example_resolver []))
       [TimedOut; ServerResolved (ServerAt endpoint_default []) false None None; RequestDone query_a None [node x01]]))
    [RequestDone query_a None [node x02]])
  = [(Some timed_out, [])] ++ [(None, [endpoint_of (node x02); endpoint_of (node x01)])].
Proof.
  intros node.
  destruct (resolver_late_answer (example_resolver []) endpoint_default [] [node x01] [node x02]) as [E1 E2];
    [by split_and!|done|]. rewrite E2 by discriminate. rewrite E1. reflexivity.
Defined.

End Resolver.
