(* ===== verification/CliRelay.v ===== *)
(** * The client's relay

    What [CliConnection] of src/src/cli/cli_connection.cpp does from the moment the
    upstream connection stands and the request for the destination is queued: the
    data that waited, the pipe to the channel ([WriteUpstreamInPipe],
    [GetNextUpstreamBuf]), the reply of an HTTPS server, and the way back to the
    application ([ReadUpstream], [GetNextDownstreamBuf], [WriteStream]).

    The members that both connection classes have are the record [relay] of Relay.v;
    of it, a client calls the application's side downlink and downstream.  As there,
    what the sockets answer is an argument, and [None] is an abort, the use of an
    absent object, or a loop without fuel.

    The model is that of a connection through an HTTPS or a shadowsocks server: the
    flags [socks5_method_select_handshake_], [socks5_auth_handshake_] and
    [socks_handshake_] are then never set, and what depends on them in
    [GetNextDownstreamBuf] and [GetNextUpstreamBuf] is in CliUpstream.v.  The application's
    connection is not one that is kept for several HTTP requests: [http_is_keep_alive_]
    is false, and so the branches of [GetNextUpstreamBuf] for the buffers of such a
    connection are not taken.  HTTP/2 and rate limits are not modelled;
    [upstream_https_chunked_] is never set, and its handler not modelled. *)

From Stdlib Require Import ZArith Lia.
From stdpp Require Import base list numbers option.
From S2P Require Import Prelude IoBuffer IoQueue Addr Hkdf Crypter Cipher Conn Dns Resolver Relay.

Module CliRelay.
Import IoBuffer Addr Crypter Cipher Conn Relay.

Record client := mkClient { rl_ : relay; pending_data_ : queue; upstream_https_handshake_ : bool }.

Definition with_relay (c : client) (s : relay) : client := mkClient s (pending_data_ c) (upstream_https_handshake_ c).

Definition kMaxHeaderSize : nat := Z.to_nat (1024 * 1024 + 1024).

(** [close()] is the server's without a TLS downlink. *)
Definition OnDisconnect : relay → relay := Relay.OnDisconnect false.
Definition process_error : relay → relay := Relay.process_error false.

(** ** To the application *)

(** The loop of [WriteStream]: the state, the error, [try_again], and whether any byte
    was written.  Each round but the last uses up a write. *)
Fixpoint write_loop (fuel : nat) (wt : bool) (s : relay) (e : env) : option (relay * env * code * bool * bool) :=
  match fuel with
  | 0 => None
  | S fuel =>
      if IoQueue.empty (downstream_ s) then Some (s, e, success, true, wt)
      else
        buf ← front_of (downstream_ s);
        let '(n, ec, yield) := match dwrites e with
                               | Wrote n yield :: _ => (n `min` size buf, success, yield)
                               | WriteError :: _ => (0, failed, false)
                               | _ => (0, again, false)
                               end in
        let e := mkEnv (dreads e) (tail (dwrites e)) (creads e) (cwrites e) in
        let sent := take n (span buf) in
        buf ← set_offset buf (Z.of_nat (offset buf) + Z.of_nat n);
        let s := write_downstream s buf sent in
        let wt := wt || (0 <? n) in
        let s := if empty buf then pop_downstream s else s in
        match ec with
        | success =>
            if negb (empty buf) then Some (s, e, again, false, wt)
            else if (yield : bool)
                 then if IoQueue.empty (downstream_ s) then Some (s, e, success, true, wt)
                      else Some (s, e, again, false, wt)
                 else write_loop fuel wt s e
        | _ => Some (s, e, ec, false, wt)
        end
  end.

(** [ReadUpstreamAsync], where it is called. *)
Definition wait_upstream (s : relay) (try_again : bool) : relay :=
  if try_again && connected_ (channel_ s) && negb (read_inprogress_ (channel_ s))
  then set_channel s (wait_read (channel_ s)) else s.

Definition WriteStreamAsync (s : relay) : relay :=
  if write_inprogress_ s then s else set_waits s (downstream_read_inprogress_ s) true.

(** [write] is [WriteStream]. *)
Definition OnDownstreamWriteFlush (write : relay → env → option (relay * env)) (s : relay) (e : env)
  : option (relay * env) :=
  if negb (IoQueue.empty (downstream_ s)) && negb (write_inprogress_ s) && negb (error_ s)
  then write s e else Some (s, e).

Definition OnStreamWrite (write : relay → env → option (relay * env)) (s : relay) (e : env) : option (relay * env) :=
  '(s, e) ← OnDownstreamWriteFlush write s e;
  Some (if eof_ (channel_ s) && IoQueue.empty (downstream_ s) && negb (shutdown_ s) then set_shutdown s else s, e).

Definition ProcessSentData (write : relay → env → option (relay * env)) (s : relay) (e : env) (ec : code) (wt : bool)
  : option (relay * env) :=
  match ec with
  | success =>
      if error_ s then Some (process_error s, e) else if wt then OnStreamWrite write s e else Some (s, e)
  | _ => Some (process_error s, e)
  end.

(** [WriteStream] calls itself through [OnStreamWrite]; the fuel bounds the nesting. *)
Fixpoint write_stream (fuel : nat) (s : relay) (e : env) : option (relay * env) :=
  match fuel with
  | 0 => None
  | S fuel =>
      if write_inprogress_ s then Some (s, e)
      else
        '(s, e, ec, try_again, wt) ← write_loop (length (dwrites e) + 1) false s e;
        let s := wait_upstream s try_again in
        match ec with
        | again =>
            let s := WriteStreamAsync s in
            if negb wt then Some (s, e) else ProcessSentData (write_stream fuel) s e success wt
        | _ => ProcessSentData (write_stream fuel) s e ec wt
        end
  end.

Definition WriteStream (s : relay) (e : env) : option (relay * env) := write_stream (length (dwrites e) + 2) s e.

Definition disconnected (s : relay) (e : env) : option (relay * env) :=
  let s := set_channel (set_upstream s (upstream_ s) false) (stream_close (channel_ s)) in
  if IoQueue.empty (downstream_ s) && negb (shutdown_ s) then Some (set_shutdown s, e) else WriteStream s e.

(** The client is the visitor of its ciphers. *)
#[export] Instance client_visitor : Visitor (option (relay * env)) := {|
  on_received_data v buf :=
    if empty buf then (v, false)
    else ('(s, e) ← v; Some (set_downstream s (IoQueue.push_back (downstream_ s) buf), e), true);
  on_protocol_error v := '(s, e) ← v; disconnected s e |}.

Section CliRelay.
Context `{Allocator} `{CryptoLib} `{Sha1} `{KeyLib} `{RND : RandLib} `{HttpResponseLib}.

Variable method : cipher_method.
Variable T0 : list byte.
(** [DEFAULT_QUEUE_LENGTH]. *)
Variable D : nat.

(** ** From the channel *)

Definition push_downstream (s : relay) (e : env) (buf : GrowableIOBuffer) : option (relay * env) :=
  if plain method then Some (set_downstream s (IoQueue.push_back (downstream_ s) buf), e)
  else
    decoder ← decoder_ s;
    '(decoder, v) ← process_bytes T0 decoder (Some (s, e)) buf;
    '(s, e) ← v;
    Some (set_ciphers s (encoder_ s) (Some decoder), e).

(** The reply of the HTTPS server at the start of the buffer. *)
Definition ReadUpstreamHttpsHandshake (c : client) (e : env) (buf : GrowableIOBuffer)
  : option (client * env * code * GrowableIOBuffer) :=
  let c := mkClient (rl_ c) (pending_data_ c) false in
  let parser := http_response_parse (span buf) in
  if r_ok parser && (r_status_code parser =? 200)%Z then
    buf ← set_offset buf (Z.of_nat (offset buf) + Z.of_nat (r_nparsed parser));
    Some (c, e, if empty buf then again else success, buf)
  else
    '(s, e) ← disconnected (rl_ c) e;
    Some (with_relay c s, e, failed, buf).

(** The label [out] of [GetNextDownstreamBuf]. *)
Definition next_downstream (c : client) (e : env) (ec : code) : option (client * env * code * option GrowableIOBuffer) :=
  let s := rl_ c in
  if IoQueue.empty (downstream_ s) then Some (c, e, match ec with success => again | _ => ec end, None)
  else
    buf ← front_of (downstream_ s);
    let s := match ec with failed => set_read_errors s (pending_upstream_read_error_ s) true | _ => s end in
    Some (with_relay c s, e, ec, Some buf).

(** The label [try_again], without a SOCKS server's replies; each round but the last uses up a read.  Of the bytes of the
    channel those behind the reply are recorded. *)
Fixpoint read_upstream (fuel : nat) (c : client) (e : env) : option (client * env * code * option GrowableIOBuffer) :=
  match fuel with
  | 0 => None
  | S fuel =>
      if eof_ (channel_ (rl_ c)) then Some (c, e, failed, None)
      else
        match creads e with
        | [] => next_downstream c e again
        | r :: rs =>
            let e := mkEnv (dreads e) (dwrites e) rs (cwrites e) in
            match r with
            | TryAgain => next_downstream c e again
            | ReadError =>
                '(s, e) ← disconnected (rl_ c) e;
                next_downstream (with_relay c s) e failed
            | Read bs =>
                buf ← read_buf SOCKET_DEBUF_SIZE bs;
                if empty buf then next_downstream c e success
                else
                  '(c, e, ec, buf) ← (if bool_decide (method = CRYPTO_HTTPS) && upstream_https_handshake_ c
                                      then ReadUpstreamHttpsHandshake c e buf else Some (c, e, success, buf));
                  if empty buf then read_upstream fuel c e
                  else
                    match ec with
                    | success =>
                        '(s, e) ← push_downstream (record (rl_ c) [] [] (span buf) []) e buf;
                        next_downstream (with_relay c s) e success
                    | _ => Some (c, e, ec, None)
                    end
            end
        end
  end.

Definition GetNextDownstreamBuf (c : client) (e : env) : option (client * env * code * option GrowableIOBuffer) :=
  let s := rl_ c in
  if negb (IoQueue.empty (downstream_ s)) then
    buf ← front_of (downstream_ s); Some (c, e, success, Some buf)
  else if pending_downstream_read_error_ s then Some (c, e, failed, None)
  else if negb (connected_ (channel_ s)) then Some (c, e, again, None)
  else read_upstream (length (creads e) + 1) c e.

Definition ReadUpstream (c : client) (e : env) : option (client * env) :=
  if read_inprogress_ (channel_ (rl_ c)) || write_inprogress_ (rl_ c) then Some (c, e)
  else
    '(c, e, ec, next) ← GetNextDownstreamBuf c e;
    match ec with
    | failed => Some (c, e)
    | _ =>
        '(s, e) ← match next with
                  | Some buf => if empty buf then Some (rl_ c, e) else WriteStream (rl_ c) e
                  | None => Some (rl_ c, e)
                  end;
        Some (with_relay c (wait_upstream s (bool_decide (ec = again))), e)
    end.

(** ** To the channel *)

(** Data of the application goes to the queue as it is or encrypted. *)
Definition push_upstream (s : relay) (e : env) (buf : GrowableIOBuffer) : option (relay * env) :=
  if plain method then Some (set_upstream s (IoQueue.push_back (upstream_ s) buf) (upstream_writable_ s), e)
  else
    encoder ← encoder_ s;
    '(encoder, q, err) ← EncryptData T0 encoder (upstream_ s) (span buf);
    let s := set_ciphers (set_upstream s q (upstream_writable_ s)) (Some encoder) (decoder_ s) in
    if (err : bool) then disconnected s e else Some (s, e).

(** The bytes that are queued for the channel are recorded. *)
Definition OnStreamRead (c : client) (e : env) (buf : GrowableIOBuffer) : option (client * env) :=
  let s := rl_ c in
  if negb (connected_ (channel_ s)) then
    n ← IoQueue.byte_length size (pending_data_ c);
    if kMaxHeaderSize <? n + size buf then Some (with_relay c (OnDisconnect s), e)
    else Some (mkClient s (IoQueue.push_back (pending_data_ c) buf) (upstream_https_handshake_ c), e)
  else
    '(s, e) ← push_upstream (record s (span buf) [] [] []) e buf;
    Some (with_relay c (OnUpstreamWriteFlush s), e).

(** The label [out] of [GetNextUpstreamBuf]; [rd] tells whether bytes were read.  The
    boolean is [upstream_blocked]. *)
Definition next_upstream (c : client) (e : env) (ec : code) (rd : bool)
  : option (client * env * code * bool * option GrowableIOBuffer) :=
  let s := rl_ c in
  if IoQueue.empty (upstream_ s) then Some (c, e, match ec with success => again | _ => ec end, rd, None)
  else
    buf ← front_of (upstream_ s);
    let s := match ec with failed => set_read_errors s true (pending_downstream_read_error_ s) | _ => s end in
    Some (with_relay c s, e, ec, false, Some buf).

(** No SOCKS handshake is pending, and no HTTP connection is kept alive. *)
Definition GetNextUpstreamBuf (c : client) (e : env) : option (client * env * code * bool * option GrowableIOBuffer) :=
  let s := rl_ c in
  if negb (IoQueue.empty (upstream_ s)) then
    buf ← front_of (upstream_ s); Some (c, e, success, false, Some buf)
  else if pending_upstream_read_error_ s then Some (c, e, failed, false, None)
  else if closed_ s then Some (c, e, failed, false, None)
  else
    match dreads e with
    | [] => next_upstream c e again false
    | r :: rs =>
        let e := mkEnv rs (dwrites e) (creads e) (cwrites e) in
        match r with
        | TryAgain => next_upstream c e again false
        | ReadError => next_upstream (with_relay c (process_error s)) e failed false
        | Read bs =>
            buf ← read_buf SOCKET_BUF_SIZE bs;
            if empty buf then next_upstream c e success false
            else if negb (connected_ (channel_ s)) then
              '(c, e) ← OnStreamRead c e buf;
              Some (c, e, again, false, None)
            else
              '(s, e) ← push_upstream (record s (span buf) [] [] []) e buf;
              next_upstream (with_relay c s) e success true
        end
    end.

(** The end of [WriteUpstreamInPipe] is the server's. *)
Definition end_upstream_pipe (c : client) (e : env) (try_again : bool) (ec : code) : option (client * env) :=
  '(s, e) ← Relay.end_upstream_pipe (rl_ c) e try_again ec;
  Some (with_relay c s, e).

(** The loop.  Each round but the last uses up a write. *)
Fixpoint upstream_pipe (fuel : nat) (c : client) (e : env) : option (client * env) :=
  match fuel with
  | 0 => None
  | S fuel =>
      '(c, e, ec, blocked, next) ← GetNextUpstreamBuf c e;
      match ec with
      | failed => Some (c, e)
      | _ =>
          let try_again := bool_decide (ec = again) && negb blocked in
          let ec := if blocked && bool_decide (ec = again) then again else success in
          let s := rl_ c in
          match next with
          | None => end_upstream_pipe c e try_again ec
          | Some buf =>
              if empty buf then end_upstream_pipe c e try_again ec
              else if negb (connected_ (channel_ s)) || eof_ (channel_ s) then end_upstream_pipe c e try_again again
              else
                match cwrites e with
                | [] => end_upstream_pipe c e try_again again
                | w :: ws =>
                    let e := mkEnv (dreads e) (dwrites e) (creads e) ws in
                    match w with
                    | WriteAgain => end_upstream_pipe c e try_again again
                    | WriteError =>
                        '(s, e) ← disconnected s e;
                        Some (with_relay c (OnDisconnect s), e)
                    | Wrote n yield =>
                        let n := n `min` size buf in
                        let sent := take n (span buf) in
                        buf ← set_offset buf (Z.of_nat (offset buf) + Z.of_nat n);
                        let c := with_relay c (write_upstream s buf sent) in
                        if negb (empty buf) then end_upstream_pipe c e try_again again
                        else
                          let c := with_relay c (pop_upstream (rl_ c)) in
                          if (yield : bool) then
                            if IoQueue.empty (upstream_ (rl_ c)) then end_upstream_pipe c e true success
                            else end_upstream_pipe c e try_again again
                          else upstream_pipe fuel c e
                    end
                end
          end
      end
  end.

Definition WriteUpstreamInPipe (c : client) (e : env) : option (client * env) :=
  if channel_write_inprogress_ (channel_ (rl_ c)) then Some (c, e)
  else upstream_pipe (length (cwrites e) + 1) c e.

Definition flush_upstream (r : client * env) : client * env :=
  (with_relay (fst r) (OnUpstreamWriteFlush (rl_ (fst r))), snd r).

(** ** Completion handlers *)

(** [while (!queue.empty())], at most [fuel] rounds. *)
Fixpoint resend_loop (fuel : nat) (c : client) (e : env) (queue : queue) : option (client * env) :=
  if IoQueue.empty queue then Some (c, e)
  else
    match fuel with
    | 0 => None
    | S fuel =>
        buf ← front_of queue;
        '(c, e) ← OnStreamRead c e buf;
        resend_loop fuel c e (IoQueue.pop_front queue)
    end.

(** [connected] from where the request is queued. *)
Definition on_connected (c : client) (e : env) : option (client * env) :=
  '(c, e) ← (if IoQueue.empty (pending_data_ c) then Some (c, e)
             else
               let '(queue, rest) := IoQueue.move_construct D (pending_data_ c) in
               '(c, e) ← resend_loop (IoQueue.length queue) (mkClient (rl_ c) rest (upstream_https_handshake_ c)) e queue;
               WriteUpstreamInPipe c e);
  let c := with_relay c (set_upstream (rl_ c) (upstream_ (rl_ c)) true) in
  '(c, e) ← ReadUpstream c e;
  flush_upstream <$> WriteUpstreamInPipe c e.

Definition received : client → env → option (client * env) := ReadUpstream.

Definition sent (c : client) (e : env) : option (client * env) :=
  let c := with_relay c (set_upstream (rl_ c) (upstream_ (rl_ c)) true) in
  flush_upstream <$> WriteUpstreamInPipe c e.

(** [ok] is false when the wait ended with an error. *)
Inductive event :=
  | AppReadable (ok : bool)
  | AppWritable (ok : bool)
  | AppError
  | ChannelReadable (ok : bool)
  | ChannelWritable (ok : bool).

Definition lift (c : client) (r : option (relay * env)) : option (client * env) :=
  '(s, e) ← r; Some (with_relay c s, e).

(** A handler runs when it is registered, and only then. *)
Definition step (c : client) (ev : event) (e : env) : option (client * env) :=
  let s := rl_ c in
  match ev with
  | AppReadable ok =>
      if negb (downstream_read_inprogress_ s) then Some (c, e)
      else
        let s := set_waits s false (write_inprogress_ s) in
        if closed_ s then Some (with_relay c s, e)
        else if ok then flush_upstream <$> WriteUpstreamInPipe (with_relay c s) e
        else Some (with_relay c (process_error s), e)
  | AppWritable ok =>
      if negb (write_inprogress_ s) then Some (c, e)
      else
        let s := set_waits s (downstream_read_inprogress_ s) false in
        if closed_ s then Some (with_relay c s, e)
        else if ok then lift c (WriteStream s e)
        else Some (with_relay c (process_error s), e)
  | AppError => Some (with_relay c (OnDisconnect s), e)
  | ChannelReadable ok =>
      if negb (read_inprogress_ (channel_ s)) then Some (c, e)
      else
        let s := set_channel s (read_over (channel_ s)) in
        if negb (connected_ (channel_ s)) || gone_ (channel_ s) || closed_ s then Some (with_relay c s, e)
        else if ok then received (with_relay c s) e
        else lift c (disconnected s e)
  | ChannelWritable ok =>
      if negb (channel_write_inprogress_ (channel_ s)) then Some (c, e)
      else
        let s := set_channel s (write_over (channel_ s)) in
        if negb (connected_ (channel_ s)) || gone_ (channel_ s) || closed_ s then Some (with_relay c s, e)
        else if ok then sent (with_relay c s) e
        else lift c (disconnected s e)
  end.

(** What the server sends is read from one list; every event comes with what the
    other operations answer while it is handled. *)
Fixpoint run (c : client) (rs : list read_result)
    (evs : list (event * (list read_result * list write_result * list write_result)))
  : option (client * list read_result) :=
  match evs with
  | [] => Some (c, rs)
  | (ev, (dr, dw, cw)) :: evs =>
      '(c, e) ← step c ev (mkEnv dr dw rs cw);
      run c (creads e) evs
  end.

(** The connection from [connected] on; [env] is for it. *)
Definition session (c : client) (rs : list read_result) (dr : list read_result) (dw cw : list write_result)
    (evs : list (event * (list read_result * list write_result * list write_result))) : option (client * list read_result) :=
  '(c, e) ← on_connected c (mkEnv dr dw rs cw);
  run c (creads e) evs.

End CliRelay.
End CliRelay.
