(* ===== verification/CliFlow.v ===== *)
(** * The client's relay loses nothing and does not hang

    The invariant of RelayInv.v for the relay of CliRelay.v, for any method that fulfils
    the interface [Codec]; the methods that do: HTTPS and SOCKS, and shadowsocks with a
    genuine server.  The loops have fuel for one round per answer of the
    sockets and one more, which the proofs show to be enough. *)

From Stdlib Require Import ZArith Lia.
From stdpp Require Import base list numbers option.
From S2P Require Import Prelude IoBuffer IoQueue Addr Hkdf Crypter Cipher Conn Dns Resolver Relay RelayInv CliRelay.

Module CliFlow.
Import IoBuffer Addr Crypter Cipher Conn Relay RelayInv CliRelay.

Section Write.
Context {D : nat} {down_rel up_rel : option cipher → list byte → list byte → Prop}
  {D0 U0 : list byte} {rd_rel : list byte → list byte → Prop}.

Local Abbreviation inv := (RelayInv.inv false D down_rel up_rel D0 U0 rd_rel).

(** The queue and what was written apart, the state is the same. *)
Definition framed (s s' : relay) : Prop :=
  channel_ s' = channel_ s ∧ closed_ s' = closed_ s ∧
  shutdown_ s' = shutdown_ s ∧ error_ s' = error_ s ∧
  write_inprogress_ s' = write_inprogress_ s ∧
  upstream_writable_ s' = upstream_writable_ s ∧
  downstream_read_inprogress_ s' = downstream_read_inprogress_ s.

Lemma framed_ups f s s' us : framed s s' → ups f s us → ups f s' us.
Proof. intros (C1 & C2 & _ & _ & _ & C6 & C7) U. unfold ups. by rewrite C1, C2, C6, C7. Qed.

Lemma framed_trans s1 s2 s3 : framed s1 s2 → framed s2 s3 → framed s1 s3.
Proof. unfold framed. intros (-> & -> & -> & -> & -> & -> & ->). done. Qed.

Lemma write_loop_ok fuel : ∀ rs wt s e ds us,
  inv rs s ds us → length (dwrites e) < fuel →
  ∃ s' e' ec ta wt' ds', write_loop fuel wt s e = Some (s', e', ec, ta, wt') ∧
    dreads e' = dreads e ∧ creads e' = creads e ∧ cwrites e' = cwrites e ∧
    inv rs s' ds' us ∧ framed s s' ∧ (wt = true → wt' = true) ∧
    match ec with
    | success => ds' = [] ∧ ta = true ∧ (ds ≠ [] → wt' = true)
    | again => ds' ≠ [] ∧ ta = false
    | failed => True
    end.
Proof.
  induction fuel as [|fuel IH]; intros rs wt s e ds us I Hf; [lia|]. cbn [write_loop].
  rewrite (inv_empty_down I). destruct ds as [|b ds].
  { rewrite bool_decide_eq_true_2 by done. do 6 eexists. split; [reflexivity|]. by split_and!. }
  rewrite bool_decide_eq_false_2 by done. rewrite (front_of_rep (D := D) _ b ds) by apply I. cbn [mbind option_bind].
  set (e1 := mkEnv _ (tail _) _ _).
  assert (∀ n, n <= size b → ∃ b', set_offset b (Z.of_nat (offset b) + Z.of_nat n) = Some b' ∧
    let s1 := write_downstream s b' (take n (span b)) in
    (empty b' = false → inv rs s1 (b' :: ds) us) ∧
    (empty b' = true → inv rs (pop_downstream s1) ds us ∧ (0 <? n) = true)) as Hw
    by (intros n Hn; by apply (downstream_written rs s b ds us n)).
  assert (∀ ec, ec ≠ success →
    ∃ s' e' ec' ta wt' ds',
      (b' ← set_offset b (Z.of_nat (offset b) + Z.of_nat 0);
       let s1 := write_downstream s b' (take 0 (span b)) in
       let s2 := if empty b' then pop_downstream s1 else s1 in
       match ec with
       | success => None
       | _ => Some (s2, e1, ec, false, wt || (0 <? 0))
       end) = Some (s', e', ec', ta, wt') ∧
      dreads e' = dreads e ∧ creads e' = creads e ∧ cwrites e' = cwrites e ∧
      inv rs s' ds' us ∧ framed s s' ∧ (wt = true → wt' = true) ∧
      match ec' with
      | success => ds' = [] ∧ ta = true ∧ (b :: ds ≠ [] → wt' = true)
      | again => ds' ≠ [] ∧ ta = false
      | failed => True
      end) as Hstop.
  { intros ec Hec. destruct (Hw 0) as (b' & -> & Hne & He); [lia|]. cbn [mbind option_bind]. cbv zeta in Hne, He.
    destruct (empty b') eqn:Em; [destruct (He eq_refl); done|]. specialize (Hne eq_refl).
    destruct ec; [done|..]; (do 6 eexists; split; [reflexivity|]; split_and!; try done; by intros ->). }
  destruct (dwrites e) as [|w ws] eqn:Ews.
  { destruct (Hstop again) as (s' & e' & ec' & ta & wt' & ds' & E & R); [done|]. exists s', e', ec', ta, wt', ds'.
    split; [|done]. rewrite <- E. by destruct (set_offset b _). }
  destruct w as [n yield| |].
  - destruct (Hw (n `min` size b)) as (b' & -> & Hne & He); [lia|]. cbn [mbind option_bind]. cbv zeta in Hne, He.
    destruct (empty b') eqn:Em; cbn [negb].
    + destruct (He eq_refl) as [I2 Hn]. rewrite Hn, orb_true_r.
      set (s2 := pop_downstream (write_downstream s b' (take (n `min` size b) (span b)))) in *.
      assert (framed s s2) as F2 by done. rewrite (inv_empty_down I2). destruct yield.
      * case_bool_decide as Ed; (do 6 eexists; split; [reflexivity|]; split_and!; done).
      * destruct (IH rs true s2 e1 ds us I2) as (s' & e' & ec & ta & wt' & ds' & E & Er & Ec & Ew & I' & F' & Hwt & Hc).
        { simpl in Hf |- *. lia. }
        exists s', e', ec, ta, wt', ds'. split; [exact E|]. split_and!; try done; [by auto|].
        destruct ec; [|done..]. destruct Hc as (? & ? & _). split_and!; try done. by auto.
    + eexists _, e1, again, false, _, (b' :: ds). split; [reflexivity|]. split_and!; try done; [by apply Hne|by intros ->].
  - destruct (Hstop again) as (s' & e' & ec' & ta & wt' & ds' & E & R); [done|]. exists s', e', ec', ta, wt', ds'.
    split; [|done]. rewrite <- E. by destruct (set_offset b _).
  - destruct (Hstop failed) as (s' & e' & ec' & ta & wt' & ds' & E & R); [done|]. exists s', e', ec', ta, wt', ds'.
    split; [|done]. rewrite <- E. by destruct (set_offset b _).
Qed.

(** A wait for the application means data for it. *)
Definition waiting (s : relay) (ds : list GrowableIOBuffer) : Prop :=
  closed_ s = false → write_inprogress_ s = true → ds ≠ [].

Lemma closed_waiting s ds : closed_ s = true → waiting s ds.
Proof. intros C C'. congruence. Qed.

Lemma inv_wait_upstream rs f s ds us ta :
  inv rs s ds us → ups f s us → let s' := wait_upstream s ta in
  inv rs s' ds us ∧ ups f s' us ∧ closed_ s' = closed_ s ∧ shutdown_ s' = shutdown_ s ∧ error_ s' = error_ s ∧
  write_inprogress_ s' = write_inprogress_ s ∧ gone_ (channel_ s') = gone_ (channel_ s) ∧
  connected_ (channel_ s') = connected_ (channel_ s) ∧
  (ta = true → connected_ (channel_ s) = true → read_inprogress_ (channel_ s') = true).
Proof.
  intros I U s'. unfold s', wait_upstream.
  destruct ta, (connected_ (channel_ s)) eqn:K, (read_inprogress_ (channel_ s)) eqn:Rd; cbn [andb negb];
    try (split_and!; done).
  destruct (chan_wait_read _ (i_chan I)) as (C1 & C2 & C3 & C4 & C5).
  split; [destruct I; split; simpl; try done; by rewrite C2|].
  split; [unfold ups in *; simpl; by rewrite C3, C5|].
  split_and!; try done; simpl; [congruence|auto].
Qed.

Lemma write_stream_ok fuel rs f s e ds us :
  inv rs s ds us → ups f s us → ready false s ds → write_inprogress_ s = false →
  ∃ s' e' ds', write_stream (S fuel) s e = Some (s', e') ∧
    dreads e' = dreads e ∧ creads e' = creads e ∧ cwrites e' = cwrites e ∧
    inv rs s' ds' us ∧ ups f s' us ∧ downs true s' ds' ∧ waiting s' ds'.
Proof.
  intros I U Hrd Wi. cbn [write_stream]. rewrite Wi.
  destruct (write_loop_ok (length (dwrites e) + 1) rs false s e ds us I)
    as (s1 & e1 & ec & ta & wt & ds1 & -> & Er & Ecr & Ecw & I1 & F1 & _ & Hc); [lia|]. cbn [mbind option_bind].
  pose proof F1 as (Fch & Fcl & Fsh & Fer & Fwi & _).
  destruct (inv_wait_upstream rs f s1 ds1 us ta I1 (framed_ups f s s1 us F1 U))
    as (I2 & U2 & C2 & S2 & E2 & W2 & G2 & K2 & R2).
  set (s2 := wait_upstream s1 ta) in *. clearbody s2.
  assert (∀ sx dx, inv rs sx dx us → closed_ sx = true → ∃ s' e' ds', Some (sx, e1) = Some (s', e') ∧
    dreads e' = dreads e ∧ creads e' = creads e ∧ cwrites e' = cwrites e ∧
    inv rs s' ds' us ∧ ups f s' us ∧ downs true s' ds' ∧ waiting s' ds') as Hclosed.
  { intros sx dx Ix Cx. exists sx, e1, dx. split_and!; auto using closed_ups, closed_downs, closed_waiting. }
  destruct ec.
  - destruct Hc as (-> & -> & Hwt). unfold ProcessSentData.
    destruct (error_ s2) eqn:Er2. { destruct (inv_process_error false rs s2 [] us I2). by apply (Hclosed _ []). }
    assert (downs true s2 [] ∨ gone_ (channel_ s2) = true ∧ wt = true) as Hd.
    { destruct (gone_ (channel_ s2)) eqn:G; [destruct wt eqn:Ewt; [by right|]|]; left; intros C;
        (split; [done|]); (split; [intros _ K _; apply R2; [done|congruence]|]); [|congruence].
      intros _ _. rewrite S2, Fsh. destruct (Hrd) as [?|?]; try done; try congruence.
      destruct ds; [done|]. by specialize (Hwt ltac:(done)). }
    destruct wt.
    + unfold OnStreamWrite, OnDownstreamWriteFlush. rewrite (inv_empty_down I2), bool_decide_eq_true_2 by done.
      cbn [negb andb mbind option_bind]. rewrite (inv_empty_down I2), bool_decide_eq_true_2 by done.
      destruct (i_chan I2) as (Ee & Eg & _). rewrite Ee, andb_true_r.
      assert (∀ sx, sx = s2 ∨ sx = set_shutdown s2 ∧ gone_ (channel_ s2) = true →
        (gone_ (channel_ s2) = true → shutdown_ sx = true) →
        ∃ s' e' ds', Some (sx, e1) = Some (s', e') ∧ dreads e' = dreads e ∧ creads e' = creads e ∧ cwrites e' = cwrites e ∧
          inv rs s' ds' us ∧ ups f s' us ∧ downs true s' ds' ∧ waiting s' ds') as Hend.
      { intros sx Hx Hs. assert (inv rs sx [] us ∧ ups f sx us ∧ channel_ sx = channel_ s2 ∧ write_inprogress_ sx = false)
          as (Ix & Ux & Cx & Wx).
        { destruct Hx as [->|[-> G]]; (split; [|split; [done|split; [done|simpl; congruence]]]); [done|].
          destruct I2. by split. }
        exists sx, e1, []. do 4 (split; [done|]). split; [done|]. split; [done|]. split; [|intros C Cw; congruence].
        intros C. rewrite Cx. split; [done|]. split; [|auto]. intros _ K _. apply R2; [done|congruence]. }
      destruct (gone_ (channel_ s2)) eqn:G, (shutdown_ s2) eqn:Sh; cbn [andb negb]; apply Hend; try (by auto); done.
    + destruct Hd as [Hd|[_ ?]]; [|done]. exists s2, e1, []. split_and!; try done.
      intros C Cw. by rewrite W2, Fwi, Wi in Cw.
  - destruct Hc as (Hne & ->).
    assert (inv rs (WriteStreamAsync s2) ds1 us ∧ ups f (WriteStreamAsync s2) us ∧ write_inprogress_ (WriteStreamAsync s2) = true ∧
      channel_ (WriteStreamAsync s2) = channel_ s2 ∧ error_ (WriteStreamAsync s2) = error_ s2 ∧
      closed_ (WriteStreamAsync s2) = closed_ s2) as (I3 & U3 & W3 & C3 & E3 & Cl3).
    { unfold WriteStreamAsync. destruct (write_inprogress_ s2) eqn:W; [done|]. split_and!; try done. destruct I2. by split. }
    set (s3 := WriteStreamAsync s2) in *. clearbody s3.
    assert (downs true s3 ds1 ∧ waiting s3 ds1) as [D3 Wt3] by (split; [intros C; by split_and!|by intros C _]).
    destruct wt; cbn [negb]; [|by exists s3, e1, ds1].
    unfold ProcessSentData. destruct (error_ s3) eqn:Er3. { destruct (inv_process_error false rs s3 ds1 us I3). by apply (Hclosed _ ds1). }
    unfold OnStreamWrite, OnDownstreamWriteFlush. rewrite W3. cbn [negb]. rewrite andb_false_r. cbn [andb mbind option_bind].
    rewrite (inv_empty_down I3), bool_decide_eq_false_2, andb_false_r by done. cbn [andb]. by exists s3, e1, ds1.
  - unfold ProcessSentData. destruct (inv_process_error false rs s2 ds1 us I2). by apply (Hclosed _ ds1).
Qed.

Lemma WriteStream_ok rs f s e ds us :
  inv rs s ds us → ups f s us → ready false s ds → write_inprogress_ s = false →
  ∃ s' e' ds', WriteStream s e = Some (s', e') ∧
    dreads e' = dreads e ∧ creads e' = creads e ∧ cwrites e' = cwrites e ∧
    inv rs s' ds' us ∧ ups f s' us ∧ downs true s' ds' ∧ waiting s' ds'.
Proof. intros. unfold WriteStream. replace (length (dwrites e) + 2) with (S (length (dwrites e) + 1)) by lia. by eapply write_stream_ok. Qed.

Lemma client_disconnected_ok rs f s e ds us :
  inv rs s ds us → ready false s ds → waiting s ds →
  ∃ s' e' ds', disconnected s e = Some (s', e') ∧
    dreads e' = dreads e ∧ creads e' = creads e ∧ cwrites e' = cwrites e ∧
    inv rs s' ds' us ∧ ups f s' us ∧ downs true s' ds' ∧ waiting s' ds' ∧
    (ds = [] → connected_ (channel_ s) = true →
     ds' = [] ∧ gone_ (channel_ s') = true ∧ shutdown_ s' = true ∧ write_inprogress_ s' = write_inprogress_ s).
Proof.
  intros I R Wt. destruct (inv_lost rs f s ds us I) as (I' & U' & G'). unfold disconnected. fold (lost s).
  rewrite (inv_empty_down I'). change (shutdown_ (lost s)) with (shutdown_ s).
  assert (connected_ (channel_ (lost s)) = false) as K'.
  { destruct (i_chan I') as (_ & G & _). destruct (connected_ (channel_ (lost s))); [|done]. rewrite G in G'; done. }
  destruct (bool_decide (ds = []) && negb (shutdown_ s)) eqn:Ed.
  - apply andb_true_iff in Ed as [Ed Sh]. apply bool_decide_eq_true in Ed as ->.
    exists (set_shutdown (lost s)), e, []. split; [done|]. do 3 (split; [done|]).
    split; [destruct I'; by split|]. split; [done|]. split; [|done]. intros C. simpl in *. rewrite K'. by split_and!.
  - assert (ds = [] → connected_ (channel_ s) = true → False) as Hno.
    { intros -> K. rewrite bool_decide_eq_true_2 in Ed by done. destruct (shutdown_ s) eqn:Sh; [|done].
      destruct (i_chan I) as (_ & G & _). specialize (G K). destruct (closed_ s) eqn:C.
      - rewrite (i_closed I C) in G. done.
      - destruct (i_shut I Sh C). congruence. }
    assert (ready false (lost s) ds) as R'.
    { intros C _ ->. left. rewrite bool_decide_eq_true_2 in Ed by done. simpl. by destruct (shutdown_ s). }
    destruct (write_inprogress_ s) eqn:Wi.
    + exists (lost s), e, ds. unfold WriteStream. rewrite Nat.add_comm. cbn [Nat.add write_stream].
      change (write_inprogress_ (lost s)) with (write_inprogress_ s). rewrite Wi.
      do 4 (split; [done|]). split; [done|]. split; [done|].
      split; [|split; [done|intros E K; by destruct (Hno E K)]].
      intros C. rewrite K'. split_and!; try done. intros _ E. by destruct (R' C G' E).
    + destruct (WriteStream_ok rs f (lost s) e ds us I' U' R' Wi) as (s' & e' & ds' & E & ? & ? & ? & ? & ? & ? & ?).
      exists s', e', ds'. split_and!; try done; intros ? ?; exfalso; by apply Hno.
Qed.

End Write.

(** A parser reads no more than it is given. *)
Class HttpResponseLaws `{HttpResponseLib} := r_nparsed_le bs : r_nparsed (http_response_parse bs) <= length bs.

Section Flow.
Context `{Allocator} `{CryptoLib} `{Sha1} `{KeyLib} `{RND : RandLib} `{HttpResponseLaws}.
Variable method : cipher_method.
Variable T0 : list byte.
Variable D : nat.

(** What the relay needs of a method: bytes of the application become bytes for the
    channel, and bytes of the server, which [c_rd] admits, bytes for the application. *)
Class Codec := {
  c_down : option cipher → list byte → list byte → Prop;
  c_up : option cipher → list byte → list byte → Prop;
  c_rd : list byte → list byte → Prop;
  c_rd_step p a r : c_rd p (a ++ r) → c_rd (p ++ a) r;
  c_https : method = CRYPTO_HTTPS → ∀ p r, c_rd p r;
  c_decodes s e buf p w rest :
    full buf → IoQueue.represents D (downstream_ s) [] → c_down (decoder_ s) p w → c_rd p (span buf ++ rest) →
    ∃ dec q ys, push_downstream method T0 s e buf = Some (set_ciphers (set_downstream s q) (encoder_ s) dec, e) ∧
      IoQueue.represents D q ys ∧ Forall full ys ∧ c_down dec (p ++ span buf) (w ++ cat ys);
  c_encodes s e buf us p w :
    full buf → IoQueue.represents D (upstream_ s) us → Forall full us → c_up (encoder_ s) p w →
    ∃ enc q ys out, push_upstream method T0 s e buf
                    = Some (set_ciphers (set_upstream s q (upstream_writable_ s)) enc (decoder_ s), e) ∧
      IoQueue.represents D q ys ∧ Forall full ys ∧ ys ≠ [] ∧ cat ys = cat us ++ out ∧
      c_up enc (p ++ span buf) (w ++ out) }.

Context (D0 U0 : list byte) `{Codec}.

Local Abbreviation inv := (RelayInv.inv false D c_down c_up D0 U0 c_rd).

(** *** From the channel *)

Lemma next_downstream_empty rs c e ec us :
  inv rs (rl_ c) [] us → next_downstream c e ec = Some (c, e, match ec with success => again | _ => ec end, None).
Proof. intros I. unfold next_downstream. by rewrite (inv_empty_down I), bool_decide_eq_true_2. Qed.

(** A read that is not recorded. *)
Lemma inv_skip r rs s ds us :
  inv (r :: rs) s ds us → (∀ p, c_rd p (stream_of (r :: rs)) → c_rd p (stream_of rs)) → inv rs s ds us.
Proof. intros I Hr. destruct I. split; try done; [by inversion i_fits0|by apply Hr]. Qed.

(** Bytes of the channel are queued. *)
Lemma inv_push_down rs s e buf us :
  (inv (Read (span buf) :: rs) s [] us ∨ (inv rs s [] us ∧ method = CRYPTO_HTTPS)) → full buf →
  connected_ (channel_ s) = true →
  ∃ s' ds', push_downstream method T0 (record s [] [] (span buf) []) e buf = Some (s', e) ∧ inv rs s' ds' us ∧
    framed s s'.
Proof.
  intros HI Fb K.
  assert (∃ rs0, inv rs0 s [] us) as [rs0 I] by (destruct HI as [I|[I _]]; by eexists).
  assert (c_rd (up_got_ s) (span buf ++ stream_of rs) ∧ Forall fits rs) as [Hr Hf].
  { destruct HI as [I'|[I' Hm]]; [split; [apply (i_read I')|by pose proof (i_fits I') as F; inversion F]|].
    split; [by apply c_https|apply (i_fits I')]. }
  destruct (i_drel I) as (w & Ew & Es). set (s1 := record s [] [] (span buf) []).
  destruct (c_decodes s1 e buf (up_got_ s) w (stream_of rs) Fb) as (dec & q & ys & -> & Rq & Fy & Ew');
    [apply I|done|done|].
  eexists _, ys. split; [done|]. split; [|done].
  destruct I. split; unfold peer_got in *; simpl; rewrite ?app_nil_r; try done.
  - exists (w ++ cat ys). split; [done|]. rewrite app_nil_r in Es. by rewrite Es, app_assoc.
  - by apply c_rd_step.
  - intros S C. destruct (i_shut0 S C) as [_ G]. destruct i_chan0 as (_ & G' & _). specialize (G' K). congruence.
Qed.

(** What a read of the channel leaves. *)
Definition got_down (f : bool) (c c' : client) (e e' : env) (ec : code) (next : option GrowableIOBuffer)
    (ds us : list GrowableIOBuffer) : Prop :=
  dreads e' = dreads e ∧ dwrites e' = dwrites e ∧ cwrites e' = cwrites e ∧ pending_data_ c' = pending_data_ c ∧
  inv (creads e') (rl_ c') ds us ∧ ups f (rl_ c') us ∧
  write_inprogress_ (rl_ c') = false ∧
  ((∃ b ds', next = Some b ∧ ec = success ∧ ds = b :: ds') ∨
   (next = None ∧ ec = again ∧ ds = [] ∧ ready false (rl_ c') []) ∨
   (next = None ∧ ec = failed ∧ ds = [] ∧ gone_ (channel_ (rl_ c')) = true ∧ shutdown_ (rl_ c') = true)).

(** The channel fails with nothing queued for the application. *)
Lemma disconnected_reading rs f s e us :
  inv rs s [] us → connected_ (channel_ s) = true → write_inprogress_ s = false →
  ∃ s', disconnected s e = Some (s', e) ∧ inv rs s' [] us ∧ ups f s' us ∧ write_inprogress_ s' = false ∧
    gone_ (channel_ s') = true ∧ shutdown_ s' = true.
Proof.
  intros I K Wi. destruct (i_chan I) as (_ & G & _). specialize (G K).
  assert (shutdown_ s = false) as Sh.
  { destruct (shutdown_ s) eqn:Sh; [|done]. destruct (closed_ s) eqn:C; [rewrite (i_closed I C) in G; done|].
    destruct (i_shut I Sh C). congruence. }
  destruct (inv_lost rs f s [] us I) as (I' & U' & G'). unfold disconnected. fold (lost s).
  rewrite (inv_empty_down I'), bool_decide_eq_true_2 by done. change (shutdown_ (lost s)) with (shutdown_ s). rewrite Sh.
  eexists. split; [done|]. split; [destruct I'; by split|]. by split_and!.
Qed.

Lemma pushed_down rs f c e buf us c0 e0 :
  (inv (Read (span buf) :: rs) (rl_ c) [] us ∨ (inv rs (rl_ c) [] us ∧ method = CRYPTO_HTTPS)) → full buf →
  ups f (rl_ c) us → connected_ (channel_ (rl_ c)) = true → write_inprogress_ (rl_ c) = false →
  creads e = rs → dreads e = dreads e0 → dwrites e = dwrites e0 → cwrites e = cwrites e0 → pending_data_ c = pending_data_ c0 →
  ∃ c' e' ec next ds,
    ('(s, e) ← push_downstream method T0 (record (rl_ c) [] [] (span buf) []) e buf;
     next_downstream (with_relay c s) e success) = Some (c', e', ec, next) ∧ got_down f c0 c' e0 e' ec next ds us.
Proof.
  intros HI Fb U K Wi Er E1 E2 E3 E4. destruct (inv_push_down rs (rl_ c) e buf us HI Fb K) as (s' & ds & -> & I' & F').
  cbn [mbind option_bind]. pose proof F' as (Fc & Fcl & _ & _ & Fw & _).
  pose proof (framed_ups f _ _ us F' U) as U'. unfold next_downstream. cbn [rl_ with_relay].
  rewrite (inv_empty_down I'). destruct ds as [|b ds].
  - rewrite bool_decide_eq_true_2 by done. eexists _, e, again, None, []. split; [reflexivity|].
    unfold got_down. cbn [rl_ with_relay pending_data_]. rewrite Er. split_and!; try done; [congruence|].
    right. left. split_and!; try done. intros C G. destruct (i_chan I') as (_ & G' & _). rewrite Fc in G, G'.
    specialize (G' K). congruence.
  - rewrite bool_decide_eq_false_2 by done. rewrite (front_of_rep (D := D) _ b ds) by apply I'. cbn [mbind option_bind].
    eexists _, e, success, (Some b), (b :: ds). split; [reflexivity|].
    unfold got_down. cbn [rl_ with_relay pending_data_]. rewrite Er. split_and!; try done; [congruence|].
    left. by exists b, ds.
Qed.

Lemma read_upstream_ok fuel : ∀ f c e us,
  inv (creads e) (rl_ c) [] us → ups f (rl_ c) us → connected_ (channel_ (rl_ c)) = true →
  write_inprogress_ (rl_ c) = false → length (creads e) < fuel →
  ∃ c' e' ec next ds, read_upstream method T0 fuel c e = Some (c', e', ec, next) ∧ got_down f c c' e e' ec next ds us.
Proof.
  induction fuel as [|fuel IH]; intros f c e us I U K Wi Hf; [lia|]. cbn [read_upstream].
  destruct (i_chan I) as (Ee & Eg & _). pose proof (Eg K) as G. rewrite Ee, G.
  assert (∀ rs ec, inv rs (rl_ c) [] us → ec ≠ failed → ∀ e', creads e' = rs → dreads e' = dreads e → dwrites e' = dwrites e →
    cwrites e' = cwrites e →
    ∃ c' e2 ec2 next ds, next_downstream c e' ec = Some (c', e2, ec2, next) ∧ got_down f c c' e e2 ec2 next ds us) as Hagain.
  { intros rs ec I' Hec e' E1 E2 E3 E4. rewrite (next_downstream_empty rs c e' ec us I').
    exists c, e', again, None, []. split; [by destruct ec|]. unfold got_down. rewrite E1. split_and!; try done.
    right. left. split_and!; try done. intros C G'. congruence. }
  destruct (creads e) as [|r rs] eqn:Er; [apply (Hagain [] again); done|].
  destruct r as [bs| |].
  - pose proof (i_fits I) as Fr. apply Forall_cons_1 in Fr as [Fb _]. simpl in Fb.
    destruct (read_buf_spec SOCKET_DEBUF_SIZE bs Fb) as (buf & -> & Wb & Sb & _). cbn [mbind option_bind].
    set (e1 := mkEnv _ _ rs _).
    destruct (empty buf) eqn:Eb.
    { apply (Hagain rs success); try done. apply (inv_skip (Read bs)); [done|]. intros p Hp.
      apply empty_span in Eb; [|done]. rewrite Sb in Eb. by rewrite Eb in Hp. }
    assert (full buf) as Fbuf by by apply empty_full.
    destruct (bool_decide (method = CRYPTO_HTTPS)) eqn:Em; cbn [andb].
    2:{ cbn [mbind option_bind]. rewrite Eb. apply (pushed_down rs f c e1 buf us c e); try done. left. by rewrite Sb. }
    apply bool_decide_eq_true in Em. assert (inv rs (rl_ c) [] us) as I1.
    { apply (inv_skip (Read bs)); [done|]. intros p _. by apply c_https. }
    destruct (upstream_https_handshake_ c) eqn:Hs.
    2:{ cbn [mbind option_bind]. rewrite Eb. apply (pushed_down rs f c e1 buf us c e); try done. by right. }
    unfold ReadUpstreamHttpsHandshake. set (c1 := mkClient (rl_ c) (pending_data_ c) false).
    destruct (r_ok _ && _).
    + destruct (set_offset_advance buf (r_nparsed (http_response_parse (span buf)))) as (buf' & -> & W' & S' & _);
        [done|rewrite <- length_span by done; apply r_nparsed_le|]. cbn [mbind option_bind].
      destruct (empty buf') eqn:Eb'.
      * destruct (IH f c1 e1 us) as (c' & e' & ec & next & ds & E & R); try done; [simpl in Hf |- *; lia|].
        exists c', e', ec, next, ds. split; [exact E|]. exact R.
      * apply (pushed_down rs f c1 e1 buf' us c e); try done; [by right|by apply empty_full].
    + destruct (disconnected_reading rs f (rl_ c) e1 us I1 K Wi) as (s' & E & I' & U' & Wi' & G' & Sh').
      cbn [rl_ c1]. rewrite E. cbn [mbind option_bind]. rewrite Eb. exists (with_relay c1 s'), e1, failed, None, [].
      split; [reflexivity|]. unfold got_down. split_and!; try done. right. right. by split_and!.
  - apply (Hagain rs again); try done. by apply (inv_skip TryAgain).
  - set (e1 := mkEnv _ _ rs _).
    destruct (disconnected_reading rs f (rl_ c) e1 us) as (s' & E & I' & U' & Wi' & G' & Sh'); try done.
    { by apply (inv_skip ReadError). }
    rewrite E. cbn [mbind option_bind]. rewrite (next_downstream_empty rs (with_relay c s') e1 failed us I').
    exists (with_relay c s'), e1, failed, None, []. split; [reflexivity|]. unfold got_down. split_and!; try done.
    right. right. by split_and!.
Qed.

Lemma client_GetNextDownstreamBuf_ok f c e ds us :
  inv (creads e) (rl_ c) ds us → ups f (rl_ c) us → ready false (rl_ c) ds → write_inprogress_ (rl_ c) = false →
  ∃ c' e' ec next ds', GetNextDownstreamBuf method T0 c e = Some (c', e', ec, next) ∧
    got_down f c c' e e' ec next ds' us.
Proof.
  intros I U R Wi. unfold GetNextDownstreamBuf. rewrite (inv_empty_down I). destruct ds as [|b ds].
  2:{ rewrite bool_decide_eq_false_2 by done. cbn [negb]. rewrite (front_of_rep (D := D) _ b ds) by apply I.
      cbn [mbind option_bind]. exists c, e, success, (Some b), (b :: ds). split; [done|]. unfold got_down.
      split_and!; try done. left. by exists b, ds. }
  rewrite bool_decide_eq_true_2 by done. cbn [negb]. destruct (i_pend I) as [_ ->].
  destruct (connected_ (channel_ (rl_ c))) eqn:K; cbn [negb].
  - apply read_upstream_ok; try done. lia.
  - exists c, e, again, None, []. split; [done|]. unfold got_down. split_and!; try done. right. left. by split_and!.
Qed.

(** What a handler leaves of the side of the application. *)
Definition down_ok (f : bool) (c c' : client) (e e' : env) (us : list GrowableIOBuffer) : Prop :=
  ∃ ds, dreads e' = dreads e ∧ cwrites e' = cwrites e ∧ pending_data_ c' = pending_data_ c ∧
    inv (creads e') (rl_ c') ds us ∧ ups f (rl_ c') us ∧ downs true (rl_ c') ds ∧ waiting (rl_ c') ds.

Lemma ReadUpstream_ok f c e ds us :
  inv (creads e) (rl_ c) ds us → ups f (rl_ c) us → downs false (rl_ c) ds → waiting (rl_ c) ds →
  ∃ c' e', ReadUpstream method T0 c e = Some (c', e') ∧ down_ok f c c' e e' us.
Proof.
  intros I U Dn Wt. unfold ReadUpstream.
  destruct (read_inprogress_ (channel_ (rl_ c)) || write_inprogress_ (rl_ c)) eqn:B.
  { exists c, e. split; [done|]. exists ds. split_and!; try done. intros C. destruct (Dn C) as (D1 & _ & D3).
    split_and!; try done. intros _ K Ed. apply orb_true_iff in B as [B|B]; [done|]. by destruct (Wt C B). }
  apply orb_false_iff in B as [Rd Wi].
  destruct (client_GetNextDownstreamBuf_ok f c e ds us I U (downs_ready _ _ _ Dn) Wi)
    as (c1 & e1 & ec & next & ds1 & -> & E1 & E2 & E3 & E4 & I1 & U1 & W1 & Hc). cbn [mbind option_bind].
  destruct Hc as [(b & ds2 & -> & -> & ->)|[(-> & -> & -> & R1)|(-> & -> & -> & G1 & S1)]].
  - pose proof (i_dfull I1) as F. apply Forall_cons_1 in F as [Fb _]. rewrite (full_empty b Fb).
    destruct (WriteStream_ok (creads e1) f (rl_ c1) e1 (b :: ds2) us I1 U1) as (s' & e' & ds' & -> & W2 & W3 & W4 & I' & U' & D' & Wt');
      [by intros ? ?|done|]. cbn [mbind option_bind]. rewrite bool_decide_eq_false_2 by done. cbn [wait_upstream andb].
    exists (with_relay c1 s'), e'. split; [done|]. exists ds'. cbn [rl_ with_relay pending_data_]. rewrite W3.
    split_and!; try done; congruence.
  - cbn [mbind option_bind]. rewrite bool_decide_eq_true_2 by done.
    destruct (inv_wait_upstream (creads e1) f (rl_ c1) [] us true I1 U1) as (I2 & U2 & C2 & S2 & _ & W2 & G2 & K2 & Rd2).
    eexists _, e1. split; [done|]. exists []. cbn [rl_ with_relay pending_data_]. split_and!; try done.
    + intros C. rewrite C2 in C. rewrite K2, G2, S2. split_and!; [done|by auto|].
      intros G _. by destruct (R1 C G).
    + intros C W. by rewrite W2, W1 in W.
  - exists c1, e1. split; [done|]. exists []. split_and!; try done.
    + intros C. split_and!; try done. intros _ K. destruct (i_chan I1) as (_ & G' & _). specialize (G' K). congruence.
    + intros C W. congruence.
Qed.

(** *** To the channel *)

Lemma framed_downs f s s' ds : framed s s' → downs f s ds → downs f s' ds.
Proof. intros (C1 & C2 & C3 & _ & C5 & _) Dn. unfold downs. by rewrite C1, C2, C3, C5. Qed.
Lemma framed_idle wr s s' : framed s s' → idle wr s → idle wr s'.
Proof. intros (C1 & C2 & _ & _ & _ & C6 & _) Id. unfold idle. by rewrite C1, C2, C6. Qed.
Lemma framed_waiting s s' ds : framed s s' → waiting s ds → waiting s' ds.
Proof. intros (_ & C2 & _ & _ & C5 & _) Wt. unfold waiting. by rewrite C2, C5. Qed.

(** Bytes of the application are queued. *)
Lemma inv_push_up rs s e buf ds us :
  inv rs s ds us → full buf →
  ∃ s' us', push_upstream method T0 (record s (span buf) [] [] []) e buf = Some (s', e) ∧ inv rs s' ds us' ∧
    us' ≠ [] ∧ framed s s' ∧ down_got_ s' = down_got_ s ++ span buf.
Proof.
  intros I Fb. destruct (i_urel I) as (w & Ew & Es). set (s1 := record s (span buf) [] [] []).
  destruct (c_encodes s1 e buf us (down_got_ s) w Fb) as (enc & q & ys & out & -> & Rq & Fy & Ny & Ec & Ew');
    [apply I|apply I|done|].
  eexists _, ys. split; [done|]. split; [|done].
  destruct I. split; unfold peer_got in *; simpl; rewrite ?app_nil_r; try done.
  exists (w ++ out). split; [done|]. by rewrite Ec, app_assoc, Es, app_assoc.
Qed.

Definition pend_ok (c : client) : Prop := ∃ xs, IoQueue.represents D (pending_data_ c) xs.

(** The state between two reads of the application. *)
Definition up_pre (f wr : bool) (rs : list read_result) (c : client) (ds us : list GrowableIOBuffer) : Prop :=
  inv rs (rl_ c) ds us ∧ downs f (rl_ c) ds ∧ idle wr (rl_ c) ∧ waiting (rl_ c) ds ∧ pend_ok c.

Definition kept (c c' : client) : Prop :=
  (connected_ (channel_ (rl_ c')) = connected_ (channel_ (rl_ c)) ∧ closed_ (rl_ c') = closed_ (rl_ c)) ∨
  closed_ (rl_ c') = true.

Lemma up_pre_closed f wr rs c ds us :
  inv rs (rl_ c) ds us → closed_ (rl_ c) = true → pend_ok c → up_pre f wr rs c ds us.
Proof.
  intros I C P. split; [done|]. split; [by apply closed_downs|]. split; [intros C'; congruence|].
  split; [by apply closed_waiting|done].
Qed.

(** The channel is gone: the bytes are kept aside, and too many end the connection. *)
Lemma OnStreamRead_lost f wr rs c e buf ds us :
  up_pre f wr rs c ds us → connected_ (channel_ (rl_ c)) = false →
  ∃ c', OnStreamRead method T0 c e buf = Some (c', e) ∧ up_pre f wr rs c' ds us ∧ kept c c'.
Proof.
  intros (I & Dn & Id & Wt & (xs & R)) K. unfold OnStreamRead. rewrite K. cbn [negb].
  rewrite (IoQueue.byte_length_represents D size _ _ R). cbn [mbind option_bind].
  destruct (kMaxHeaderSize <? _).
  - destruct (inv_disconnect false rs (rl_ c) ds us I) as [I' C']. eexists. split; [done|]. split; [|by right].
    apply up_pre_closed; [done|done|by exists xs].
  - eexists. split; [done|]. split; [|by left]. split_and!; try done. exists (xs ++ [buf]). by apply IoQueue.push_back_represents.
Qed.

Lemma client_GetNextUpstreamBuf_ok f wr c e ds us :
  up_pre f wr (creads e) c ds us →
  ∃ c' e' ec next us', GetNextUpstreamBuf method T0 c e = Some (c', e', ec, false, next) ∧
    creads e' = creads e ∧ cwrites e' = cwrites e ∧ up_pre f wr (creads e) c' ds us' ∧ kept c c' ∧
    ((∃ b us2, next = Some b ∧ ec = success ∧ us' = b :: us2)
     ∨ (next = None ∧ ec = again ∧ us' = [])
     ∨ (next = None ∧ ec = failed ∧ closed_ (rl_ c') = true)).
Proof.
  intros P. pose proof P as (I & Dn & Id & Wt & Pd). unfold GetNextUpstreamBuf. rewrite (inv_empty_up I).
  destruct us as [|b us].
  2:{ rewrite bool_decide_eq_false_2 by done. cbn [negb]. rewrite (front_of_rep (D := D) _ b us) by apply I.
      cbn [mbind option_bind]. exists c, e, success, (Some b), (b :: us). do 4 (split; [done|]). split; [by left|].
      left. by exists b, us. }
  rewrite bool_decide_eq_true_2 by done. cbn [negb]. destruct (i_pend I) as [-> _].
  destruct (closed_ (rl_ c)) eqn:C.
  { exists c, e, failed, None, []. do 4 (split; [done|]). split; [by left|]. right. right. by split_and!. }
  assert (∀ e' ec, ec ≠ failed → creads e' = creads e → cwrites e' = cwrites e →
    ∃ c' e2 ec2 next us', next_upstream c e' ec false = Some (c', e2, ec2, false, next) ∧
    creads e2 = creads e ∧ cwrites e2 = cwrites e ∧ up_pre f wr (creads e) c' ds us' ∧ kept c c' ∧
    ((∃ b us2, next = Some b ∧ ec2 = success ∧ us' = b :: us2)
     ∨ (next = None ∧ ec2 = again ∧ us' = [])
     ∨ (next = None ∧ ec2 = failed ∧ closed_ (rl_ c') = true))) as Hagain.
  { intros e' ec Hec E1 E2. unfold next_upstream. rewrite (inv_empty_up I), bool_decide_eq_true_2 by done.
    exists c, e', again, None, []. split; [by destruct ec|]. do 3 (split; [done|]). split; [by left|].
    right. left. by split_and!. }
  destruct (dreads e) as [|r rs]; [by apply Hagain|]. destruct r as [bs| |]; [|by apply Hagain|].
  - destruct (read_buf_full SOCKET_BUF_SIZE bs) as (buf & -> & Wb & _); [done|]. cbn [mbind option_bind].
    destruct (empty buf) eqn:Eb; [by apply Hagain|]. assert (full buf) as Fb by by apply empty_full.
    set (e1 := mkEnv rs _ _ _). destruct (connected_ (channel_ (rl_ c))) eqn:K; cbn [negb].
    + destruct (inv_push_up (creads e) (rl_ c) e1 buf ds [] I Fb) as (s' & us' & -> & I' & Ny & F' & _). cbn [mbind option_bind].
      unfold next_upstream. cbn [rl_ with_relay]. rewrite (inv_empty_up I'). destruct us' as [|y ys]; [done|].
      rewrite bool_decide_eq_false_2 by done. rewrite (front_of_rep (D := D) _ y ys) by apply I'. cbn [mbind option_bind].
      exists (with_relay c s'), e1, success, (Some y), (y :: ys). do 3 (split; [done|]). split.
      { split; [done|]. split; [by eapply framed_downs|]. split; [by eapply framed_idle|]. split; [by eapply framed_waiting|done]. }
      split; [left; pose proof F' as (Fc & Fcl & _); cbn [rl_ with_relay]; by rewrite Fc, Fcl|]. left. by exists y, ys.
    + destruct (OnStreamRead_lost f wr (creads e) c e1 buf ds [] P K) as (c' & -> & P' & K'). cbn [mbind option_bind].
      exists c', e1, again, None, []. do 4 (split; [done|]). split; [done|]. right. left. by split_and!.
  - destruct (inv_process_error false (creads e) (rl_ c) ds [] I) as [I1 C1]. unfold next_upstream, CliRelay.process_error. cbn [rl_ with_relay].
    rewrite (inv_empty_up I1), bool_decide_eq_true_2 by done.
    eexists (with_relay c (process_error (rl_ c))), _, failed, None, []. do 3 (split; [done|]).
    split; [by apply up_pre_closed|]. split; [by right|]. right. right. by split_and!.
Qed.

(** What the pipe to the channel leaves. *)
Definition up_post (f wr : bool) (rs : list read_result) (c : client) (ds us : list GrowableIOBuffer) : Prop :=
  inv rs (rl_ c) ds us ∧ downs f (rl_ c) ds ∧ piped wr (rl_ c) us ∧ waiting (rl_ c) ds ∧ pend_ok c.

Lemma up_post_closed f wr rs c ds us :
  inv rs (rl_ c) ds us → closed_ (rl_ c) = true → pend_ok c → up_post f wr rs c ds us.
Proof.
  intros I C P. split; [done|]. split; [by apply closed_downs|].
  split; [destruct wr; [by apply closed_ups|intros C'; congruence]|]. split; [by apply closed_waiting|done].
Qed.

Lemma kept_trans c1 c2 c3 : kept c1 c2 → kept c2 c3 → kept c1 c3.
Proof. intros [[K1 C1]|C1] [[K2 C2]|C2]; [left; split; congruence|by right|right; congruence|by right]. Qed.

Lemma end_pipe_ok f wr rs c e ds us ta ec :
  up_pre f wr rs c ds us →
  match ec with failed => False | again => us ≠ [] | success => us = [] ∧ ta = true end →
  ∃ c', end_upstream_pipe c e ta ec = Some (c', e) ∧ up_post f wr rs c' ds us ∧ kept c c'.
Proof.
  intros (I & Dn & Id & Wt & Pd) Hc. unfold end_upstream_pipe.
  destruct (end_upstream_ok rs f wr (rl_ c) e ds us ta ec I Dn Id Hc) as (s' & -> & I' & D' & P' & W' & C' & K').
  cbn [mbind option_bind]. exists (with_relay c s'). split; [done|].
  split; [|by left]. split_and!; try done.
  unfold waiting. cbn [rl_ with_relay]. by rewrite C', W'.
Qed.

Lemma client_upstream_pipe_ok fuel : ∀ f wr c e ds us,
  up_pre f wr (creads e) c ds us → length (cwrites e) < fuel →
  ∃ c' e' ds' us', upstream_pipe method T0 fuel c e = Some (c', e') ∧ creads e' = creads e ∧
    up_post f wr (creads e) c' ds' us' ∧ kept c c'.
Proof.
  induction fuel as [|fuel IH]; intros f wr c e ds us P Hf; [lia|]. cbn [upstream_pipe].
  destruct (client_GetNextUpstreamBuf_ok f wr c e ds us P) as (c1 & e1 & ec & next & us1 & -> & Er & Ecw & P1 & K1 & Hcases).
  cbn [mbind option_bind]. pose proof P1 as (I1 & D1 & Id1 & Wt1 & Pd1).
  assert (∀ c2 e2 us2 ta ec, up_pre f wr (creads e) c2 ds us2 → kept c c2 → creads e2 = creads e →
    match ec with failed => False | again => us2 ≠ [] | success => us2 = [] ∧ ta = true end →
    ∃ c' e' ds' us', end_upstream_pipe c2 e2 ta ec = Some (c', e') ∧ creads e' = creads e ∧
      up_post f wr (creads e) c' ds' us' ∧ kept c c') as Hend.
  { intros c2 e2 us2 ta ec2 P2 K2 Hr Hc. destruct (end_pipe_ok f wr (creads e) c2 e2 ds us2 ta ec2 P2 Hc) as (c' & E & P' & K').
    exists c', e2, ds, us2. split; [done|]. split; [done|]. split; [done|]. by eapply kept_trans. }
  destruct Hcases as [(b & us2 & -> & -> & ->)|[(-> & -> & ->)|(-> & -> & C)]].
  - rewrite (bool_decide_eq_false_2 (success = again)) by done. cbn [andb].
    pose proof (i_ufull I1) as F. apply Forall_cons_1 in F as [Fb _]. rewrite (full_empty b Fb).
    destruct (negb (connected_ (channel_ (rl_ c1))) || eof_ (channel_ (rl_ c1))). { by apply (Hend c1 e1 (b :: us2)). }
    destruct (cwrites e1) as [|w ws] eqn:Ews. { by apply (Hend c1 e1 (b :: us2)). }
    destruct w as [n yield| |].
    + destruct (upstream_written (creads e) (rl_ c1) b ds us2 (n `min` size b) I1) as (b' & -> & Hne & He); [lia|].
      cbn [mbind option_bind]. cbv zeta in Hne, He.
      destruct (empty b') eqn:Em; cbn [negb].
      2:{ apply (Hend _ _ (b' :: us2)); try done. split; [by apply Hne|done]. }
      specialize (He eq_refl). cbn [rl_ with_relay]. rewrite (inv_empty_up He).
      set (c2 := with_relay (with_relay c1 _) _).
      assert (up_pre f wr (creads e) c2 ds us2 ∧ kept c c2) as [P2 K2] by done.
      destruct yield; [case_bool_decide; by apply (Hend _ _ us2)|].
      destruct (IH f wr c2 (mkEnv (dreads e1) (dwrites e1) (creads e1) ws) ds us2) as (c' & e' & ds' & us' & E & Er' & P' & K').
      { cbn [creads]. by rewrite Er. }
      { rewrite <- Ecw in Hf. simpl in Hf |- *. lia. }
      exists c', e', ds', us'. split; [exact E|]. cbn [creads] in Er', P'. rewrite Er in Er', P'. split; [done|]. split; [done|].
      by eapply kept_trans.
    + by apply (Hend _ _ (b :: us2)).
    + set (e2 := mkEnv _ _ _ ws). destruct (client_disconnected_ok (creads e) true (rl_ c1) e2 ds (b :: us2) I1)
        as (s2 & e3 & ds2 & -> & Hr1 & Hr2 & Hr3 & I2 & U2 & D2 & Wt2 & _); [by eapply downs_ready|done|].
      cbn [mbind option_bind]. destruct (inv_disconnect false (creads e) s2 ds2 (b :: us2) I2) as [I3 C3].
      exists (with_relay c1 (OnDisconnect s2)), e3, ds2, (b :: us2). split; [done|]. split; [by rewrite Hr2|].
      split; [by apply up_post_closed|by right].
  - rewrite (bool_decide_eq_true_2 (again = again)) by done. cbn [andb negb]. by apply (Hend _ _ []).
  - exists c1, e1, ds, us1. split; [done|]. split; [done|]. split; [by apply up_post_closed|done].
Qed.

(** The pipe in a connection that is up. *)
Lemma client_WriteUpstreamInPipe_ok f c e ds us :
  inv (creads e) (rl_ c) ds us → downs f (rl_ c) ds → ups false (rl_ c) us → waiting (rl_ c) ds → pend_ok c →
  ∃ c' e' ds' us', WriteUpstreamInPipe method T0 c e = Some (c', e') ∧ creads e' = creads e ∧
    up_post f true (creads e) c' ds' us'.
Proof.
  intros I Dn U Wt Pd. unfold WriteUpstreamInPipe. destruct (channel_write_inprogress_ (channel_ (rl_ c))) eqn:Wi.
  - exists c, e, ds, us. split; [done|]. split; [done|]. split_and!; try done. intros C. destruct (U C) as [Un Uc].
    split; [done|]. intros K. destruct (Uc K) as (? & Hne & _). rewrite Wi in *. split_and!; try done. intros _ ->. by destruct Hne.
  - destruct (client_upstream_pipe_ok (length (cwrites e) + 1) f true c e ds us) as (c' & e' & ds' & us' & E & Er & P & _); [|lia|].
    { split_and!; try done. intros C. destruct (U C) as [Un Uc]. split; [done|].
      intros K. destruct (Uc K) as (Hw & _). by rewrite Wi in *. }
    by exists c', e', ds', us'.
Qed.

(** The pipe while [connected] runs. *)
Lemma WriteUpstreamInPipe_first c e ds us :
  up_pre false false (creads e) c ds us →
  ∃ c' e' ds' us', WriteUpstreamInPipe method T0 c e = Some (c', e') ∧ creads e' = creads e ∧
    up_post false false (creads e) c' ds' us' ∧ kept c c'.
Proof.
  intros P. unfold WriteUpstreamInPipe. destruct (channel_write_inprogress_ (channel_ (rl_ c))) eqn:Wi.
  - exists c, e, ds, us. split; [done|]. split; [done|]. split; [done|by left].
  - apply (client_upstream_pipe_ok _ false false c e ds us P). lia.
Qed.

Lemma flushed_ok f rs c e ds us :
  up_post f true rs c ds us →
  ∃ c', flush_upstream (c, e) = (c', e) ∧ up_post f true rs c' ds us.
Proof.
  intros (I & Dn & U & Wt & Pd). destruct (inv_flush_up rs f true (rl_ c) ds us I Dn) as (I' & D' & U' & _ & W' & C' & _).
  eexists. split; [done|]. split_and!; try done; [by apply U'|]. unfold waiting. cbn [fst rl_ with_relay].
  rewrite W', C'. exact Wt.
Qed.

(** The invariant of a connection between two events. *)
Definition sound (rs : list read_result) (c : client) (ds us : list GrowableIOBuffer) : Prop := up_post true true rs c ds us.

Lemma client_flushed_pipe_ok c e ds us :
  inv (creads e) (rl_ c) ds us → downs true (rl_ c) ds → ups false (rl_ c) us → waiting (rl_ c) ds → pend_ok c →
  ∃ c' e' ds' us', flush_upstream <$> WriteUpstreamInPipe method T0 c e = Some (c', e') ∧ sound (creads e') c' ds' us'.
Proof.
  intros I Dn U Wt Pd. destruct (client_WriteUpstreamInPipe_ok true c e ds us I Dn U Wt Pd) as (c1 & e1 & ds1 & us1 & -> & Er & P1).
  destruct (flushed_ok true (creads e) c1 e1 ds1 us1 P1) as (c' & E & P'). exists c', e1, ds1, us1. rewrite Er.
  cbn [fmap option_fmap option_map]. by rewrite E.
Qed.

(** *** [connected] *)

Lemma OnStreamRead_up rs c e buf ds us :
  up_pre false false rs c ds us → connected_ (channel_ (rl_ c)) = true → full buf →
  ∃ c' us', OnStreamRead method T0 c e buf = Some (c', e) ∧ up_pre false false rs c' ds us' ∧
    connected_ (channel_ (rl_ c')) = true ∧ down_got_ (rl_ c') = down_got_ (rl_ c) ++ span buf.
Proof.
  intros (I & Dn & Id & Wt & Pd) K Fb. unfold OnStreamRead. rewrite K. cbn [negb].
  destruct (inv_push_up rs (rl_ c) e buf ds us I Fb) as (s' & us' & -> & I' & Ny & F' & Hg). cbn [mbind option_bind].
  destruct (inv_flush_up rs false false s' ds us' I' (framed_downs _ _ _ _ F' Dn)) as (I2 & D2 & _ & P2 & W2 & C2 & K2).
  specialize (P2 Ny (framed_idle _ _ _ F' Id)). pose proof F' as (Fc & _).
  eexists _, us'. split; [done|]. cbn [rl_ with_relay pending_data_]. split; [|split; [congruence|rewrite <- Hg; unfold OnUpstreamWriteFlush; by case_match]].
  split_and!; try done. cbn [rl_ with_relay]. pose proof (framed_waiting _ _ ds F' Wt) as Wt'. unfold waiting in *. by rewrite W2, C2.
Qed.

Lemma resend_ok rs xs : ∀ c e q ds us fuel,
  up_pre false false rs c ds us → connected_ (channel_ (rl_ c)) = true →
  IoQueue.represents D q xs → Forall full xs → length xs <= fuel →
  ∃ c' us', resend_loop method T0 fuel c e q = Some (c', e) ∧ up_pre false false rs c' ds us' ∧
    connected_ (channel_ (rl_ c')) = true ∧ down_got_ (rl_ c') = down_got_ (rl_ c) ++ cat xs.
Proof.
  induction xs as [|x xs IH]; intros c e q ds us fuel P K R F Hf.
  - exists c, us. assert (IoQueue.empty q = true) as E by by rewrite (IoQueue.empty_represents _ _ _ R).
    rewrite app_nil_r. split; [destruct fuel; cbn [resend_loop]; by rewrite E|done].
  - apply Forall_cons_1 in F as [Fx F]. assert (IoQueue.empty q = false) as E by by rewrite (IoQueue.empty_represents _ _ _ R).
    destruct fuel as [|fuel]; [simpl in Hf; lia|]. cbn [resend_loop]. rewrite E.
    rewrite (front_of_rep (D := D) _ x xs) by done. cbn [mbind option_bind].
    destruct (OnStreamRead_up rs c e x ds us P K Fx) as (c1 & us1 & -> & P1 & K1 & G1). cbn [mbind option_bind].
    destruct (IoQueue.pop_front_represents D _ _ _ R) as [_ R'].
    destruct (IH c1 e _ ds us1 fuel P1 K1 R' F) as (c' & us' & E' & P' & K' & G'); [simpl in Hf; lia|].
    exists c', us'. split_and!; try done. rewrite G', G1. unfold cat. cbn [map concat]. by rewrite <- app_assoc.
Qed.

(** [connected] after the data that waited has been queued; [none] tells whether there
    was none. *)
Lemma connected_tail_ok (none : bool) c e ds us :
  up_pre false false (creads e) c ds us → connected_ (channel_ (rl_ c)) = true →
  ∃ c' e' ds' us',
    ('(c, e) ← (if none then Some (c, e) else WriteUpstreamInPipe method T0 c e);
     let c := with_relay c (set_upstream (rl_ c) (upstream_ (rl_ c)) true) in
     '(c, e) ← ReadUpstream method T0 c e;
     flush_upstream <$> WriteUpstreamInPipe method T0 c e) = Some (c', e') ∧ sound (creads e') c' ds' us'.
Proof.
  intros P K.
  assert (∃ c1 e1 ds1 us1, (if none then Some (c, e) else WriteUpstreamInPipe method T0 c e) = Some (c1, e1) ∧
    creads e1 = creads e ∧ up_post false false (creads e) c1 ds1 us1 ∧
    (connected_ (channel_ (rl_ c1)) = true ∨ closed_ (rl_ c1) = true))
    as (c1 & e1 & ds1 & us1 & -> & Er & (I1 & D1 & P1 & Wt1 & Pd1) & K1).
  { destruct none; [exists c, e, ds, us; split_and!; try done; [apply P..|by left]|].
    destruct (WriteUpstreamInPipe_first c e ds us P) as (c2 & e2 & ds2 & us2 & -> & Er2 & P2 & Kt).
    exists c2, e2, ds2, us2. split; [done|]. split; [done|]. split; [done|]. destruct Kt as [[Kt _]|Kt]; [left; congruence|by right]. }
  cbn [mbind option_bind]. set (c2 := with_relay c1 _). rewrite <- Er in I1.
  assert (inv (creads e1) (rl_ c2) ds1 us1) as I2 by (destruct I1; by split).
  destruct (ReadUpstream_ok false c2 e1 ds1 us1 I2) as (c3 & e3 & -> & ds3 & E1 & E2 & E3 & I3 & U3 & D3 & Wt3); try done.
  { intros C. cbn [c2 rl_ with_relay set_upstream closed_ channel_] in *. destruct K1 as [K1|]; [|congruence]. split; [cbn; congruence|].
    intros _. cbn. destruct (P1 C) as [_ Pc]. destruct (Pc K1) as [_ ->]. by split_and!. }
  cbn [mbind option_bind]. apply (client_flushed_pipe_ok c3 e3 ds3 us1 I3 D3 U3 Wt3).
  destruct Pd1 as [ys Ry]. exists ys. by rewrite E3.
Qed.

(** *** Events *)

Lemma client_sound_closed rs c ds us : inv rs (rl_ c) ds us → closed_ (rl_ c) = true → pend_ok c → sound rs c ds us.
Proof. apply up_post_closed. Qed.

Lemma client_sound_lost c s e ds us :
  inv (creads e) s ds us → ready false s ds → waiting s ds → pend_ok c →
  ∃ c' e' ds' us', lift c (disconnected s e) = Some (c', e') ∧ sound (creads e') c' ds' us'.
Proof.
  intros I R Wt Pd. destruct (client_disconnected_ok (creads e) true s e ds us I R Wt) as (s' & e' & ds' & -> & _ & Er & _ & I' & U' & D' & Wt' & _).
  exists (with_relay c s'), e', ds', us. split; [done|]. rewrite Er. by split_and!.
Qed.

Lemma step_app_readable ok c e ds us :
  sound (creads e) c ds us →
  ∃ c' e' ds' us', step method T0 c (AppReadable ok) e = Some (c', e') ∧ sound (creads e') c' ds' us'.
Proof.
  intros (I & Dn & U & Wt & Pd). cbn [step].
  destruct (downstream_read_inprogress_ (rl_ c)); cbn [negb]; [|by exists c, e, ds, us].
  set (s1 := set_waits (rl_ c) false (write_inprogress_ (rl_ c))).
  assert (inv (creads e) s1 ds us) as I1 by (destruct I; by split).
  change (closed_ s1) with (closed_ (rl_ c)).
  destruct (closed_ (rl_ c)) eqn:C; [exists (with_relay c s1), e, ds, us; split; [done|by apply client_sound_closed]|].
  destruct ok; [apply (client_flushed_pipe_ok (with_relay c s1) e ds us I1); try done|].
  - intros C1. destruct (ups_weaken (rl_ c) us U C) as [Un Uc]. split; [done|]. intros K. by destruct (Uc K) as (? & ? & _).
  - destruct (inv_process_error false _ s1 ds us I1) as [I2 C2]. eexists (with_relay c (process_error s1)), e, ds, us.
    split; [done|by apply client_sound_closed].
Qed.

Lemma step_app_writable ok c e ds us :
  sound (creads e) c ds us →
  ∃ c' e' ds' us', step method T0 c (AppWritable ok) e = Some (c', e') ∧ sound (creads e') c' ds' us'.
Proof.
  intros (I & Dn & U & Wt & Pd). cbn [step].
  destruct (write_inprogress_ (rl_ c)); cbn [negb]; [|by exists c, e, ds, us].
  set (s1 := set_waits (rl_ c) (downstream_read_inprogress_ (rl_ c)) false).
  assert (inv (creads e) s1 ds us) as I1 by (destruct I; by split).
  change (closed_ s1) with (closed_ (rl_ c)).
  destruct (closed_ (rl_ c)) eqn:C; [exists (with_relay c s1), e, ds, us; split; [done|by apply client_sound_closed]|].
  destruct ok.
  - destruct (WriteStream_ok (creads e) true s1 e ds us I1 U) as (s' & e' & ds' & E & _ & Er & _ & I' & U' & D' & Wt');
      [by apply (downs_ready true (rl_ c))|done|].
    exists (with_relay c s'), e', ds', us. rewrite E, Er. split; [done|]. by split_and!.
  - destruct (inv_process_error false _ s1 ds us I1) as [I2 C2]. eexists (with_relay c (process_error s1)), e, ds, us.
    split; [done|by apply client_sound_closed].
Qed.

Lemma client_step_channel_readable ok c e ds us :
  sound (creads e) c ds us →
  ∃ c' e' ds' us', step method T0 c (ChannelReadable ok) e = Some (c', e') ∧ sound (creads e') c' ds' us'.
Proof.
  intros (I & Dn & U & Wt & Pd). cbn [step].
  destruct (read_inprogress_ (channel_ (rl_ c))) eqn:Rd; cbn [negb]; [|by exists c, e, ds, us].
  set (s1 := set_channel (rl_ c) (read_over (channel_ (rl_ c)))).
  assert (inv (creads e) s1 ds us) as I1.
  { destruct I as [? ? ? ? ? ? (E1 & E2 & E3) ? ? ? ? ? ?]. split; try done. split_and!; try done.
    intros K G. split; [done|]. by apply E3. }
  assert (downs false s1 ds) as D1 by (intros C; destruct (Dn C) as (? & ? & ?); by split_and!).
  change (connected_ (channel_ s1)) with (connected_ (channel_ (rl_ c))). change (gone_ (channel_ s1)) with (gone_ (channel_ (rl_ c))).
  change (closed_ s1) with (closed_ (rl_ c)).
  destruct (connected_ (channel_ (rl_ c))) eqn:K; cbn [negb orb].
  2:{ exists (with_relay c s1), e, ds, us. split; [done|]. split; [done|]. split; [|by split_and!].
      intros C. destruct (D1 C) as (? & _ & ?). split; [done|]. split; [simpl; congruence|done]. }
  destruct (i_chan I) as (_ & G & _). rewrite (G K). cbn [orb].
  destruct (closed_ (rl_ c)) eqn:C; [exists (with_relay c s1), e, ds, us; split; [done|by apply client_sound_closed]|].
  destruct ok; [|apply (client_sound_lost c s1 e ds us); try done; by eapply downs_ready].
  destruct (ReadUpstream_ok true (with_relay c s1) e ds us I1) as (c' & e' & E & ds' & _ & _ & E3 & I' & U' & D' & Wt'); try done.
  exists c', e', ds', us. split; [exact E|]. split_and!; try done. destruct Pd as [ys Ry]. exists ys. by rewrite E3.
Qed.

Lemma client_step_channel_writable ok c e ds us :
  sound (creads e) c ds us →
  ∃ c' e' ds' us', step method T0 c (ChannelWritable ok) e = Some (c', e') ∧ sound (creads e') c' ds' us'.
Proof.
  intros (I & Dn & U & Wt & Pd). cbn [step].
  destruct (channel_write_inprogress_ (channel_ (rl_ c))) eqn:Wi; cbn [negb]; [|by exists c, e, ds, us].
  set (s1 := set_channel (rl_ c) (write_over (channel_ (rl_ c)))).
  assert (inv (creads e) s1 ds us) as I1.
  { destruct I as [? ? ? ? ? ? (E1 & E2 & E3) ? ? ? ? ? ?]. split; try done. split_and!; try done.
    intros K G. split; [|done]. by apply E3. }
  change (connected_ (channel_ s1)) with (connected_ (channel_ (rl_ c))). change (gone_ (channel_ s1)) with (gone_ (channel_ (rl_ c))).
  change (closed_ s1) with (closed_ (rl_ c)).
  destruct (connected_ (channel_ (rl_ c))) eqn:K; cbn [negb orb].
  2:{ exists (with_relay c s1), e, ds, us. split; [done|]. split; [done|]. split; [done|]. split; [|done].
      intros C. destruct (U C) as (? & ?). split; [done|]. simpl. congruence. }
  destruct (i_chan I) as (_ & G & _). rewrite (G K). cbn [orb].
  destruct (closed_ (rl_ c)) eqn:C; [exists (with_relay c s1), e, ds, us; split; [done|by apply client_sound_closed]|].
  destruct ok; [|apply (client_sound_lost c s1 e ds us); try done; by apply (downs_ready true (rl_ c))]. unfold sent.
  apply (client_flushed_pipe_ok _ e ds us); [destruct I1; by split|done| |done|done].
  intros _. split; [simpl; congruence|]. done.
Qed.

Lemma client_step_sound c ev e ds us :
  sound (creads e) c ds us →
  ∃ c' e' ds' us', step method T0 c ev e = Some (c', e') ∧ sound (creads e') c' ds' us'.
Proof.
  intros S. destruct ev; [by eapply step_app_readable|by eapply step_app_writable| |by eapply client_step_channel_readable|
    by eapply client_step_channel_writable].
  pose proof S as (I & _ & _ & _ & Pd). destruct (inv_disconnect false _ (rl_ c) ds us I) as [I' C'].
  exists (with_relay c (OnDisconnect (rl_ c))), e, ds, us. split; [done|by apply client_sound_closed].
Qed.

Lemma client_run_sound evs : ∀ c rs ds us,
  sound rs c ds us →
  ∃ c' rs' ds' us', run method T0 c rs evs = Some (c', rs') ∧ sound rs' c' ds' us'.
Proof.
  induction evs as [|[ev [[dr dw] cw]] evs IH]; intros c rs ds us S; cbn [run].
  - by exists c, rs, ds, us.
  - destruct (client_step_sound c ev (mkEnv dr dw rs cw) ds us S) as (c1 & e1 & ds1 & us1 & -> & S1). cbn [mbind option_bind].
    by apply (IH c1 (creads e1) ds1 us1).
Qed.

End Flow.

(** ** The start *)

Section Start.
Context `{Allocator} `{CryptoLib} `{Sha1} `{KeyLib} `{RND : RandLib} `{HttpResponseLaws}.
Variables (method : cipher_method) (T0 : list byte) (D : nat).

(** The same method, with the bytes [pre] in front. *)
Definition after (pre : list byte) (C : Codec method T0 D) : Codec method T0 D.
Proof.
  refine {| c_down := c_down method T0 D; c_up enc p w := c_up method T0 D enc p w ∧ pre `prefix_of` p; c_rd := c_rd method T0 D |}.
  - apply c_rd_step.
  - apply c_https.
  - apply c_decodes.
  - intros s e buf us p w Fb R F [Hu Hp]. destruct (c_encodes method T0 D s e buf us p w Fb R F Hu) as (enc & q & ys & out & ? & ? & ? & ? & ? & ?).
    exists enc, q, ys, out. split_and!; try done. by apply prefix_app_r.
Defined.

(** The connection in [connected], with the request queued in [up] and [pending] kept
    for it. *)
Definition start (up down pending : queue) (enc dec : option cipher) (https reading writing : bool) : client :=
  mkClient (mkRelay false false false up false down reading writing false false (mkStream true false false false false)
              enc dec [] [] [] []) pending https.

Lemma session_sound (C : Codec method T0 D) up down pending enc dec https reading writing us ds xs rs dr dw cw evs :
  let c0 := start up down pending enc dec https reading writing in
  2 <= D → queued D (rl_ c0) ds us → (ds ≠ [] ↔ writing = true) → IoQueue.represents D pending xs → Forall full xs →
  Forall fits rs → c_rd method T0 D [] (stream_of rs) → c_down method T0 D dec [] [] → c_up method T0 D enc [] [] →
  ∃ c rs' ds' us', session method T0 D c0 rs dr dw cw evs = Some (c, rs') ∧
    sound method T0 D (cat ds) (cat us) (H5 := after (cat xs) C) rs' c ds' us'.
Proof.
  intros c0 HD (Rd & Fd & Ru & Fu) Hw Rp Fp Hf Hr Hd Hu. unfold session.
  set (e0 := mkEnv dr dw rs cw).
  assert (up_pre method T0 D (cat ds) (cat us) (H5 := C) false false rs c0 ds us) as P0.
  { split; [|split; [|split; [|split]]].
    - split; try done; by exists []; rewrite app_nil_r.
    - intros _. split; [apply Hw|done].
    - done.
    - intros _. apply Hw.
    - by exists xs. }
  assert (∃ c1 us1, on_connected method T0 D c0 e0 =
    ('(c, e) ← (if bool_decide (xs = []) then Some (c1, e0) else WriteUpstreamInPipe method T0 c1 e0);
     let c := with_relay c (set_upstream (rl_ c) (upstream_ (rl_ c)) true) in
     '(c, e) ← ReadUpstream method T0 c e;
     flush_upstream <$> WriteUpstreamInPipe method T0 c e) ∧
    up_pre method T0 D (cat ds) (cat us) (H5 := C) false false rs c1 ds us1 ∧
    connected_ (channel_ (rl_ c1)) = true ∧ down_got_ (rl_ c1) = cat xs) as (c1 & us1 & -> & P1 & K1 & G1).
  { unfold on_connected. change (pending_data_ c0) with pending. rewrite (IoQueue.empty_represents _ _ _ Rp).
    case_bool_decide as Ex; [exists c0, us; by rewrite Ex|].
    cbn [IoQueue.move_construct]. destruct pending as [ix ex qx]. cbn [IoQueue.idx IoQueue.end_idx IoQueue.queue].
    set (c2 := mkClient (rl_ c0) _ _).
    destruct (resend_ok method T0 D (cat ds) (cat us) (H5 := C) rs xs c2 e0 (IoQueue.mkQueue ix ex qx) ds us
      (IoQueue.length (IoQueue.mkQueue ix ex qx))) as (c1 & us1 & -> & P1 & K1 & G1); try done.
    { destruct P0 as (? & ? & ? & ? & _). split_and!; try done. exists []. by apply IoQueue.represents_make. }
    { by rewrite (IoQueue.length_represents _ _ _ Rp). }
    by exists c1, us1. }
  destruct (connected_tail_ok method T0 D (cat ds) (cat us) (H5 := after (cat xs) C) (bool_decide (xs = [])) c1 e0 ds us1)
    as (c2 & e2 & ds2 & us2 & -> & S2).
  { destruct P1 as (I1 & ?). split; [|done]. destruct I1. split; try done. destruct i_urel0 as (w & Hw1 & Ew). exists w.
    split; [|done]. split; [done|]. by rewrite G1. }
  { done. }
  cbn [mbind option_bind]. apply (client_run_sound method T0 D (cat ds) (cat us) (H5 := after (cat xs) C) evs c2 (creads e2) ds2 us2 S2).
Qed.

End Start.

(** ** The methods *)

(** HTTPS and SOCKS: the bytes themselves. *)
Definition plain_codec `{Allocator} `{CryptoLib} `{Sha1} `{KeyLib} `{RND : RandLib} method T0 D (is_plain : plain method = true)
  : Codec method T0 D.
Proof.
  refine {| c_down _ p w := w = p; c_up _ p w := w = p; c_rd _ _ := True |}; try done.
  - intros s e buf p w rest Fb R -> _. unfold push_downstream. rewrite is_plain.
    exists (decoder_ s), (IoQueue.push_back (downstream_ s) buf), [buf]. split; [done|].
    split; [by apply (IoQueue.push_back_represents D _ [])|]. split; [by constructor|].
    unfold cat. simpl. by rewrite app_nil_r.
  - intros s e buf us p w Fb R F ->. unfold push_upstream. rewrite is_plain.
    exists (encoder_ s), (IoQueue.push_back (upstream_ s) buf), (us ++ [buf]), (span buf). split; [done|].
    split; [by apply IoQueue.push_back_represents|]. split; [apply Forall_app; split; [done|by constructor]|].
    split; [by destruct us|]. split; [|done]. rewrite cat_app. unfold cat at 2. simpl. by rewrite app_nil_r.
Defined.

(** Shadowsocks, with a server that sends a genuine stream. *)
Section Ss.
Context `{Allocator} `{CryptoLaws} `{Sha1Laws} `{KeyLaws} `{RND : RandLib} `{!RandLaws RND}.
Variables (method : cipher_method) (T0 : list byte) (D : nat).
Hypothesis not_plain : plain method = false.

(** The suite and the key, the payloads of the request, those sealed since, and the stream of the server,
    of which [W] is read. *)
Variables (u : suite) (km : list byte) (qts0 low : list (list byte)) (salt : list byte) (pts : list (list byte)) (wire W : list byte).
Hypothesis suite_good : suite_ok u.
Hypothesis salt_length : length salt = su_key u.
Hypothesis pts_ok : Forall payload_ok pts.
Hypothesis W_prefix : W `prefix_of` wire.

Definition ss_up (enc : option cipher) (p w : list byte) : Prop :=
  ∃ c qts, enc = Some c ∧ encoded u km c (qts0 ++ qts) ∧ w = frames (own_sealing u km) (advance 0 qts0) qts ∧
    concat qts = p ∧ low `prefix_of` qts.

(** The decoder's visitor in the relay. *)
Lemma client_visit_push bufs : ∀ s e,
  Forall full bufs →
  visit (Some (s, e)) bufs = Some (set_downstream s (fold_left IoQueue.push_back bufs (downstream_ s)), e).
Proof.
  induction bufs as [|b bufs IH]; intros s e F; [by destruct s|].
  apply Forall_cons_1 in F as [Fb F]. unfold visit in *. cbn [fold_left].
  cbn [on_received_data client_visitor]. rewrite (full_empty b Fb). cbn [fst mbind option_bind]. by rewrite IH.
Qed.

Definition ss_codec : Codec method T0 D.
Proof.
  refine {| c_down := ss_dec u km salt pts [] wire; c_up := ss_up; c_rd p r := p ++ r = W |}.
  - intros p a r. by rewrite app_assoc.
  - intros ->. done.
  - intros s e buf p w rest [Wb Nb] R Hd Hr. unfold push_downstream.
    pose proof Hd as (c & _ & _ & Ec & _). rewrite not_plain, Ec in *. cbn [mbind option_bind].
    destruct (ss_dec_step T0 u km suite_good salt pts [] wire salt_length pts_ok (λ v : option (relay * env), v ≠ None) c (Some (s, e))
      buf p w rest) as (c' & bufs & -> & Fb & _ & Hd'); try done; [|by rewrite Hr|].
    { intros v b Ev Wv Nv. cbn [on_received_data client_visitor]. rewrite full_empty by done. by destruct v as [[]|]. }
    cbn [mbind option_bind]. rewrite client_visit_push by done. cbn [mbind option_bind].
    exists (Some c'), (fold_left IoQueue.push_back bufs (downstream_ s)), bufs.
    split; [done|]. split; [by apply (push_all_represents bufs _ [])|]. by split.
  - intros s e buf us p w Fb R F (c & qts & Ec & En & -> & <- & Lw). unfold push_upstream. rewrite not_plain, Ec. cbn [mbind option_bind].
    destruct (EncryptData_ready T0 u km D c (upstream_ s) us buf (qts0 ++ qts) Fb R F En)
      as (c' & q' & ys & qts' & -> & R' & Fy & Ny & En' & Sy & K'). cbn [mbind option_bind].
    exists (Some c'), q', ys, (frames (own_sealing u km) (advance 0 (qts0 ++ qts)) qts'). split; [done|].
    do 4 (split; [done|]). exists c', (qts ++ qts'). split; [done|]. rewrite app_assoc. split; [done|].
    rewrite frames_app, advance_app, concat_app, K'. split_and!; try done. by apply prefix_app_r.
Defined.

End Ss.

(** ** Properties *)

Section Properties.
Context `{Allocator} `{CryptoLaws} `{Sha1Laws} `{KeyLaws} `{RND : RandLib} `{!RandLaws RND} `{HttpResponseLaws}.
Variables (method : cipher_method) (T0 : list byte) (D : nat).

(** C9: the client's relay of an HTTPS connection, for an application whose connection is not kept for
    further HTTP requests, is two pipes and does not hang.
    From [connected] on, whatever happens on the two sockets, in whatever order, however
    they cut what they read and take, and whenever one of them fails: no handler
    aborts; what the application has been sent and what is queued for it is exactly what was
    queued at the start and what the channel delivered behind the reply to CONNECT, in
    order; what the channel has been sent and what is queued for it is the request, the
    data that waited and what the application sent since; every queue with data and every
    socket that may deliver some has a handler waiting for it; and the application's side
    is half-closed only when all has been written and the channel is gone. *)
Theorem client_relay_transparent up down pending enc dec https reading writing us ds xs rs dr dw cw evs :
  let c0 := start up down pending enc dec https reading writing in
  method = CRYPTO_HTTPS → 2 <= D → queued D (rl_ c0) ds us → (ds ≠ [] ↔ writing = true) →
  IoQueue.represents D pending xs → Forall full xs → Forall fits rs →
  ∃ c rs' ds' us', session method T0 D c0 rs dr dw cw evs = Some (c, rs') ∧
    let s := rl_ c in
    queued D s ds' us' ∧ awake s ds' us' ∧
    down_sent_ s ++ cat ds' = cat ds ++ up_got_ s ∧
    up_sent_ s ++ cat us' = cat us ++ down_got_ s ∧ cat xs `prefix_of` down_got_ s ∧
    (shutdown_ s = true → closed_ s = false → gone_ (channel_ s) = true ∧ down_sent_ s = cat ds ++ up_got_ s).
Proof.
  intros c0 Hm HD Hq Hw Rp Fp Hf. assert (plain method = true) as Hp by by rewrite Hm.
  destruct (session_sound method T0 D (plain_codec method T0 D Hp) up down pending enc dec https reading writing us ds xs
    rs dr dw cw evs) as (c & rs' & ds' & us' & E & (I & Dn & U & _)); try done.
  destruct (i_drel I) as (w & -> & Es), (i_urel I) as (w' & [-> Hpre] & Eu).
  exists c, rs', ds', us'. split; [done|]. cbv zeta. split; [by eapply inv_queued|]. split; [by eapply sound_awake|].
  split_and!; try done. intros Sh Cl. destruct (i_shut I Sh Cl) as [-> G]. split; [done|]. by rewrite <- Es, app_nil_r.
Qed.

(** C10: the client's relay of a shadowsocks connection, for every AEAD method and
    password.  The encoder has sealed the request; from [connected] on, whatever happens on
    the sockets, while the server sends (a part of) a genuine stream: the handlers never
    abort; what the channel has been sent and what is queued for it are one salt and
    frames of exactly the request, the data that waited and what the application sent
    since; the application is sent the payloads of the server in order, all of them
    once the stream has been read; and the relay does not hang. *)
Theorem client_relay_shadowsocks password :
  is_aead method = true → 2 <= D →
  ∃ u km, suite_ok u ∧ length km = MAX_KEY_LENGTH ∧
  make_cipher [] password method true = Some (fresh true u km) ∧
  make_cipher [] password method false = Some (fresh false u km) ∧
  ∀ request T1 ce up salt pts down pending reading writing ds xs rs dr dw cw evs,
  let wire := salt ++ frames (stream_sealing u km salt) 0 pts in
  let c0 := start up down pending (Some ce) (Some (fresh false u km)) false reading writing in
  full request → EncryptData T1 (fresh true u km) (IoQueue.make D) (span request) = Some (ce, up, false) →
  length salt = su_key u → Forall payload_ok pts → stream_of rs `prefix_of` wire →
  IoQueue.represents D down ds → Forall full ds → (ds ≠ [] ↔ writing = true) →
  IoQueue.represents D pending xs → Forall full xs → Forall fits rs →
  ∃ c rs' ds' us' dn, session method T0 D c0 rs dr dw cw evs = Some (c, rs') ∧
    let s := rl_ c in
    queued D s ds' us' ∧ awake s ds' us' ∧
    sealed u km (span request ++ down_got_ s) (up_sent_ s ++ cat us') ∧ cat xs `prefix_of` down_got_ s ∧
    down_sent_ s ++ cat ds' = cat ds ++ concat dn ∧ dn `prefix_of` pts ∧
    (stream_of rs = wire → stream_of rs' = [] → dn = pts).
Proof.
  intros Hm HD. destruct (make_cipher_fresh method password Hm) as (u & km & Hu & _ & Hkm & Hmk).
  exists u, km. split; [done|]. split; [done|]. split; [done|]. split; [done|].
  intros request T1 ce up salt pts down pending reading writing ds xs rs dr dw cw evs wire c0 Fq Eq Hs Hpts Hpre Rd Fd Hw Rp Fp Hf.
  assert (plain method = false) as Hp by by destruct method.
  destruct (EncryptData_fresh T1 u km Hu D (IoQueue.make D) request Hkm Fq) as (c' & q' & y & qts0 & E' & Ry & Fy & En & Sy & K0 & _);
    [by apply IoQueue.represents_make|]. rewrite Eq in E'. simplify_eq.
  destruct (session_sound method T0 D (ss_codec method T0 D Hp u km qts0 [] salt pts wire (stream_of rs) Hu Hs Hpts Hpre)
    q' down pending (Some c') (Some (fresh false u km)) false reading writing [y] ds xs rs dr dw cw evs)
    as (c & rs' & ds' & us' & E & (I & Dn & U & _)); try done.
  { split_and!; try done. by constructor. }
  { exists (fresh false u km), [], wire. split_and!; try done. by apply dec_rel_start. }
  { exists c', []. rewrite app_nil_r. by split_and!. }
  destruct (i_drel I) as (w & (c2 & dn & rest & _ & Rel & Hr & ->) & Es), (i_urel I) as (w' & [(c3 & qts & _ & En3 & -> & K3 & _) Hxs] & Eu).
  exists c, rs', ds', us', dn. split; [done|]. cbv zeta. split; [by eapply inv_queued|]. split; [by eapply sound_awake|].
  split; [|split_and!; try done; [by eapply dec_rel_prefix|]].
  - right. exists (qts0 ++ qts). split; [|split; [apply En3|by rewrite concat_app, K0, K3]]. rewrite Eu.
    unfold cat. cbn [map concat]. by rewrite app_nil_r, Sy, <- app_assoc, frames_app.
  - intros Hall Hnil. pose proof (i_read I) as Rr. cbn [peer_got] in Rr.
    assert (up_got_ (rl_ c) = wire) as Hg by (rewrite <- Hall, <- Rr; cbn; by rewrite Hnil, app_nil_r).
    rewrite Hg in Hr. rewrite <- (app_nil_r wire) in Hr at 2. apply app_inv_head in Hr as ->.
    by eapply dec_rel_end.
Qed.

(** The reply of an HTTPS server.  Of the first bytes the channel delivers, the header
    of a 200 response is taken off: what is behind it goes to the application, and
    without any the next bytes are read.  Any other response ends the connection to the
    server, and the application's side is half-closed without a byte of it. *)
Theorem client_https_reply c e bs rs :
  method = CRYPTO_HTTPS → upstream_https_handshake_ c = true → IoQueue.represents D (downstream_ (rl_ c)) [] →
  pending_downstream_read_error_ (rl_ c) = false → connected_ (channel_ (rl_ c)) = true → eof_ (channel_ (rl_ c)) = false →
  shutdown_ (rl_ c) = false → creads e = Read bs :: rs → bs ≠ [] → fits (Read bs) →
  let r := http_response_parse bs in
  let good := r_ok r && (r_status_code r =? 200)%Z in
  let e1 := mkEnv (dreads e) (dwrites e) rs (cwrites e) in
  let c1 := mkClient (rl_ c) (pending_data_ c) false in
  (good = true → r_nparsed r < length bs → ∃ c' buf,
     GetNextDownstreamBuf method T0 c e = Some (c', e1, success, Some buf) ∧ span buf = drop (r_nparsed r) bs ∧
     up_got_ (rl_ c') = up_got_ (rl_ c) ++ drop (r_nparsed r) bs ∧ upstream_https_handshake_ c' = false) ∧
  (good = true → r_nparsed r = length bs →
     GetNextDownstreamBuf method T0 c e = read_upstream method T0 (length rs + 1) c1 e1) ∧
  (good = false →
     GetNextDownstreamBuf method T0 c e = Some (with_relay c1 (set_shutdown (lost (rl_ c))), e1, failed, None)).
Proof.
  intros Hm Hh R Pe K Eo Sh Er Hb Hf r good e1 c1. unfold GetNextDownstreamBuf.
  rewrite (IoQueue.empty_represents _ _ _ R), bool_decide_eq_true_2, Pe, K, Er by done. cbn [negb length Nat.add read_upstream].
  rewrite Eo, Er, (bool_decide_eq_true_2 (method = CRYPTO_HTTPS)), Hh by done.
  destruct (read_buf_spec SOCKET_DEBUF_SIZE bs Hf) as (buf & -> & Wb & Sb & _). cbn [mbind option_bind andb].
  assert (empty buf = false) as Eb by (apply full_empty; split; [done|by rewrite Sb]). rewrite Eb.
  unfold ReadUpstreamHttpsHandshake. rewrite Sb. fold r. fold good.
  destruct (set_offset_advance buf (r_nparsed r)) as (buf' & Eo' & W' & S' & _);
    [done|rewrite <- length_span, Sb by done; apply r_nparsed_le|]. rewrite Sb in S'.
  split_and!.
  - intros -> Hl. rewrite Eo'. cbn [mbind option_bind].
    assert (full buf') as Fb'. { split; [done|]. rewrite S'. intros E. apply (f_equal length) in E. rewrite length_drop in E. simpl in E. lia. }
    rewrite (full_empty _ Fb'). unfold push_downstream. assert (plain method = true) as -> by by rewrite Hm.
    cbn [mbind option_bind]. unfold next_downstream. cbn [rl_ with_relay set_downstream downstream_ record].
    pose proof (IoQueue.push_back_represents D _ _ buf' R) as R'. rewrite (IoQueue.empty_represents _ _ _ R').
    rewrite bool_decide_eq_false_2 by done. cbn [app] in R'. rewrite (front_of_rep (D := D) _ buf' []) by done. cbn [mbind option_bind].
    eexists _, buf'. split; [reflexivity|]. split; [done|]. simpl. by rewrite S'.
  - intros -> Hl. rewrite Eo'. cbn [mbind option_bind].
    assert (empty buf' = true) as ->. { apply empty_span; [done|]. rewrite S'. apply drop_ge. lia. } done.
  - intros ->. unfold disconnected. cbn [rl_ downstream_ shutdown_ set_channel set_upstream].
    rewrite (IoQueue.empty_represents _ _ _ R), bool_decide_eq_true_2, Sh by done. cbn [negb andb mbind option_bind].
    by rewrite Eb.
Qed.

End Properties.

(** ** Witnesses *)

Lemma client_relay_transparent_witness :
  let HA := (λ _, x00) : Allocator in
  let HC := example_lib in
  let HS := (λ _, replicate 20 x09) : Sha1 in
  let HK := example_keylib in
  let HN := example_rand in
  let HR := (λ bs, mkHttpResponse (length bs `min` 2) true 200 [] 0) : HttpResponseLib in
  let c0 := start (queue_of [byte_buf [x47]]) (queue_of []) (queue_of [byte_buf [x40]]) None None true true false in
  let evs := [(ChannelReadable true, ([], [Wrote 1 false], []));
              (AppWritable true, ([], [Wrote 9 false], []));
              (AppReadable true, ([Read [x41; x42]; TryAgain], [], [Wrote 9 false]));
              (ChannelReadable true, ([], [], []))] in
  ∃ c rs', session CRYPTO_HTTPS [] 4 c0 [TryAgain; Read [x32; x30; x61; x62]; ReadError]
      [TryAgain] [] [Wrote 9 false; Wrote 9 false] evs = Some (c, rs') ∧
    down_sent_ (rl_ c) = [x61; x62] ∧ up_sent_ (rl_ c) = [x47; x40; x41; x42] ∧ shutdown_ (rl_ c) = true ∧
    gone_ (channel_ (rl_ c)) = true.
Proof.
  intros HA HC HS HK HN HR c0 evs. assert (HttpResponseLaws) as LR by (intros bs; simpl; lia).
  destruct (client_relay_transparent CRYPTO_HTTPS [] 4 (queue_of [byte_buf [x47]]) (queue_of []) (queue_of [byte_buf [x40]])
    None None true true false [byte_buf [x47]] [] [byte_buf [x40]] [TryAgain; Read [x32; x30; x61; x62]; ReadError]
    [TryAgain] [] [Wrote 9 false; Wrote 9 false] evs)
    as (c & rs' & ds' & us' & E & _); [reflexivity|lia| |by split|apply queue_of_represents|
      repeat constructor; apply byte_buf_full|repeat constructor; simpl; unfold SOCKET_DEBUF_SIZE; lia|].
  { split_and!; try apply queue_of_represents; [constructor|repeat constructor; apply byte_buf_full]. }
  exists c, rs'. split; [exact E|]. vm_compute in E. injection E as <- <-. by vm_compute.
Defined.

Lemma client_relay_shadowsocks_witness :
  let HA := (λ _, x00) : Allocator in
  let HC := example_lib in
  let HS := (λ _, replicate 20 x09) : Sha1 in
  let HK := example_keylib in
  let HN := example_rand in
  let HR := (λ bs, mkHttpResponse 0 false 0 [] 0) : HttpResponseLib in
  let L1 := example_laws in
  let m := CRYPTO_AES128GCMSHA256_EVP in
  ∃ u km ce up, make_cipher [] [x70] m true = Some (fresh true u km) ∧ make_cipher [] [x70] m false = Some (fresh false u km) ∧
    EncryptData [] (fresh true u km) (IoQueue.make 4) [x52] = Some (ce, up, false) ∧
    let salt := replicate (su_key u) x03 in
    let wire := salt ++ frames (stream_sealing u km salt) 0 [[x41; x42]] in
    ∃ c, session m [] 4 (start up (queue_of []) (queue_of [byte_buf [x40]]) (Some ce) (Some (fresh false u km)) false true false)
        [Read wire] [Read [x61]; TryAgain] [Wrote 9 false] [Wrote 999 false; Wrote 999 false; Wrote 999 false] []
        = Some (c, []) ∧ down_sent_ (rl_ c) = [x41; x42] ∧ down_got_ (rl_ c) = [x40; x61] ∧
      sealed u km [x52; x40; x61] (up_sent_ (rl_ c)).
Proof.
  intros HA HC HS HK HN HR L1 m. pose proof example_sha1laws as L2. pose proof example_keylaws as L3. pose proof example_randlaws as L4.
  assert (HttpResponseLaws) as LR by (intros bs; simpl; lia).
  destruct (client_relay_shadowsocks m [] 4 [x70]) as (u & km & Hu & Hkm & Ee & E & T); [reflexivity|lia|].
  destruct (EncryptData_fresh [] u km Hu 4 (IoQueue.make 4) (byte_buf [x52]) Hkm)
    as (ce & up & _ & _ & Eq & _); [apply byte_buf_full|apply IoQueue.represents_make; lia|].
  exists u, km, ce, up. split; [done|]. split; [done|]. split; [exact Eq|]. cbv zeta. set (salt := replicate (su_key u) x03).
  set (wire := salt ++ frames (stream_sealing u km salt) 0 [[x41; x42]]).
  destruct (T (byte_buf [x52]) [] ce up salt [[x41; x42]] (queue_of []) (queue_of [byte_buf [x40]]) true false []
    [byte_buf [x40]] [Read wire] [Read [x61]; TryAgain] [Wrote 9 false]
    [Wrote 999 false; Wrote 999 false; Wrote 999 false] [])
    as (c & rs' & ds' & us' & dn & R & (Rd & _ & Ru & _) & _ & Hs & _);
    [apply byte_buf_full|exact Eq|apply length_replicate|repeat constructor; vm_compute; congruence| |
     apply queue_of_represents|constructor|by split|apply queue_of_represents|repeat constructor; apply byte_buf_full| |].
  - unfold stream_of. simpl. by rewrite app_nil_r.
  - pose proof E as E'. vm_compute in E'. injection E' as Ek Et Em.
    destruct u as [um ub uk ut un]. cbn in Ek, Et, Em. subst. repeat constructor; vm_compute; congruence.
  - pose proof R as R'. pose proof E as E'. vm_compute in E'. injection E' as Ek Et Em. clear T Hu Hkm.
    destruct u as [um ub uk ut un]. cbn in Ek, Et, Em. subst.
    vm_compute in Eq. injection Eq as <- <-. vm_compute in R'. injection R' as Es <-. exists c. split; [exact R|].
    rewrite <- Es in Hs, Ru |- *. split; [reflexivity|]. split; [reflexivity|].
    assert (us' = []) as ->. { apply IoQueue.empty_represents in Ru. by destruct us'. }
    rewrite app_nil_r in Hs. exact Hs.
Defined.

Lemma client_https_reply_witness :
  let HA := (λ _, x00) : Allocator in
  let HC := example_lib in
  let HS := (λ _, replicate 20 x09) : Sha1 in
  let HK := example_keylib in
  let HN := example_rand in
  let HR := (λ bs, mkHttpResponse (length bs `min` 2) (bool_decide (head bs = Some x32)) 200 [] 0) : HttpResponseLib in
  let c := start (queue_of []) (queue_of []) (queue_of []) None None true true false in
  (∃ c' buf, GetNextDownstreamBuf CRYPTO_HTTPS [] c (mkEnv [] [] [Read [x32; x30; x61]] [])
      = Some (c', mkEnv [] [] [] [], success, Some buf) ∧ span buf = [x61]) ∧
  (∃ c' buf, GetNextDownstreamBuf CRYPTO_HTTPS [] c (mkEnv [] [] [Read [x32; x30]; Read [x61]] [])
      = Some (c', mkEnv [] [] [] [], success, Some buf) ∧ span buf = [x61]) ∧
  GetNextDownstreamBuf CRYPTO_HTTPS [] c (mkEnv [] [] [Read [x34; x30]] [])
    = Some (with_relay (mkClient (rl_ c) (queue_of []) false) (set_shutdown (lost (rl_ c))), mkEnv [] [] [] [], failed, None).
Proof.
  intros HA HC HS HK HN HR c. assert (HttpResponseLaws) as LR by (intros bs; simpl; lia).
  pose (T bs rs := client_https_reply CRYPTO_HTTPS [] 4 c (mkEnv [] [] (Read bs :: rs) []) bs rs
      eq_refl eq_refl (queue_of_represents []) eq_refl eq_refl eq_refl eq_refl eq_refl).
  split; [|split].
  - destruct (proj1 (T [x32; x30; x61] [] ltac:(done) ltac:(done)) eq_refl) as (c' & buf & E & S & _); [simpl; lia|].
    exists c', buf. by split.
  - eexists _, _. rewrite (proj1 (proj2 (T [x32; x30] [Read [x61]] ltac:(done) ltac:(done))) eq_refl eq_refl). by split.
  - exact (proj2 (proj2 (T [x34; x30] [] ltac:(done) ltac:(done))) eq_refl).
Defined.

End CliFlow.
