(* ===== verification/Http.v ===== *)
(** * HTTP requests at the proxy

    The parts of src/src/net/http_parser.cpp that the proxy writes itself
    ([ReforgeHttpRequestImpl]), the proxy authorization of the two connection
    classes, and the step that both of them use to put the rewritten header in
    front of the payload of the same buffer.

    The parser proper is Balsa or http-parser, and URLs are parsed by GURL: their
    results are parameters.  Maps of headers are lists of pairs in the order in
    which the hash map visits them, which is a parameter too. *)

From Stdlib Require Import ZArith Lia.
From stdpp Require Import base list numbers option.
From S2P Require Import Prelude IoBuffer.

Module Http.
Import IoBuffer.

Definition headers : Type := list (list byte * list byte).

(** What [HttpRequestParser] holds after [Parse]: the number of bytes parsed, if the
    request is good, and what its accessors answer. *)
Record http_request := mkHttp {
  nparsed : nat; ok : bool; host : list byte; port : Z; is_connect : bool;
  content_length : Z; connection : list byte; proxy_authorization : list byte;
  transfer_encoding_is_chunked : bool;
  method_ : list byte; http_url_ : list byte; version_input_ : list byte; http_headers_ : headers }.

(** [gurl uri] is the path and the query of a valid URL with a host. *)
Class HttpLib := {
  http_parse : list byte → http_request;
  gurl : list byte → option (list byte * option (list byte));
  hash_order : headers → headers;
  base64_encode : list byte → list byte;
  base64_decode : list byte → option (list byte) }.

(** A hash map is visited in some order, and decoding inverts encoding. *)
Class HttpLaws `{HttpLib} := {
  hash_order_perm : ∀ l, hash_order l ≡ₚ l;
  base64_decode_encode : ∀ s, base64_decode (base64_encode s) = Some s;
  base64_encode_nonempty : ∀ s, s ≠ [] → base64_encode s ≠ [] }.

(** ** Text *)

Definition to_lower (b : byte) : byte :=
  if (65 <=? u8 b)%Z && (u8 b <=? 90)%Z then to_u8 (u8 b + 32) else b.

Definition ToLowerASCII (s : list byte) : list byte := map to_lower s.

(** [CompareCaseInsensitiveASCII(a, b) == 0]. *)
Definition equal_ci (a b : list byte) : bool := bool_decide (ToLowerASCII a = ToLowerASCII b).

Definition header_line (kv : list byte * list byte) : list byte :=
  fst kv ++ str ": " ++ snd kv ++ crlf.

Section Http.
Context `{HttpLib}.

Definition canon_uri (uri : list byte) : list byte :=
  match gurl uri with
  | Some (path, Some query) => path ++ str "?" ++ query
  | Some (path, None) => path
  | None => uri
  end.

Definition keep_header (additional : headers) (kv : list byte * list byte) : bool :=
  negb (equal_ci (fst kv) (str "Proxy-Connection")) &&
  negb (equal_ci (fst kv) (str "Proxy-Authorization")) &&
  negb (bool_decide (fst kv ∈ map fst additional)).

Definition ReforgeHttpRequestImpl (version method_str : list byte) (additional : headers)
    (uri : list byte) (hs : headers) : list byte :=
  method_str ++ str " " ++ canon_uri uri ++ str " " ++ version ++ crlf ++
  concat (map header_line (filter (keep_header additional) (hash_order hs))) ++
  concat (map header_line (hash_order additional)) ++ crlf.

Definition ReforgeHttpRequest (r : http_request) (additional : headers) : list byte :=
  ReforgeHttpRequestImpl (version_input_ r) (method_ r) additional (http_url_ r) (http_headers_ r).

(** ** Proxy authorization *)

Definition kBasicAuthPrefix : list byte := str "basic ".

Definition GetProxyAuthorizationIdentity (username password : list byte) : list byte :=
  base64_encode (username ++ str ":" ++ password).

Definition VerifyProxyAuthorizationIdentity (auth username password : list byte) : bool :=
  if length auth <=? length kBasicAuthPrefix then false else
  if negb (bool_decide (ToLowerASCII (take (length kBasicAuthPrefix) auth) = kBasicAuthPrefix)) then false else
  match base64_decode (drop (length kBasicAuthPrefix) auth) with
  | None => false
  | Some pass => bool_decide (pass = username ++ str ":" ++ password)
  end.

(** ** The rewritten header in the buffer *)

(** [buf] has its offset behind the request, which started at [previous_offset] and
    had [n] bytes.  The two uses of [buf->size()] after [SetCapacity] are the size
    of the grown buffer. *)
Definition reforge_buffer `{Allocator} (buf : GrowableIOBuffer) (previous_offset n : nat)
    (header : list byte) : option GrowableIOBuffer :=
  buf ← SetCapacity buf (Z.of_nat previous_offset + Z.of_nat (n `max` length header) + Z.of_nat (size buf));
  buf ← write_at buf (length header) (span buf);
  let payload_size := size buf in
  buf ← set_offset buf 0;
  buf ← SetCapacity buf (Z.of_nat (length header) + Z.of_nat payload_size);
  write_data buf 0 header.

End Http.

(** ** Lemmas *)

Lemma reforge_buffer_fits `{Allocator} buf po n header :
  wf buf → offset buf = po + n → length header <= n →
  ∃ buf', reforge_buffer buf po n header = Some buf' ∧ wf buf' ∧ span buf' = header ++ span buf ∧
    offset buf' = 0.
Proof.
  intros W O Hh. unfold reforge_buffer. rewrite Nat.max_l by done.
  pose proof (length_span buf W) as Hl. pose proof W as W0. unfold wf in W0. unfold size in Hl |- *.
  replace (Z.of_nat po + Z.of_nat n + Z.of_nat (capacity buf - offset buf))%Z
    with (Z.of_nat (capacity buf)) by lia.
  destruct (SetCapacity_shrink buf (capacity buf) W) as (b1 & -> & W1 & C1 & O1 & R1 & S1); [lia|].
  cbn [mbind option_bind].
  assert (span b1 = span buf) as Sp1 by (unfold span, size; by rewrite R1, C1, O1).
  unfold write_at at 1. rewrite Sp1, R1, decide_True by lia. cbn [mbind option_bind]. cbv zeta.
  cbn [capacity offset]. rewrite C1, O1.
  set (b2 := mkBuf _ _ _). assert (wf b2) as W2.
  { unfold wf, b2. cbn [offset capacity real_data]. rewrite length_splice by lia. lia. }
  rewrite set_offset_spec by (done || lia). cbn [mbind option_bind].
  change (Z.to_nat 0) with 0. set (b3 := mkBuf _ _ 0).
  assert (wf b3) as W3 by (unfold wf, b3, b2 in *; simpl in *; lia).
  replace (Z.of_nat (length header) + Z.of_nat (capacity buf - offset buf))%Z
    with (Z.of_nat (length header + (capacity buf - offset buf))) by lia.
  destruct (SetCapacity_shrink b3 (length header + (capacity buf - offset buf)) W3)
    as (b4 & -> & W4 & C4 & O4 & R4 & S4); [unfold b3, b2; simpl; lia|]. cbn [mbind option_bind].
  pose proof (length_span b4 W4) as Hl4. unfold size in Hl4.
  assert (offset b4 = 0) as O4' by (rewrite O4; done).
  destruct (write_data_span b4 0 header W4) as (b5 & -> & W5 & C5 & O5 & S5); [unfold size; lia|].
  exists b5. split; [done|]. split; [done|]. split; [|congruence].
  rewrite S5, splice_0. f_equal. unfold span, size. rewrite O4', C4, R4. unfold b3, b2. cbn [real_data].
  rewrite drop_0, Nat.sub_0_r. unfold splice.
  rewrite take_app_ge, drop_app_ge by (len). rewrite length_take, Nat.min_l by lia.
  rewrite Nat.sub_diag, drop_0. replace (length header + (capacity buf - offset buf) - length header)
    with (length (span buf)) by lia. by rewrite take_app_length.
Qed.

Lemma reforge_buffer_overflows `{Allocator} buf n header :
  wf buf → offset buf = n → n < length header → reforge_buffer buf 0 n header = None.
Proof.
  intros W O Hh. unfold reforge_buffer. rewrite Nat.max_r by lia.
  pose proof (length_span buf W) as Hl. pose proof W as W0. unfold wf in W0. unfold size in Hl |- *.
  set (c := (Z.of_nat 0 + Z.of_nat (length header) + Z.of_nat (capacity buf - offset buf))%Z).
  set (b1 := mkBuf (realloc (real_data buf) (Z.to_nat c)) (Z.to_nat c) (offset buf)). assert (wf b1) as W1.
  { unfold wf, b1. cbn [offset capacity real_data]. rewrite length_realloc. lia. }
  assert (SetCapacity buf c = Some b1) as ->.
  { unfold SetCapacity. destruct (Z.ltb_spec c 0); [lia|].
    destruct (Z.leb_spec c (Z.of_nat (capacity buf))); [lia|].
    destruct (Z.ltb_spec c (Z.of_nat (offset buf))); [lia|].
    rewrite set_offset_spec by (done || (simpl; lia)). unfold b1. simpl. by rewrite Nat2Z.id. }
  cbn [mbind option_bind].
  assert (write_at b1 (length header) (span b1) = None) as ->; [|done].
  unfold write_at. rewrite length_span by done. unfold size, b1. cbn [real_data capacity offset].
  rewrite length_realloc. rewrite decide_False by lia. done.
Qed.

(** A token in front of which stands the scheme. *)
Lemma VerifyProxyAuthorizationIdentity_spec `{HttpLib} auth u p :
  VerifyProxyAuthorizationIdentity auth u p = true ↔
  ∃ scheme token, auth = scheme ++ token ∧ ToLowerASCII scheme = kBasicAuthPrefix ∧ token ≠ [] ∧
    base64_decode token = Some (u ++ str ":" ++ p).
Proof.
  unfold VerifyProxyAuthorizationIdentity. set (n := length kBasicAuthPrefix). split.
  - destruct (Nat.leb_spec (length auth) n); [done|]. case_bool_decide as E; [|done]. cbn [negb].
    destruct (base64_decode _) as [pass|] eqn:Ed; [|done]. intros Ep%bool_decide_eq_true. subst pass.
    exists (take n auth), (drop n auth). rewrite take_drop. split_and!; try done.
    intros E0. apply (f_equal length) in E0. rewrite length_drop in E0. simpl in E0. lia.
  - intros (scheme & token & -> & E & Ht & Ed).
    assert (length scheme = n) as Hn by (unfold ToLowerASCII in E; apply (f_equal length) in E; by rewrite length_map in E).
    assert (1 <= length token) by (destruct token; [done|simpl; lia]).
    rewrite length_app, Hn. destruct (Nat.leb_spec (n + length token) n); [lia|].
    rewrite take_app_length', drop_app_length', E, Ed by done. by rewrite !bool_decide_eq_true_2.
Qed.

Lemma filter_all {A} (f : A → bool) l : Forall (λ x, f x = true) l → filter f l = l.
Proof. induction 1 as [|x l Hx _ IH]; [done|]. rewrite filter_cons_True, IH; [done|by rewrite Hx]. Qed.

(** The length of a reforged header that keeps everything. *)
Lemma length_ReforgeHttpRequest `{HttpLaws} r add :
  gurl (http_url_ r) = None → Forall (λ kv, keep_header add kv = true) (http_headers_ r) →
  length (ReforgeHttpRequest r add)
  = length (method_ r ++ str " " ++ http_url_ r ++ str " " ++ version_input_ r ++ crlf ++
            concat (map header_line (http_headers_ r)) ++ crlf)
    + length (concat (map header_line add)).
Proof.
  intros Hg Hk. unfold ReforgeHttpRequest, ReforgeHttpRequestImpl, canon_uri. rewrite Hg.
  assert (∀ l, length (concat (map header_line (hash_order l))) = length (concat (map header_line l))) as Hp.
  { intros l. apply Permutation_length. rewrite <- !flat_map_concat_map. apply Permutation_flat_map, hash_order_perm. }
  assert (filter (keep_header add) (hash_order (http_headers_ r)) = hash_order (http_headers_ r)) as ->.
  { apply filter_all. by rewrite hash_order_perm. }
  rewrite !length_app, !Hp. lia.
Qed.

(** ** Examples *)

(** A parser that knows one request. *)
Definition example_http (rq : http_request) : HttpLib := {|
  http_parse _ := rq; gurl _ := None; hash_order l := l;
  base64_encode s := s; base64_decode := Some |}.

Lemma example_http_laws rq : @HttpLaws (example_http rq).
Proof. by split. Qed.

Definition connect_text : list byte := str "CONNECT a:80 HTTP/1.1" ++ crlf ++ crlf.
Definition connect_request (auth : list byte) : http_request :=
  mkHttp (length connect_text) true (str "a") 80 true 0 [] auth false (str "CONNECT") (str "a:80")
    (str "HTTP/1.1") [].

Definition plain_text : list byte :=
  str "GET / HTTP/1.1" ++ crlf ++ str "Host: a" ++ crlf ++ crlf.
Definition plain_request : http_request :=
  mkHttp (length plain_text) true (str "a") 80 false 0 [] [] false (str "GET") (str "/")
    (str "HTTP/1.1") [(str "Host", str "a")].

End Http.
