(* ===== verification/Server.v ===== *)
(** * The server's handshakes

    [ServerConnection] of src/src/server/server_connection.cpp up to the point
    where the upstream connection is started: the shadowsocks handshake
    ([ReadHandshake], [on_received_data]) and the SOCKS handshakes
    ([ReadHandshakeViaSocks] and what follows it).

    Handlers are functions on the state of the connection; [None] is an abort
    or undefined behaviour (a failed [CHECK], a null reference, an access
    outside of an object).  A completion handler that is registered with the
    downlink is the field [waiting_], and [step] runs it.  [DoPeek()] answering
    true runs the handler of the next [Readable] event at once, so it is the same
    transition. *)

From Stdlib Require Import ZArith Lia.
From stdpp Require Import base list numbers option.
From S2P Require Import Prelude IoBuffer IoQueue Addr Ss Socks4 Socks5 Hkdf Crypter Cipher Conn.

Module Server.
Import IoBuffer Addr Crypter Cipher Conn.

Inductive state := state_handshake | state_stream | state_error.

(** The handler registered with the downlink, if any; [wait_pipe] stands for the
    relay loop, which starts when the handshake is over. *)
Inductive wait :=
  | no_wait | wait_handshake | wait_socks | wait_method_reply | wait_auth | wait_auth_reply
  | wait_socks5 | wait_reply | wait_pipe.

#[export] Instance wait_eq_decision : EqDecision wait.
Proof. solve_decision. Defined.

(** [channel_] is the host name and port given to [stream::create], [sent_] the
    bytes written to the downlink. *)
Record server := mkServer {
  state_ : state; closed_ : bool; request_ : list byte;
  handshake_ : option GrowableIOBuffer; handshake_pending_buf_ : option GrowableIOBuffer;
  upstream_ : IoQueue.IoQueue GrowableIOBuffer; upstream_writable_ : bool;
  channel_ : option (list byte * Z); waiting_ : wait; sent_ : list byte;
  downstream_ : IoQueue.IoQueue GrowableIOBuffer; http_is_connect_ : bool }.

Definition set_state (s : server) (x : state) : server :=
  mkServer x (closed_ s) (request_ s) (handshake_ s) (handshake_pending_buf_ s) (upstream_ s)
    (upstream_writable_ s) (channel_ s) (waiting_ s) (sent_ s) (downstream_ s) (http_is_connect_ s).
Definition set_closed (s : server) : server :=
  mkServer (state_ s) true (request_ s) (handshake_ s) (handshake_pending_buf_ s) (upstream_ s)
    (upstream_writable_ s) (channel_ s) no_wait (sent_ s) (downstream_ s) (http_is_connect_ s).
Definition set_request (s : server) (r : list byte) : server :=
  mkServer (state_ s) (closed_ s) r (handshake_ s) (handshake_pending_buf_ s) (upstream_ s)
    (upstream_writable_ s) (channel_ s) (waiting_ s) (sent_ s) (downstream_ s) (http_is_connect_ s).
Definition set_handshake (s : server) (b : option GrowableIOBuffer) : server :=
  mkServer (state_ s) (closed_ s) (request_ s) b (handshake_pending_buf_ s) (upstream_ s)
    (upstream_writable_ s) (channel_ s) (waiting_ s) (sent_ s) (downstream_ s) (http_is_connect_ s).
Definition set_pending (s : server) (b : option GrowableIOBuffer) : server :=
  mkServer (state_ s) (closed_ s) (request_ s) (handshake_ s) b (upstream_ s)
    (upstream_writable_ s) (channel_ s) (waiting_ s) (sent_ s) (downstream_ s) (http_is_connect_ s).
Definition set_upstream (s : server) (q : IoQueue.IoQueue GrowableIOBuffer) (w : bool) : server :=
  mkServer (state_ s) (closed_ s) (request_ s) (handshake_ s) (handshake_pending_buf_ s) q
    w (channel_ s) (waiting_ s) (sent_ s) (downstream_ s) (http_is_connect_ s).
Definition set_channel (s : server) (c : option (list byte * Z)) : server :=
  mkServer (state_ s) (closed_ s) (request_ s) (handshake_ s) (handshake_pending_buf_ s) (upstream_ s)
    (upstream_writable_ s) c (waiting_ s) (sent_ s) (downstream_ s) (http_is_connect_ s).
Definition set_waiting (s : server) (w : wait) : server :=
  mkServer (state_ s) (closed_ s) (request_ s) (handshake_ s) (handshake_pending_buf_ s) (upstream_ s)
    (upstream_writable_ s) (channel_ s) w (sent_ s) (downstream_ s) (http_is_connect_ s).
Definition add_sent (s : server) (bs : list byte) : server :=
  mkServer (state_ s) (closed_ s) (request_ s) (handshake_ s) (handshake_pending_buf_ s) (upstream_ s)
    (upstream_writable_ s) (channel_ s) (waiting_ s) (sent_ s ++ bs) (downstream_ s) (http_is_connect_ s).

Definition set_downstream (s : server) (q : IoQueue.IoQueue GrowableIOBuffer) : server :=
  mkServer (state_ s) (closed_ s) (request_ s) (handshake_ s) (handshake_pending_buf_ s) (upstream_ s)
    (upstream_writable_ s) (channel_ s) (waiting_ s) (sent_ s) q (http_is_connect_ s).
Definition set_http_is_connect (s : server) (b : bool) : server :=
  mkServer (state_ s) (closed_ s) (request_ s) (handshake_ s) (handshake_pending_buf_ s) (upstream_ s)
    (upstream_writable_ s) (channel_ s) (waiting_ s) (sent_ s) (downstream_ s) b.

Definition http_connect_reply_ : list byte :=
  str "HTTP/1.1 200 Connection established" ++ crlf ++ crlf.

Section Server.
Context `{Allocator}.

(** [method()], the configured user name and password, asio's
    [address::to_string()], and the contents of the members that a SOCKS reply
    does not initialise. *)
Variable method : cipher_method.
Variables username password : list byte.
Variable to_string : address → list byte.
Variables (junk4 junk6 : list byte) (junk_hi junk_lo : byte).

Definition auth_required : bool :=
  negb (bool_decide (username = [])) && negb (bool_decide (password = [])).

(** [OnDisconnect]: [close()] unless closing. *)
Definition OnDisconnect (s : server) : server := if closed_ s then s else set_closed s.

(** [cipher_visitor_interface]: the boolean is the method's answer. *)
Definition srv_on_received_data (s : server) (buf : GrowableIOBuffer) : option (server * bool) :=
  match state_ s with
  | state_stream =>
      if empty buf then Some (s, false)
      else Some (set_upstream s (IoQueue.push_back (upstream_ s) buf) (upstream_writable_ s), true)
  | state_handshake =>
      match handshake_ s with
      | Some previous_chunk =>
          let sz := RemainingCapacity previous_chunk + size buf in
          b ← SetCapacity make (Z.of_nat sz);
          b ← write_data b 0 (span previous_chunk);
          b ← write_data b (RemainingCapacity previous_chunk) (span buf);
          Some (set_handshake s (Some b), true)
      | None => Some (set_handshake s (Some buf), true)
      end
  | state_error => Some (s, false)
  end.

Definition srv_on_protocol_error (s : server) : server := OnDisconnect s.

(** The write loop that [OnDownstreamWrite] may start is not part of the model. *)
Definition OnDownstreamWrite (s : server) (buf : GrowableIOBuffer) : server :=
  if empty buf then s else set_downstream s (IoQueue.push_back (downstream_ s) buf).

(** [channel_] gets the host name that [OnConnect] resolves. *)
Definition OnConnect (s : server) : option server :=
  port ← Ss.port (request_ s);
  host_name ← (if decide (address_type (request_ s) = domain)
               then Some (Ss.domain_name_str to_string (request_ s))
               else ep ← Ss.endpoint_of (request_ s); Some (to_string (ep_address ep)));
  let s := set_channel s (Some (host_name, port)) in
  if bool_decide (method = CRYPTO_HTTPS) && http_is_connect_ s
  then buf ← copyBuffer http_connect_reply_; Some (OnDownstreamWrite s buf)
  else Some s.

Definition OnUpstreamWrite (s : server) (buf : GrowableIOBuffer) : server :=
  let s := if empty buf then s
           else set_upstream s (IoQueue.push_back (upstream_ s) buf) (upstream_writable_ s) in
  if negb (IoQueue.empty (upstream_ s)) && upstream_writable_ s
  then set_upstream s (upstream_ s) false else s.

Definition OnStreamRead (s : server) (buf : GrowableIOBuffer) : server := OnUpstreamWrite s buf.

(** [ProcessReceivedData] and [ProcessSentData] on an error. *)
Definition process_error (s : server) : server := OnDisconnect (set_state s state_error).

(** [ProcessReceivedData(buf, {}, buf->size())]. *)
Definition ProcessReceivedData (s : server) (buf : GrowableIOBuffer) : option server :=
  let stream s := if 0 <? size buf then OnStreamRead s buf else set_waiting s wait_pipe in
  match state_ s with
  | state_handshake =>
      s ← OnConnect (set_state s state_stream);
      Some (stream s)
  | state_stream => Some (stream s)
  | state_error => Some (process_error s)
  end.

(** ** SOCKS4 and SOCKS5 *)

Definition ReadHandshakeViaSocks (s : server) : server := set_waiting s wait_socks.

(** Registers the handler that writes the reply. *)
Definition WriteHandshakeResponse (s : server) : server := set_waiting s wait_reply.
Definition WriteMethodSelectResponse (s : server) : server := set_waiting s wait_method_reply.
Definition WriteUsernamePasswordAuthResponse (s : server) : server := set_waiting s wait_auth_reply.

(** The SOCKS4 case of [OnReadHandshakeViaSocks]. *)
Definition OnReadSocks4Request (s : server) (buf : GrowableIOBuffer) : option server :=
  '(result, _, _, request) ← Socks4.parse Socks4.reset Socks4.request_init (data buf) 0 (size buf);
  match result with
  | Socks4.good =>
      buf ← set_offset buf (Z.of_nat (offset buf) + Z.of_nat (Socks4.request_length request));
      if (Socks4.port request =? 0)%Z
         || (Socks4.is_socks4a request && bool_decide (Socks4.domain_name_ request = []))
         || (negb (Socks4.is_socks4a request)
             && is_unspecified (ep_address (Socks4.endpoint_of request)))
      then Some (OnDisconnect s) else
      r ← (if Socks4.is_socks4a request
           then Ss.request_domain (Socks4.domain_name_ request) (Socks4.port request)
           else Ss.request_endpoint (Socks4.endpoint_of request));
      Some (WriteHandshakeResponse (set_pending (set_request s r) (Some buf)))
  | _ => Some (OnDisconnect s)
  end.

(** The SOCKS5 case of [OnReadHandshakeViaSocks]; [junkm] is the uninitialised
    array of methods. *)
Definition OnReadMethodSelect (junkm : list byte) (s : server) (buf : GrowableIOBuffer) : option server :=
  '(result, _, _, request) ← Socks5.MethodSelectParser.ms_parse Socks5.MethodSelectParser.ms_reset
    (Socks5.mkMethodSelect x00 x00 junkm) (data buf) 0 (size buf);
  match result with
  | Socks5.good =>
      buf ← set_offset buf (Z.of_nat (offset buf) + Z.of_nat (Socks5.ms_length request));
      let wanted := if auth_required then Socks5.username_or_password else Socks5.no_auth_required in
      if bool_decide (wanted ∈ Socks5.ms_range request)
      then Some (WriteMethodSelectResponse (set_pending s (Some buf)))
      else Some (OnDisconnect s)
  | _ => Some (OnDisconnect s)
  end.

Definition OnReadHandshakeViaSocks (junkm : list byte) (s : server) (r : read_result) : option server :=
  match r with
  | TryAgain => Some (ReadHandshakeViaSocks s)
  | ReadError => Some (OnDisconnect s)
  | Read bs =>
      buf ← read_buf SOCKET_DEBUF_SIZE bs;
      match method with
      | CRYPTO_SOCKS4 | CRYPTO_SOCKS4A => OnReadSocks4Request s buf
      | CRYPTO_SOCKS5 | CRYPTO_SOCKS5H => OnReadMethodSelect junkm s buf
      | _ => None
      end
  end.

(** The parsing half of [OnReadSocks5UsernamePasswordAuth]. *)
Definition auth_from_buf (s : server) (buf : GrowableIOBuffer) : option server :=
  '(result, _, _, auth_request) ← Socks5.AuthParser.auth_parse Socks5.AuthParser.auth_reset
    (Socks5.mkAuth x00 [] []) (data buf) 0 (size buf);
  match result with
  | Socks5.good =>
      buf ← set_offset buf (Z.of_nat (offset buf) + Z.of_nat (Socks5.auth_length auth_request));
      if bool_decide (Socks5.auth_username auth_request = username)
         && bool_decide (Socks5.auth_password auth_request = password)
      then Some (WriteUsernamePasswordAuthResponse (set_pending s (Some buf)))
      else Some (OnDisconnect s)
  | _ => Some (OnDisconnect s)
  end.

(** The parsing half of [OnReadHandshakeViaSocks5]. *)
Definition request_from_buf (s : server) (buf : GrowableIOBuffer) : option server :=
  '(result, _, _, request) ← Socks5.RequestParser.rq_parse Socks5.RequestParser.rq_reset
    Socks5.request_init (data buf) 0 (size buf);
  match result with
  | Socks5.good =>
      buf ← set_offset buf (Z.of_nat (offset buf) + Z.of_nat (Socks5.request_length request));
      let atyp := address_type (Socks5.atyp_req request) in
      if (Socks5.port request =? 0)%Z
         || (bool_decide (atyp = domain) && bool_decide (Socks5.request_domain_name request = []))
         || (negb (bool_decide (atyp = domain))
             && is_unspecified (ep_address (Socks5.endpoint_of request)))
      then Some (OnDisconnect s) else
      r ← (if decide (atyp = domain)
           then Ss.request_domain (Socks5.request_domain_name request) (Socks5.port request)
           else Ss.request_endpoint (Socks5.endpoint_of request));
      Some (WriteHandshakeResponse (set_pending (set_request s r) (Some buf)))
  | _ => Some (OnDisconnect s)
  end.

(** [Read*]: a null [handshake_pending_buf_] is dereferenced; bytes left from the
    previous message are parsed at once. *)
Definition ReadSocks5UsernamePasswordAuth (s : server) : option server :=
  pending ← handshake_pending_buf_ s;
  if empty pending then Some (set_waiting s wait_auth)
  else auth_from_buf (set_pending s None) pending.

Definition ReadHandshakeViaSocks5 (s : server) : option server :=
  pending ← handshake_pending_buf_ s;
  if empty pending then Some (set_waiting s wait_socks5)
  else request_from_buf (set_pending s None) pending.

(** [OnRead*]: [std::move(handshake_pending_buf_)] leaves a null reference. *)
Definition OnReadSocks5UsernamePasswordAuth (s : server) (r : read_result) : option server :=
  buf ← handshake_pending_buf_ s;
  let s := set_pending s None in
  if empty buf then
    match r with
    | TryAgain => ReadSocks5UsernamePasswordAuth s
    | ReadError => Some (OnDisconnect s)
    | Read bs => buf ← read_buf SOCKET_DEBUF_SIZE bs; auth_from_buf s buf
    end
  else auth_from_buf s buf.

Definition OnReadHandshakeViaSocks5 (s : server) (r : read_result) : option server :=
  buf ← handshake_pending_buf_ s;
  let s := set_pending s None in
  if empty buf then
    match r with
    | TryAgain => Some (ReadHandshakeViaSocks s)
    | ReadError => Some (OnDisconnect s)
    | Read bs => buf ← read_buf SOCKET_DEBUF_SIZE bs; request_from_buf s buf
    end
  else request_from_buf s buf.

(** The reply of [WriteHandshakeResponse]. *)
Definition handshake_reply (s : server) : option (list (list byte)) :=
  if decide (method = CRYPTO_SOCKS4 ∨ method = CRYPTO_SOCKS4A) then
    reply ← Socks4.set_endpoint (Socks4.reply_init junk_hi junk_lo junk4) endpoint_default;
    Some (Socks4.buffers (Socks4.set_status reply Socks4.request_granted))
  else
    ep ← (if decide (address_type (request_ s) = domain) then Some endpoint_default
          else Ss.endpoint_of (request_ s));
    let reply := Socks5.set_endpoint (Socks5.reply_init junk4 junk6 junk_hi junk_lo) ep in
    Some (Socks5.buffers (Socks5.set_status reply Socks5.request_granted)).

(** [write_some] of a whole small buffer: [w] bytes were taken, or an error. *)
Definition write_reply (s : server) (buf : GrowableIOBuffer) (w : option nat)
    (k : server → option server) : option server :=
  match w with
  | Some n => let s := add_sent s (take n (span buf)) in
              if n =? size buf then k s else Some (OnDisconnect s)
  | None => Some (OnDisconnect s)
  end.

(** The three handlers that write. *)
Definition on_write_response (s : server) (w : option nat) : option server :=
  pieces ← handshake_reply s;
  buf ← append_all make pieces;
  write_reply s buf w (λ s,
    buf ← handshake_pending_buf_ s;
    ProcessReceivedData (set_pending s None) buf).

Definition on_write_method_select (s : server) (w : option nat) : option server :=
  buf ← copyBuffer (Socks5.method_select_response_stock_reply
    (if auth_required then Socks5.username_or_password else Socks5.no_auth_required));
  write_reply s buf w (λ s,
    if auth_required then ReadSocks5UsernamePasswordAuth s else ReadHandshakeViaSocks5 s).

Definition on_write_auth (s : server) (w : option nat) : option server :=
  buf ← copyBuffer (Socks5.auth_response_stock_reply x00);
  write_reply s buf w ReadHandshakeViaSocks5.

(** ** Events *)

Inductive event := Readable (r : read_result) | Writable (w : option nat) | WaitFailed.

(** One completion on the downlink.  A closed connection ignores it. *)
Definition step (junkm : list byte) (s : server) (e : event) : option server :=
  if closed_ s then Some s else
  let idle := set_waiting s no_wait in
  match waiting_ s, e with
  | wait_socks, Readable r => OnReadHandshakeViaSocks junkm idle r
  | wait_auth, Readable r => OnReadSocks5UsernamePasswordAuth idle r
  | wait_socks5, Readable r => OnReadHandshakeViaSocks5 idle r
  | wait_method_reply, Writable w => on_write_method_select idle w
  | wait_auth_reply, Writable w => on_write_auth idle w
  | wait_reply, Writable w => on_write_response idle w
  | wait_socks, WaitFailed | wait_auth, WaitFailed | wait_socks5, WaitFailed
  | wait_method_reply, WaitFailed | wait_auth_reply, WaitFailed | wait_reply, WaitFailed =>
      Some (process_error idle)
  | _, _ => Some s
  end.

Fixpoint run (junkm : list byte) (s : server) (es : list event) : option server :=
  match es with
  | [] => Some s
  | e :: es => s ← step junkm s e; run junkm s es
  end.

(** The connection when [Start] has called [ReadHandshakeViaSocks]. *)
Definition init (D : nat) : server :=
  mkServer state_handshake false Ss.request_init None None (IoQueue.make D) false None wait_socks []
    (IoQueue.make D) false.

(** ** The parsers on a buffer *)

Definition greeting (methods : list byte) : list byte :=
  Socks5.version :: to_u8 (Z.of_nat (length methods)) :: methods.

Definition wanted : byte :=
  if auth_required then Socks5.username_or_password else Socks5.no_auth_required.

(** The method selection parser on a buffer. *)
Lemma ms_parse_buf junkm buf methods rest :
  length junkm = 255 → wf buf → span buf = greeting methods ++ rest → length methods <= 255 →
  ∃ i st r buf', Socks5.MethodSelectParser.ms_parse Socks5.MethodSelectParser.ms_reset
      (Socks5.mkMethodSelect x00 x00 junkm) (data buf) 0 (size buf) = Some (Socks5.good, i, st, r) ∧
    Socks5.ms_range r = methods ∧
    set_offset buf (Z.of_nat (offset buf) + Z.of_nat (Socks5.ms_length r)) = Some buf' ∧
    wf buf' ∧ span buf' = rest.
Proof.
  intros Hj W Sp Hm. pose proof (u8_len (length methods) Hm) as Hu8.
  assert (Socks5.input (data buf) 0 (size buf) = span buf) as Hin'
    by (unfold Socks5.input, span, data; by rewrite drop_0).
  change (size buf) with (0 + size buf).
  rewrite (Socks5.ms_parse_input (Socks5.mkMethodSelect x00 x00 junkm) (data buf) 0 (size buf));
    [|done|]. 2:{ rewrite <- length_span by done. destruct (data_span buf W) as [sl ->]. len. }
  rewrite Hin', Sp. unfold greeting. cbn [app]. cbv zeta.
  rewrite decide_True by done. rewrite Hu8, decide_True by len.
  rewrite take_app_length. do 3 eexists.
  destruct (advance_past buf (greeting methods) rest (2 + length methods)) as (b' & E & W' & S');
    [done|done|done|]. exists b'. split; [done|].
  unfold Socks5.ms_length, Socks5.ms_range, Socks5.ms_count.
  cbn [Socks5.ms_nmethods Socks5.ms_methods]. rewrite Hu8, take_app_length. done.
Qed.

Lemma method_select_good junkm s buf methods rest :
  length junkm = 255 → wf buf → span buf = greeting methods ++ rest → length methods <= 255 →
  wanted ∈ methods →
  ∃ buf', OnReadMethodSelect junkm s buf = Some (WriteMethodSelectResponse (set_pending s (Some buf'))) ∧
    wf buf' ∧ span buf' = rest.
Proof.
  intros Hj W Sp Hm Hin. unfold OnReadMethodSelect.
  destruct (ms_parse_buf junkm buf methods rest Hj W Sp Hm) as (i & st & r & b' & -> & Hr & E & W' & S').
  cbn [mbind option_bind]. rewrite E. cbn [mbind option_bind]. fold wanted.
  rewrite Hr, bool_decide_eq_true_2 by done. by exists b'.
Qed.

Lemma auth_good s buf rest :
  wf buf → span buf = Socks5.auth_wire username password ++ rest →
  1 <= length username <= 255 → 1 <= length password <= 255 →
  ∃ buf', auth_from_buf s buf = Some (WriteUsernamePasswordAuthResponse (set_pending s (Some buf'))) ∧
    wf buf' ∧ span buf' = rest.
Proof.
  intros W Sp Hu Hp. unfold auth_from_buf. destruct (data_msg buf _ _ W Sp) as (tl & -> & Hl & _).
  rewrite Socks5.auth_parse_mem by done. cbn [mbind option_bind].
  unfold Socks5.auth_length. cbn [Socks5.auth_username Socks5.auth_password].
  destruct (advance_past buf (Socks5.auth_wire username password) rest
    (1 + 1 + length username + 1 + length password)) as (b' & -> & W' & S');
    [done|done|unfold Socks5.auth_wire; len|]. cbn [mbind option_bind].
  rewrite !bool_decide_eq_true_2 by done. by exists b'.
Qed.

Lemma unspecified_spec b : is_unspecified (address_v4 b) = bool_decide (Forall (eq x00) b) ∧
  is_unspecified (address_v6 b) = bool_decide (Forall (eq x00) b).
Proof. done. Qed.

Lemma request_good s buf cmd rsv d p rest :
  wf buf → span buf = Socks5.version :: cmd :: rsv :: wire d p ++ rest →
  dest_wf d → port_wf p → dest_ok d → p ≠ 0%Z →
  ∃ buf', request_from_buf s buf
          = Some (WriteHandshakeResponse
                    (set_pending (set_request s (wire d p ++ drop (wire_size d) header_init)) (Some buf'))) ∧
    wf buf' ∧ span buf' = rest.
Proof.
  intros W Sp Hd Hp Hok Hp0. unfold request_from_buf.
  destruct (data_msg buf (Socks5.version :: cmd :: rsv :: wire d p) rest W Sp) as (tl & E & Hl & _).
  destruct (Socks5.rq_parse_mem cmd rsv d p (data buf) (size buf)) as (r & -> & Hc & Hdest & Hport & Hlen);
    [done|done| | |].
  { rewrite E. apply (rd_slice_app' [] (Socks5.version :: cmd :: rsv :: wire d p) tl); [done|].
    cbn [length]. by rewrite length_wire. }
  { cbn [length] in Hl. rewrite length_wire in Hl. lia. }
  cbn [mbind option_bind]. rewrite Hlen.
  destruct (advance_past buf (Socks5.version :: cmd :: rsv :: wire d p) rest (3 + wire_size d))
    as (b' & -> & W' & S'); [done|done|cbn [length]; by rewrite length_wire|].
  cbn [mbind option_bind]. rewrite Hport. apply dest_of_inv in Hdest as [Hat Hv].
  pose proof (Ss.make_request_spec d p Hd) as Hmk.
  destruct (Z.eqb_spec p 0) as [|_]; [done|]. cbn [orb]. rewrite Hat. exists b'. split; [|done].
  destruct d as [b|n|b]; cbn [dest_atyp dest_ok] in *.
  - rewrite (bool_decide_eq_false_2 (ipv4 = domain)) by done. cbn [andb orb negb].
    unfold Socks5.endpoint_of. rewrite Hat, decide_True by done. cbn [ep_address is_unspecified].
    rewrite Hv, bool_decide_eq_false_2, decide_False, Hport by done.
    cbn [Ss.make_request] in Hmk. by rewrite Hmk.
  - rewrite (bool_decide_eq_true_2 (domain = domain)) by done. cbn [andb orb negb].
    unfold Socks5.request_domain_name. rewrite Hv, bool_decide_eq_false_2, decide_True by done.
    cbn [Ss.make_request] in Hmk. cbn [orb]. by rewrite Hmk.
  - rewrite (bool_decide_eq_false_2 (ipv6 = domain)) by done. cbn [andb orb negb].
    unfold Socks5.endpoint_of. rewrite Hat, decide_False, decide_True by done.
    cbn [ep_address is_unspecified].
    rewrite Hv, bool_decide_eq_false_2, decide_False, Hport by done.
    cbn [Ss.make_request] in Hmk. by rewrite Hmk.
Qed.

(** ** The replies *)

(** The bound address the SOCKS5 reply reports. *)
Definition bound (d : dest) (p : Z) : endpoint :=
  match d with
  | to_v4 b => mkEndpoint (address_v4 b) p
  | to_domain _ => endpoint_default
  | to_v6 b => mkEndpoint (address_v6 b) p
  end.

Definition socks5_reply (d : dest) (p : Z) : list byte :=
  Socks5.version :: Socks5.request_granted :: x00 ::
  wire (Socks5.ep_dest (bound d p)) (ep_port (bound d p)).

Definition host_of (d : dest) : list byte :=
  match d with
  | to_v4 b => to_string (address_v4 b)
  | to_domain n => n
  | to_v6 b => to_string (address_v6 b)
  end.

Lemma handshake_reply_socks5 s d p :
  method = CRYPTO_SOCKS5 ∨ method = CRYPTO_SOCKS5H →
  dest_of (request_ s) = Some d → Ss.port (request_ s) = Some p →
  ∃ l, handshake_reply s = Some l ∧ concat l = socks5_reply d p.
Proof.
  intros Hm Hd Hp. unfold handshake_reply. rewrite decide_False by (intros [E|E]; destruct Hm; congruence).
  pose proof (Ss.endpoint_of_view _ _ _ Hd Hp) as He. apply dest_of_inv in Hd as [Hat _].
  assert ((if decide (address_type (request_ s) = domain) then Some endpoint_default
           else Ss.endpoint_of (request_ s)) = Some (bound d p)) as ->.
  { rewrite He. unfold bound. case_decide as C; rewrite Hat in C; by destruct d. }
  cbn [mbind option_bind]. eexists. split; [done|]. apply Socks5.reply_bytes.
Qed.

(** What [OnConnect] leaves in the queue for the client. *)
Definition connect_reply (s : server) : list byte :=
  if bool_decide (method = CRYPTO_HTTPS) && http_is_connect_ s then http_connect_reply_ else [].

Lemma OnConnect_spec D s d p out :
  dest_of (request_ s) = Some d → Ss.port (request_ s) = Some p → holds D (downstream_ s) out →
  ∃ q, OnConnect s = Some (set_downstream (set_channel s (Some (host_of d, p))) q) ∧
    holds D q (out ++ connect_reply s).
Proof.
  intros Hd Hp Ho. unfold OnConnect, connect_reply. rewrite Hp. cbn [mbind option_bind].
  pose proof (Ss.endpoint_of_view _ _ _ Hd Hp) as He. apply dest_of_inv in Hd as [Hat Hv].
  assert ((if decide (address_type (request_ s) = domain) then Some (Ss.domain_name_str to_string (request_ s))
    else ep ← Ss.endpoint_of (request_ s); Some (to_string (ep_address ep))) = Some (host_of d)) as E.
  { unfold Ss.domain_name_str. rewrite Hat, He.
    destruct d; cbn [dest_atyp]; repeat case_decide; try done; simpl; by rewrite Hv. }
  rewrite E. cbn [mbind option_bind]. cbv zeta. change (http_is_connect_ (set_channel _ _)) with (http_is_connect_ s).
  destruct (bool_decide (method = CRYPTO_HTTPS) && http_is_connect_ s).
  - destruct (copyBuffer_spec http_connect_reply_) as (b & -> & W & Sp & _). cbn [mbind option_bind].
    unfold OnDownstreamWrite. destruct (empty b) eqn:Eb; [apply empty_span in Eb; [by rewrite Eb in Sp|done]|].
    eexists. split; [done|]. rewrite <- Sp. by apply holds_push.
  - exists (downstream_ s). split; [by destruct s|by rewrite app_nil_r].
Qed.

(** The end of a handshake: the upstream connection is started and what the
    client sent after its request is queued for it. *)
Lemma ProcessReceivedData_handshake D s buf d p bs out :
  state_ s = state_handshake → wf buf → holds D (upstream_ s) bs → upstream_writable_ s = false →
  dest_of (request_ s) = Some d → Ss.port (request_ s) = Some p → holds D (downstream_ s) out →
  ∃ s', ProcessReceivedData s buf = Some s' ∧ state_ s' = state_stream ∧ closed_ s' = closed_ s ∧
    request_ s' = request_ s ∧ sent_ s' = sent_ s ∧ channel_ s' = Some (host_of d, p) ∧
    holds D (upstream_ s') (bs ++ span buf) ∧ holds D (downstream_ s') (out ++ connect_reply s).
Proof.
  intros Hs W Hq Hw Hd Hp Ho. unfold ProcessReceivedData. rewrite Hs.
  destruct (OnConnect_spec D (set_state s state_stream) d p out Hd Hp Ho) as (q & -> & Hq').
  cbn [mbind option_bind].
  pose proof (length_span buf W) as Hl. destruct (Nat.ltb_spec 0 (size buf)) as [Hlt|Hle].
  - eexists. split; [done|]. unfold OnStreamRead, OnUpstreamWrite.
    destruct (empty buf) eqn:He; [apply Nat.eqb_eq in He; lia|].
    cbn [upstream_ upstream_writable_ set_upstream set_channel set_state set_downstream]. rewrite Hw, andb_false_r.
    cbn. split_and!; try done. by apply holds_push.
  - eexists. split; [done|]. split_and!; try done. destruct (span buf) eqn:E; [|simpl in Hl; lia].
    by rewrite app_nil_r.
Qed.

(** ** The SOCKS5 handshake, step by step *)

(** An open connection in the handshake, waiting for [w], that has sent [out] and
    has [rest] left over from the last read. *)
Record shaking (D : nat) (s : server) (w : wait) (rest out : list byte) : Prop := {
  sh_closed : closed_ s = false;
  sh_waiting : waiting_ s = w;
  sh_state : state_ s = state_handshake;
  sh_pending : ∃ b, handshake_pending_buf_ s = Some b ∧ wf b ∧ span b = rest;
  sh_sent : sent_ s = out;
  sh_upstream : holds D (upstream_ s) [];
  sh_writable : upstream_writable_ s = false;
  sh_downstream : holds D (downstream_ s) [] }.

(** A request with its destination has been taken. *)
Definition requested (s : server) (d : dest) (p : Z) : Prop :=
  request_ s = wire d p ++ drop (wire_size d) header_init.

Definition socks5_request (cmd rsv : byte) (d : dest) (p : Z) : list byte :=
  Socks5.version :: cmd :: rsv :: wire d p.

Lemma step_greeting D junkm methods rest :
  method = CRYPTO_SOCKS5 ∨ method = CRYPTO_SOCKS5H → 2 <= D →
  length junkm = 255 → length methods <= 255 → wanted ∈ methods →
  (Z.of_nat (length (greeting methods ++ rest)) <= SOCKET_DEBUF_SIZE)%Z →
  ∃ s', step junkm (init D) (Readable (Read (greeting methods ++ rest))) = Some s' ∧
    shaking D s' wait_method_reply rest [].
Proof.
  intros Hm HD Hj Hl Hin Hlen. unfold step. cbn [init closed_ waiting_]. cbv zeta.
  unfold OnReadHandshakeViaSocks.
  destruct (read_buf_spec SOCKET_DEBUF_SIZE _ Hlen) as (b & -> & W & Sp & _). cbn [mbind option_bind].
  destruct (method_select_good junkm (set_waiting (init D) no_wait) b methods rest)
    as (b' & E & W' & S'); try done.
  eexists. split; [destruct Hm as [-> | ->]; exact E|].
  split; try done; [by exists b'|..]; by apply holds_make.
Qed.

Lemma step_write_small D s w rest out (reply : list byte) (k : server → option server) :
  shaking D s w rest out →
  ∃ s1, (buf ← copyBuffer reply; write_reply (set_waiting s no_wait) buf (Some (length reply)) k) = k s1 ∧
    shaking D s1 no_wait rest (out ++ reply) ∧ request_ s1 = request_ s.
Proof.
  intros [Hc Hw Hs Hp Ho Hu Hwr Hds]. destruct (copyBuffer_spec reply) as (b & -> & W & Sp & _).
  cbn [mbind option_bind write_reply]. rewrite Sp, firstn_all, <- (length_span b), Sp, Nat.eqb_refl by done.
  eexists. split; [done|]. split; [|done]. split; try done. cbn. by rewrite Ho.
Qed.

(** What the two readers do with the bytes left over. *)
Lemma read_auth_spec D s rest out :
  shaking D s no_wait rest out → 1 <= length username <= 255 → 1 <= length password <= 255 →
  (rest = [] → ∃ s', ReadSocks5UsernamePasswordAuth s = Some s' ∧ shaking D s' wait_auth [] out) ∧
  (∀ rest', rest = Socks5.auth_wire username password ++ rest' →
     ∃ s', ReadSocks5UsernamePasswordAuth s = Some s' ∧ shaking D s' wait_auth_reply rest' out).
Proof.
  intros [Hc Hw Hs (b & Hb & W & Sp) Ho Hu Hwr Hds] Hul Hpl. unfold ReadSocks5UsernamePasswordAuth.
  rewrite Hb. cbn [mbind option_bind]. split.
  - intros ->. rewrite (proj2 (empty_span b W) Sp). eexists. split; [done|]. split; try done. by exists b.
  - intros rest' ->. destruct (empty b) eqn:He.
    { apply empty_span in He; [|done]. by rewrite He in Sp. }
    destruct (auth_good (set_pending s None) b rest') as (b' & -> & W' & S'); try done.
    eexists. split; [done|]. split; try done. by exists b'.
Qed.

Lemma read_request_spec D s rest out :
  shaking D s no_wait rest out →
  (rest = [] → ∃ s', ReadHandshakeViaSocks5 s = Some s' ∧ shaking D s' wait_socks5 [] out) ∧
  (∀ cmd rsv d p rest', rest = socks5_request cmd rsv d p ++ rest' →
     dest_wf d → port_wf p → dest_ok d → p ≠ 0%Z →
     ∃ s', ReadHandshakeViaSocks5 s = Some s' ∧ shaking D s' wait_reply rest' out ∧ requested s' d p).
Proof.
  intros [Hc Hw Hs (b & Hb & W & Sp) Ho Hu Hwr Hds]. unfold ReadHandshakeViaSocks5.
  rewrite Hb. cbn [mbind option_bind]. split.
  - intros ->. rewrite (proj2 (empty_span b W) Sp). eexists. split; [done|]. split; try done. by exists b.
  - intros cmd rsv d p rest' -> Hd Hp Hok Hp0. destruct (empty b) eqn:He.
    { apply empty_span in He; [|done]. by rewrite He in Sp. }
    destruct (request_good (set_pending s None) b cmd rsv d p rest') as (b' & -> & W' & S'); try done.
    eexists. split; [done|]. split; [split; try done; by exists b'|done].
Qed.

Lemma step_auth D junkm s out rest :
  shaking D s wait_auth [] out → 1 <= length username <= 255 → 1 <= length password <= 255 →
  (Z.of_nat (length (Socks5.auth_wire username password ++ rest)) <= SOCKET_DEBUF_SIZE)%Z →
  ∃ s', step junkm s (Readable (Read (Socks5.auth_wire username password ++ rest))) = Some s' ∧
    shaking D s' wait_auth_reply rest out.
Proof.
  intros [Hc Hw Hs (b & Hb & W & Sp) Ho Hu Hwr Hds] Hul Hpl Hlen. unfold step. rewrite Hc, Hw. cbv zeta.
  unfold OnReadSocks5UsernamePasswordAuth. cbn [handshake_pending_buf_ set_waiting]. rewrite Hb.
  cbn [mbind option_bind]. rewrite (proj2 (empty_span b W) Sp).
  destruct (read_buf_spec SOCKET_DEBUF_SIZE _ Hlen) as (b1 & -> & W1 & Sp1 & _). cbn [mbind option_bind].
  destruct (auth_good (set_pending (set_waiting s no_wait) None) b1 rest) as (b' & -> & W' & S'); try done.
  eexists. split; [done|]. split; try done. by exists b'.
Qed.

Lemma step_request D junkm s out cmd rsv d p rest :
  shaking D s wait_socks5 [] out → dest_wf d → port_wf p → dest_ok d → p ≠ 0%Z →
  (Z.of_nat (length (socks5_request cmd rsv d p ++ rest)) <= SOCKET_DEBUF_SIZE)%Z →
  ∃ s', step junkm s (Readable (Read (socks5_request cmd rsv d p ++ rest))) = Some s' ∧
    shaking D s' wait_reply rest out ∧ requested s' d p.
Proof.
  intros [Hc Hw Hs (b & Hb & W & Sp) Ho Hu Hwr Hds] Hd Hp Hok Hp0 Hlen. unfold step. rewrite Hc, Hw. cbv zeta.
  unfold OnReadHandshakeViaSocks5. cbn [handshake_pending_buf_ set_waiting]. rewrite Hb.
  cbn [mbind option_bind]. rewrite (proj2 (empty_span b W) Sp).
  destruct (read_buf_spec SOCKET_DEBUF_SIZE _ Hlen) as (b1 & -> & W1 & Sp1 & _). cbn [mbind option_bind].
  destruct (request_good (set_pending (set_waiting s no_wait) None) b1 cmd rsv d p rest)
    as (b' & -> & W' & S'); try done.
  eexists. split; [done|]. split; [split; try done; by exists b'|done].
Qed.

(** The connection after the handshake. *)
Definition streaming (D : nat) (s : server) (d : dest) (p : Z) (payload out : list byte) : Prop :=
  closed_ s = false ∧ state_ s = state_stream ∧ dest_of (request_ s) = Some d ∧
  Ss.port (request_ s) = Some p ∧ channel_ s = Some (host_of d, p) ∧
  holds D (upstream_ s) payload ∧ sent_ s = out.

Lemma step_write_response D junkm s out d p rest reply :
  (∃ l, handshake_reply (set_waiting s no_wait) = Some l ∧ concat l = reply) →
  shaking D s wait_reply rest out → requested s d p → dest_wf d → port_wf p →
  ∃ s', step junkm s (Writable (Some (length reply))) = Some s' ∧
    streaming D s' d p rest (out ++ reply).
Proof.
  intros (l & Hm & El) [Hc Hw Hs (b & Hb & W & Sp) Ho Hu Hwr Hds] Hr Hd Hp. unfold step. rewrite Hc, Hw. cbv zeta.
  unfold requested in Hr.
  destruct (Ss.ss_header_view d p (drop (wire_size d) header_init) Hd Hp) as (V1 & V2 & _).
  rewrite <- Hr in V1, V2. unfold on_write_response. rewrite Hm.
  cbn [mbind option_bind]. destruct (append_all_spec l make wf_make) as (rb & -> & Wr & Sr).
  cbn [mbind option_bind write_reply]. change (span make) with (@nil byte) in Sr. simpl in Sr. rewrite El in Sr.
  rewrite Sr, firstn_all, <- (length_span rb), Sr, Nat.eqb_refl by done.
  cbn [handshake_pending_buf_ add_sent set_waiting]. rewrite Hb. cbn [mbind option_bind].
  edestruct (ProcessReceivedData_handshake D
    (set_pending (add_sent (set_waiting s no_wait) reply) None) b d p [] [])
    as (s' & E & S1 & S2 & S3 & S4 & S5 & S6 & _); try done.
  exists s'. split; [exact E|]. split_and!; try done.
  - by rewrite S2.
  - by rewrite S3.
  - by rewrite S3.
  - by rewrite <- Sp.
  - rewrite S4. simpl. by rewrite Ho.
Qed.

Lemma step_reply D junkm s out d p rest :
  method = CRYPTO_SOCKS5 ∨ method = CRYPTO_SOCKS5H →
  shaking D s wait_reply rest out → requested s d p → dest_wf d → port_wf p →
  ∃ s', step junkm s (Writable (Some (length (socks5_reply d p)))) = Some s' ∧
    streaming D s' d p rest (out ++ socks5_reply d p).
Proof.
  intros Hm Sh Hr Hd Hp. apply step_write_response; try done.
  destruct (Ss.ss_header_view d p (drop (wire_size d) header_init) Hd Hp) as (V1 & V2 & _).
  rewrite <- Hr in V1, V2. by apply handshake_reply_socks5.
Qed.

Lemma step_method_reply D junkm s rest :
  shaking D s wait_method_reply rest [] →
  ∃ s1, step junkm s (Writable (Some 2))
        = (if auth_required then ReadSocks5UsernamePasswordAuth s1 else ReadHandshakeViaSocks5 s1) ∧
    shaking D s1 no_wait rest [Socks5.version; wanted].
Proof.
  intros Hsh. pose proof Hsh as [Hc Hw _ _ _ _ _ _]. unfold step. rewrite Hc, Hw. cbv zeta.
  unfold on_write_method_select. fold wanted.
  destruct (step_write_small D s wait_method_reply rest []
    (Socks5.method_select_response_stock_reply wanted)
    (λ s, if auth_required then ReadSocks5UsernamePasswordAuth s else ReadHandshakeViaSocks5 s) Hsh)
    as (s1 & E & Hsh1 & _). exists s1. split; [exact E|exact Hsh1].
Qed.

Lemma step_auth_reply D junkm s rest out :
  shaking D s wait_auth_reply rest out →
  ∃ s1, step junkm s (Writable (Some 2)) = ReadHandshakeViaSocks5 s1 ∧
    shaking D s1 no_wait rest (out ++ [Socks5.version; x00]).
Proof.
  intros Hsh. pose proof Hsh as [Hc Hw _ _ _ _ _ _]. unfold step. rewrite Hc, Hw. cbv zeta.
  unfold on_write_auth.
  destruct (step_write_small D s wait_auth_reply rest out (Socks5.auth_response_stock_reply x00)
    ReadHandshakeViaSocks5 Hsh) as (s1 & E & Hsh1 & _). exists s1. split; [exact E|exact Hsh1].
Qed.

(** A client's messages and the server's replies: each message in a read of its
    own, or all of them at once. *)
Definition socks5_messages (methods : list byte) (cmd rsv : byte) (d : dest) (p : Z)
    (payload : list byte) : list (list byte) :=
  [greeting methods] ++ (if auth_required then [Socks5.auth_wire username password] else []) ++
  [socks5_request cmd rsv d p ++ payload].

Definition socks5_replies (d : dest) (p : Z) : list (list byte) :=
  [[Socks5.version; wanted]] ++ (if auth_required then [[Socks5.version; x00]] else []) ++
  [socks5_reply d p].

Definition socks5_events (pipelined : bool) (msgs replies : list (list byte)) : list event :=
  if pipelined
  then Readable (Read (concat msgs)) :: map (λ r, Writable (Some (length r))) replies
  else concat (zip_with (λ m r, [Readable (Read m); Writable (Some (length r))]) msgs replies).

Lemma run_cons junkm s e es s1 : step junkm s e = Some s1 → run junkm s (e :: es) = run junkm s1 es.
Proof. intros E. simpl. by rewrite E. Qed.

Lemma auth_required_lengths :
  auth_required = true → 1 <= length username ∧ 1 <= length password.
Proof.
  unfold auth_required. destruct username, password; simpl; intros; try done. lia.
Qed.

(** From the start to the reading of the second message. *)
Lemma socks5_start_run D junkm methods rest :
  method = CRYPTO_SOCKS5 ∨ method = CRYPTO_SOCKS5H → 2 <= D → length junkm = 255 →
  length methods <= 255 → wanted ∈ methods →
  (Z.of_nat (length (greeting methods ++ rest)) <= SOCKET_DEBUF_SIZE)%Z →
  ∃ s1 s2, step junkm (init D) (Readable (Read (greeting methods ++ rest))) = Some s1 ∧
    step junkm s1 (Writable (Some 2))
      = (if auth_required then ReadSocks5UsernamePasswordAuth s2 else ReadHandshakeViaSocks5 s2) ∧
    shaking D s2 no_wait rest [Socks5.version; wanted].
Proof.
  intros. destruct (step_greeting D junkm methods rest) as (s1 & E1 & Sh1); try done.
  destruct (step_method_reply D junkm s1 rest Sh1) as (s2 & E2 & Sh2). by exists s1, s2.
Qed.

(** From the reading of the request to the stream. *)
Lemma socks5_end_run D junkm cmd rsv d p payload s out (pipelined : bool) :
  method = CRYPTO_SOCKS5 ∨ method = CRYPTO_SOCKS5H →
  dest_wf d → port_wf p → dest_ok d → p ≠ 0%Z →
  let q := socks5_request cmd rsv d p in
  (Z.of_nat (length (q ++ payload)) <= SOCKET_DEBUF_SIZE)%Z →
  shaking D s no_wait (if pipelined then q ++ payload else []) out →
  ∃ s1 s', ReadHandshakeViaSocks5 s = Some s1 ∧
    run junkm s1 ((if pipelined then [] else [Readable (Read (q ++ payload))])
                  ++ [Writable (Some (length (socks5_reply d p)))]) = Some s' ∧
    streaming D s' d p payload (out ++ socks5_reply d p).
Proof.
  intros Hm Hd Hp Hok Hp0 q Hlen Sh. destruct (read_request_spec D s _ out Sh) as [R1 R2].
  assert (∃ s1, ReadHandshakeViaSocks5 s = Some s1 ∧ ∃ s2,
    run junkm s1 ((if pipelined then [] else [Readable (Read (q ++ payload))])
      ++ [Writable (Some (length (socks5_reply d p)))])
    = run junkm s2 [Writable (Some (length (socks5_reply d p)))] ∧
    shaking D s2 wait_reply payload out ∧ requested s2 d p) as (s1 & E1 & s2 & E2 & Sh2 & Q2).
  { destruct pipelined.
    - destruct (R2 cmd rsv d p payload eq_refl) as (s1 & E1 & Sh1 & Q1); try done.
      exists s1. split; [done|]. by exists s1.
    - destruct (R1 eq_refl) as (s1 & E1 & Sh1). exists s1. split; [done|].
      destruct (step_request D junkm s1 out cmd rsv d p payload) as (s2 & E2 & Sh2 & Q2); try done.
      exists s2. split; [by apply run_cons|done]. }
  destruct (step_reply D junkm s2 out d p payload Hm Sh2 Q2 Hd Hp) as (s' & E & St).
  exists s1, s'. split; [done|]. split; [|done]. rewrite E2. by rewrite (run_cons _ _ _ _ _ E).
Qed.

Lemma socks5_handshake_run D junkm pipelined methods cmd rsv d p payload :
  method = CRYPTO_SOCKS5 ∨ method = CRYPTO_SOCKS5H → 2 <= D → length junkm = 255 →
  length username <= 255 → length password <= 255 →
  length methods <= 255 → wanted ∈ methods → dest_wf d → port_wf p → dest_ok d → p ≠ 0%Z →
  (Z.of_nat (length (concat (socks5_messages methods cmd rsv d p payload))) <= SOCKET_DEBUF_SIZE)%Z →
  ∃ s', run junkm (init D)
          (socks5_events pipelined (socks5_messages methods cmd rsv d p payload) (socks5_replies d p))
        = Some s' ∧
    streaming D s' d p payload (concat (socks5_replies d p)).
Proof.
  intros Hm HD Hj Hu Hpw Hl Hin Hd Hp Hok Hp0 Hlen. pose proof auth_required_lengths as Hal.
  unfold socks5_messages, socks5_replies in *.
  pose proof (λ s out, socks5_end_run D junkm cmd rsv d p payload s out pipelined Hm Hd Hp Hok Hp0) as Hend.
  set (q := socks5_request cmd rsv d p) in *. set (a := Socks5.auth_wire username password) in *.
  pose proof (socks5_start_run D junkm methods
    (if pipelined then concat ((if auth_required then [a] else []) ++ [q ++ payload]) else [])
    Hm HD Hj Hl Hin) as Hstart.
  destruct auth_required eqn:Ha; cbn [concat app zip_with] in *; rewrite ?app_nil_r in *.
  - destruct (Hal eq_refl) as [Hu1 Hpw1].
    destruct Hstart as (s1 & s2 & E1 & E2 & Sh2); [destruct pipelined; rewrite !length_app in *; simpl in *; lia|].
    destruct (read_auth_spec D s2 _ _ Sh2 ltac:(lia) ltac:(lia)) as [A1 A2].
    assert (∃ s3, ReadSocks5UsernamePasswordAuth s2 = Some s3 ∧ ∃ s4, run junkm s3
       ((if pipelined then [] else [Readable (Read a)]) ++ [Writable (Some 2)] ++
        (if pipelined then [] else [Readable (Read (q ++ payload))]) ++
        [Writable (Some (length (socks5_reply d p)))])
     = run junkm s4 ([Writable (Some 2)] ++
        (if pipelined then [] else [Readable (Read (q ++ payload))]) ++
        [Writable (Some (length (socks5_reply d p)))]) ∧
     shaking D s4 wait_auth_reply (if pipelined then q ++ payload else []) [Socks5.version; wanted])
     as (s3 & E3 & s4 & E4 & Sh4).
    { destruct pipelined.
      - destruct (A2 (q ++ payload) eq_refl) as (s3 & E3 & Sh3). exists s3. split; [done|]. by exists s3.
      - destruct (A1 eq_refl) as (s3 & E3 & Sh3). exists s3. split; [done|].
        destruct (step_auth D junkm s3 _ [] Sh3) as (s4 & E4 & Sh4); [lia|lia| |].
        { fold a. rewrite !length_app in *. simpl in *. lia. }
        fold a in E4. rewrite app_nil_r in E4. exists s4. split; [by apply run_cons|done]. }
    destruct (step_auth_reply D junkm s4 _ _ Sh4) as (s5 & E5 & Sh5).
    destruct (Hend s5 _ ltac:(rewrite !length_app in *; simpl in *; lia) Sh5) as (s6 & s' & E6 & E7 & St).
    exists s'. rewrite E6 in E5. rewrite E3 in E2.
    split; [|by rewrite <- !app_assoc in St].
    rewrite <- E7, <- (run_cons _ _ _ _ _ E5). etransitivity; [|exact E4].
    destruct pipelined; cbn [socks5_events concat app map zip_with]; rewrite ?app_nil_r in *;
      by rewrite (run_cons _ _ _ _ _ E1), (run_cons _ _ _ _ _ E2).
  - destruct Hstart as (s1 & s2 & E1 & E2 & Sh2); [destruct pipelined; rewrite !length_app in *; simpl in *; lia|].
    destruct (Hend s2 _ ltac:(rewrite !length_app in *; simpl in *; lia) Sh2) as (s6 & s' & E6 & E7 & St).
    exists s'. rewrite E6 in E2. split; [|done]. rewrite <- E7.
    destruct pipelined; cbn [socks5_events concat app map zip_with]; rewrite ?app_nil_r in *;
      by rewrite (run_cons _ _ _ _ _ E1), (run_cons _ _ _ _ _ E2).
Qed.

(** ** A truncated request *)

Definition truncated_request (cmd rsv : byte) (name : list byte) (hi : byte) : list byte :=
  Socks5.version :: cmd :: rsv :: domain :: to_u8 (Z.of_nat (length name)) :: name ++ [hi].

Lemma request_truncated s buf cmd rsv name hi :
  wf buf → span buf = truncated_request cmd rsv name hi → 1 <= length name <= 255 →
  request_from_buf s buf = None.
Proof.
  intros W Sp Hn. unfold request_from_buf. destruct (data_span buf W) as [slack ->]. rewrite Sp.
  rewrite <- length_span, Sp by done.
  pose proof (Socks5.rq_parse_truncated cmd rsv name hi slack Hn) as Ht. cbv zeta in Ht.
  fold (truncated_request cmd rsv name hi) in Ht. revert Ht.
  destruct (Socks5.RequestParser.rq_parse _ _ _ _ _) as [[[[res i] st] r]|]; [|done].
  intros [-> Hr]. cbn [mbind option_bind]. rewrite Hr. unfold set_offset.
  pose proof (length_span buf W) as Hl. rewrite Sp in Hl. unfold size in Hl. unfold wf in W.
  destruct (Z.ltb_spec (Z.of_nat (offset buf) + Z.of_nat (length (truncated_request cmd rsv name hi) + 1)) 0);
    [done|].
  destruct (Z.ltb_spec (Z.of_nat (capacity buf))
    (Z.of_nat (offset buf) + Z.of_nat (length (truncated_request cmd rsv name hi) + 1))); [done|lia].
Qed.

(** ** SOCKS4 and SOCKS4A *)

(** The destination of a SOCKS4 request: the name for 0.0.0.x with x nonzero. *)
Definition socks4_dest (a dom : list byte) : dest :=
  if Socks4.is_socks4a (Socks4.mkRequest (Socks4.mkHeader Socks4.version x00 x00 x00 a) [] [])
  then to_domain dom else to_v4 a.

Definition socks4_reply : list byte :=
  [x00; Socks4.request_granted; x00; x00; x00; x00; x00; x00].

Lemma socks4_request_cases s buf c ph pl a uid dom rest :
  wf buf → span buf = Socks4.wire4 c ph pl a uid dom ++ rest → length a = 4 →
  x00 ∉ uid → x00 ∉ dom → dest_ok (socks4_dest a dom) → be16 ph pl ≠ 0%Z →
  ∃ buf', wf buf' ∧ span buf' = rest ∧
    OnReadSocks4Request s buf
    = (r ← Ss.make_request (socks4_dest a dom) (be16 ph pl);
       Some (WriteHandshakeResponse (set_pending (set_request s r) (Some buf')))).
Proof.
  intros W Sp Ha Hu Hd Hok Hp0. unfold OnReadSocks4Request.
  destruct (data_msg buf _ _ W Sp) as (tl & -> & Hl & _).
  destruct (Socks4.s4_parse_mem c ph pl a uid dom tl (size buf)) as (r & st & -> & Hr & Hru & Hrd & Hport & Hlen);
    [done..|]. cbn [mbind option_bind]. rewrite Hlen.
  destruct (advance_past buf _ rest _ W Sp eq_refl) as (b' & -> & W' & S'). cbn [mbind option_bind].
  exists b'. split; [done|]. split; [done|]. rewrite Hport. destruct (Z.eqb_spec (be16 ph pl) 0) as [Hz|_]; [by destruct (Hp0 Hz)|].
  cbn [orb]. unfold Socks4.endpoint_of. rewrite Hr, Hport. cbn [Socks4.h_address ep_address is_unspecified].
  assert (Socks4.is_socks4a r = Socks4.is_socks4a
    (Socks4.mkRequest (Socks4.mkHeader Socks4.version x00 x00 x00 a) [] [])) as E4
    by (unfold Socks4.is_socks4a; by rewrite Hr).
  rewrite Hrd, E4. unfold socks4_dest in *. destruct (Socks4.is_socks4a _); cbn [dest_ok andb orb negb] in *.
  - rewrite bool_decide_eq_false_2 by done. done.
  - rewrite bool_decide_eq_false_2 by done. done.
Qed.

Lemma poke_inv h off bs h' :
  poke h off bs = Some h' → length h' = length h ∧ off + length bs <= length h.
Proof.
  unfold poke. case_decide as C; [|done]. intros [= <-]. split; [by apply length_splice|done].
Qed.

Lemma request_domain_overflow name p : 255 < length name → Ss.request_domain name p = None.
Proof.
  intros Hl. unfold Ss.request_domain. cbv zeta. pose proof length_header_init as L0. unfold header_size in L0.
  destruct (poke header_init _ _) as [r1|] eqn:E1; [|done]. apply poke_inv in E1 as [L1 _].
  cbn [mbind option_bind]. destruct (poke r1 _ _) as [r2|] eqn:E2; [|done]. apply poke_inv in E2 as [L2 _].
  cbn [mbind option_bind]. destruct (poke r2 _ _) as [r3|] eqn:E3; [|done]. apply poke_inv in E3 as [L3 _].
  cbn [mbind option_bind]. destruct (poke r3 _ _) as [r4|] eqn:E4; [|done]. apply poke_inv in E4 as [_ L4].
  unfold be16_bytes in L4. cbn [length] in L4. lia.
Qed.

Lemma handshake_reply_socks4 s :
  method = CRYPTO_SOCKS4 ∨ method = CRYPTO_SOCKS4A →
  ∃ l, handshake_reply s = Some l ∧ concat l = socks4_reply.
Proof. intros Hm. unfold handshake_reply. rewrite decide_True by done. simpl. by eexists. Qed.

Lemma step_socks4 D junkm c ph pl a uid dom rest :
  method = CRYPTO_SOCKS4 ∨ method = CRYPTO_SOCKS4A →
  let w := Socks4.wire4 c ph pl a uid dom in
  (Z.of_nat (length (w ++ rest)) <= SOCKET_DEBUF_SIZE)%Z → length a = 4 →
  x00 ∉ uid → x00 ∉ dom → dest_ok (socks4_dest a dom) → be16 ph pl ≠ 0%Z →
  ∃ buf', wf buf' ∧ span buf' = rest ∧
    step junkm (init D) (Readable (Read (w ++ rest)))
    = (r ← Ss.make_request (socks4_dest a dom) (be16 ph pl);
       Some (WriteHandshakeResponse
         (set_pending (set_request (set_waiting (init D) no_wait) r) (Some buf')))).
Proof.
  intros Hm w Hlen Ha Hu Hd Hok Hp0. unfold step. cbn [init closed_ waiting_]. cbv zeta.
  unfold OnReadHandshakeViaSocks.
  destruct (read_buf_spec SOCKET_DEBUF_SIZE _ Hlen) as (b & -> & W & Sp & _). cbn [mbind option_bind].
  destruct (socks4_request_cases (set_waiting (init D) no_wait) b c ph pl a uid dom rest)
    as (b' & W' & S' & E); [done..|]. exists b'. split; [done|]. split; [done|].
  by destruct Hm as [-> | ->].
Qed.

Lemma socks4_handshake_run D junkm c ph pl a uid dom payload :
  method = CRYPTO_SOCKS4 ∨ method = CRYPTO_SOCKS4A → 2 <= D →
  let w := Socks4.wire4 c ph pl a uid dom in
  (Z.of_nat (length (w ++ payload)) <= SOCKET_DEBUF_SIZE)%Z → length a = 4 →
  x00 ∉ uid → x00 ∉ dom → length dom <= 255 → dest_ok (socks4_dest a dom) → be16 ph pl ≠ 0%Z →
  ∃ s', run junkm (init D) [Readable (Read (w ++ payload)); Writable (Some 8)] = Some s' ∧
    streaming D s' (socks4_dest a dom) (be16 ph pl) payload socks4_reply.
Proof.
  intros Hm HD w Hlen Ha Hu Hdm Hdl Hok Hp0. pose proof (be16_range ph pl) as Hport.
  assert (dest_wf (socks4_dest a dom)) as Hwf by (unfold socks4_dest; by case_match).
  destruct (step_socks4 D junkm c ph pl a uid dom payload) as (b & W & Sp & E); [done..|].
  fold w in E. rewrite Ss.make_request_spec in E by done. cbn [mbind option_bind] in E.
  rewrite (run_cons _ _ _ _ _ E). cbn [run]. clear E.
  set (s1 := WriteHandshakeResponse _).
  destruct (step_write_response D junkm s1 [] (socks4_dest a dom) (be16 ph pl) payload socks4_reply)
    as (s' & E & St); [by apply handshake_reply_socks4| |done|done|by apply be16_range|].
  - split; [reflexivity..|exists b; exact (conj eq_refl (conj W Sp))|reflexivity|by apply holds_make|reflexivity|by apply holds_make].
  - change 8 with (length socks4_reply). rewrite E. exists s'. exact (conj eq_refl St).
Qed.

(** ** Properties of the SOCKS handshakes *)

(** C12: the SOCKS5 server and its CONNECT request.  A client that offers the
    wanted method, gives the configured credentials when they are required, and asks
    to be connected to a destination that is not empty and a port that is not zero, with
    all its messages in [SOCKET_DEBUF_SIZE] bytes, is sent the method, the acceptance of
    the credentials and the reply that grants the request; the connection then is a
    stream to that host and port, and what the
    client sent behind its request is queued for the destination.  This holds
    whether the client waits for each reply or sends everything at once.  The credentials
    and the answer to them carry version 5, not the 1 of RFC 1929; the request is
    granted before the destination has been reached, and names the address that was
    asked for, or 0.0.0.0 and port 0 for a name, as the bound one. *)
Theorem server_socks5_handshake D junkm pipelined methods rsv d p payload :
  method = CRYPTO_SOCKS5 ∨ method = CRYPTO_SOCKS5H → 2 <= D → length junkm = 255 →
  length username <= 255 → length password <= 255 →
  length methods <= 255 → wanted ∈ methods → dest_wf d → port_wf p → dest_ok d → p ≠ 0%Z →
  (Z.of_nat (length (concat (socks5_messages methods Socks5.cmd_connect rsv d p payload))) <= SOCKET_DEBUF_SIZE)%Z →
  ∃ s', run junkm (init D)
          (socks5_events pipelined (socks5_messages methods Socks5.cmd_connect rsv d p payload) (socks5_replies d p))
        = Some s' ∧
    streaming D s' d p payload (concat (socks5_replies d p)).
Proof. apply socks5_handshake_run. Qed.

(** The SOCKS4 and SOCKS4A server.  A request, with the name behind the user
    id for the addresses 0.0.0.x, makes the connection a stream to that host and
    port once the eight bytes of the reply are written; what the client sent
    behind its request is queued for the destination. *)
Theorem server_socks4_handshake D junkm c ph pl a uid dom payload :
  method = CRYPTO_SOCKS4 ∨ method = CRYPTO_SOCKS4A → 2 <= D →
  (Z.of_nat (length (Socks4.wire4 c ph pl a uid dom ++ payload)) <= SOCKET_DEBUF_SIZE)%Z → length a = 4 →
  x00 ∉ uid → x00 ∉ dom → length dom <= 255 → dest_ok (socks4_dest a dom) → be16 ph pl ≠ 0%Z →
  ∃ s', run junkm (init D)
          [Readable (Read (Socks4.wire4 c ph pl a uid dom ++ payload)); Writable (Some 8)] = Some s' ∧
    streaming D s' (socks4_dest a dom) (be16 ph pl) payload socks4_reply.
Proof. apply socks4_handshake_run. Qed.

(** The credentials message with version byte [v]. *)
Definition credentials (v : byte) (u pw : list byte) : list byte :=
  v :: to_u8 (Z.of_nat (length u)) :: u ++ to_u8 (Z.of_nat (length pw)) :: pw.

(** C31: authentication.  Of all credentials messages, the server waiting for one
    goes on exactly with those that carry version 5 and the configured user name
    and password; it closes the connection on every other one.  RFC 1929 has
    version 1 in this message, so the message of a client that follows it closes
    the connection. *)
Theorem server_socks5_auth D junkm s out v u pw :
  shaking D s wait_auth [] out → 1 <= length u <= 255 → 1 <= length pw <= 255 →
  ∃ s', step junkm s (Readable (Read (credentials v u pw))) = Some s' ∧
    (if decide (v = Socks5.version ∧ u = username ∧ pw = password)
     then shaking D s' wait_auth_reply [] out else closed_ s' = true).
Proof.
  intros [Hc Hw Hs (b & Hb & W & Sp) Ho Hu Hwr Hds] Hul Hpl. unfold step. rewrite Hc, Hw. cbv zeta.
  unfold OnReadSocks5UsernamePasswordAuth. cbn [handshake_pending_buf_ set_waiting]. rewrite Hb.
  cbn [mbind option_bind]. rewrite (proj2 (empty_span b W) Sp).
  destruct (read_buf_spec SOCKET_DEBUF_SIZE (credentials v u pw)) as (b1 & -> & W1 & Sp1 & _).
  { unfold credentials, SOCKET_DEBUF_SIZE. rewrite !length_cons, length_app. simpl. lia. }
  cbn [mbind option_bind]. unfold auth_from_buf. set (s1 := set_pending _ None).
  assert (closed_ s1 = false) as Hc1 by exact Hc.
  rewrite <- (app_nil_r (credentials v u pw)) in Sp1.
  destruct (data_msg b1 _ _ W1 Sp1) as (tl & Ed & Hl & _).
  destruct (decide (v = Socks5.version)) as [->|Hv].
  - rewrite Ed. change (credentials Socks5.version u pw) with (Socks5.auth_wire u pw) in *.
    rewrite Socks5.auth_parse_mem by done. cbn [mbind option_bind].
    unfold Socks5.auth_length. cbn [Socks5.auth_username Socks5.auth_password].
    destruct (advance_past b1 (Socks5.auth_wire u pw) [] (1 + 1 + length u + 1 + length pw)) as (b' & -> & W' & S');
      [done|done|unfold Socks5.auth_wire; len|]. cbn [mbind option_bind].
    unfold OnDisconnect. rewrite Hc1.
    repeat case_bool_decide; cbn [andb]; eexists; (split; [reflexivity|]); case_decide as Hd;
      try (exfalso; tauto); try done.
    split; try done. by exists b'.
  - unfold Socks5.AuthParser.auth_parse, Socks5.AuthParser.auth_reset. cbv zeta.
    assert (1 <= length (credentials v u pw)) by (unfold credentials; simpl; lia).
    destruct (Nat.ltb_spec (size b1) (0 + 1)); [lia|]. rewrite Ed.
    cbn [credentials app rd lookup list_lookup mbind option_bind Socks5.auth_ver].
    rewrite bool_decide_eq_false_2 by done. cbn [negb mbind option_bind].
    eexists. split; [reflexivity|]. rewrite decide_False by tauto. unfold OnDisconnect. by rewrite Hc1.
Qed.

(** A SOCKS4A name longer than 255 bytes, which the parser accepts, is copied
    beyond the end of the request header: the behaviour is undefined. *)
Theorem server_socks4a_overflow D junkm c ph pl a uid dom rest :
  method = CRYPTO_SOCKS4 ∨ method = CRYPTO_SOCKS4A →
  (Z.of_nat (length (Socks4.wire4 c ph pl a uid dom ++ rest)) <= SOCKET_DEBUF_SIZE)%Z → length a = 4 →
  x00 ∉ uid → x00 ∉ dom → socks4_dest a dom = to_domain dom → 255 < length dom → be16 ph pl ≠ 0%Z →
  step junkm (init D) (Readable (Read (Socks4.wire4 c ph pl a uid dom ++ rest))) = None.
Proof.
  intros Hm Hlen Ha Hu Hdm Hsd Hdl Hp0.
  destruct (step_socks4 D junkm c ph pl a uid dom rest) as (b & _ & _ & E); try assumption.
  - rewrite Hsd. intros ->. simpl in Hdl. lia.
  - rewrite E, Hsd. cbn [Ss.make_request]. by rewrite request_domain_overflow.
Qed.

(** A SOCKS5 request for a name that lacks its last byte is taken for a whole
    one, and advancing past it fails the check of [set_offset]: the server aborts
    on a message of the client. *)
Theorem server_socks5_truncated_aborts D junkm s out cmd rsv name hi :
  shaking D s wait_socks5 [] out → 1 <= length name <= 255 →
  step junkm s (Readable (Read (truncated_request cmd rsv name hi))) = None.
Proof.
  intros [Hc Hw Hs (b & Hb & W & Sp) Ho Hu Hwr Hds] Hn. unfold step. rewrite Hc, Hw. cbv zeta.
  unfold OnReadHandshakeViaSocks5. cbn [handshake_pending_buf_ set_waiting]. rewrite Hb.
  cbn [mbind option_bind]. rewrite (proj2 (empty_span b W) Sp).
  destruct (read_buf_spec SOCKET_DEBUF_SIZE (truncated_request cmd rsv name hi)) as (b1 & -> & W1 & Sp1 & _).
  { unfold truncated_request, SOCKET_DEBUF_SIZE. rewrite !length_cons, length_app. simpl. lia. }
  cbn [mbind option_bind]. by eapply request_truncated.
Qed.

(** When the socket has nothing to read after all, the server that waits for
    the credentials dereferences a null buffer, and the server that waits for the
    request goes back to the method selection: it takes the first three bytes of a
    connect request for one and answers with a second method reply. *)
Theorem server_socks5_would_block D junkm s out d p rest :
  method = CRYPTO_SOCKS5 ∨ method = CRYPTO_SOCKS5H → length junkm = 255 →
  (Z.of_nat (length (socks5_request x01 x00 d p ++ rest)) <= SOCKET_DEBUF_SIZE)%Z →
  (shaking D s wait_auth [] out → step junkm s (Readable TryAgain) = None) ∧
  (shaking D s wait_socks5 [] out → auth_required = false →
   ∃ s', run junkm s [Readable TryAgain; Readable (Read (socks5_request x01 x00 d p ++ rest))] = Some s' ∧
     shaking D s' wait_method_reply (wire d p ++ rest) out).
Proof.
  intros Hm Hj Hlen. split; intros [Hc Hw Hs (b & Hb & W & Sp) Ho Hu Hwr Hds].
  - unfold step. rewrite Hc, Hw. cbv zeta. unfold OnReadSocks5UsernamePasswordAuth.
    cbn [handshake_pending_buf_ set_waiting]. rewrite Hb. cbn [mbind option_bind].
    by rewrite (proj2 (empty_span b W) Sp).
  - intros Hau. set (s1 := ReadHandshakeViaSocks (set_pending (set_waiting s no_wait) None)).
    assert (step junkm s (Readable TryAgain) = Some s1) as E1.
    { unfold step. rewrite Hc, Hw. cbv zeta. unfold OnReadHandshakeViaSocks5.
      cbn [handshake_pending_buf_ set_waiting]. rewrite Hb. cbn [mbind option_bind].
      by rewrite (proj2 (empty_span b W) Sp). }
    rewrite (run_cons _ _ _ _ _ E1). cbn [run]. unfold step.
    assert (closed_ s1 = false) as -> by exact Hc. change (waiting_ s1) with wait_socks. cbv zeta.
    unfold OnReadHandshakeViaSocks.
    destruct (read_buf_spec SOCKET_DEBUF_SIZE _ Hlen) as (b1 & -> & W1 & Sp1 & _). cbn [mbind option_bind].
    destruct (method_select_good junkm (set_waiting s1 no_wait) b1 [x00] (wire d p ++ rest))
      as (b2 & E & W2 & Sp2); [done|done|done|simpl; lia|unfold wanted; rewrite Hau; by left|].
    exists (WriteMethodSelectResponse (set_pending (set_waiting s1 no_wait) (Some b2))).
    split; [by destruct Hm as [-> | ->]; rewrite E|]. split; try done. by exists b2.
Qed.

End Server.
(** ** Witnesses *)

(** A shape of [address::to_string()] and members with arbitrary contents. *)
Definition example_to_string (a : address) : list byte := match a with address_v4 b | address_v6 b => b end.

Definition example_waiting (w : wait) : server :=
  mkServer state_handshake false Ss.request_init None (Some make) (IoQueue.make 4) false None w []
    (IoQueue.make 4) false.

Lemma example_shaking w : shaking 4 (example_waiting w) w [] [].
Proof.
  split; try done; [by exists make; split_and!; [|apply wf_make|]|..]; apply holds_make; lia.
Qed.

Lemma server_socks5_handshake_witness :
  let H := (λ _, x00) : Allocator in
  ∃ s', run CRYPTO_SOCKS5 [x75] [x70] example_to_string [] [] x00 x00 (replicate 255 x00) (init 4)
          (socks5_events true (socks5_messages [x75] [x70] [x00; x02] x01 x00 (to_domain [x61]) 80 [x47])
             (socks5_replies [x75] [x70] (to_domain [x61]) 80)) = Some s' ∧
    streaming example_to_string 4 s' (to_domain [x61]) 80 [x47]
      (concat (socks5_replies [x75] [x70] (to_domain [x61]) 80)).
Proof.
  intros H. apply (server_socks5_handshake CRYPTO_SOCKS5 [x75] [x70] example_to_string [] [] x00 x00 4
    (replicate 255 x00) true [x00; x02] x00 (to_domain [x61]) 80 [x47]);
    [by left|lia|reflexivity|simpl; lia|simpl; lia|simpl; lia|right; left|simpl; lia|done|done|done|
     vm_compute; congruence].
Defined.

Lemma server_socks4_handshake_witness :
  let H := (λ _, x00) : Allocator in
  ∃ s', run CRYPTO_SOCKS4A [] [] example_to_string (replicate 4 x00) [] x00 x00 [] (init 4)
          [Readable (Read (Socks4.wire4 x01 x00 x50 [x00; x00; x00; x01] [] [x61] ++ [x47])); Writable (Some 8)]
        = Some s' ∧
    streaming example_to_string 4 s' (socks4_dest [x00; x00; x00; x01] [x61]) (be16 x00 x50) [x47] socks4_reply.
Proof.
  intros H. apply (server_socks4_handshake CRYPTO_SOCKS4A [] [] example_to_string (replicate 4 x00) [] x00 x00 4
    [] x01 x00 x50 [x00; x00; x00; x01] [] [x61] [x47]);
    [by right|lia|vm_compute; congruence|done|apply not_elem_of_nil|by rewrite list_elem_of_singleton|simpl; lia|done|done].
Defined.

Lemma server_socks5_auth_witness :
  let H := (λ _, x00) : Allocator in
  ∃ s', step CRYPTO_SOCKS5 [x75] [x70] example_to_string [] [] x00 x00 [] (example_waiting wait_auth)
      (Readable (Read (credentials x01 [x75] [x70]))) = Some s' ∧ closed_ s' = true.
Proof.
  intros H. apply (server_socks5_auth CRYPTO_SOCKS5 [x75] [x70] example_to_string [] [] x00 x00 4
    [] (example_waiting wait_auth) [] x01 [x75] [x70]); [apply example_shaking|simpl; lia|simpl; lia].
Defined.

Lemma server_socks4a_overflow_witness :
  let H := (λ _, x00) : Allocator in
  step CRYPTO_SOCKS4A [] [] example_to_string (replicate 4 x00) [] x00 x00 [] (init 4)
    (Readable (Read (Socks4.wire4 x01 x00 x50 [x00; x00; x00; x01] [] (replicate 256 x61) ++ []))) = None.
Proof.
  intros H. apply (server_socks4a_overflow CRYPTO_SOCKS4A [] [] example_to_string (replicate 4 x00) [] x00 x00 4
    [] x01 x00 x50 [x00; x00; x00; x01] [] (replicate 256 x61) []);
    [by right|vm_compute; congruence|done|apply not_elem_of_nil| |done|rewrite length_replicate; lia|done].
  intros Hin. by apply elem_of_replicate in Hin as [? _].
Defined.

Lemma server_socks5_truncated_aborts_witness :
  let H := (λ _, x00) : Allocator in
  step CRYPTO_SOCKS5 [] [] example_to_string [] [] x00 x00 [] (example_waiting wait_socks5)
    (Readable (Read (truncated_request x01 x00 [x61; x62] x00))) = None.
Proof.
  intros H. apply (server_socks5_truncated_aborts CRYPTO_SOCKS5 [] [] example_to_string [] [] x00 x00 4
    [] (example_waiting wait_socks5) [] x01 x00 [x61; x62] x00); [apply example_shaking|simpl; lia].
Defined.

Lemma server_socks5_would_block_witness :
  let H := (λ _, x00) : Allocator in
  ∃ s', run CRYPTO_SOCKS5 [] [] example_to_string [] [] x00 x00 (replicate 255 x00) (example_waiting wait_socks5)
      [Readable TryAgain; Readable (Read (socks5_request x01 x00 (to_domain [x61]) 80 ++ []))] = Some s' ∧
    shaking 4 s' wait_method_reply (wire (to_domain [x61]) 80 ++ []) [].
Proof.
  intros H. apply (server_socks5_would_block CRYPTO_SOCKS5 [] [] example_to_string [] [] x00 x00 4
    (replicate 255 x00) (example_waiting wait_socks5) [] (to_domain [x61]) 80 []);
    [by left|reflexivity|vm_compute; congruence|apply example_shaking|done].
Defined.

End Server.
