(* ===== verification/SsServer.v ===== *)
(** * The server's shadowsocks handshake

    [ReadHandshake] of src/src/server/server_connection.cpp with the decoder it
    feeds: the connection of [Server] is the visitor of the cipher, [None] for a
    connection whose process has aborted.  The header that starts the stream is
    parsed out of the plaintext that one read completes; what follows it is the
    first payload.  The theorems compose the framing of [Cipher], the parser of
    [Ss] and the handlers of [Server]. *)

From Stdlib Require Import ZArith Lia.
From stdpp Require Import base list numbers option.
From S2P Require Import Prelude IoBuffer IoQueue Addr Ss Hkdf Crypter Cipher Conn Server.

Module SsServer.
Import IoBuffer Addr Crypter Cipher Conn Server.

Section SsServer.
Context `{Allocator} `{CryptoLaws} `{Sha1Laws} `{KeyLaws} `{RND : RandLib} `{!RandLaws RND}.
Variable method : cipher_method.
Variable to_string : address → list byte.

#[export] Instance server_visitor : Visitor (option server) := {|
  on_received_data v buf :=
    match s ← v; srv_on_received_data s buf with
    | Some (s, ok) => (Some s, ok)
    | None => (None, false)
    end;
  on_protocol_error v := srv_on_protocol_error <$> v |}.

Definition ReadHandshake (s : server) : server := set_waiting s wait_handshake.

(** The handler's second half, on the plaintext collected so far: the end given to
    the parser is that of the bytes read, not that of the plaintext.  [buf] and
    [handshake_] are one object. *)
Definition parse_handshake (s : server) (buf : GrowableIOBuffer) (bytes_transferred : nat)
  : option server :=
  '(result, _, request) ← Ss.parse Ss.reset (request_ s) (data buf) 0 bytes_transferred;
  let s := set_request s request in
  match result with
  | Ss.good =>
      buf ← set_offset buf (Z.of_nat (offset buf) + Z.of_nat (Ss.request_length request));
      let s := set_handshake s (Some buf) in
      port ← Ss.port request;
      bad ← (if (port =? 0)%Z then Some true
             else if decide (address_type request = domain)
             then Some (bool_decide (Ss.domain_name_str to_string request = []))
             else ep ← Ss.endpoint_of request; Some (is_unspecified (ep_address ep)));
      if (bad : bool) then Some (OnDisconnect s) else ProcessReceivedData method to_string s buf
  | _ => Some (OnDisconnect s)
  end.

(** The completion handler of [ReadHandshake]; [T0] as in [process_bytes]. *)
Definition OnReadHandshake (T0 : list byte) (s : server) (decoder : cipher) (r : read_result)
  : option (server * cipher) :=
  match r with
  | TryAgain => Some (ReadHandshake s, decoder)
  | ReadError => Some (OnDisconnect s, decoder)
  | Read bs =>
      cipherbuf ← read_buf SOCKET_DEBUF_SIZE bs;
      '(decoder, v) ← process_bytes T0 decoder (Some s) cipherbuf;
      s ← v;
      match handshake_ s with
      | None => Some (ReadHandshake s, decoder)
      | Some buf => s ← parse_handshake s buf (size cipherbuf); Some (s, decoder)
      end
  end.

(** The reads of a connection that waits for its handshake. *)
Fixpoint ss_run (T0 : list byte) (s : server) (decoder : cipher) (rs : list read_result)
  : option (server * cipher) :=
  match rs with
  | [] => Some (s, decoder)
  | r :: rs =>
      if closed_ s then Some (s, decoder) else
      match waiting_ s with
      | wait_handshake =>
          '(s, decoder) ← OnReadHandshake T0 (set_waiting s no_wait) decoder r;
          ss_run T0 s decoder rs
      | _ => Some (s, decoder)
      end
  end.

Definition ss_init (D : nat) : server := set_waiting (init D) wait_handshake.

(** ** The visitor in the handshake *)

(** [s] with the plaintext [bs] collected, if there is any. *)
Definition collecting (s0 : server) (bs : list byte) (v : option server) : Prop :=
  ∃ h, v = Some (set_handshake s0 h) ∧ (∀ b, h = Some b → wf b) ∧
    match h with Some b => span b = bs | None => bs = [] end.

Lemma collect s0 bs v b :
  state_ s0 = state_handshake → collecting s0 bs v → wf b →
  snd (on_received_data v b) = true ∧ collecting s0 (bs ++ span b) (fst (on_received_data v b)).
Proof.
  intros Hs (h & -> & Hw & Hb) W. cbn [on_received_data server_visitor mbind option_bind].
  unfold srv_on_received_data. cbn [set_handshake state_ handshake_]. rewrite Hs.
  destruct (join_chunk_spec h b Hw W) as (c & E & Wc & Sc). unfold join_chunk in E.
  destruct h as [p|].
  - cbv zeta in *. destruct (SetCapacity make _) as [b0|]; [|done]. cbn [mbind option_bind] in *.
    destruct (write_data b0 _ _) as [b1|]; [|done]. cbn [mbind option_bind] in *. rewrite E.
    cbn [mbind option_bind fst snd]. split; [done|]. exists (Some c). split; [done|].
    split; [by intros ? [= <-]|]. by rewrite Sc, Hb.
  - simplify_eq. cbn [fst snd]. split; [done|]. exists (Some c). split; [done|].
    split; [by intros ? [= <-]|]. by rewrite Sc.
Qed.

Lemma collect_all s0 bufs : ∀ bs v,
  state_ s0 = state_handshake → collecting s0 bs v → Forall wf bufs →
  collecting s0 (bs ++ concat (map span bufs)) (visit v bufs).
Proof.
  induction bufs as [|b bufs IH]; intros bs v Hs C W; [by rewrite app_nil_r|].
  apply Forall_cons_1 in W as [Wb W]. destruct (collect s0 bs v b Hs C Wb) as [_ C'].
  cbn [map concat]. rewrite app_assoc. by apply (IH _ _ Hs C' W).
Qed.

(** The invariant that the decoder's lemmas ask of the visitor. *)
Definition collects (s0 : server) (v : option server) : Prop := ∃ bs, collecting s0 bs v.

Lemma collects_accepts s0 v b :
  state_ s0 = state_handshake → collects s0 v → wf b → span b ≠ [] →
  snd (on_received_data v b) = true ∧ collects s0 (fst (on_received_data v b)).
Proof.
  intros Hs [bs C] W _. destruct (collect s0 bs v b Hs C W) as [? C']. split; [done|by eexists].
Qed.

(** ** The header *)

Lemma request_view d p r : header_wf r → dest_wf d → port_wf p →
  let r' := wire d p ++ drop (wire_size d) r in
  dest_of r' = Some d ∧ Ss.port r' = Some p ∧ Ss.request_length r' = wire_size d.
Proof. intros Hr Hd Hp r'. by destruct (Ss.ss_header_view d p (drop (wire_size d) r) Hd Hp) as (? & ? & ? & _). Qed.

(** The tests on a request that was parsed. *)
Lemma header_accepted d p r :
  dest_of r = Some d → Ss.port r = Some p → dest_ok d → p ≠ 0%Z →
  (if (p =? 0)%Z then Some true
   else if decide (address_type r = domain) then Some (bool_decide (Ss.domain_name_str to_string r = []))
   else ep ← Ss.endpoint_of r; Some (is_unspecified (ep_address ep))) = Some false.
Proof.
  intros Hd Hp Hok Hp0. destruct (Z.eqb_spec p 0) as [|_]; [by destruct Hp0|].
  pose proof (Ss.endpoint_of_view _ _ _ Hd Hp) as He. apply dest_of_inv in Hd as [Hat Hv].
  unfold Ss.domain_name_str. rewrite Hat, He.
  destruct d; cbn [dest_atyp dest_ok] in *; repeat case_decide; try done;
    cbn [mbind option_bind is_unspecified ep_address]; rewrite ?Hv; by rewrite bool_decide_eq_false_2.
Qed.

(** A whole header: the request is taken, and the plaintext behind it processed. *)
Lemma parse_handshake_header s buf n d p payload :
  header_wf (request_ s) → wf buf → span buf = wire d p ++ payload → Ss.enough (request_ s) d n →
  dest_wf d → port_wf p → dest_ok d → p ≠ 0%Z →
  ∃ r b', parse_handshake s buf n
      = ProcessReceivedData method to_string (set_handshake (set_request s r) (Some b')) b' ∧
    dest_of r = Some d ∧ Ss.port r = Some p ∧ wf b' ∧ span b' = payload.
Proof.
  intros Hr W Sp Hen Hd Hp Hok Hp0. unfold parse_handshake.
  destruct (data_span buf W) as [slack Hdata]. rewrite Sp, <- app_assoc in Hdata.
  change n with (0 + n).
  rewrite (Ss.ss_parse_good (request_ s) d n (data buf) 0 (nth 0 (be16_bytes p) x00) (nth 1 (be16_bytes p) x00));
    [|done|done|done|].
  2:{ rewrite Hdata. apply (rd_slice_app' [] (wire d p) (payload ++ slack)); [done|by rewrite length_wire]. }
  cbn [mbind option_bind]. cbv zeta.
  assert (dest_atyp d :: dest_body d ++ [nth 0 (be16_bytes p) x00; nth 1 (be16_bytes p) x00]
    ++ drop (wire_size d) (request_ s) = wire d p ++ drop (wire_size d) (request_ s)) as ->
    by (unfold wire; simpl; by rewrite <- app_assoc).
  destruct (request_view d p (request_ s) Hr Hd Hp) as (V1 & V2 & V3).
  set (r := wire d p ++ drop _ _) in *. rewrite V3.
  destruct (advance_past buf (wire d p) payload (wire_size d)) as (b' & -> & W' & S');
    [done|done|by rewrite length_wire|].
  cbn [mbind option_bind]. rewrite V2. cbn [mbind option_bind].
  pose proof (header_accepted d p r V1 V2 Hok Hp0) as Ha. cbn [mbind option_bind] in Ha. rewrite Ha.
  by exists r, b'.
Qed.

Lemma parse_handshake_good D s buf n d p payload bs out :
  header_wf (request_ s) → wf buf → span buf = wire d p ++ payload → Ss.enough (request_ s) d n →
  dest_wf d → port_wf p → dest_ok d → p ≠ 0%Z →
  state_ s = state_handshake → holds D (upstream_ s) bs → upstream_writable_ s = false →
  holds D (downstream_ s) out →
  ∃ s', parse_handshake s buf n = Some s' ∧ state_ s' = state_stream ∧ closed_ s' = closed_ s ∧
    dest_of (request_ s') = Some d ∧ Ss.port (request_ s') = Some p ∧
    channel_ s' = Some (host_of to_string d, p) ∧ sent_ s' = sent_ s ∧ holds D (upstream_ s') (bs ++ payload).
Proof.
  intros Hr W Sp Hen Hd Hp Hok Hp0 Hs Hq Hw Hds.
  destruct (parse_handshake_header s buf n d p payload Hr W Sp Hen Hd Hp Hok Hp0) as (r & b' & -> & V1 & V2 & W' & S').
  destruct (ProcessReceivedData_handshake method to_string D
    (set_handshake (set_request s r) (Some b')) b' d p bs out) as (s' & E & S1 & S2 & S3 & S4 & S5 & S6 & _); try done.
  exists s'. rewrite E, S3. rewrite S' in S6. split_and!; try done.
Qed.

(** The other way: without enough bytes before the given end the connection is
    closed. *)
Lemma parse_handshake_short s buf n :
  header_wf (request_ s) → wf buf → n <= 4 → 5 <= length (span buf) → closed_ s = false →
  ∃ s', parse_handshake s buf n = Some s' ∧ closed_ s' = true ∧ channel_ s' = channel_ s.
Proof.
  intros Hr W Hn Hl Hc. unfold parse_handshake. destruct (data_span buf W) as [slack Hdata].
  destruct (Ss.ss_parse_total (request_ s) (data buf) 0 n Hr) as (res & i' & r' & E & _).
  { rewrite Hdata. len. }
  rewrite Nat.add_0_l in E. rewrite E. cbn [mbind option_bind].
  assert (res ≠ Ss.good) as Hres.
  { intros ->. destruct (Ss.ss_parse_good_inv (request_ s) (data buf) 0 n _ _ Hr E) as (d & _ & _ & Hd & Hen & _).
    destruct d; unfold Ss.enough, wire_size in Hen; cbn [dest_wf dest_body] in *; lia. }
  destruct res; [done|..]; eexists; (split; [done|]); unfold OnDisconnect; cbn [closed_ set_request];
    rewrite Hc; done.
Qed.

(** ** A read of the handshake *)

Lemma set_handshake_same s : handshake_ s = None → set_handshake s None = s.
Proof. destruct s. simpl. by intros ->. Qed.

(** One read moves the decoder along, and the plaintexts it completes are parsed. *)
Lemma OnReadHandshake_rel u km salt pts T0 s c seg rest :
  suite_ok u → length salt = su_key u → Forall payload_ok pts →
  state_ s = state_handshake → handshake_ s = None →
  (Z.of_nat (length seg) <= SOCKET_DEBUF_SIZE)%Z →
  dec_rel u km salt pts c (seg ++ rest) [] →
  ∃ c' dn h, dec_rel u km salt pts c' rest dn ∧ (dn = [] → h = None) ∧
    match h with Some b => wf b ∧ span b = concat dn | None => concat dn = [] end ∧
    OnReadHandshake T0 s c (Read seg)
    = match h with
      | None => Some (ReadHandshake s, c')
      | Some buf => s' ← parse_handshake (set_handshake s (Some buf)) buf (length seg); Some (s', c')
      end.
Proof.
  intros Hu Hsalt Hpts Hs Hh Hlen R. unfold OnReadHandshake.
  destruct (read_buf_spec SOCKET_DEBUF_SIZE seg Hlen) as (cb & -> & Wcb & Scb & _ & Zcb & _).
  cbn [mbind option_bind]. rewrite Zcb. rewrite <- Scb in R.
  assert (collecting s [] (Some s)) as C0.
  { exists None. split; [by rewrite set_handshake_same|]. done. }
  destruct (process_bytes_rel (collects s) (λ v b, collects_accepts s v b Hs) u km salt pts T0 c (Some s) cb
    rest [] Hu Hsalt Hpts Wcb ltac:(by exists []) R) as (c' & bufs & -> & Wb & _ & R').
  cbn [mbind option_bind]. destruct (collect_all s bufs [] (Some s) Hs C0 Wb) as (h & Ev & Hw & Hb).
  rewrite Ev. cbn [mbind option_bind set_handshake handshake_].
  exists c', (map span bufs), h. split; [done|]. split.
  { intros E. apply map_eq_nil in E. subst bufs. cbn in Ev. apply (f_equal (λ v, v ≫= handshake_)) in Ev.
    simpl in Ev. congruence. }
  split; [destruct h; [split; [by apply Hw|done]|done]|].
  destruct h; [done|]. by rewrite <- (set_handshake_same s Hh) at 2.
Qed.

(** A connection that waits for its handshake. *)
Lemma ss_run_read T0 s c r rs :
  closed_ s = false → waiting_ s = wait_handshake →
  ss_run T0 s c (r :: rs)
  = ('(s, c) ← OnReadHandshake T0 (set_waiting s no_wait) c r; ss_run T0 s c rs).
Proof. intros Hc Hw. cbn [ss_run]. by rewrite Hc, Hw. Qed.

Lemma length_frames_concat S pts : ∀ n, length (concat pts) <= length (frames S n pts).
Proof.
  induction pts as [|pt pts IH]; intros n; [done|]. cbn [frames concat]. rewrite !length_app, length_frame.
  specialize (IH (next (next n))). lia.
Qed.

(** A read that carries the salt and a whole header is enough for the parser. *)
Lemma enough_plaintext d n : 16 + wire_size d <= n → Ss.enough Ss.request_init d n.
Proof.
  intros Hk. assert (Z.to_nat (u8 (domain_name_len Ss.request_init)) = 0) as H0' by done.
  destruct d; unfold Ss.enough; rewrite ?H0'; lia.
Qed.

(** A salt and frames that carry the header of a destination, read at once. *)
Lemma ss_run_frames D u km salt pts T1 d p payload :
  suite_ok u → length km = MAX_KEY_LENGTH → length salt = su_key u → 2 <= D → Forall payload_ok pts → concat pts = wire d p ++ payload →
  dest_wf d → port_wf p → dest_ok d → p ≠ 0%Z →
  let seg := salt ++ frames (stream_sealing u km salt) 0 pts in
  (Z.of_nat (length seg) <= SOCKET_DEBUF_SIZE)%Z →
  ∃ s' cd', ss_run T1 (ss_init D) (fresh false u km) [Read seg] = Some (s', cd') ∧
    streaming to_string D s' d p payload [].
Proof.
  intros Hu Hkm Hsalt HD P K Hdw Hp Hok Hp0 seg Hlen.
  rewrite ss_run_read by done.
  destruct (OnReadHandshake_rel u km salt pts T1 (set_waiting (ss_init D) no_wait)
    (fresh false u km) seg []) as (cd' & dn & h & R & _ & Hh & ->);
    [done|done|done|done|done|done|rewrite app_nil_r; apply dec_rel_start; done|].
  apply dec_rel_end in R; [|done]. subst dn. rewrite K in Hh.
  destruct h as [buf|]; [|done]. destruct Hh as [Wb Sb].
  destruct (parse_handshake_good D (set_handshake (set_waiting (ss_init D) no_wait) (Some buf)) buf
    (length seg) d p payload [] []) as (s' & -> & S1 & S2 & S3 & S4 & S5 & S6 & S7);
    try done; [|by apply holds_make..|].
  { apply enough_plaintext. pose proof (suite_key_bound u Hu).
    pose proof (length_frames_concat (stream_sealing u km salt) pts 0) as Hf.
    rewrite K in Hf. unfold seg. rewrite length_app. rewrite length_app, length_wire in Hf. lia. }
  cbn [mbind option_bind ss_run]. exists s', cd'. done.
Qed.

(** C11: the shadowsocks handshake, from the client's cipher to the server's stream.
    For every AEAD method and password, the header of a destination and any payload
    behind it, encrypted by [EncryptData] and read by the server at once, make the
    connection a stream to that host and port, with the payload queued for it. *)
Theorem server_ss_handshake D password T0 T1 ce cd d p payload :
  is_aead method = true → 2 <= D →
  make_cipher [] password method true = Some ce → make_cipher [] password method false = Some cd →
  dest_wf d → port_wf p → dest_ok d → p ≠ 0%Z →
  let plaintext := wire d p ++ payload in
  ∃ ce' cipherbuf, encrypt_loop (length plaintext) T0 ce plaintext 0 make false = Some (ce', cipherbuf, false) ∧
    ((Z.of_nat (length (span cipherbuf)) <= SOCKET_DEBUF_SIZE)%Z →
     ∃ s' cd', ss_run T1 (ss_init D) cd [Read (span cipherbuf)] = Some (s', cd') ∧
       streaming to_string D s' d p payload []).
Proof.
  intros Hm HD He Hd Hdw Hp Hok Hp0 plaintext.
  destruct (make_cipher_fresh method password Hm) as (u & km & Hu & _ & Hkm & Hmk).
  rewrite Hmk in He, Hd. simplify_eq.
  destruct (encrypt_loop_fresh u km T0 plaintext make) as (ce' & cb & pts & E & _ & _ & Wcb & _ & Sp & P & K & _);
    [done|done|done|apply wf_make|].
  exists ce', cb. split; [exact E|]. change (span make) with (@nil byte) in Sp. simpl in Sp.
  rewrite Sp. apply ss_run_frames; try done. apply rand_length.
Qed.

(** A frame is delivered with its last byte. *)
Lemma dec_rel_unfinished u km salt pt c rest dn :
  dec_rel u km salt [pt] c rest dn → rest ≠ [] → dn = [].
Proof.
  intros R Hne. inversion R as [|c0 b r0 d0 todo R0 Hp Hspan Hend _]; subst; [done|].
  destruct dn as [|x dn]; [done|]. assert (todo = []) as -> by (destruct dn, todo; by simplify_eq).
  apply (f_equal length) in Hspan. rewrite length_app in Hspan. destruct rest; [done|simpl in Hspan; lia].
Qed.

(** The handshake depends on how the network cuts the same bytes.  When the
    last one to four bytes of an encrypted header arrive in a segment of their own,
    the server gives the parser an end computed from that last segment, refuses the
    complete header as malformed and closes the connection. *)
Theorem server_ss_split_refused D password T0 T1 ce cd d p payload n :
  is_aead method = true → 2 <= D →
  make_cipher [] password method true = Some ce → make_cipher [] password method false = Some cd →
  dest_wf d → dest_ok d → length (wire d p ++ payload) <= SS_FRAME_SIZE → 1 <= n <= 4 →
  let plaintext := wire d p ++ payload in
  ∃ ce' cipherbuf, encrypt_loop (length plaintext) T0 ce plaintext 0 make false = Some (ce', cipherbuf, false) ∧
    let out := span cipherbuf in
    let k := length out - n in
    ∃ s' cd', ss_run T1 (ss_init D) cd [Read (take k out); Read (drop k out)] = Some (s', cd') ∧
      closed_ s' = true ∧ channel_ s' = None.
Proof.
  intros Hm HD He Hd Hdw Hok Hfr Hn plaintext.
  destruct (make_cipher_fresh method password Hm) as (u & km & Hu & _ & Hkm & Hmk).
  rewrite Hmk in He, Hd. simplify_eq. set (salt := rand_bytes (su_key u)).
  destruct (encrypt_loop_fresh u km T0 plaintext make)
    as (ce' & cb & pts & E & _ & _ & Wcb & _ & Sp & P & K & K1); [done|done|done|apply wf_make|].
  rewrite (K1 Hfr) in *. clear K K1.
  exists ce', cb. split; [exact E|]. intros out k. change (span make) with (@nil byte) in Sp. simpl in Sp.
  rewrite app_nil_r in Sp. fold salt in Sp. pose proof (suite_key_bound u Hu) as Hkb.
  pose proof (rand_length (su_key u)) as Hsl. fold salt in Hsl.
  assert (length out = su_key u + (2 + @sl_tag (stream_sealing u km salt) + (length plaintext + @sl_tag (stream_sealing u km salt)))) as Hlo
    by (unfold out; rewrite Sp, length_app, Hsl, length_frame; done).
  assert (@sl_tag (stream_sealing u km salt) <= 16) as Htag.
  { destruct Hu as (_ & _ & _ & Ht & _). simpl. lia. }
  assert (5 <= length plaintext) as Hfive.
  { unfold plaintext. rewrite length_app, length_wire. unfold wire_size.
    clear - Hdw Hok. destruct d as [b|[|]|b]; simpl in *; [lia|done|lia|lia]. }
  assert (length (drop k out) = n) as Hld by (rewrite length_drop; lia).
  rewrite ss_run_read by done.
  destruct (OnReadHandshake_rel u km salt [plaintext] T1 (set_waiting (ss_init D) no_wait)
    (fresh false u km) (take k out) (drop k out)) as (cd1 & dn & h & R & Hnil & Hh & ->);
    [done|done|done|done|done| |rewrite take_drop; unfold out; rewrite Sp;
      replace (frame _ 0 plaintext) with (frames (stream_sealing u km salt) 0 [plaintext]) by apply app_nil_r;
      by apply dec_rel_start|].
  { rewrite length_take. unfold SOCKET_DEBUF_SIZE, SS_FRAME_SIZE in *. fold plaintext in Hfr. lia. }
  assert (dn = []) as ->.
  { eapply dec_rel_unfinished; [exact R|]. intros E'. rewrite E' in Hld. simpl in Hld. lia. }
  rewrite (Hnil eq_refl). cbn [mbind option_bind]. rewrite ss_run_read by done.
  destruct (OnReadHandshake_rel u km salt [plaintext] T1
    (set_waiting (ReadHandshake (set_waiting (ss_init D) no_wait)) no_wait)
    cd1 (drop k out) []) as (cd2 & dn & h2 & R2 & _ & Hh2 & ->);
    [done|done|done|done|done|rewrite Hld; unfold SOCKET_DEBUF_SIZE; lia|by rewrite app_nil_r|].
  apply dec_rel_end in R2; [|done]. subst dn. simpl in Hh2. rewrite app_nil_r in Hh2.
  destruct h2 as [buf|]; [|destruct plaintext; [simpl in Hfive; lia|done]]. destruct Hh2 as [Wb Sb].
  destruct (parse_handshake_short (set_handshake
    (set_waiting (ReadHandshake (set_waiting (ss_init D) no_wait)) no_wait) (Some buf)) buf (length (drop k out)))
    as (s' & -> & C1 & C2); [done|done|lia|by rewrite Sb|done|].
  cbn [mbind option_bind ss_run]. exists s', cd2. done.
Qed.

(** A connection that is closed still connects.  When a frame that does not
    authenticate follows the header in the same read, the decoder reports a protocol
    error, which closes the connection; the handler goes on with the header all the
    same and opens the upstream connection to the host that the header names. *)
Theorem server_ss_connects_after_error D password T0 d p payload :
  is_aead method = true → 2 <= D → dest_wf d → port_wf p → dest_ok d → p ≠ 0%Z →
  payload_ok (wire d p ++ payload) →
  ∃ u km, suite_ok u ∧ su_method u = method ∧ make_cipher [] password method false = Some (fresh false u km) ∧
    ∀ salt bs, let S := stream_sealing u km salt in
      let seg := salt ++ frames S 0 [wire d p ++ payload] ++ bs in
      length salt = su_key u → forged S (advance 0 [wire d p ++ payload]) bs →
      (Z.of_nat (length seg) <= SOCKET_DEBUF_SIZE)%Z →
      ∃ s' cd', ss_run T0 (ss_init D) (fresh false u km) [Read seg] = Some (s', cd') ∧
        closed_ s' = true ∧ channel_ s' = Some (host_of to_string d, p).
Proof.
  intros Hm HD Hd Hp Hok Hp0 Hpl. destruct (make_cipher_fresh method password Hm) as (u & km & Hu & Hum & _ & Hmk).
  exists u, km. split; [done|]. split; [done|]. split; [done|]. intros salt bs S seg Hs Hf Hlen.
  rewrite ss_run_read by done. set (s0 := set_waiting (ss_init D) no_wait). unfold OnReadHandshake.
  destruct (read_buf_spec SOCKET_DEBUF_SIZE seg Hlen) as (cb & -> & Wcb & Scb & _ & Zcb & _).
  cbn [mbind option_bind]. rewrite Zcb.
  assert (collecting s0 [] (Some s0)) as C0 by (exists None; done).
  destruct (process_bytes_start u salt T0 (fresh false u km) (Some s0) cb
    (frames S 0 [wire d p ++ payload] ++ bs)) as (c1 & b1 & -> & R & C & Sb); try done.
  destruct (process_loop_forged (collects s0) (λ v b, collects_accepts s0 v b eq_refl) S bs [wire d p ++ payload]
    (size b1 + 1) c1 (Some s0) b1 []) as [(bufs & c' & -> & M & Wb)|(? & ? & ? & ? & ? & _ & _ & _ & _ & _ & _ & _ & ? & _)];
    [by exists []|done|by constructor|by rewrite C, app_nil_r|by rewrite C|lia| |done].
  cbn [mbind option_bind].
  destruct (collect_all s0 bufs [] (Some s0) eq_refl C0 Wb) as (h & -> & Hw & Hb). rewrite M in Hb.
  destruct h as [buf|]; [|done]. cbn [concat app] in Hb. rewrite app_nil_r in Hb.
  cbn [on_protocol_error server_visitor fmap option_fmap option_map mbind option_bind].
  change (handshake_ (srv_on_protocol_error (set_handshake s0 (Some buf)))) with (Some buf). cbn iota beta.
  destruct (parse_handshake_good D (srv_on_protocol_error (set_handshake s0 (Some buf))) buf (length seg)
    d p payload [] []) as (s' & -> & S1 & S2 & S3 & S4 & S5 & S6 & S7); try done;
    [by apply Hw| |by apply holds_make..|].
  { apply enough_plaintext. pose proof (suite_key_bound u Hu).
    pose proof (length_frames_concat S [wire d p ++ payload] 0) as Hfr. cbn [concat] in Hfr.
    rewrite app_nil_r, length_app, length_wire in Hfr. unfold seg. rewrite !length_app. lia. }
  cbn [mbind option_bind ss_run]. exists s', c'. by rewrite S2.
Qed.

End SsServer.
(** ** Witnesses *)

Lemma server_ss_handshake_witness :
  let HA := (λ _, x00) : Allocator in
  let HC := example_lib in
  let HS := (λ _, replicate 20 x09) : Sha1 in
  let HK := example_keylib in
  let HN := example_rand in
  ∃ ce cd, make_cipher [] [x70] CRYPTO_AES128GCMSHA256_EVP true = Some ce ∧
    make_cipher [] [x70] CRYPTO_AES128GCMSHA256_EVP false = Some cd ∧
    let plaintext := wire (to_domain [x61]) 80 ++ [x47] in
    ∃ ce' cipherbuf, encrypt_loop (length plaintext) [] ce plaintext 0 make false = Some (ce', cipherbuf, false) ∧
      ((Z.of_nat (length (span cipherbuf)) <= SOCKET_DEBUF_SIZE)%Z →
       ∃ s' cd', ss_run CRYPTO_AES128GCMSHA256_EVP example_to_string [] (ss_init 4) cd [Read (span cipherbuf)] = Some (s', cd') ∧
         streaming example_to_string 4 s' (to_domain [x61]) 80 [x47] []).
Proof.
  intros HA HC HS HK HN.
  pose proof example_laws as L1. pose proof example_sha1laws as L2. pose proof example_keylaws as L3. pose proof example_randlaws as L4.
  do 2 eexists. split; [reflexivity|]. split; [reflexivity|].
  apply (server_ss_handshake CRYPTO_AES128GCMSHA256_EVP example_to_string 4 [x70] [] []);
    [reflexivity|lia|reflexivity|reflexivity|simpl; lia|done|done|done].
Defined.

Lemma server_ss_split_refused_witness :
  let HA := (λ _, x00) : Allocator in
  let HC := example_lib in
  let HS := (λ _, replicate 20 x09) : Sha1 in
  let HK := example_keylib in
  let HN := example_rand in
  ∃ ce cd, make_cipher [] [x70] CRYPTO_AES128GCMSHA256_EVP true = Some ce ∧
    make_cipher [] [x70] CRYPTO_AES128GCMSHA256_EVP false = Some cd ∧
    let plaintext := wire (to_domain [x61]) 80 ++ [x47] in
    ∃ ce' cipherbuf, encrypt_loop (length plaintext) [] ce plaintext 0 make false = Some (ce', cipherbuf, false) ∧
      let out := span cipherbuf in
      let k := length out - 1 in
      ∃ s' cd', ss_run CRYPTO_AES128GCMSHA256_EVP example_to_string [] (ss_init 4) cd [Read (take k out); Read (drop k out)] = Some (s', cd') ∧
        closed_ s' = true ∧ channel_ s' = None.
Proof.
  intros HA HC HS HK HN.
  pose proof example_laws as L1. pose proof example_sha1laws as L2. pose proof example_keylaws as L3. pose proof example_randlaws as L4.
  do 2 eexists. split; [reflexivity|]. split; [reflexivity|].
  apply (server_ss_split_refused CRYPTO_AES128GCMSHA256_EVP example_to_string 4 [x70] [] []);
    [reflexivity|lia|reflexivity|reflexivity|simpl; lia|done|unfold SS_FRAME_SIZE; simpl length; lia|lia].
Defined.

Lemma server_ss_connects_after_error_witness :
  let HA := (λ _, x00) : Allocator in
  let HC := example_lib in
  let HS := (λ _, replicate 20 x09) : Sha1 in
  let HK := example_keylib in
  let HN := example_rand in
  let L1 := example_laws in
  ∃ u km, make_cipher [] [x70] CRYPTO_AES128GCMSHA256_EVP false = Some (fresh false u km) ∧
    let S := stream_sealing u km (replicate (su_key u) x03) in
    let pt := wire (to_domain [x61]) 80 ++ [x47] in
    let bs := replicate 34 x01 in
    ∃ s' cd', ss_run CRYPTO_AES128GCMSHA256_EVP example_to_string [] (ss_init 4) (fresh false u km)
        [Read (replicate (su_key u) x03 ++ frames S 0 [pt] ++ bs)] = Some (s', cd') ∧
      closed_ s' = true ∧ channel_ s' = Some ([x61], 80%Z).
Proof.
  intros HA HC HS HK HN L1. pose proof example_sha1laws as L2. pose proof example_keylaws as L3. pose proof example_randlaws as L4.
  destruct (server_ss_connects_after_error CRYPTO_AES128GCMSHA256_EVP example_to_string 4 [x70] []
    (to_domain [x61]) 80 [x47]) as (u & km & Hu & Hm & E & T);
    [reflexivity|lia|simpl; lia|done|done|done|vm_compute; split; congruence|].
  exists u, km. split; [done|]. intros S pt bs.
  pose proof E as E'. vm_compute in E'. injection E' as Ek Et Em.
  destruct u as [um ub uk ut un]. cbn in Ek, Et, Em. subst.
  apply (T (replicate 16 x03) bs);
    [reflexivity|split; [vm_compute; lia|left; reflexivity]|vm_compute; congruence].
Defined.

End SsServer.
