(* ===== verification/HttpServer.v ===== *)
(** * The server's HTTP handshake

    [ReadHandshakeViaHttps] and [OnReadHandshakeViaHttps] of
    src/src/server/server_connection.cpp: CONNECT requests, which are answered and
    become a tunnel, and plain requests, whose header is rewritten in the buffer
    and forwarded. *)

From Stdlib Require Import ZArith Lia.
From stdpp Require Import base list numbers option.
From S2P Require Import Prelude IoBuffer IoQueue Addr Ss Crypter Conn Http Server.

Module HttpServer.
Import IoBuffer Addr Crypter Conn Http Server.

Definition TLSEXT_MAXLEN_host_name : nat := 255.

Section HttpServer.
Context `{Allocator} `{HttpLaws}.

(** asio's [make_address] and [to_string], the configuration, the flags [hide_ip]
    and [hide_via], the text of [peer_endpoint_] and the product version. *)
Variable make_address : list byte → option address.
Hypothesis make_address_wf : ∀ h a, make_address h = Some a → address_wf a.
Variable to_string : address → list byte.
Variables username password : list byte.
Variables hide_ip hide_via : bool.
Variables peer_endpoint product_version : list byte.

Definition ReadHandshakeViaHttps (s : server) : server := set_waiting s wait_handshake.

Definition via_headers : headers :=
  [(str "Connection", str "Close")] ++
  (if hide_ip then [] else [(str "Forwarded", str "for=" ++ [x22] ++ peer_endpoint ++ [x22])]) ++
  (if hide_via then [] else [(str "Via", str "YASS/" ++ product_version)]).

(** [request_ = {endpoint}] for the text of an address, [{hostname, portnum}]
    otherwise. *)
Definition http_target (hostname : list byte) (portnum : Z) : option (list byte) :=
  match make_address hostname with
  | Some addr => Ss.request_endpoint (mkEndpoint addr portnum)
  | None => Ss.request_domain hostname portnum
  end.

Definition OnReadHandshakeViaHttps (s : server) (r : read_result) : option server :=
  match r with
  | TryAgain => Some (ReadHandshakeViaHttps s)
  | ReadError => Some (OnDisconnect s)
  | Read bs =>
      buf ← read_buf SOCKET_DEBUF_SIZE bs;
      let parser := http_parse (span buf) in
      if negb (ok parser) then Some (OnDisconnect s) else
      let previous_offset := offset buf in
      buf ← set_offset buf (Z.of_nat (offset buf) + Z.of_nat (nparsed parser));
      let s := set_http_is_connect s (is_connect parser) in
      if (port parser =? 0)%Z || bool_decide (host parser = []) then Some (OnDisconnect s) else
      if TLSEXT_MAXLEN_host_name <? length (host parser) then Some (OnDisconnect s) else
      if auth_required username password &&
         negb (VerifyProxyAuthorizationIdentity (proxy_authorization parser) username password)
      then Some (OnDisconnect s) else
      request ← http_target (host parser) (port parser);
      let s := set_request s request in
      buf ← (if is_connect parser then Some buf
             else reforge_buffer buf previous_offset (nparsed parser)
                    (ReforgeHttpRequest parser via_headers));
      ProcessReceivedData CRYPTO_HTTPS to_string s buf
  end.

(** ** The destination *)

Definition http_dest (hostname : list byte) : dest :=
  match make_address hostname with
  | Some (address_v4 b) => to_v4 b
  | Some (address_v6 b) => to_v6 b
  | None => to_domain hostname
  end.

Lemma http_dest_wf h : length h <= 255 → dest_wf (http_dest h).
Proof.
  intros Hl. unfold http_dest. pose proof (make_address_wf h) as Hw.
  destruct (make_address h) as [[b|b]|]; [by apply (Hw (address_v4 b))|by apply (Hw (address_v6 b))|done].
Qed.

Lemma http_target_spec h p :
  length h <= 255 →
  http_target h p = Some (wire (http_dest h) p ++ drop (wire_size (http_dest h)) header_init).
Proof.
  intros Hl. rewrite <- Ss.make_request_spec by by apply http_dest_wf.
  unfold http_target, http_dest. by destruct (make_address h) as [[b|b]|].
Qed.

(** A request that the server accepts: the parser is content, the destination is
    there, and the credentials are those of the configuration when it has some. *)
Definition acceptable (rq : http_request) (bs : list byte) : Prop :=
  ok rq = true ∧ nparsed rq <= length bs ∧ port rq ≠ 0%Z ∧ port_wf (port rq) ∧
  1 <= length (host rq) <= TLSEXT_MAXLEN_host_name ∧
  (auth_required username password = true →
   VerifyProxyAuthorizationIdentity (proxy_authorization rq) username password = true).

(** The handler up to the point where the buffer is handed on. *)
Lemma OnReadHandshakeViaHttps_accept s bs :
  (Z.of_nat (length bs) <= SOCKET_DEBUF_SIZE)%Z →
  let rq := http_parse bs in
  acceptable rq bs →
  ∃ buf req, wf buf ∧ offset buf = 0 + nparsed rq ∧ span buf = drop (nparsed rq) bs ∧
    dest_of req = Some (http_dest (host rq)) ∧ Ss.port req = Some (port rq) ∧
    OnReadHandshakeViaHttps s (Read bs)
    = (buf' ← (if is_connect rq then Some buf
               else reforge_buffer buf 0 (nparsed rq) (ReforgeHttpRequest rq via_headers));
       ProcessReceivedData CRYPTO_HTTPS to_string
         (set_request (set_http_is_connect s (is_connect rq)) req) buf').
Proof.
  intros Hlen rq (Hok & Hn & Hp0 & Hp & Hh & Hauth). unfold TLSEXT_MAXLEN_host_name in Hh.
  destruct (read_buf_spec SOCKET_DEBUF_SIZE bs Hlen) as (b & E & W & Sp & O & Z & _).
  destruct (set_offset_advance b (nparsed rq)) as (b1 & E1 & W1 & S1 & C1 & O1 & _); [done|lia|].
  exists b1, (wire (http_dest (host rq)) (port rq) ++ drop (wire_size (http_dest (host rq))) header_init).
  destruct (Ss.ss_header_view (http_dest (host rq)) (port rq) (drop (wire_size (http_dest (host rq))) header_init))
    as (V1 & V2 & _); [apply http_dest_wf; lia|done|].
  split; [done|]. split; [by rewrite O1, O|]. split; [by rewrite S1, Sp|]. split; [done|]. split; [done|].
  unfold OnReadHandshakeViaHttps. rewrite E. cbn [mbind option_bind]. rewrite Sp. fold rq. rewrite Hok.
  cbn [negb]. cbv zeta. rewrite E1. cbn [mbind option_bind].
  destruct (Z.eqb_spec (port rq) 0) as [e|_]; [by destruct (Hp0 e)|].
  rewrite bool_decide_eq_false_2 by (intros E0; rewrite E0 in Hh; simpl in Hh; lia). cbn [orb].
  unfold TLSEXT_MAXLEN_host_name. destruct (Nat.ltb_spec 255 (length (host rq))); [lia|].
  assert (auth_required username password &&
    negb (VerifyProxyAuthorizationIdentity (proxy_authorization rq) username password) = false) as ->.
  { destruct (auth_required username password); [|done]. by rewrite (Hauth eq_refl). }
  rewrite http_target_spec by lia. cbn [mbind option_bind]. by rewrite O.
Qed.

(** The connection that waits for the request. *)
Definition waiting_http (D : nat) (s : server) : Prop :=
  closed_ s = false ∧ state_ s = state_handshake ∧ sent_ s = [] ∧ upstream_writable_ s = false ∧
  holds D (upstream_ s) [] ∧ holds D (downstream_ s) [].

(** C34: the HTTP proxy.  A request that the server accepts makes the connection a
    stream to its host and port.  For CONNECT the bytes behind the request are
    queued for the destination and the 200 reply for the client; for any other
    method the rewritten header and then the bytes behind the request are queued,
    provided that the rewritten header is not longer than the request was. *)
Theorem server_http_handshake D s bs :
  waiting_http D s → (Z.of_nat (length bs) <= SOCKET_DEBUF_SIZE)%Z →
  acceptable (http_parse bs) bs →
  let rq := http_parse bs in
  let header := if is_connect rq then [] else ReforgeHttpRequest rq via_headers in
  length header <= nparsed rq →
  ∃ s', OnReadHandshakeViaHttps s (Read bs) = Some s' ∧
    streaming to_string D s' (http_dest (host rq)) (port rq) (header ++ drop (nparsed rq) bs) [] ∧
    holds D (downstream_ s') (if is_connect rq then http_connect_reply_ else []).
Proof.
  intros (Hc & Hs & Hse & Hw & Hu & Hd) Hlen Hacc rq header Hfit.
  destruct (OnReadHandshakeViaHttps_accept s bs Hlen Hacc) as (buf & req & W & O & Sp & V1 & V2 & ->).
  fold rq in O, Sp, V1, V2 |- *.
  assert (∃ buf', (if is_connect rq then Some buf
    else reforge_buffer buf 0 (nparsed rq) (ReforgeHttpRequest rq via_headers)) = Some buf' ∧
    wf buf' ∧ span buf' = header ++ drop (nparsed rq) bs) as (buf' & -> & W' & Sp').
  { unfold header in *. destruct (is_connect rq); [by exists buf|].
    destruct (reforge_buffer_fits buf 0 (nparsed rq) (ReforgeHttpRequest rq via_headers))
      as (b' & -> & W' & S' & _); [done|done|done|]. exists b'. by rewrite S', Sp. }
  cbn [mbind option_bind].
  destruct (ProcessReceivedData_handshake CRYPTO_HTTPS to_string D
    (set_request (set_http_is_connect s (is_connect rq)) req) buf' (http_dest (host rq)) (port rq) [] [])
    as (s' & E & S1 & S2 & S3 & S4 & S5 & S6 & S7); try done.
  exists s'. split; [done|]. rewrite Sp' in S6. unfold connect_reply in S7.
  rewrite bool_decide_eq_true_2 in S7 by done. split; [|exact S7].
  unfold streaming. rewrite S2, S3, S4. by split_and!.
Qed.

(** A request as clients write it: one space, one colon and one space, CRLF. *)
Definition canonical (rq : http_request) (bs : list byte) : Prop :=
  ∃ rest, bs = (method_ rq ++ str " " ++ http_url_ rq ++ str " " ++ version_input_ rq ++ crlf ++
                concat (map header_line (http_headers_ rq)) ++ crlf) ++ rest ∧
    nparsed rq = length bs - length rest.

(** A plain request whose rewritten header is longer than the request makes the
    server write behind the end of its buffer: after [SetCapacity] the size of the
    payload is taken from the grown buffer.  Every canonical request with a path
    instead of a URL that lacks a Connection header, and carries none of the headers
    that the server drops, is one, since the server adds headers to it. *)
Theorem server_http_overflow s bs :
  (Z.of_nat (length bs) <= SOCKET_DEBUF_SIZE)%Z →
  acceptable (http_parse bs) bs → is_connect (http_parse bs) = false →
  nparsed (http_parse bs) < length (ReforgeHttpRequest (http_parse bs) via_headers) ∨
  (canonical (http_parse bs) bs ∧ gurl (http_url_ (http_parse bs)) = None ∧
   Forall (λ kv, keep_header via_headers kv = true) (http_headers_ (http_parse bs))) →
  OnReadHandshakeViaHttps s (Read bs) = None.
Proof.
  intros Hlen Hacc Hcon Hlong.
  destruct (OnReadHandshakeViaHttps_accept s bs Hlen Hacc) as (buf & req & W & O & Sp & _ & _ & ->).
  set (rq := http_parse bs) in *. rewrite Hcon.
  rewrite reforge_buffer_overflows; [done|done|done|].
  destruct Hlong as [|((rest & Hbs & Hn) & Hg & Hk)]; [done|].
  rewrite length_ReforgeHttpRequest by done. apply (f_equal length) in Hbs. rewrite length_app in Hbs.
  assert (1 <= length (concat (map header_line via_headers))) by (unfold via_headers; simpl; lia). lia.
Qed.

(** Authorization.  When the server has credentials, a request without them is
    refused; the header the client sends for them is accepted, and only a header
    whose token decodes to them is. *)
Theorem server_http_authorization s bs :
  (Z.of_nat (length bs) <= SOCKET_DEBUF_SIZE)%Z → closed_ s = false →
  auth_required username password = true →
  VerifyProxyAuthorizationIdentity (str "basic " ++ GetProxyAuthorizationIdentity username password)
    username password = true ∧
  (∀ auth, VerifyProxyAuthorizationIdentity auth username password = true →
     ∃ scheme token, auth = scheme ++ token ∧ ToLowerASCII scheme = str "basic " ∧
       base64_decode token = Some (username ++ str ":" ++ password)) ∧
  (nparsed (http_parse bs) <= length bs →
   VerifyProxyAuthorizationIdentity (proxy_authorization (http_parse bs)) username password = false →
   ∃ s', OnReadHandshakeViaHttps s (Read bs) = Some s' ∧ closed_ s' = true ∧ channel_ s' = channel_ s).
Proof.
  intros Hlen Hc Hauth. split; [|split].
  - apply VerifyProxyAuthorizationIdentity_spec. do 2 eexists. split; [done|]. split; [done|]. split.
    + apply base64_encode_nonempty. by destruct username.
    + apply base64_decode_encode.
  - intros auth (scheme & token & -> & E & _ & Ed)%VerifyProxyAuthorizationIdentity_spec. by exists scheme, token.
  - intros Hn Hv. unfold OnReadHandshakeViaHttps.
    destruct (read_buf_spec SOCKET_DEBUF_SIZE bs Hlen) as (b & -> & W & Sp & O & Z & _).
    cbn [mbind option_bind]. rewrite Sp. set (rq := http_parse bs) in *. cbv zeta.
    destruct (ok rq); cbn [negb]; [|eexists; split; [done|]; unfold OnDisconnect; by rewrite Hc].
    destruct (set_offset_advance b (nparsed rq)) as (b1 & -> & _); [done|lia|]. cbn [mbind option_bind].
    set (s1 := set_http_is_connect s (is_connect rq)).
    rewrite Hauth, Hv. cbn [andb negb].
    assert (OnDisconnect s1 = set_closed s1) as -> by (unfold OnDisconnect; cbn; by rewrite Hc).
    destruct (_ || _); [by eexists|]. destruct (_ <? _); by eexists.
Qed.

End HttpServer.
(** ** Witnesses *)

Definition example_http_waiting : server :=
  mkServer state_handshake false Ss.request_init None None (IoQueue.make 4) false None wait_handshake []
    (IoQueue.make 4) false.

Lemma server_http_handshake_witness :
  let HA := (λ _, x00) : Allocator in
  let HL := example_http (connect_request []) in
  ∃ s', OnReadHandshakeViaHttps (λ _, None) example_to_string [] [] true true [] [] example_http_waiting
          (Read (connect_text ++ [x47])) = Some s' ∧
    streaming example_to_string 4 s' (to_domain (str "a")) 80 [x47] [] ∧
    holds 4 (downstream_ s') http_connect_reply_.
Proof.
  intros HA HL. pose proof (example_http_laws (connect_request [])) as L.
  apply (server_http_handshake (λ _, None) ltac:(done) example_to_string [] [] true true [] [] 4
    example_http_waiting (connect_text ++ [x47])).
  - unfold waiting_http. split_and!; try done; apply holds_make; lia.
  - vm_compute. congruence.
  - unfold acceptable. split_and!; try done; vm_compute; lia.
  - simpl. lia.
Defined.

Lemma server_http_overflow_witness :
  let HA := (λ _, x00) : Allocator in
  let HL := example_http plain_request in
  OnReadHandshakeViaHttps (λ _, None) example_to_string [] [] true true [] [] example_http_waiting
    (Read plain_text) = None.
Proof.
  intros HA HL. pose proof (example_http_laws plain_request) as L.
  apply (server_http_overflow (λ _, None) ltac:(done) example_to_string [] [] true true [] []
    example_http_waiting plain_text).
  - vm_compute. congruence.
  - unfold acceptable. split_and!; try done; vm_compute; lia.
  - reflexivity.
  - right. split; [exists []; split; reflexivity|]. split; [reflexivity|]. by constructor.
Defined.

Lemma server_http_authorization_witness :
  let HA := (λ _, x00) : Allocator in
  let HL := example_http (connect_request (str "basic bad")) in
  ∃ s', OnReadHandshakeViaHttps (λ _, None) example_to_string [x75] [x70] true true [] [] example_http_waiting
      (Read connect_text) = Some s' ∧ closed_ s' = true ∧ channel_ s' = None.
Proof.
  intros HA HL. pose proof (example_http_laws (connect_request (str "basic bad"))) as L.
  apply (server_http_authorization (λ _, None) example_to_string [x75] [x70] true true [] []
    example_http_waiting connect_text);
    [vm_compute; congruence|reflexivity|reflexivity|vm_compute; lia|reflexivity].
Defined.

End HttpServer.
