(* ===== verification/Cli.v ===== *)
(** * The client connection

    [CliConnection] of src/src/cli/cli_connection.cpp for its local side: the
    detection of the protocol of the application, the SOCKS5, SOCKS4 and HTTP
    handshakes with it, the command, and the data that arrives before the upstream
    connection is there.

    Handlers are functions on the state; [None] is an abort or undefined behaviour.
    A read that is registered with the downlink is the field [reading_], a reply on
    its way to the application is [writing_] with a flag for success.  The relay
    loops that start when the handshake is over are the reading [read_pipe]. *)

From Stdlib Require Import ZArith Lia.
From stdpp Require Import base list numbers option.
From S2P Require Import Prelude IoBuffer IoQueue Addr Ss Socks4 Socks5 Hkdf Crypter Cipher Conn Http Server.

Module Cli.
Import IoBuffer Addr Crypter Cipher Conn Http.

Inductive state :=
  | state_error | state_method_select | state_socks5_handshake | state_socks4_handshake
  | state_http_handshake | state_stream.

Inductive reading := no_read | read_method_select | read_socks5_handshake | read_pipe.

(** [channel_]: null, connecting, or connected. *)
Inductive channel := no_channel | connecting | connected.

#[export] Instance state_eq_decision : EqDecision state.
Proof. solve_decision. Defined.
#[export] Instance channel_eq_decision : EqDecision channel.
Proof. solve_decision. Defined.

Record http_state := mkHttpState {
  http_host_ : list byte; http_port_ : Z; http_is_connect_ : bool; http_is_keep_alive_ : bool;
  http_keep_alive_remaining_bytes_ : Z; http_keep_alive_pending_buf_ : option GrowableIOBuffer }.

(** The upstream side; [write_inprogress_] is the channel's: whether it is waited for
    to be writable; [written_] is what has been written to it. *)
Record upstream := mkUpstream {
  channel_ : channel; upstream_ : IoQueue.IoQueue GrowableIOBuffer; upstream_writable_ : bool;
  write_inprogress_ : bool;
  socks5_method_select_handshake_ : bool; socks5_auth_handshake_ : bool; socks_handshake_ : bool;
  encoder_ : option cipher; decoder_ : option cipher; written_ : list byte }.

Record client := mkClient {
  state_ : state; closed_ : bool; reading_ : reading; writing_ : option (list byte * bool);
  sent_ : list byte; shutdown_ : bool; s5_request_ : Socks5.request; s4_request_ : Socks4.request;
  request_ : list byte; resolving_ : option (list byte * Z); http_ : http_state;
  pending_data_ : IoQueue.IoQueue GrowableIOBuffer; downstream_ : IoQueue.IoQueue GrowableIOBuffer;
  up_ : upstream }.

Definition set_state (s : client) (x : state) : client :=
  mkClient x (closed_ s) (reading_ s) (writing_ s) (sent_ s) (shutdown_ s) (s5_request_ s)
    (s4_request_ s) (request_ s) (resolving_ s) (http_ s) (pending_data_ s) (downstream_ s) (up_ s).
Definition set_reading (s : client) (x : reading) : client :=
  mkClient (state_ s) (closed_ s) x (writing_ s) (sent_ s) (shutdown_ s) (s5_request_ s)
    (s4_request_ s) (request_ s) (resolving_ s) (http_ s) (pending_data_ s) (downstream_ s) (up_ s).
Definition set_writing (s : client) (x : option (list byte * bool)) : client :=
  mkClient (state_ s) (closed_ s) (reading_ s) x (sent_ s) (shutdown_ s) (s5_request_ s)
    (s4_request_ s) (request_ s) (resolving_ s) (http_ s) (pending_data_ s) (downstream_ s) (up_ s).
Definition add_sent (s : client) (bs : list byte) : client :=
  mkClient (state_ s) (closed_ s) (reading_ s) (writing_ s) (sent_ s ++ bs) (shutdown_ s)
    (s5_request_ s) (s4_request_ s) (request_ s) (resolving_ s) (http_ s) (pending_data_ s)
    (downstream_ s) (up_ s).
Definition set_shutdown (s : client) : client :=
  mkClient (state_ s) (closed_ s) (reading_ s) (writing_ s) (sent_ s) true (s5_request_ s)
    (s4_request_ s) (request_ s) (resolving_ s) (http_ s) (pending_data_ s) (downstream_ s) (up_ s).
Definition set_s5 (s : client) (x : Socks5.request) : client :=
  mkClient (state_ s) (closed_ s) (reading_ s) (writing_ s) (sent_ s) (shutdown_ s) x (s4_request_
    s) (request_ s) (resolving_ s) (http_ s) (pending_data_ s) (downstream_ s) (up_ s).
Definition set_s4 (s : client) (x : Socks4.request) : client :=
  mkClient (state_ s) (closed_ s) (reading_ s) (writing_ s) (sent_ s) (shutdown_ s) (s5_request_ s)
    x (request_ s) (resolving_ s) (http_ s) (pending_data_ s) (downstream_ s) (up_ s).
Definition set_request (s : client) (x : list byte) : client :=
  mkClient (state_ s) (closed_ s) (reading_ s) (writing_ s) (sent_ s) (shutdown_ s) (s5_request_ s)
    (s4_request_ s) x (resolving_ s) (http_ s) (pending_data_ s) (downstream_ s) (up_ s).
Definition set_resolving (s : client) (x : option (list byte * Z)) : client :=
  mkClient (state_ s) (closed_ s) (reading_ s) (writing_ s) (sent_ s) (shutdown_ s) (s5_request_ s)
    (s4_request_ s) (request_ s) x (http_ s) (pending_data_ s) (downstream_ s) (up_ s).
Definition set_http (s : client) (x : http_state) : client :=
  mkClient (state_ s) (closed_ s) (reading_ s) (writing_ s) (sent_ s) (shutdown_ s) (s5_request_ s)
    (s4_request_ s) (request_ s) (resolving_ s) x (pending_data_ s) (downstream_ s) (up_ s).
Definition set_pending_data (s : client) (q : IoQueue.IoQueue GrowableIOBuffer) : client :=
  mkClient (state_ s) (closed_ s) (reading_ s) (writing_ s) (sent_ s) (shutdown_ s) (s5_request_ s)
    (s4_request_ s) (request_ s) (resolving_ s) (http_ s) q (downstream_ s) (up_ s).
Definition set_downstream (s : client) (q : IoQueue.IoQueue GrowableIOBuffer) : client :=
  mkClient (state_ s) (closed_ s) (reading_ s) (writing_ s) (sent_ s) (shutdown_ s) (s5_request_ s)
    (s4_request_ s) (request_ s) (resolving_ s) (http_ s) (pending_data_ s) q (up_ s).
Definition set_up (s : client) (x : upstream) : client :=
  mkClient (state_ s) (closed_ s) (reading_ s) (writing_ s) (sent_ s) (shutdown_ s) (s5_request_ s)
    (s4_request_ s) (request_ s) (resolving_ s) (http_ s) (pending_data_ s) (downstream_ s) x.

Definition set_channel (u : upstream) (c : channel) : upstream :=
  mkUpstream c (upstream_ u) (upstream_writable_ u) (write_inprogress_ u) (socks5_method_select_handshake_ u)
    (socks5_auth_handshake_ u) (socks_handshake_ u) (encoder_ u) (decoder_ u) (written_ u).
Definition set_queue (u : upstream) (q : IoQueue.IoQueue GrowableIOBuffer) : upstream :=
  mkUpstream (channel_ u) q (upstream_writable_ u) (write_inprogress_ u) (socks5_method_select_handshake_ u)
    (socks5_auth_handshake_ u) (socks_handshake_ u) (encoder_ u) (decoder_ u) (written_ u).
Definition set_writable (u : upstream) (b : bool) : upstream :=
  mkUpstream (channel_ u) (upstream_ u) b (write_inprogress_ u) (socks5_method_select_handshake_ u)
    (socks5_auth_handshake_ u) (socks_handshake_ u) (encoder_ u) (decoder_ u) (written_ u).
Definition set_write_inprogress (u : upstream) (b : bool) : upstream :=
  mkUpstream (channel_ u) (upstream_ u) (upstream_writable_ u) b (socks5_method_select_handshake_ u)
    (socks5_auth_handshake_ u) (socks_handshake_ u) (encoder_ u) (decoder_ u) (written_ u).
Definition set_flags (u : upstream) (ms auth hs : bool) : upstream :=
  mkUpstream (channel_ u) (upstream_ u) (upstream_writable_ u) (write_inprogress_ u) ms auth hs (encoder_ u) (decoder_ u)
    (written_ u).
Definition set_encoder (u : upstream) (e : cipher) : upstream :=
  mkUpstream (channel_ u) (upstream_ u) (upstream_writable_ u) (write_inprogress_ u) (socks5_method_select_handshake_ u)
    (socks5_auth_handshake_ u) (socks_handshake_ u) (Some e) (decoder_ u) (written_ u).
Definition set_decoder (u : upstream) (e : cipher) : upstream :=
  mkUpstream (channel_ u) (upstream_ u) (upstream_writable_ u) (write_inprogress_ u) (socks5_method_select_handshake_ u)
    (socks5_auth_handshake_ u) (socks_handshake_ u) (encoder_ u) (Some e) (written_ u).
Definition add_written (u : upstream) (bs : list byte) : upstream :=
  mkUpstream (channel_ u) (upstream_ u) (upstream_writable_ u) (write_inprogress_ u) (socks5_method_select_handshake_ u)
    (socks5_auth_handshake_ u) (socks_handshake_ u) (encoder_ u) (decoder_ u) (written_ u ++ bs).

(** [close()]: both sockets are closed. *)
Definition set_closed (s : client) : client :=
  mkClient (state_ s) true no_read None (sent_ s) (shutdown_ s) (s5_request_ s) (s4_request_ s)
    (request_ s) None (http_ s) (pending_data_ s) (downstream_ s) (set_channel (up_ s) no_channel).

Definition is_socks_non_domain_name (m : cipher_method) : bool :=
  bool_decide (m = CRYPTO_SOCKS4 ∨ m = CRYPTO_SOCKS5).

Definition TLSEXT_MAXLEN_host_name : nat := 255.
Definition kMaxHeaderSize : nat := Z.to_nat (1024 * 1024 + 1024).
Definition http_connect_reply_ : list byte :=
  str "HTTP/1.1 200 Connection established" ++ crlf ++ crlf.

(** The error codes that the handlers tell apart. *)
Inductive errc := success | invalid_argument | connection_refused.

(** A [uint64_t] assigned to an [int64_t]. *)
Definition to_int64 (z : Z) : Z := let z := (z mod 2 ^ 64)%Z in if (z <? 2 ^ 63)%Z then z else (z - 2 ^ 64)%Z.

Section Cli.
Context `{Allocator} `{HttpLib} `{CryptoLib} `{Sha1} `{KeyLib} `{RND : RandLib}.

(** [method()] of the upstream server, asio's [make_address], the contents of the
    members that a reply does not initialise, and of the array [T] of the key
    derivation. *)
Variable method : cipher_method.
Variable make_address : list byte → option address.
Variables (junk4 junk6 : list byte) (junk_hi junk_lo : byte).
Variable T0 : list byte.

(** [OnDisconnect]: [close()], which does nothing on a closed connection. *)
Definition OnDisconnect (s : client) : client := if closed_ s then s else set_closed s.

Definition process_error (s : client) : client := OnDisconnect (set_state s state_error).

(** [disconnected] up to the write loop it may start. *)
Definition disconnected (s : client) : client :=
  let s := set_up s (set_writable (set_channel (up_ s) no_channel) false) in
  if IoQueue.empty (downstream_ s) && negb (shutdown_ s) then set_shutdown s else s.

(** ** Data from the application *)

(** [wait_write] of the channel, without a rate limit. *)
Definition wait_write (u : upstream) : upstream :=
  if bool_decide (channel_ u = connected) then set_write_inprogress u true else u.

Definition OnUpstreamWriteFlush (s : client) : client :=
  if negb (IoQueue.empty (upstream_ (up_ s))) && upstream_writable_ (up_ s)
  then set_up s (wait_write (set_writable (up_ s) false)) else s.

(** The data goes to the queue as it is or encrypted. *)
Definition push_upstream (s : client) (buf : GrowableIOBuffer) : option client :=
  if bool_decide (method = CRYPTO_HTTPS) || is_socks method
  then Some (set_up s (set_queue (up_ s) (IoQueue.push_back (upstream_ (up_ s)) buf)))
  else encoder ← encoder_ (up_ s);
       '(encoder, q, err) ← EncryptData T0 encoder (upstream_ (up_ s)) (span buf);
       let s := set_up s (set_encoder (set_queue (up_ s) q) encoder) in
       Some (if (err : bool) then disconnected s else s).

Definition OnStreamRead (s : client) (buf : GrowableIOBuffer) : option client :=
  if negb (bool_decide (channel_ (up_ s) = connected)) then
    n ← IoQueue.byte_length size (pending_data_ s);
    if kMaxHeaderSize <? n + size buf then Some (OnDisconnect s)
    else Some (set_pending_data s (IoQueue.push_back (pending_data_ s) buf))
  else
    s ← push_upstream s buf;
    Some (OnUpstreamWriteFlush s).

(** ** The command *)

Definition OnConnect (s : client) : client := set_up s (set_channel (up_ s) connecting).

Definition OnCmdConnect_endpoint (s : client) (ep : endpoint) : option client :=
  r ← Ss.request_endpoint ep;
  Some (OnConnect (set_request s r)).

Definition OnCmdConnect (s : client) (domain_name : list byte) (port : Z) : option client :=
  match make_address domain_name with
  | Some addr => OnCmdConnect_endpoint s (mkEndpoint addr port)
  | None =>
      if is_socks_non_domain_name method then Some (set_resolving s (Some (domain_name, port)))
      else r ← Ss.request_domain domain_name port;
           Some (OnConnect (set_request s r))
  end.

(** The answer of the resolver: the first endpoint, if there is one. *)
Definition on_resolved (s : client) (answer : option (option endpoint)) : option client :=
  let s := set_resolving s None in
  match answer with
  | None => Some (OnDisconnect s)
  | Some results =>
      let ep := default endpoint_default results in
      if is_unspecified (ep_address ep) || (ep_port ep =? 0)%Z then Some (OnDisconnect s)
      else OnCmdConnect_endpoint s ep
  end.

Definition PerformCmdOpsV5 (s : client) (request : Socks5.request) (reply : Socks5.reply)
  : option (client * Socks5.reply * errc) :=
  let atyp := address_type (Socks5.atyp_req request) in
  if bool_decide (Socks5.req_command request = Socks5.cmd_connect) then
    if (Socks5.port request =? 0)%Z
       || (bool_decide (atyp = domain) && bool_decide (Socks5.request_domain_name request = []))
       || (negb (bool_decide (atyp = domain)) && is_unspecified (ep_address (Socks5.endpoint_of request)))
    then Some (s, Socks5.set_status reply Socks5.request_failed_network_unreachable, invalid_argument)
    else
    let endpoint := if decide (atyp = domain) then endpoint_default else Socks5.endpoint_of request in
    let reply := Socks5.set_status (Socks5.set_endpoint reply endpoint) Socks5.request_granted in
    s ← (if decide (atyp = domain)
         then OnCmdConnect s (Socks5.request_domain_name request) (Socks5.port request)
         else OnCmdConnect_endpoint s (Socks5.endpoint_of request));
    Some (s, reply, success)
  else Some (s, Socks5.set_status reply Socks5.request_failed_cmd_not_supported, invalid_argument).

Definition PerformCmdOpsV4 (s : client) (request : Socks4.request) (reply : Socks4.reply)
  : option (client * Socks4.reply * errc) :=
  if bool_decide (Socks4.h_command (Socks4.req_ request) = Socks4.cmd_connect) then
    if (Socks4.port request =? 0)%Z
       || (Socks4.is_socks4a request && bool_decide (Socks4.domain_name_ request = []))
       || (negb (Socks4.is_socks4a request)
           && is_unspecified (ep_address (Socks4.endpoint_of request)))
    then Some (s, Socks4.set_status reply Socks4.request_failed, invalid_argument)
    else
    reply ← Socks4.set_endpoint reply endpoint_default;
    let reply := Socks4.set_status reply Socks4.request_granted in
    if Socks4.is_socks4a request then
      if TLSEXT_MAXLEN_host_name <? length (Socks4.domain_name_ request)
      then Some (s, Socks4.set_status reply Socks4.request_failed, invalid_argument)
      else s ← OnCmdConnect s (Socks4.domain_name_ request) (Socks4.port request);
           Some (s, reply, success)
    else s ← OnCmdConnect_endpoint s (Socks4.endpoint_of request);
         Some (s, reply, success)
  else Some (s, Socks4.set_status reply Socks4.request_failed, invalid_argument).

Definition PerformCmdOpsHttp (s : client) : option (client * errc) :=
  let h := http_ s in
  if TLSEXT_MAXLEN_host_name <? length (http_host_ h) then Some (s, invalid_argument)
  else if bool_decide (http_host_ h = []) || (http_port_ h =? 0)%Z then Some (s, invalid_argument)
  else s ← OnCmdConnect s (http_host_ h) (http_port_ h);
       Some (s, success).

(** ** The replies *)

Definition WriteMethodSelect (s : client) : client :=
  set_writing s (Some (Socks5.method_select_response_stock_reply Socks5.no_auth_required, true)).

Definition WriteHandshakeSocks5 (s : client) (reply : Socks5.reply) : client :=
  set_writing (set_state s state_stream)
    (Some (concat (Socks5.buffers reply), bool_decide (Socks5.status_ reply = Socks5.request_granted))).

Definition WriteHandshakeSocks4 (s : client) (reply : Socks4.reply) : client :=
  set_writing (set_state s state_stream)
    (Some (concat (Socks4.buffers reply), bool_decide (Socks4.status_ reply = Socks4.request_granted))).

(** The reply to CONNECT goes through the queue; the write loop is not modelled. *)
Definition WriteHandshakeHttp (s : client) : option client :=
  let s := set_state s state_stream in
  if http_is_connect_ (http_ s)
  then buf ← copyBuffer http_connect_reply_;
       Some (set_downstream s (IoQueue.push_back (downstream_ s) buf))
  else Some s.

(** ** States *)

Definition handle_stream (s : client) (buf : GrowableIOBuffer) : option client :=
  if 0 <? size buf then OnStreamRead s buf else Some (set_reading s read_pipe).

(** [ProcessReceivedData] without an error. *)
Definition ProcessReceivedData (s : client) (buf : GrowableIOBuffer) : option client :=
  match state_ s with
  | state_method_select => Some (WriteMethodSelect s)
  | state_socks5_handshake =>
      '(s, reply, ec) ← PerformCmdOpsV5 s (s5_request_ s) (Socks5.reply_init junk4 junk6 junk_hi junk_lo);
      let s := WriteHandshakeSocks5 s reply in
      match ec with success => handle_stream s buf | _ => Some (set_reading s read_pipe) end
  | state_socks4_handshake =>
      '(s, reply, ec) ← PerformCmdOpsV4 s (s4_request_ s) (Socks4.reply_init junk_hi junk_lo junk4);
      let s := WriteHandshakeSocks4 s reply in
      match ec with success => handle_stream s buf | _ => Some (set_reading s read_pipe) end
  | state_http_handshake =>
      '(s, ec) ← PerformCmdOpsHttp s;
      match ec with
      | success => s ← WriteHandshakeHttp s; handle_stream s buf
      | _ => Some (process_error s)
      end
  | state_stream => handle_stream s buf
  | state_error => Some (process_error s)
  end.

Definition ReadMethodSelect (s : client) : client := set_reading s read_method_select.
Definition ReadSocks5Handshake (s : client) : client := set_reading s read_socks5_handshake.

(** The completion of a reply: [ok] tells whether it was written.  The queue for
    the application is left to the write loop. *)
Definition ProcessSentData (s : client) (ok : bool) : client :=
  if ok then
    match state_ s with
    | state_method_select => ReadSocks5Handshake s
    | state_stream => s
    | _ => process_error s
    end
  else process_error s.

Definition on_write (s : client) (ok : bool) : client :=
  match writing_ s with
  | None => s
  | Some (bs, granted) =>
      let s := set_writing s None in
      let s := if ok then add_sent s bs else s in
      let s := if granted then s else set_shutdown s in
      ProcessSentData s ok
  end.

(** ** The messages of the application *)

Definition OnReadSocks5MethodSelect (junkm : list byte) (s : client) (buf : GrowableIOBuffer)
  : option (client * GrowableIOBuffer * errc) :=
  '(result, _, _, request) ← Socks5.MethodSelectParser.ms_parse Socks5.MethodSelectParser.ms_reset
    (Socks5.mkMethodSelect x00 x00 junkm) (data buf) 0 (size buf);
  match result with
  | Socks5.good =>
      buf ← set_offset buf (Z.of_nat (offset buf) + Z.of_nat (Socks5.ms_length request));
      let s := set_state s state_method_select in
      if bool_decide (Socks5.no_auth_required ∈ Socks5.ms_range request)
      then Some (s, buf, success) else Some (s, buf, connection_refused)
  | _ => Some (s, buf, invalid_argument)
  end.

Definition OnReadSocks5Handshake (s : client) (buf : GrowableIOBuffer)
  : option (client * GrowableIOBuffer * errc) :=
  '(result, _, _, request) ← Socks5.RequestParser.rq_parse Socks5.RequestParser.rq_reset
    (s5_request_ s) (data buf) 0 (size buf);
  let s := set_s5 s request in
  match result with
  | Socks5.good =>
      buf ← set_offset buf (Z.of_nat (offset buf) + Z.of_nat (Socks5.request_length request));
      Some (set_state s state_socks5_handshake, buf, success)
  | _ => Some (s, buf, invalid_argument)
  end.

Definition OnReadSocks4Handshake (s : client) (buf : GrowableIOBuffer)
  : option (client * GrowableIOBuffer * errc) :=
  '(result, _, _, request) ← Socks4.parse Socks4.reset (s4_request_ s) (data buf) 0 (size buf);
  let s := set_s4 s request in
  match result with
  | Socks4.good =>
      buf ← set_offset buf (Z.of_nat (offset buf) + Z.of_nat (Socks4.request_length request));
      Some (set_state s state_socks4_handshake, buf, success)
  | _ => Some (s, buf, invalid_argument)
  end.

(** The bytes of a keep-alive request and those of the next one in two buffers. *)
Definition split_keep_alive (buf : GrowableIOBuffer) (request_size : Z)
  : option (GrowableIOBuffer * GrowableIOBuffer) :=
  if (Z.of_nat (size buf) <? request_size)%Z then None else
  let n := Z.to_nat request_size in
  pending ← copyBuffer (drop n (span buf));
  buf ← SetCapacity buf request_size;
  Some (buf, pending).

Definition OnReadHttpRequest (s : client) (buf : GrowableIOBuffer)
  : option (client * GrowableIOBuffer * errc) :=
  let parser := http_parse (span buf) in
  let h := http_ s in
  if ok parser then
    let previous_offset := offset buf in
    buf ← set_offset buf (Z.of_nat previous_offset + Z.of_nat (nparsed parser));
    '(buf, keep_alive, remaining, pending) ←
      (if is_connect parser then Some (buf, false, 0%Z, None) else
       let header := ReforgeHttpRequest parser [] in
       buf ← reforge_buffer buf previous_offset (nparsed parser) header;
       let keep_alive := equal_ci (connection parser) (str "Keep-Alive") in
       let request_size := ((content_length parser + Z.of_nat (length header)) mod 2 ^ 64)%Z in
       let remaining := to_int64 (request_size - Z.of_nat (size buf)) in
       '(buf, remaining, pending) ←
         (if (keep_alive : bool) && (remaining <? 0)%Z
          then '(buf, pending) ← split_keep_alive buf request_size; Some (buf, 0%Z, Some pending)
          else Some (buf, remaining, http_keep_alive_pending_buf_ h));
       Some (buf, if transfer_encoding_is_chunked parser then false else keep_alive, remaining, pending));
    let h := mkHttpState (host parser) (port parser) (is_connect parser) keep_alive remaining pending in
    Some (set_state (set_http s h) state_http_handshake, buf, success)
  else
    let h := mkHttpState (http_host_ h) (http_port_ h) (http_is_connect_ h) false 0
               (http_keep_alive_pending_buf_ h) in
    Some (set_http s h, buf, invalid_argument).

(** ** Events on the downlink *)

(** The three protocols are tried in turn.  Transparent redirection is off. *)
Definition detect (junkm : list byte) (s : client) (buf : GrowableIOBuffer)
  : option (client * GrowableIOBuffer * errc) :=
  '(s, buf, ec) ← OnReadSocks5MethodSelect junkm s buf;
  '(s, buf, ec) ← match ec with invalid_argument => OnReadSocks4Handshake s buf | _ => Some (s, buf, ec) end;
  match ec with invalid_argument => OnReadHttpRequest s buf | _ => Some (s, buf, ec) end.

Definition on_read (handshake : client → GrowableIOBuffer → option (client * GrowableIOBuffer * errc))
    (again : client → client) (s : client) (r : read_result) : option client :=
  match r with
  | TryAgain => Some (again s)
  | ReadError => Some (OnDisconnect s)
  | Read bs =>
      buf ← read_buf SOCKET_BUF_SIZE bs;
      '(s, buf, ec) ← handshake s buf;
      match ec with success => ProcessReceivedData s buf | _ => Some (OnDisconnect s) end
  end.

Inductive event :=
  | Readable (r : read_result) | WaitFailed | WriteDone (ok : bool)
  | Resolved (answer : option (option endpoint)).

Definition step (junkm : list byte) (s : client) (e : event) : option client :=
  if closed_ s then Some s else
  match e with
  | Readable r =>
      let idle := set_reading s no_read in
      match reading_ s with
      | read_method_select => on_read (detect junkm) ReadMethodSelect idle r
      | read_socks5_handshake => on_read OnReadSocks5Handshake ReadSocks5Handshake idle r
      | _ => Some s
      end
  | WaitFailed => match reading_ s with no_read => Some s | _ => Some (process_error s) end
  | WriteDone ok => Some (on_write s ok)
  | Resolved answer => match resolving_ s with None => Some s | Some _ => on_resolved s answer end
  end.

Fixpoint run (junkm : list byte) (s : client) (es : list event) : option client :=
  match es with
  | [] => Some s
  | e :: es => s ← step junkm s e; run junkm s es
  end.

(** The connection when [start] has called [ReadMethodSelect]. *)
Definition init (D : nat) : client :=
  mkClient state_method_select false read_method_select None [] false Socks5.request_init Socks4.request_init
    Ss.request_init None (mkHttpState [] 0 false false 0 None) (IoQueue.make D) (IoQueue.make D)
    (mkUpstream no_channel (IoQueue.make D) false false false false false None None []).

(** ** The command, for a destination *)

Hypothesis make_address_wf : ∀ h a, make_address h = Some a → address_wf a.

(** The destination that is asked for: the text of an address is one. *)
Definition cmd_dest (d : dest) : dest :=
  match d with
  | to_domain n => match make_address n with
                   | Some (address_v4 b) => to_v4 b
                   | Some (address_v6 b) => to_v6 b
                   | None => to_domain n
                   end
  | _ => d
  end.

(** The name has to be resolved here first. *)
Definition resolves (d : dest) : bool :=
  match cmd_dest d with to_domain _ => is_socks_non_domain_name method | _ => false end.

Lemma cmd_dest_wf d : dest_wf d → dest_wf (cmd_dest d).
Proof.
  destruct d as [b|n|b]; simpl; try done. intros Hn. pose proof (make_address_wf n) as Hw.
  destruct (make_address n) as [[b|b]|]; [by apply (Hw (address_v4 b))|by apply (Hw (address_v6 b))|done].
Qed.

Definition command (s : client) (d : dest) (p : Z) : option client :=
  match d with
  | to_domain n => OnCmdConnect s n p
  | to_v4 b => OnCmdConnect_endpoint s (mkEndpoint (address_v4 b) p)
  | to_v6 b => OnCmdConnect_endpoint s (mkEndpoint (address_v6 b) p)
  end.

Definition header_of (d : dest) (p : Z) : list byte := wire d p ++ drop (wire_size d) header_init.

Lemma command_connects s d p :
  dest_wf d → resolves d = false → command s d p = Some (OnConnect (set_request s (header_of (cmd_dest d) p))).
Proof.
  intros Hd Hr. pose proof (Ss.make_request_spec (cmd_dest d) p (cmd_dest_wf d Hd)) as E.
  unfold resolves in Hr. destruct d as [b|n|b]; cbn [command cmd_dest] in *;
    unfold OnCmdConnect, OnCmdConnect_endpoint; unfold header_of.
  - cbn [Ss.make_request] in E. by rewrite E.
  - destruct (make_address n) as [[b|b]|]; cbn [Ss.make_request] in E; [by rewrite E|by rewrite E|].
    by rewrite Hr, E.
  - cbn [Ss.make_request] in E. by rewrite E.
Qed.

(** The tests of the SOCKS5 command on a parsed request. *)
Lemma PerformCmdOpsV5_connect s r reply d p :
  Socks5.req_command r = Socks5.cmd_connect → dest_of (Socks5.atyp_req r) = Some d → Socks5.port r = p →
  dest_wf d → dest_ok d → p ≠ 0%Z → resolves d = false →
  PerformCmdOpsV5 s r reply
  = Some (OnConnect (set_request s (header_of (cmd_dest d) p)),
          Socks5.set_status (Socks5.set_endpoint reply (Server.bound d p)) Socks5.request_granted, success).
Proof.
  intros Hc Hdest Hport Hd Hok Hp0 Hr. pose proof (command_connects s d p Hd Hr) as E.
  unfold PerformCmdOpsV5. rewrite Hc, bool_decide_eq_true_2, Hport by done. cbv zeta.
  apply dest_of_inv in Hdest as [Hat Hv]. rewrite Hat.
  destruct (Z.eqb_spec p 0) as [e|_]; [by destruct (Hp0 e)|]. cbn [orb].
  destruct d as [b|n|b]; cbn [dest_atyp dest_ok command Server.bound] in *.
  - rewrite (bool_decide_eq_false_2 (ipv4 = domain)) by done. cbn [andb orb negb].
    unfold Socks5.endpoint_of. rewrite Hat, decide_True by done. cbn [ep_address is_unspecified].
    rewrite Hv, bool_decide_eq_false_2, !decide_False, Hport by done. by rewrite E.
  - rewrite (bool_decide_eq_true_2 (domain = domain)) by done. cbn [andb orb negb].
    unfold Socks5.request_domain_name. rewrite Hv, bool_decide_eq_false_2, !decide_True by done.
    cbn [orb]. by rewrite E.
  - rewrite (bool_decide_eq_false_2 (ipv6 = domain)) by done. cbn [andb orb negb].
    unfold Socks5.endpoint_of. rewrite Hat, decide_False, decide_True by done.
    cbn [ep_address is_unspecified].
    rewrite Hv, bool_decide_eq_false_2, !decide_False, Hport by done. by rewrite E.
Qed.

(** The queue holds these bytes in buffers that are not empty. *)
Definition waits (D : nat) (q : IoQueue.IoQueue GrowableIOBuffer) (bs : list byte) : Prop :=
  ∃ xs, IoQueue.represents D q xs ∧ Forall (λ b, wf b ∧ span b ≠ []) xs ∧ concat (map span xs) = bs.

Lemma waits_make D : 2 <= D → waits D (IoQueue.make D) [].
Proof. intros HD. exists []. split; [by apply IoQueue.represents_make|done]. Qed.

Lemma waits_holds D q bs : waits D q bs → holds D q bs.
Proof. intros (xs & R & F & E). exists xs. split_and!; try done. eapply Forall_impl; [|exact F]. by intros ? []. Qed.

(** Data that arrives while the channel is not connected. *)
Lemma handle_stream_pending D s buf bs :
  channel_ (up_ s) ≠ connected → wf buf → waits D (pending_data_ s) bs →
  length bs + length (span buf) <= kMaxHeaderSize →
  ∃ q, handle_stream s buf
       = Some (if 0 <? size buf then set_pending_data s q else set_reading s read_pipe) ∧
    (0 < size buf → waits D q (bs ++ span buf)).
Proof.
  intros Hc W Hq Hl. unfold handle_stream. rewrite length_span in Hl by done.
  destruct (Nat.ltb_spec 0 (size buf)); [|exists (pending_data_ s); split; [done|lia]].
  pose proof Hq as (xs & R & Wx & Ex). unfold OnStreamRead. rewrite bool_decide_eq_false_2 by done. cbn [negb].
  rewrite (IoQueue.byte_length_represents D size _ _ R). cbn [mbind option_bind].
  assert (IoQueue.total size xs = length bs) as ->.
  { rewrite <- Ex. clear - Wx. unfold IoQueue.total. induction Wx as [|b xs [Wb _] _ IH]; [done|].
    cbn [map concat sum_list_with]. rewrite length_app, length_span by done. simpl. lia. }
  destruct (Nat.ltb_spec kMaxHeaderSize (length bs + size buf)); [lia|].
  eexists. split; [done|]. intros _. exists (xs ++ [buf]). split; [by apply IoQueue.push_back_represents|].
  split; [|rewrite map_app, concat_app, Ex; cbn [map concat]; by rewrite app_nil_r].
  apply Forall_app. split; [done|]. constructor; [|done]. split; [done|].
  intros E0. apply empty_span in E0; [|done]. unfold empty in E0. apply Nat.eqb_eq in E0. lia.
Qed.

(** ** The SOCKS5 handshake with the application *)

Lemma cli_run_cons junkm s e es s1 : step junkm s e = Some s1 → run junkm s (e :: es) = run junkm s1 es.
Proof. intros E. simpl. by rewrite E. Qed.

Definition method_selected (D : nat) : client := WriteMethodSelect (set_reading (init D) no_read).

(** The first message; what follows it in the same read is not used. *)
Lemma step_method_select D junkm methods rest :
  length junkm = 255 → length methods <= 255 → Socks5.no_auth_required ∈ methods →
  (Z.of_nat (length (Server.greeting methods ++ rest)) <= SOCKET_BUF_SIZE)%Z →
  step junkm (init D) (Readable (Read (Server.greeting methods ++ rest))) = Some (method_selected D).
Proof.
  intros Hj Hl Hin Hlen. unfold step. cbn [init closed_ reading_]. cbv zeta. unfold on_read.
  destruct (read_buf_spec SOCKET_BUF_SIZE _ Hlen) as (b & -> & W & Sp & _). cbn [mbind option_bind].
  unfold detect, OnReadSocks5MethodSelect.
  destruct (Server.ms_parse_buf junkm b methods rest Hj W Sp Hl) as (i & st & r & b' & -> & Hr & E & W' & S').
  cbn [mbind option_bind]. rewrite E. cbn [mbind option_bind].
  rewrite Hr, bool_decide_eq_true_2 by done. done.
Qed.

(** The connection once its command is on its way: the upstream connection is being
    made, and the bytes behind the request wait for it. *)
Definition commanded (D : nat) (s : client) (d : dest) (p : Z) (payload out : list byte) : Prop :=
  closed_ s = false ∧ state_ s = state_stream ∧ request_ s = header_of (cmd_dest d) p ∧
  up_ s = set_channel (up_ (init D)) connecting ∧ waits D (pending_data_ s) payload ∧
  holds D (downstream_ s) [] ∧ sent_ s = out ∧ writing_ s = None ∧ resolving_ s = None.

(** Reading the request, from the state the method reply leaves. *)
Lemma step_socks5_request D junkm d p rsv payload :
  2 <= D → dest_wf d → port_wf p → dest_ok d → p ≠ 0%Z → resolves d = false →
  let q := Server.socks5_request Socks5.cmd_connect rsv d p in
  (Z.of_nat (length (q ++ payload)) <= SOCKET_BUF_SIZE)%Z →
  ∃ s', run junkm (method_selected D)
      [WriteDone true; Readable (Read (q ++ payload)); WriteDone true] = Some s' ∧
    commanded D s' d p payload ([Socks5.version; Socks5.no_auth_required] ++ Server.socks5_reply d p).
Proof.
  intros HD Hd Hp Hok Hp0 Hr q Hlen.
  set (s1 := ReadSocks5Handshake (add_sent (set_writing (method_selected D) None)
    [Socks5.version; Socks5.no_auth_required])).
  rewrite (cli_run_cons _ _ _ _ s1) by done.
  assert (∃ s2, step junkm s1 (Readable (Read (q ++ payload))) = Some s2 ∧ closed_ s2 = false ∧
    writing_ s2 = Some (Server.socks5_reply d p, true) ∧
    commanded D (set_writing s2 None) d p payload [Socks5.version; Socks5.no_auth_required])
    as (s2 & E2 & C2 & W2 & K2).
  { unfold step. change (closed_ s1) with false. change (reading_ s1) with read_socks5_handshake. cbv zeta.
    unfold on_read. destruct (read_buf_spec SOCKET_BUF_SIZE _ Hlen) as (b & -> & W & Sp & _ & Zb & _).
    cbn [mbind option_bind]. unfold OnReadSocks5Handshake.
    destruct (data_msg b _ _ W Sp) as (tl & Ed & Hl & _).
    destruct (Socks5.rq_parse_mem Socks5.cmd_connect rsv d p (data b) (size b))
      as (r & Er & Hc & Hdest & Hport & Hlr); [done|done| | |].
    { rewrite Ed. apply (rd_slice_app' [] q tl); [done|]. unfold q, Server.socks5_request. cbn [length].
      by rewrite length_wire. }
    { unfold q, Server.socks5_request in Hl. cbn [length] in Hl. rewrite length_wire in Hl. lia. }
    change (s5_request_ (set_reading s1 no_read)) with Socks5.request_init. rewrite Er.
    cbn [mbind option_bind]. rewrite Hlr.
    destruct (advance_past b q payload (3 + wire_size d)) as (b' & -> & W' & S');
      [done|done|unfold q, Server.socks5_request; cbn [length]; by rewrite length_wire|].
    cbn [mbind option_bind]. unfold ProcessReceivedData. cbn [state_ set_state s5_request_ set_s5].
    rewrite (PerformCmdOpsV5_connect _ r _ d p) by done. cbn [mbind option_bind]. cbv zeta.
    set (s3 := WriteHandshakeSocks5 _ _).
    destruct (handle_stream_pending D s3 b' []) as (pq & -> & Hq); [done|done|by apply waits_make| |].
    { rewrite S'. unfold kMaxHeaderSize. unfold SOCKET_BUF_SIZE in Hlen. rewrite length_app in Hlen.
      cbn [length]. lia. }
    assert (writing_ s3 = Some (Server.socks5_reply d p, true)) as W3.
    { unfold s3, WriteHandshakeSocks5. cbn [writing_ set_writing]. f_equal. f_equal. apply Socks5.reply_bytes. }
    pose proof (length_span b' W') as Hlb. rewrite S' in Hlb.
    destruct (Nat.ltb_spec 0 (size b')) as [Hlt|Hle].
    - eexists. split; [done|]. split; [done|]. split; [exact W3|].
      unfold commanded. split_and!; try done; [|by apply holds_make].
      cbn. rewrite <- S'. by apply Hq.
    - eexists. split; [done|]. split; [done|]. split; [exact W3|].
      unfold commanded. split_and!; try done; [|by apply holds_make].
      destruct payload; [by apply waits_make|simpl in Hlb; lia]. }
  rewrite (cli_run_cons _ _ _ _ _ E2). cbn [run]. unfold step. rewrite C2. unfold on_write. rewrite W2.
  destruct K2 as (K0 & K1 & K2 & K3 & K4 & K5 & K6 & K7 & K8).
  eexists. split; [done|]. unfold ProcessSentData, commanded. cbn [state_ add_sent set_writing] in *.
  rewrite K1. unfold commanded. cbn. cbn in K6. by rewrite K6.
Qed.

(** The whole exchange with the application. *)
Lemma socks5_app_run D junkm methods rsv d p payload :
  2 <= D → length junkm = 255 → length methods <= 255 → Socks5.no_auth_required ∈ methods →
  dest_wf d → port_wf p → dest_ok d → p ≠ 0%Z → resolves d = false →
  let q := Server.socks5_request Socks5.cmd_connect rsv d p in
  (Z.of_nat (length (q ++ payload)) <= SOCKET_BUF_SIZE)%Z →
  ∃ s', run junkm (init D)
      [Readable (Read (Server.greeting methods)); WriteDone true; Readable (Read (q ++ payload)); WriteDone true]
    = Some s' ∧
    commanded D s' d p payload ([Socks5.version; Socks5.no_auth_required] ++ Server.socks5_reply d p).
Proof.
  intros HD Hj Hl Hin Hd Hp Hok Hp0 Hr q Hlen.
  assert (step junkm (init D) (Readable (Read (Server.greeting methods))) = Some (method_selected D)) as E.
  { rewrite <- (app_nil_r (Server.greeting methods)). apply step_method_select; try done.
    unfold Server.greeting, SOCKET_BUF_SIZE. rewrite app_nil_r. cbn [length]. lia. }
  rewrite (cli_run_cons _ _ _ _ _ E). by apply step_socks5_request.
Qed.

(** ** HTTP requests of the application *)

Definition pending_bytes (h : http_state) : list byte :=
  match http_keep_alive_pending_buf_ h with Some b => span b | None => [] end.

(** Of them [GetNextUpstreamBuf] takes up those of a connection that is kept. *)
Definition resumed_bytes (h : http_state) : list byte := if http_is_keep_alive_ h then pending_bytes h else [].

(** The header that is forwarded. *)
Definition forwarded (rq : http_request) : list byte :=
  if is_connect rq then [] else ReforgeHttpRequest rq [].

(** The bytes of this request among [whole]: all of them, or up to its content when
    the connection is kept for the next request. *)
Definition request_bytes (rq : http_request) (whole : list byte) : list byte :=
  if negb (is_connect rq) && equal_ci (connection rq) (str "Keep-Alive")
  then take (length (forwarded rq) + Z.to_nat (content_length rq)) whole else whole.

Lemma to_int64_small z : (- 2 ^ 63 <= z < 2 ^ 63)%Z → to_int64 z = z.
Proof.
  intros Hz. unfold to_int64. destruct (Z.ltb_spec z 0).
  - assert ((z mod 2 ^ 64 = z + 2 ^ 64)%Z) as -> by (symmetry; apply (Z.mod_unique_pos _ _ (-1)); lia).
    destruct (Z.ltb_spec (z + 2 ^ 64) (2 ^ 63)); lia.
  - rewrite Z.mod_small by lia. destruct (Z.ltb_spec z (2 ^ 63)); lia.
Qed.

Lemma OnReadHttpRequest_spec s buf :
  wf buf → offset buf = 0 → (Z.of_nat (size buf) <= SOCKET_BUF_SIZE)%Z → http_keep_alive_pending_buf_ (http_ s) = None →
  let rq := http_parse (span buf) in
  let whole := forwarded rq ++ drop (nparsed rq) (span buf) in
  ok rq = true → nparsed rq <= size buf → length (forwarded rq) <= nparsed rq →
  (0 <= content_length rq < 2 ^ 62)%Z →
  ∃ h buf', OnReadHttpRequest s buf = Some (set_state (set_http s h) state_http_handshake, buf', success) ∧
    wf buf' ∧ span buf' = request_bytes rq whole ∧ span buf' ++ pending_bytes h = whole ∧
    (if transfer_encoding_is_chunked rq then http_is_keep_alive_ h = false else resumed_bytes h = pending_bytes h) ∧
    http_host_ h = host rq ∧ http_port_ h = port rq ∧ http_is_connect_ h = is_connect rq.
Proof.
  intros W O Hsz Hnone rq whole Hok Hn Hfit Hcl. unfold OnReadHttpRequest. fold rq. rewrite Hok, O.
  destruct (set_offset_advance buf (nparsed rq)) as (b1 & E1 & W1 & S1 & C1 & O1 & _); [done|lia|].
  rewrite O in E1. rewrite E1. cbn [mbind option_bind]. unfold request_bytes, whole, forwarded in *.
  destruct (is_connect rq) eqn:Ec; cbn [negb andb].
  { do 2 eexists. split; [done|]. rewrite S1. unfold pending_bytes. rewrite app_nil_r. by destruct (transfer_encoding_is_chunked rq). }
  set (header := ReforgeHttpRequest rq []) in *.
  destruct (reforge_buffer_fits b1 0 (nparsed rq) header) as (b2 & -> & W2 & S2 & O2); [done|by rewrite O1, O|done|].
  cbn [mbind option_bind]. rewrite S1 in S2.
  pose proof (length_span b2 W2) as L2. rewrite S2, length_app, length_drop, length_span in L2 by done.
  assert (Z.of_nat (size b2) <= SOCKET_BUF_SIZE)%Z as Hs2 by lia. unfold SOCKET_BUF_SIZE in Hs2, Hsz.
  rewrite Z.mod_small by lia. rewrite to_int64_small by lia.
  destruct (equal_ci (connection rq) (str "Keep-Alive")); cbn [andb].
  - destruct (Z.ltb_spec (content_length rq + Z.of_nat (length header) - Z.of_nat (size b2)) 0) as [Hlt|Hge].
    + unfold split_keep_alive.
      destruct (Z.ltb_spec (Z.of_nat (size b2)) (content_length rq + Z.of_nat (length header))); [lia|].
      destruct (copyBuffer_spec (drop (Z.to_nat (content_length rq + Z.of_nat (length header))) (span b2)))
        as (b3 & -> & W3 & S3 & _). cbn [mbind option_bind].
      set (k := Z.to_nat (content_length rq + Z.of_nat (length header))) in *.
      replace (content_length rq + Z.of_nat (length header))%Z with (Z.of_nat k) by lia.
      destruct (SetCapacity_shrink b2 k W2) as (b4 & -> & W4 & C4 & O4 & R4 & S4); [unfold size in *; lia|].
      cbn [mbind option_bind]. rewrite O2, Nat.sub_0_r, S2 in S4.
      do 2 eexists. split; [done|]. split; [done|]. cbn [pending_bytes http_keep_alive_pending_buf_].
      rewrite S3, S4, S2. split; [f_equal; lia|]. split; [apply take_drop|].
      split; [|done]. unfold resumed_bytes, pending_bytes. cbn. rewrite S3, S2. by destruct (transfer_encoding_is_chunked rq).
    + cbn [mbind option_bind]. do 2 eexists. split; [done|]. split; [done|].
      unfold pending_bytes. cbn [http_keep_alive_pending_buf_]. rewrite Hnone, app_nil_r, S2.
      split; [|split; [done|split; [|done]]].
      * rewrite take_ge; [done|]. rewrite length_app, length_drop, length_span by done. lia.
      * unfold resumed_bytes, pending_bytes. cbn. rewrite ?Hnone. by destruct (transfer_encoding_is_chunked rq).
  - cbn [mbind option_bind]. do 2 eexists. split; [done|]. split; [done|].
    unfold resumed_bytes, pending_bytes. cbn [http_keep_alive_pending_buf_ http_is_keep_alive_]. rewrite Hnone, app_nil_r, S2.
    by destruct (transfer_encoding_is_chunked rq).
Qed.

(** Neither SOCKS parser takes a message that starts with another byte. *)
Lemma ms_parse_other junkm buf c bs :
  length junkm = 255 → wf buf → span buf = c :: bs → c ≠ Socks5.version →
  ∃ res i st r, Socks5.MethodSelectParser.ms_parse Socks5.MethodSelectParser.ms_reset
      (Socks5.mkMethodSelect x00 x00 junkm) (data buf) 0 (size buf) = Some (res, i, st, r) ∧
    res ≠ Socks5.good.
Proof.
  intros Hj W Sp H5. pose proof (length_span buf W) as Hl. destruct (data_span buf W) as [slack Hdata].
  pose proof (Socks5.ms_parse_input (Socks5.mkMethodSelect x00 x00 junkm) (data buf) 0 (size buf)) as E.
  rewrite Nat.add_0_l in E. rewrite E; [|done|rewrite Hdata; len].
  assert (Socks5.input (data buf) 0 (size buf) = c :: bs) as ->
    by (rewrite <- Sp; unfold Socks5.input, span, data; by rewrite drop_0).
  destruct bs; [|cbv zeta; rewrite decide_False by done]; by do 4 eexists.
Qed.

Lemma s4_parse_other r0 buf c bs :
  wf buf → span buf = c :: bs → c ≠ Socks4.version →
  ∃ res i st r, Socks4.parse Socks4.reset r0 (data buf) 0 (size buf) = Some (res, i, st, r) ∧
    res ≠ Socks4.good.
Proof.
  intros W Sp H4. pose proof (length_span buf W) as Hl. destruct (data_span buf W) as [slack Hdata].
  unfold Socks4.parse, Socks4.reset.
  destruct (Nat.ltb_spec (size buf) (0 + Socks4.header_length)) as [Hs|Hs]; [by do 4 eexists|].
  destruct (rd_slice_total (data buf) 0 Socks4.header_length) as (q & Hq & Hlq);
    [rewrite Hdata, length_app; unfold Socks4.header_length in *; lia|]. rewrite Hq. cbn [mbind option_bind].
  apply rd_slice_Some in Hq as (-> & _ & _). rewrite drop_0, Hdata, Sp. cbn [app take Socks4.header_length nth].
  cbn [Socks4.req_ Socks4.h_version]. rewrite bool_decide_eq_false_2 by done. by do 4 eexists.
Qed.

Lemma detect_http junkm s buf c bs :
  length junkm = 255 → wf buf → span buf = c :: bs → c ≠ Socks5.version → c ≠ Socks4.version →
  ∃ r4, detect junkm s buf = OnReadHttpRequest (set_s4 s r4) buf.
Proof.
  intros Hj W Sp H5 H4. unfold detect, OnReadSocks5MethodSelect, OnReadSocks4Handshake.
  destruct (ms_parse_other junkm buf c bs Hj W Sp H5) as (res & i & st & r & -> & Hres).
  destruct (s4_parse_other (s4_request_ s) buf c bs W Sp H4) as (res4 & i4 & st4 & r4 & E4 & Hres4).
  exists r4. destruct res; [done|..]; cbn [mbind option_bind]; rewrite E4; cbn [mbind option_bind];
    by destruct res4.
Qed.

Lemma WriteHandshakeHttp_spec D s :
  holds D (downstream_ s) [] →
  ∃ q, WriteHandshakeHttp s = Some (set_downstream (set_state s state_stream) q) ∧
    holds D q (if http_is_connect_ (http_ s) then http_connect_reply_ else []).
Proof.
  intros Hd. unfold WriteHandshakeHttp. cbv zeta. change (http_ (set_state s state_stream)) with (http_ s).
  destruct (http_is_connect_ (http_ s)).
  - destruct (copyBuffer_spec http_connect_reply_) as (cb & -> & Wc & Sc & _). cbn [mbind option_bind].
    eexists. split; [done|]. rewrite <- Sc. by apply (holds_push D _ []).
  - exists (downstream_ s). split; [by destruct s|done].
Qed.

(** ** Properties of the local side *)

(** C32: the SOCKS5 server of the client.  An application that offers no
    authentication, waits for the method to be selected, and then asks, in one message with its
    first data and of at most [SOCKET_BUF_SIZE] bytes, to connect to a port that is not zero and a
    destination that is not empty and not a name which the client has to resolve (names are
    resolved for an upstream server of SOCKS4 or SOCKS5), is sent the selected method and the
    reply that grants the request; the upstream
    connection is started with a request for that destination, an address when the
    name is the text of one, and the bytes behind the request wait for it.  An application
    that does not wait for the method loses its request ([client_socks5_pipelined_lost]). *)
Theorem client_socks5_handshake D junkm methods rsv d p payload :
  2 <= D → length junkm = 255 → length methods <= 255 → Socks5.no_auth_required ∈ methods →
  dest_wf d → port_wf p → dest_ok d → p ≠ 0%Z → resolves d = false →
  let q := Server.socks5_request Socks5.cmd_connect rsv d p in
  (Z.of_nat (length (q ++ payload)) <= SOCKET_BUF_SIZE)%Z →
  ∃ s', run junkm (init D)
      [Readable (Read (Server.greeting methods)); WriteDone true; Readable (Read (q ++ payload)); WriteDone true]
    = Some s' ∧
    commanded D s' d p payload ([Socks5.version; Socks5.no_auth_required] ++ Server.socks5_reply d p).
Proof.
  apply socks5_app_run.
Qed.

(** An application that sends its request together with the method selection
    loses it.  The bytes behind the method selection leave no trace in the state,
    and the client then waits for a request that has already been sent. *)
Theorem client_socks5_pipelined_lost D junkm methods rest :
  length junkm = 255 → length methods <= 255 → Socks5.no_auth_required ∈ methods →
  (Z.of_nat (length (Server.greeting methods ++ rest)) <= SOCKET_BUF_SIZE)%Z →
  ∃ s', run junkm (init D) [Readable (Read (Server.greeting methods ++ rest)); WriteDone true] = Some s' ∧
    run junkm (init D) [Readable (Read (Server.greeting methods)); WriteDone true] = Some s' ∧
    reading_ s' = read_socks5_handshake ∧ pending_data_ s' = pending_data_ (init D) ∧
    s5_request_ s' = Socks5.request_init.
Proof.
  intros Hj Hl Hin Hlen. pose proof (step_method_select D junkm methods rest Hj Hl Hin Hlen) as E1.
  assert (step junkm (init D) (Readable (Read (Server.greeting methods))) = Some (method_selected D)) as E2.
  { rewrite <- (app_nil_r (Server.greeting methods)). apply step_method_select; try done.
    rewrite app_nil_r. rewrite length_app in Hlen. lia. }
  rewrite (cli_run_cons _ _ _ _ _ E1), (cli_run_cons _ _ _ _ _ E2). by eexists.
Qed.

(** C33: the HTTP proxy of the client.  A request of at most [SOCKET_BUF_SIZE] bytes that neither
    SOCKS parser claims, whose rewritten header is not longer than the request was and whose host
    is not to be resolved first, starts the
    upstream connection to its host and port.  What waits for the connection is the
    rewritten header and the bytes behind the request, but for a request that keeps
    its connection only up to the end of its content: the bytes behind that are
    put aside for when the pipe resumes, and none is lost unless the request's encoding is chunked.
    A chunked request does not keep its connection, and the bytes that were put aside
    for it are never taken up.  CONNECT is answered. *)
Theorem client_http_request D junkm c bs :
  2 <= D → length junkm = 255 → c ≠ Socks5.version → c ≠ Socks4.version →
  (Z.of_nat (length (c :: bs)) <= SOCKET_BUF_SIZE)%Z →
  let rq := http_parse (c :: bs) in
  let whole := forwarded rq ++ drop (nparsed rq) (c :: bs) in
  ok rq = true → nparsed rq <= length (c :: bs) → length (forwarded rq) <= nparsed rq →
  (0 <= content_length rq < 2 ^ 62)%Z → host rq ≠ [] → length (host rq) <= TLSEXT_MAXLEN_host_name →
  port rq ≠ 0%Z → port_wf (port rq) → resolves (to_domain (host rq)) = false →
  ∃ s', step junkm (init D) (Readable (Read (c :: bs))) = Some s' ∧
    closed_ s' = false ∧ state_ s' = state_stream ∧
    request_ s' = header_of (cmd_dest (to_domain (host rq))) (port rq) ∧
    channel_ (up_ s') = connecting ∧
    holds D (pending_data_ s') (request_bytes rq whole) ∧
    request_bytes rq whole ++ pending_bytes (http_ s') = whole ∧
    (if transfer_encoding_is_chunked rq then resumed_bytes (http_ s') = []
     else request_bytes rq whole ++ resumed_bytes (http_ s') = whole) ∧
    holds D (downstream_ s') (if is_connect rq then http_connect_reply_ else []).
Proof.
  intros HD Hj H5 H4 Hlen rq whole Hok Hn Hfit Hcl Hh Hhl Hp0 Hp Hr.
  unfold step. cbn [init closed_ reading_]. cbv zeta. unfold on_read.
  destruct (read_buf_spec SOCKET_BUF_SIZE (c :: bs) Hlen) as (b & -> & W & Sp & O & Zb & _).
  cbn [mbind option_bind].
  destruct (detect_http junkm (set_reading (init D) no_read) b c bs) as (r4 & ->); try done.
  set (s0 := set_s4 (set_reading (init D) no_read) r4).
  destruct (OnReadHttpRequest_spec s0 b W O) as (h & b1 & -> & W1 & S1 & S2 & Er & Eh & Ep & Ec);
    [by rewrite Zb|done|by rewrite Sp|by rewrite Sp, Zb|by rewrite Sp|by rewrite Sp|].
  rewrite Sp in S1, S2, Er, Eh, Ep, Ec. fold rq in S1, S2, Er, Eh, Ep, Ec. fold whole in S1, S2. rewrite S1 in S2.
  assert (if transfer_encoding_is_chunked rq then resumed_bytes h = [] else request_bytes rq whole ++ resumed_bytes h = whole) as Hres
    by (destruct (transfer_encoding_is_chunked rq); [unfold resumed_bytes; by rewrite Er|by rewrite Er]).
  cbn [mbind option_bind]. unfold ProcessReceivedData. cbn [state_ set_state]. unfold PerformCmdOpsHttp.
  cbn [http_ set_state set_http]. rewrite Eh, Ep. unfold TLSEXT_MAXLEN_host_name in *.
  destruct (Nat.ltb_spec 255 (length (host rq))); [lia|].
  rewrite bool_decide_eq_false_2 by done. cbn [orb]. destruct (Z.eqb_spec (port rq) 0) as [e|_]; [by destruct (Hp0 e)|].
  pose proof (command_connects (set_state (set_http s0 h) state_http_handshake) (to_domain (host rq)) (port rq)) as E.
  cbn [command] in E. rewrite E by done. cbn [mbind option_bind].
  set (s1 := OnConnect _).
  destruct (WriteHandshakeHttp_spec D s1) as (dq & -> & Hdq); [by apply holds_make|]. cbn [mbind option_bind].
  change (http_is_connect_ (http_ s1)) with (http_is_connect_ h) in Hdq. rewrite Ec in Hdq.
  set (s2 := set_downstream (set_state s1 state_stream) dq).
  destruct (handle_stream_pending D s2 b1 []) as (pq & -> & Hq); [done|done|by apply waits_make| |].
  { pose proof (length_span b1 W1) as L1. rewrite S1.
    assert (length (request_bytes rq whole) <= length whole) as Hle
      by (apply (f_equal length) in S2; rewrite length_app in S2; lia).
    unfold whole in Hle at 2. rewrite length_app, length_drop in Hle.
    unfold kMaxHeaderSize, SOCKET_BUF_SIZE in *. cbn [length] in *. lia. }
  pose proof (length_span b1 W1) as L1. rewrite S1 in L1, Hq.
  eexists. split; [done|].
  destruct (Nat.ltb_spec 0 (size b1)) as [Hlt|Hge]; (split_and!; [done|done|done|done| |exact S2|exact Hres|exact Hdq]).
  - by apply waits_holds, Hq.
  - destruct (request_bytes rq whole); [by apply holds_make|simpl in L1; lia].
Qed.

End Cli.

(** ** Witnesses *)

Lemma client_socks5_handshake_witness :
  let HA := (λ _, x00) : Allocator in
  let HL := example_http plain_request in
  let HC := example_lib in
  let HS := (λ _, replicate 20 x09) : Sha1 in
  let HK := example_keylib in
  let HN := example_rand in
  ∃ s', run CRYPTO_AES128GCMSHA256_EVP (λ _, None) [] [] x00 x00 [] (replicate 255 x00) (init 4)
      [Readable (Read (Server.greeting [x00])); WriteDone true;
       Readable (Read (Server.socks5_request x01 x00 (to_domain [x61]) 80 ++ [x47])); WriteDone true] = Some s' ∧
    commanded (λ _, None) 4 s' (to_domain [x61]) 80 [x47] ([x05; x00] ++ Server.socks5_reply (to_domain [x61]) 80).
Proof.
  intros HA HL HC HS HK HN.
  apply (client_socks5_handshake CRYPTO_AES128GCMSHA256_EVP (λ _, None) [] [] x00 x00 [] ltac:(done) 4
    (replicate 255 x00) [x00] x00 (to_domain [x61]) 80 [x47]);
    [lia|reflexivity|simpl; lia|left|simpl; lia|done|done|done|reflexivity|vm_compute; congruence].
Defined.

Lemma client_socks5_pipelined_lost_witness :
  let HA := (λ _, x00) : Allocator in
  let HL := example_http plain_request in
  let HC := example_lib in
  let HS := (λ _, replicate 20 x09) : Sha1 in
  let HK := example_keylib in
  let HN := example_rand in
  ∃ s', run CRYPTO_AES128GCMSHA256_EVP (λ _, None) [] [] x00 x00 [] (replicate 255 x00) (init 4)
      [Readable (Read (Server.greeting [x00] ++ Server.socks5_request x01 x00 (to_domain [x61]) 80)); WriteDone true]
      = Some s' ∧
    run CRYPTO_AES128GCMSHA256_EVP (λ _, None) [] [] x00 x00 [] (replicate 255 x00) (init 4)
      [Readable (Read (Server.greeting [x00])); WriteDone true] = Some s' ∧
    reading_ s' = read_socks5_handshake ∧ pending_data_ s' = pending_data_ (init 4) ∧
    s5_request_ s' = Socks5.request_init.
Proof.
  intros HA HL HC HS HK HN.
  apply (client_socks5_pipelined_lost CRYPTO_AES128GCMSHA256_EVP (λ _, None) [] [] x00 x00 [] 4
    (replicate 255 x00) [x00] (Server.socks5_request x01 x00 (to_domain [x61]) 80));
    [reflexivity|simpl; lia|left|vm_compute; congruence].
Defined.

(** A request that keeps its connection, with the start of the next one behind it. *)
Definition keep_alive_request : http_request :=
  mkHttp (length plain_text) true (str "a") 80 false 0 (str "keep-alive") [] false (str "GET") (str "/")
    (str "HTTP/1.1") [(str "Host", str "a")].

Lemma client_http_request_witness :
  let HA := (λ _, x00) : Allocator in
  let HL := example_http keep_alive_request in
  let HC := example_lib in
  let HS := (λ _, replicate 20 x09) : Sha1 in
  let HK := example_keylib in
  let HN := example_rand in
  ∃ s', step CRYPTO_AES128GCMSHA256_EVP (λ _, None) [] [] x00 x00 [] (replicate 255 x00) (init 4)
      (Readable (Read (plain_text ++ [x47]))) = Some s' ∧
    closed_ s' = false ∧ state_ s' = state_stream ∧
    request_ s' = header_of (to_domain (str "a")) 80 ∧
    channel_ (up_ s') = connecting ∧ holds 4 (pending_data_ s') plain_text ∧
    plain_text ++ pending_bytes (http_ s') = plain_text ++ [x47] ∧
    plain_text ++ resumed_bytes (http_ s') = plain_text ++ [x47] ∧ holds 4 (downstream_ s') [].
Proof.
  intros HA HL HC HS HK HN.
  apply (client_http_request CRYPTO_AES128GCMSHA256_EVP (λ _, None) [] [] x00 x00 [] ltac:(done) 4
    (replicate 255 x00) x47 (drop 1 plain_text ++ [x47]));
    try done; try (vm_compute; congruence); try (vm_compute; lia).
Defined.

End Cli.
