(* ===== verification/CliUpstream.v ===== *)
(** * The client's upstream side

    [connected], the SOCKS handshakes with the upstream server
    ([WriteUpstream...Request], [ReadUpstream...Response]), the pipe that moves the
    application's data to the channel ([WriteUpstreamInPipe],
    [GetNextUpstreamBuf]), and the data that comes back, of
    src/src/cli/cli_connection.cpp.

    What the sockets answer is an argument, [env]: the reads on the downlink and
    the writes on the channel, in order.  A list that is used up would block.  The
    methods HTTP/2 go through an adapter and are not modelled here, nor is a
    connection that the application keeps for several HTTP requests. *)

From Stdlib Require Import ZArith Lia.
From stdpp Require Import base list numbers option.
From S2P Require Import Prelude IoBuffer IoQueue Addr Ss Socks4 Socks5 Hkdf Crypter Cipher Conn Http Server Cli.

Module CliUpstream.
Import IoBuffer Addr Crypter Cipher Conn Http Cli.

Record env := mkEnv { reads : list read_result; writes : list write_result }.

(** The client is the visitor of its decoder. *)
#[export] Instance client_visitor : Visitor client := {|
  on_received_data s buf :=
    if empty buf then (s, false) else (set_downstream s (IoQueue.push_back (downstream_ s) buf), true);
  on_protocol_error := disconnected |}.

Create HintDb quiet discriminated.

Section CliUpstream.
Context `{Allocator} `{HttpLib} `{CryptoLib} `{Sha1} `{KeyLib} `{RND : RandLib}.

Variable method : cipher_method.
(** The user name and password of the upstream server, asio's [to_string] and
    [make_address], and the contents of the array [T]. *)
Variables username password : list byte.
Variable to_string : address → list byte.
Variable make_address : list byte → option address.
Variable T0 : list byte.

Definition auth_required : bool :=
  negb (bool_decide (username = [])) && negb (bool_decide (password = [])).

(** ** The pipe *)

(** [ReadStream]. *)
Definition ReadStream (s : client) : client := if closed_ s then s else set_reading s read_pipe.

(** [GetNextUpstreamBuf]: the state, whether the loop is to read the application
    later, and the buffer to write if there is one.  A read error closes the
    connection. *)
Definition GetNextUpstreamBuf (s : client) (e : env) : option (client * env * bool * option GrowableIOBuffer) :=
  let u := up_ s in
  if negb (IoQueue.empty (upstream_ u)) then
    slot ← IoQueue.front (upstream_ u);
    buf ← slot;
    if (socks5_method_select_handshake_ u || socks5_auth_handshake_ u) && empty buf
    then Some (s, e, true, None) else Some (s, e, false, Some buf)
  else if closed_ s then Some (s, e, false, None) else
  match reads e with
  | Read bs :: rs =>
      let e := mkEnv rs (writes e) in
      buf ← read_buf SOCKET_BUF_SIZE bs;
      if empty buf then Some (s, e, true, None) else
      if negb (bool_decide (channel_ u = connected)) then
        s ← OnStreamRead method T0 s buf; Some (s, e, true, None)
      else
        s ← push_upstream method T0 s buf;
        slot ← IoQueue.front (upstream_ (up_ s));
        buf ← slot;
        Some (s, e, false, Some buf)
  | ReadError :: rs => Some (process_error s, mkEnv rs (writes e), false, None)
  | TryAgain :: rs => Some (s, mkEnv rs (writes e), true, None)
  | [] => Some (s, e, true, None)
  end.

(** A part of the front buffer has been written; the buffer leaves the queue. *)
Definition write_front (s : client) (buf : GrowableIOBuffer) (sent : list byte) : client :=
  set_up s (add_written (set_queue (up_ s) (IoQueue.set_front (upstream_ (up_ s)) buf)) sent).
Definition pop_upstream (s : client) : client :=
  set_up s (set_queue (up_ s) (IoQueue.pop_front (upstream_ (up_ s)))).

(** The rest of a round once there is a buffer to write. *)
Definition write_round (k : client → env → option (client * env)) (s : client) (e : env) (buf : GrowableIOBuffer)
  : option (client * env) :=
  if empty buf then Some (s, e) else
  if negb (bool_decide (channel_ (up_ s) = connected)) then Some (OnUpstreamWriteFlush s, e) else
  match writes e with
  | [] => Some (OnUpstreamWriteFlush s, e)
  | w :: ws =>
      let e := mkEnv (reads e) ws in
      match w with
      | WriteAgain => Some (OnUpstreamWriteFlush s, e)
      | WriteError => Some (OnDisconnect (disconnected s), e)
      | Wrote n yield =>
          let n := n `min` size buf in
          let sent := take n (span buf) in
          buf ← set_offset buf (Z.of_nat (offset buf) + Z.of_nat n);
          let s := write_front s buf sent in
          if empty buf then
            let s := pop_upstream s in
            if (yield : bool)
            then Some (if IoQueue.empty (upstream_ (up_ s)) then ReadStream s else OnUpstreamWriteFlush s, e)
            else k s e
          else Some (OnUpstreamWriteFlush s, e)
      end
  end.

(** The loop; the fuel bounds the writes. *)
Fixpoint pipe_loop (fuel : nat) (s : client) (e : env) : option (client * env) :=
  match fuel with
  | 0 => None
  | S fuel =>
      '(s, e, again, next) ← GetNextUpstreamBuf s e;
      match next with
      | None => Some (if (again : bool) then ReadStream s else s, e)
      | Some buf => write_round (pipe_loop fuel) s e buf
      end
  end.

(** Each round but the last uses up a write. *)
Definition WriteUpstreamInPipe (s : client) (e : env) : option (client * env) :=
  if write_inprogress_ (up_ s) then Some (s, e)
  else pipe_loop (length (writes e) + 1) s e.

(** ** Requests to the upstream server *)

Definition push (s : client) (buf : GrowableIOBuffer) : client :=
  set_up s (set_queue (up_ s) (IoQueue.push_back (upstream_ (up_ s)) buf)).

Definition WriteUpstreamMethodSelectRequest (s : client) : option client :=
  let auth := if auth_required then Socks5.username_or_password else Socks5.no_auth_required in
  buf ← append_all make [[Socks5.version; x01]; [auth]];
  let s := push s buf in
  let s := set_up s (set_flags (up_ s) true auth_required (socks_handshake_ (up_ s))) in
  let s := if auth_required then push s make else s in
  Some (push s make).

(** The front buffer of the queue is filled in place. *)
Definition fill_front (s : client) (pieces : list (list byte)) : option client :=
  slot ← IoQueue.front (upstream_ (up_ s));
  buf ← slot;
  buf ← append_all buf pieces;
  Some (set_up s (set_queue (up_ s) (IoQueue.set_front (upstream_ (up_ s)) buf))).

Definition WriteUpstreamAuthRequest (s : client) (e : env) : option (client * env) :=
  s ← fill_front s [[Socks5.version]; [to_u8 (Z.of_nat (length username))]; username;
                    [to_u8 (Z.of_nat (length password))]; password];
  WriteUpstreamInPipe s e.

(** The port bytes of the request object, in order. *)
Definition port_bytes (r : list byte) : option (list byte) :=
  p ← Ss.port r; Some (be16_bytes p).

Definition WriteUpstreamSocks5Request (s : client) (e : env) : option (client * env) :=
  let r := request_ s in
  pb ← port_bytes r;
  let pieces :=
    if decide (address_type r = domain)
    then [[domain]; [to_u8 (Z.of_nat (length (domain_name r)))]; domain_name r]
    else if decide (address_type r = ipv6) then [[ipv6]; address6 r] else [[ipv4]; address4 r] in
  s ← fill_front s ([[Socks5.version; Socks5.cmd_connect; x00]] ++ pieces ++ [take 1 pb; drop 1 pb]);
  let u := up_ s in
  WriteUpstreamInPipe
    (set_up s (set_flags u (socks5_method_select_handshake_ u) (socks5_auth_handshake_ u) true)) e.

Definition WriteUpstreamSocks4Request (s : client) : option client :=
  let r := request_ s in
  pb ← port_bytes r;
  if decide (address_type r = domain) then None else
  if decide (address_type r = ipv6) then Some (OnDisconnect s) else
  buf ← append_all make [[Socks4.version; Socks4.cmd_connect] ++ pb ++ address4 r; [x00]];
  let u := up_ s in
  Some (push (set_up s (set_flags u (socks5_method_select_handshake_ u) (socks5_auth_handshake_ u) true)) buf).

(** The address 0.0.0.15 marks SOCKS4A: [0x0f << 24] in memory on a little-endian
    machine. *)
Definition WriteUpstreamSocks4ARequest (s : client) : option client :=
  let r := request_ s in
  pb ← port_bytes r;
  let domain_name :=
    if decide (address_type r = domain) then domain_name r
    else if decide (address_type r = ipv6) then to_string (address_v6 (address6 r))
    else to_string (address_v4 (address4 r)) in
  buf ← append_all make [[Socks4.version; Socks4.cmd_connect] ++ pb ++ [x00; x00; x00; x0f]; [x00];
                         domain_name; [x00]];
  let u := up_ s in
  Some (push (set_up s (set_flags u (socks5_method_select_handshake_ u) (socks5_auth_handshake_ u) true)) buf).

(** ** Connection *)

(** The CONNECT request for an HTTPS server. *)
Definition hostname_and_port (r : list byte) : option (list byte) :=
  port ← Ss.port r;
  host ← (if decide (address_type r = domain) then Some (domain_name r)
          else ep ← Ss.endpoint_of r; Some (to_string (ep_address ep)));
  let host := match make_address host with
              | Some (address_v6 _) => str "[" ++ host ++ str "]"
              | _ => host
              end in
  Some (host ++ str ":" ++ decimal port).

Definition connect_header (hp : list byte) : list byte :=
  str "CONNECT " ++ hp ++ str " HTTP/1.1" ++ crlf ++
  str "Host: " ++ hp ++ crlf ++
  (if auth_required
   then str "Proxy-Authorization: " ++ str "basic " ++ GetProxyAuthorizationIdentity username password ++ crlf
   else []) ++
  str "Proxy-Connection: Close" ++ crlf ++ crlf.

(** The request that opens the upstream stream. *)
Definition send_request (s : client) : option client :=
  match method with
  | CRYPTO_HTTPS =>
      hp ← hostname_and_port (request_ s);
      buf ← copyBuffer (connect_header hp);
      Some (push s buf)
  | CRYPTO_SOCKS4 => WriteUpstreamSocks4Request s
  | CRYPTO_SOCKS4A => WriteUpstreamSocks4ARequest s
  | CRYPTO_SOCKS5 | CRYPTO_SOCKS5H => WriteUpstreamMethodSelectRequest s
  | _ =>
      encoder ← make_cipher [] password method true;
      decoder ← make_cipher [] password method false;
      let s := set_up s (set_decoder (set_encoder (up_ s) encoder) decoder) in
      buf ← copyBuffer (Ss.data (request_ s));
      push_upstream method T0 s buf
  end.

(** [while (!queue.empty())], at most [fuel] rounds. *)
Fixpoint resend_loop (fuel : nat) (s : client) (queue : IoQueue.IoQueue GrowableIOBuffer) : option client :=
  if IoQueue.empty queue then Some s else
  match fuel with
  | 0 => None
  | S fuel =>
      slot ← IoQueue.front queue;
      buf ← slot;
      s ← OnStreamRead method T0 s buf;
      resend_loop fuel s (IoQueue.pop_front queue)
  end.

(** ** Replies of the upstream server *)

(** What a handler of a reply leaves: the rest of the buffer, or an end. *)
Inductive reply_result := Rest (buf : GrowableIOBuffer) | Stop.

Definition refused (s : client) (e : env) : option (client * env * reply_result) :=
  Some (disconnected s, e, Stop).

Definition after_reply (s : client) (e : env) (buf : GrowableIOBuffer) : option (client * env * reply_result) :=
  Some (s, e, if empty buf then Stop else Rest buf).

Definition ReadUpstreamMethodSelectResponse (s : client) (e : env) (buf : GrowableIOBuffer)
  : option (client * env * reply_result) :=
  let u := up_ s in
  let s := set_up s (set_flags u false (socks5_auth_handshake_ u) (socks_handshake_ u)) in
  if size buf <? 2 then refused s e else
  ver ← rd (span buf) 0; meth ← rd (span buf) 1;
  let auth := socks5_auth_handshake_ u in
  if negb (bool_decide (ver = Socks5.version)) then refused s e else
  if negb auth && negb (bool_decide (meth = Socks5.no_auth_required)) then refused s e else
  if auth && negb (bool_decide (meth = Socks5.username_or_password)) then refused s e else
  buf ← set_offset buf (Z.of_nat (offset buf) + 2);
  '(s, e) ← (if (auth : bool) then WriteUpstreamAuthRequest s e else WriteUpstreamSocks5Request s e);
  after_reply s e buf.

Definition ReadUpstreamAuthResponse (s : client) (e : env) (buf : GrowableIOBuffer)
  : option (client * env * reply_result) :=
  let u := up_ s in
  let s := set_up s (set_flags u (socks5_method_select_handshake_ u) false (socks_handshake_ u)) in
  if size buf <? 2 then refused s e else
  ver ← rd (span buf) 0; status ← rd (span buf) 1;
  if negb (bool_decide (ver = Socks5.version)) then refused s e else
  if negb (bool_decide (status = x00)) then refused s e else
  buf ← set_offset buf (Z.of_nat (offset buf) + 2);
  '(s, e) ← WriteUpstreamSocks5Request s e;
  after_reply s e buf.

(** The length of the SOCKS5 reply that the buffer starts with, if it is good. *)
Definition socks5_reply_length (bs : list byte) : option nat :=
  if length bs <? 4 then None else
  ver ← rd bs 0; status ← rd bs 1; null ← rd bs 2; atyp ← rd bs 3;
  if bool_decide (ver = Socks5.version) && bool_decide (status = Socks5.request_granted) && bool_decide (null = x00)
  then if decide (atyp = ipv4) then Some (4 + 4 + 2)
       else if decide (atyp = ipv6) then Some (4 + 16 + 2)
       else if decide (atyp = domain) then
         if length bs <? 4 + 1 + 2 then None else
         n ← rd bs 4; Some (4 + 1 + 2 + Z.to_nat (u8 n))
       else None
  else None.

Definition socks4_reply_length (bs : list byte) : option nat :=
  if length bs <? 8 then None else
  null ← rd bs 0; status ← rd bs 1;
  if bool_decide (null = x00) && bool_decide (status = Socks4.request_granted) then Some 8 else None.

Definition ReadUpstreamSocksResponse (s : client) (e : env) (buf : GrowableIOBuffer)
  : option (client * env * reply_result) :=
  let u := up_ s in
  let s := set_up s (set_flags u (socks5_method_select_handshake_ u) (socks5_auth_handshake_ u) false) in
  expected ← match method with
             | CRYPTO_SOCKS4 | CRYPTO_SOCKS4A => Some (socks4_reply_length (span buf))
             | CRYPTO_SOCKS5 | CRYPTO_SOCKS5H => Some (socks5_reply_length (span buf))
             | _ => None
             end;
  match expected with
  | None => refused s e
  | Some n =>
      if size buf <? n then refused s e else
      buf ← set_offset buf (Z.of_nat (offset buf) + Z.of_nat n);
      after_reply s e buf
  end.

(** One handler in the chain of [GetNextDownstreamBuf]. *)
Definition reply_stage (flag : upstream → bool)
    (handler : client → env → GrowableIOBuffer → option (client * env * reply_result))
    (st : client * env * reply_result) : option (client * env * reply_result) :=
  let '(s, e, r) := st in
  match r with
  | Rest buf => if flag (up_ s) then handler s e buf else Some st
  | Stop => Some st
  end.

(** A read on the channel of a SOCKS or shadowsocks connection. *)
Definition on_upstream_read (s : client) (e : env) (bs : list byte) : option (client * env) :=
  buf ← read_buf SOCKET_DEBUF_SIZE bs;
  st ← reply_stage socks5_method_select_handshake_ ReadUpstreamMethodSelectResponse (s, e, Rest buf);
  st ← reply_stage socks5_auth_handshake_ ReadUpstreamAuthResponse st;
  '(s, e, r) ← reply_stage socks_handshake_ ReadUpstreamSocksResponse st;
  match r with
  | Stop => Some (s, e)
  | Rest buf =>
      if is_socks method
      then Some (set_downstream s (IoQueue.push_back (downstream_ s) buf), e)
      else decoder ← decoder_ (up_ s);
           '(decoder, s) ← process_bytes T0 decoder s buf;
           Some (set_up s (set_decoder (up_ s) decoder), e)
  end.

(** [ReadUpstream] with what its read on the channel answers, if nothing waits for the
    application; of what it reads, the data for the application are left in the queue. *)
Definition ReadUpstream (s : client) (e : env) (r : read_result) : option (client * env) :=
  if negb (IoQueue.empty (downstream_ s)) || negb (bool_decide (channel_ (up_ s) = connected)) then Some (s, e) else
  match r with
  | TryAgain => Some (s, e)
  | ReadError => Some (disconnected s, e)
  | Read bs => on_upstream_read s e bs
  end.

(** [early] is what the channel answers when the connection stands. *)
Definition connected_ (D : nat) (s : client) (e : env) (early : read_result) : option (client * env) :=
  let s := set_up s (set_channel (up_ s) connected) in
  s ← send_request s;
  if closed_ s then Some (s, e) else
  '(s, e) ← (if IoQueue.empty (pending_data_ s) then Some (s, e) else
             let '(queue, rest) := IoQueue.move_construct D (pending_data_ s) in
             s ← resend_loop (IoQueue.length queue) (set_pending_data s rest) queue;
             WriteUpstreamInPipe s e);
  let s := set_up s (set_writable (up_ s) true) in
  '(s, e) ← ReadUpstream s e early;
  '(s, e) ← WriteUpstreamInPipe s e;
  Some (OnUpstreamWriteFlush s, e).

(** Nothing to read yet. *)
Lemma connected_idle D s e : connected_ D s e TryAgain =
  let s := set_up s (set_channel (up_ s) connected) in
  s ← send_request s;
  if closed_ s then Some (s, e) else
  '(s, e) ← (if IoQueue.empty (pending_data_ s) then Some (s, e) else
             let '(queue, rest) := IoQueue.move_construct D (pending_data_ s) in
             s ← resend_loop (IoQueue.length queue) (set_pending_data s rest) queue;
             WriteUpstreamInPipe s e);
  let s := set_up s (set_writable (up_ s) true) in
  '(s, e) ← WriteUpstreamInPipe s e;
  Some (OnUpstreamWriteFlush s, e).
Proof.
  unfold connected_. cbv zeta. destruct (send_request _) as [s1|]; [|done]. cbn [mbind option_bind]. destruct (closed_ s1); [done|].
  destruct (if IoQueue.empty (pending_data_ s1) then _ else _) as [[s2 e2]|]; [|done]. cbn [mbind option_bind]. unfold ReadUpstream. by destruct (_ || _).
Qed.

(** ** Events *)

Definition sent (s : client) (e : env) : option (client * env) :=
  let s := set_up s (set_writable (up_ s) true) in
  '(s, e) ← WriteUpstreamInPipe s e;
  Some (OnUpstreamWriteFlush s, e).

(** The channel is writable, has bytes to read, or fails; the application has sent
    data.  Each comes with what the writes on the channel answer while it is handled.
    The reads on the downlink are answered from the list that is passed along. *)
Inductive uevent :=
  | Sent (ws : list write_result) | Received (bs : list byte) (ws : list write_result) | Lost
  | AppReadable (ws : list write_result).

Definition left_over (r : client * env) : client * list read_result := (fst r, reads (snd r)).

Definition ustep (s : client) (rs : list read_result) (ev : uevent) : option (client * list read_result) :=
  if closed_ s then Some (s, rs) else
  match ev with
  | Sent ws =>
      if bool_decide (channel_ (up_ s) = connected) && write_inprogress_ (up_ s)
      then left_over <$> sent (set_up s (set_write_inprogress (up_ s) false)) (mkEnv rs ws)
      else Some (s, rs)
  | Received bs ws =>
      if bool_decide (channel_ (up_ s) = connected)
      then left_over <$> on_upstream_read s (mkEnv rs ws) bs else Some (s, rs)
  | Lost => Some (if bool_decide (channel_ (up_ s) = connected) then disconnected s else s, rs)
  | AppReadable ws =>
      match reading_ s with
      | read_pipe =>
          '(s, e) ← WriteUpstreamInPipe (set_reading s no_read) (mkEnv rs ws);
          Some (OnUpstreamWriteFlush s, reads e)
      | _ => Some (s, rs)
      end
  end.

Fixpoint urun (s : client) (rs : list read_result) (evs : list uevent) : option (client * list read_result) :=
  match evs with
  | [] => Some (s, rs)
  | ev :: evs => '(s, rs) ← ustep s rs ev; urun s rs evs
  end.

(** ** What the pipe leaves alone *)

Definition okq (D : nat) (q : IoQueue.IoQueue GrowableIOBuffer) : Prop := ∃ xs, IoQueue.represents D q xs.

(** Everything but the queue, what was written, and whether the channel is waited
    for; an error of a socket closes the connection and with it the channel. *)
Record keeps (s s' : client) : Prop := {
  kp_channel : channel_ (up_ s') = connected → channel_ (up_ s) = connected;
  kp_ms : socks5_method_select_handshake_ (up_ s') = socks5_method_select_handshake_ (up_ s);
  kp_auth : socks5_auth_handshake_ (up_ s') = socks5_auth_handshake_ (up_ s);
  kp_hs : socks_handshake_ (up_ s') = socks_handshake_ (up_ s);
  kp_request : request_ s' = request_ s;
  kp_pending D : okq D (pending_data_ s) → okq D (pending_data_ s') }.

Lemma keeps_refl s : keeps s s.
Proof. by split. Qed.

Lemma keeps_trans s1 s2 s3 : keeps s1 s2 → keeps s2 s3 → keeps s1 s3.
Proof. intros [] []. split; auto; congruence. Qed.

(** Each of these changes neither the queue nor what was written. *)
Definition quiet (s s' : client) : Prop :=
  keeps s s' ∧ upstream_ (up_ s') = upstream_ (up_ s) ∧ written_ (up_ s') = written_ (up_ s).

Lemma quiet_refl s : quiet s s.
Proof. by split; [apply keeps_refl|]. Qed.

Lemma quiet_trans s1 s2 s3 : quiet s1 s2 → quiet s2 s3 → quiet s1 s3.
Proof. intros (K1 & Q1 & W1) (K2 & Q2 & W2). split; [by eapply keeps_trans|]. split; congruence. Qed.

Lemma quiet_wait s b : quiet s (set_up s (wait_write (set_writable (up_ s) b))).
Proof. unfold wait_write. by destruct (bool_decide _); split; [split| |split|]. Qed.

Lemma quiet_flush s : quiet s (OnUpstreamWriteFlush s).
Proof. unfold OnUpstreamWriteFlush. case_match; [apply quiet_wait|apply quiet_refl]. Qed.

Lemma quiet_writable s b : quiet s (set_up s (set_writable (up_ s) b)).
Proof. by split; [split|]. Qed.

Lemma quiet_inprogress s b : quiet s (set_up s (set_write_inprogress (up_ s) b)).
Proof. by split; [split|]. Qed.

Lemma quiet_reading s r : quiet s (set_reading s r).
Proof. by split; [split|]. Qed.

Lemma quiet_read s : quiet s (ReadStream s).
Proof. unfold ReadStream. destruct (closed_ s); [apply quiet_refl|apply quiet_reading]. Qed.

Lemma quiet_pending s b : quiet s (set_pending_data s (IoQueue.push_back (pending_data_ s) b)).
Proof.
  split; [split; try done|done]. intros D (xs & R). exists (xs ++ [b]). by apply IoQueue.push_back_represents.
Qed.

Lemma quiet_disconnect s : quiet s (OnDisconnect s).
Proof. unfold OnDisconnect. destruct (closed_ s); [apply quiet_refl|by split; [split|]]. Qed.

Lemma quiet_process_error s : quiet s (process_error s).
Proof. apply (quiet_trans _ (set_state s state_error)); [by split; [split|]|apply quiet_disconnect]. Qed.

Lemma quiet_disconnected s : quiet s (disconnected s).
Proof. unfold disconnected. by case_match; split; [split| |split|]. Qed.

#[local] Hint Resolve quiet_refl quiet_flush quiet_read quiet_disconnect quiet_process_error quiet_disconnected
  quiet_writable quiet_inprogress quiet_reading quiet_pending : quiet.

(** ** The queue of the pipe *)

(** A write of a part of the front buffer. *)
Lemma front_written D s buf xs n :
  IoQueue.represents D (upstream_ (up_ s)) (buf :: xs) → wf buf → n <= size buf →
  ∃ buf', set_offset buf (Z.of_nat (offset buf) + Z.of_nat n) = Some buf' ∧ wf buf' ∧
    let s1 := write_front s buf' (take n (span buf)) in
    let s2 := pop_upstream s1 in
    written_ (up_ s1) ++ span buf' = written_ (up_ s) ++ span buf ∧
    IoQueue.represents D (upstream_ (up_ s1)) (buf' :: xs) ∧
    IoQueue.represents D (upstream_ (up_ s2)) xs ∧ keeps s s1 ∧ keeps s s2.
Proof.
  intros R W Hn. destruct (set_offset_advance buf n W Hn) as (b' & E & W' & S' & _).
  exists b'. split; [done|]. split; [done|]. intros s1 s2.
  pose proof (IoQueue.set_front_represents D _ _ _ b' R) as R1.
  split_and!; [|exact R1| |by split..].
  - cbn [s1 write_front up_ set_up add_written written_ set_queue]. by rewrite <- app_assoc, S', take_drop.
  - by apply IoQueue.pop_front_represents in R1 as [_ R2].
Qed.

(** The front of the queue, as the loop sees it. *)
Lemma GetNextUpstreamBuf_front D s e buf xs :
  IoQueue.represents D (upstream_ (up_ s)) (buf :: xs) →
  let gate := socks5_method_select_handshake_ (up_ s) || socks5_auth_handshake_ (up_ s) in
  GetNextUpstreamBuf s e = if gate && empty buf then Some (s, e, true, None) else Some (s, e, false, Some buf).
Proof.
  intros R. unfold GetNextUpstreamBuf. cbv zeta. rewrite (IoQueue.empty_represents _ _ _ R).
  rewrite bool_decide_eq_false_2 by done. cbn [negb].
  rewrite (IoQueue.front_represents _ _ _ R). done.
Qed.

(** *** Behind the gate *)

(** While a reply of the upstream server is awaited, the pipe writes a part of the
    buffers [gs] in front of the empty one that stands for the next message, and
    nothing else. *)
Definition moved (D : nat) (s s' : client) (gs rest : list GrowableIOBuffer) : Prop :=
  keeps s s' ∧ ∃ gs', IoQueue.represents D (upstream_ (up_ s')) (gs' ++ rest) ∧ Forall full gs' ∧
    length gs' <= length gs ∧ written_ (up_ s') ++ cat gs' = written_ (up_ s) ++ cat gs.

Lemma quiet_moved D s s' gs rest :
  quiet s s' → IoQueue.represents D (upstream_ (up_ s)) (gs ++ rest) → Forall full gs → moved D s s' gs rest.
Proof. intros (K & Eq & Ew) R F. split; [done|]. exists gs. rewrite Eq, Ew. done. Qed.

Lemma moved_quiet D s s1 s2 gs rest : moved D s s1 gs rest → quiet s1 s2 → moved D s s2 gs rest.
Proof.
  intros (K & gs' & R & F & L & E) (K2 & Q2 & W2). split; [by eapply keeps_trans|].
  exists gs'. by rewrite Q2, W2.
Qed.

Lemma pipe_loop_gated D fuel : ∀ s e gs b rest,
  (socks5_method_select_handshake_ (up_ s) || socks5_auth_handshake_ (up_ s)) = true →
  IoQueue.represents D (upstream_ (up_ s)) (gs ++ b :: rest) → Forall full gs → blank b → length (writes e) < fuel →
  ∃ s' e', pipe_loop fuel s e = Some (s', e') ∧ reads e' = reads e ∧ moved D s s' gs (b :: rest).
Proof.
  induction fuel as [|fuel IH]; intros s e gs b rest Hg R F Hb Hf; [lia|]. cbn [pipe_loop]. unfold write_round.
  assert (∀ s', quiet s s' → moved D s s' gs (b :: rest)) as Hq by (intros; by apply quiet_moved).
  destruct gs as [|g gs]; cbn [app] in R; rewrite (GetNextUpstreamBuf_front D s e _ _ R), Hg; cbn [andb].
  { rewrite blank_empty by done. cbn [mbind option_bind]. do 2 eexists. split; [done|]. eauto with quiet. }
  inversion F as [|? ? Fg Fs]; subst. rewrite full_empty by done. cbn [mbind option_bind]. rewrite full_empty by done.
  destruct (bool_decide _); cbn [negb]; [|do 2 eexists; split; [done|]; eauto with quiet].
  destruct (writes e) as [|w ws]; [do 2 eexists; split; [done|]; eauto with quiet|]. simpl in Hf.
  destruct w as [n yield| |]; [|do 2 eexists; split; [done|]; eauto with quiet|
    do 2 eexists; split; [done|]; split; [done|]; apply Hq;
    apply (quiet_trans _ (disconnected s)); auto with quiet].
  destruct (front_written D s g (gs ++ b :: rest) (n `min` size g) R) as (g' & -> & Wg & Ew & R1 & R2 & K1 & K2);
    [apply Fg|lia|].
  cbn [mbind option_bind]. set (s1 := write_front s g' _) in *. set (s2 := pop_upstream s1) in *.
  destruct (empty g') eqn:Eg.
  - assert (∀ s3, moved D s2 s3 gs (b :: rest) → moved D s s3 (g :: gs) (b :: rest)) as Hm.
    { intros s3 (K & gs' & R3 & F3 & L3 & E3). split; [by eapply keeps_trans|]. exists gs'.
      split; [done|]. split; [done|]. split; [simpl; lia|]. rewrite E3.
      apply empty_span in Eg; [|done]. rewrite Eg, app_nil_r in Ew. unfold cat at 2. cbn [map concat].
      by rewrite app_assoc, <- Ew. }
    destruct yield.
    + do 2 eexists. split; [done|]. split; [done|]. apply Hm.
      apply quiet_moved; [|exact R2|done]. case_match; auto with quiet.
    + destruct (IH s2 (mkEnv (reads e) ws) gs b rest) as (s' & e' & E & Hr & M); [exact Hg|exact R2|done|done|simpl; lia|].
      exists s', e'. split; [exact E|]. split; [done|]. by apply Hm.
  - do 2 eexists. split; [done|]. split; [done|].
    apply (moved_quiet D _ s1); [|auto with quiet].
    split; [done|]. exists (g' :: gs). split; [exact R1|]. split; [constructor; [by apply empty_full|done]|].
    split; [done|]. unfold cat. cbn [map concat]. by rewrite !app_assoc, Ew.
Qed.

(** *** Relaying *)

(** The methods that send the application's bytes as they are. *)
Definition plain : bool := bool_decide (method = CRYPTO_HTTPS) || is_socks method.

Definition got (rs : list read_result) : list byte :=
  concat (map (λ r, match r with Read bs => bs | _ => [] end) rs).

Definition read_ok (r : read_result) : Prop :=
  match r with Read bs => (Z.of_nat (length bs) <= SOCKET_BUF_SIZE)%Z | _ => True end.

(** What was written and what is queued are the bytes there were and those read from
    the application since, in order. *)
Definition relays (D : nat) (xs : list GrowableIOBuffer) (s : client) (e : env) (s' : client) (e' : env) : Prop :=
  keeps s s' ∧ ∃ rs xs', reads e = rs ++ reads e' ∧
    IoQueue.represents D (upstream_ (up_ s')) xs' ∧ Forall wf xs' ∧
    written_ (up_ s') ++ cat xs' = written_ (up_ s) ++ cat xs ++ got rs.

Lemma quiet_relays D xs s e s' e' r :
  quiet s s' → IoQueue.represents D (upstream_ (up_ s)) xs → Forall wf xs →
  reads e = r ++ reads e' → got r = [] → relays D xs s e s' e'.
Proof.
  intros (K & Eq & Ew) R F Hr Hg. split; [done|]. exists r, xs. rewrite Eq, Ew, Hg, app_nil_r. done.
Qed.

Lemma relays_quiet D xs s e s1 e1 s2 : relays D xs s e s1 e1 → quiet s1 s2 → relays D xs s e s2 e1.
Proof.
  intros (K & rs & xs' & Hr & R & F & E) (K2 & Q2 & W2). split; [by eapply keeps_trans|].
  exists rs, xs'. by rewrite Q2, W2.
Qed.

(** A round that leaves the bytes in order. *)
Lemma relays_step D xs ys s e s1 e1 s' e' r :
  keeps s s1 → reads e = r ++ reads e1 → written_ (up_ s1) ++ cat ys = written_ (up_ s) ++ cat xs ++ got r →
  relays D ys s1 e1 s' e' → relays D xs s e s' e'.
Proof.
  intros K Hr Hw (K' & rs & xs' & Hr' & R & F & E). split; [by eapply keeps_trans|].
  exists (r ++ rs), xs'. rewrite Hr, Hr', <- app_assoc. split; [done|]. split; [done|]. split; [done|].
  rewrite E, app_assoc, Hw. unfold got. by rewrite map_app, concat_app, !app_assoc.
Qed.

Lemma write_round_relays D k s e buf xs :
  IoQueue.represents D (upstream_ (up_ s)) (buf :: xs) → Forall wf (buf :: xs) →
  (∀ s1 e1, keeps s s1 → channel_ (up_ s1) = channel_ (up_ s) → IoQueue.represents D (upstream_ (up_ s1)) xs →
     reads e1 = reads e → length (writes e1) < length (writes e) →
     ∃ s' e', k s1 e1 = Some (s', e') ∧ relays D xs s1 e1 s' e') →
  ∃ s' e', write_round k s e buf = Some (s', e') ∧ relays D (buf :: xs) s e s' e'.
Proof.
  intros R F Hk. unfold write_round.
  assert (∀ s' e', quiet s s' → reads e' = reads e → relays D (buf :: xs) s e s' e') as Hq
    by (intros s' e' ? He; by apply (quiet_relays D _ _ _ _ _ []); [| | |rewrite He|]).
  destruct (empty buf); [do 2 eexists; split; [done|]; eauto with quiet|].
  destruct (bool_decide _); cbn [negb]; [|do 2 eexists; split; [done|]; eauto with quiet].
  destruct (writes e) as [|w ws]; [do 2 eexists; split; [done|]; eauto with quiet|].
  destruct w as [n yield| |]; [|do 2 eexists; split; [done|]; eauto with quiet|
    do 2 eexists; split; [done|]; apply Hq; [|done];
    apply (quiet_trans _ (disconnected s)); auto with quiet].
  inversion F as [|? ? Wb Fs]; subst.
  destruct (front_written D s buf xs (n `min` size buf) R Wb) as (b' & -> & W' & Ew & R1 & R2 & K1 & K2); [lia|].
  cbn [mbind option_bind]. set (s1 := write_front s b' _) in *. set (s2 := pop_upstream s1) in *.
  set (e1 := mkEnv (reads e) ws). destruct (empty b') eqn:Eb.
  - assert (∀ s' e', relays D xs s2 e1 s' e' → relays D (buf :: xs) s e s' e') as Hm.
    { intros s' e' M. apply (relays_step D _ xs s e s2 e1 s' e' []); [done|done| |done].
      apply empty_span in Eb; [|done]. rewrite Eb, app_nil_r in Ew. unfold cat. cbn [map concat got].
      by rewrite app_nil_r, app_assoc, <- Ew. }
    destruct yield.
    + do 2 eexists. split; [done|]. apply Hm. apply (quiet_relays D _ _ _ _ _ []); try done. case_match; auto with quiet.
    + destruct (Hk s2 e1) as (s' & e' & E & M); [done|done|done|done|simpl; lia|]. exists s', e'. split; [done|]. by apply Hm.
  - do 2 eexists. split; [done|]. apply (relays_step D _ (b' :: xs) s e s1 e1 _ _ []); [done|done| |].
    + unfold cat. cbn [map concat got]. by rewrite app_nil_r, !app_assoc, Ew.
    + apply (quiet_relays D _ _ _ _ _ []); try done; [auto with quiet|by constructor].
Qed.

Lemma pipe_loop_relays D fuel : ∀ s e xs,
  channel_ (up_ s) = connected → plain = true ∨ reads e = [] →
  IoQueue.represents D (upstream_ (up_ s)) xs → Forall wf xs → Forall read_ok (reads e) → length (writes e) < fuel →
  ∃ s' e', pipe_loop fuel s e = Some (s', e') ∧ relays D xs s e s' e'.
Proof.
  induction fuel as [|fuel IH]; intros s e xs Hc Hp R F Hr Hf; [lia|].
  assert (∀ s0 e0 buf ys, channel_ (up_ s0) = connected → plain = true ∨ reads e0 = [] →
    IoQueue.represents D (upstream_ (up_ s0)) (buf :: ys) → Forall wf (buf :: ys) →
    Forall read_ok (reads e0) → length (writes e0) < S fuel →
    ∃ s' e', write_round (pipe_loop fuel) s0 e0 buf = Some (s', e') ∧ relays D (buf :: ys) s0 e0 s' e') as Hw.
  { intros s0 e0 buf ys Hc0 Hp0 R0 F0 Hr0 Hf0. apply write_round_relays; [done|done|].
    intros s1 e1 K C R1 He Hl. apply IH; [congruence|by rewrite He|done|by inversion F0|by rewrite He|lia]. }
  cbn [pipe_loop].
  destruct xs as [|b xs].
  2:{ rewrite (GetNextUpstreamBuf_front D s e _ _ R).
      destruct (_ && _); cbn [mbind option_bind]; [|by apply Hw].
      do 2 eexists. split; [done|]. by apply (quiet_relays D _ _ _ _ _ []); [auto with quiet|..]. }
  unfold GetNextUpstreamBuf. cbv zeta. rewrite (IoQueue.empty_represents _ _ _ R), bool_decide_eq_true_2 by done.
  cbn [negb]. assert (∀ s' e' r, quiet s s' → reads e = r :: reads e' → got [r] = [] → relays D [] s e s' e') as Hq
    by (intros s' e' r Hq He Hg; by apply (quiet_relays D _ _ _ _ _ [r])).
  destruct (closed_ s).
  { do 2 eexists. split; [done|]. by apply (quiet_relays D _ _ _ _ _ []); [auto with quiet|..]. }
  destruct (reads e) as [|[bs| |] rs] eqn:Ee; cbn [mbind option_bind].
  - do 2 eexists. split; [done|]. apply (quiet_relays D _ _ _ _ _ []); try done; auto with quiet.
  - inversion Hr as [|? ? Hb Hr']; subst. destruct Hp as [Hp|]; [|done].
    destruct (read_buf_spec SOCKET_BUF_SIZE bs Hb) as (buf & -> & W & Sp & _). cbn [mbind option_bind].
    destruct (empty buf) eqn:Eb.
    { do 2 eexists. split; [done|]. apply (Hq _ _ (Read bs)); [auto with quiet|by rewrite ?Ee|].
      apply empty_span in Eb; [|done]. unfold got. simpl. by rewrite <- Sp, Eb. }
    rewrite bool_decide_eq_true_2 by done. cbn [negb]. unfold push_upstream. fold plain. rewrite Hp.
    cbn [mbind option_bind]. set (s1 := set_up s _).
    assert (IoQueue.represents D (upstream_ (up_ s1)) [buf]) as R1 by (apply (IoQueue.push_back_represents D _ [] buf R)).
    rewrite (IoQueue.front_represents _ _ _ R1). cbn [mbind option_bind head].
    destruct (Hw s1 (mkEnv rs (writes e)) buf []) as (s' & e' & -> & M); [done|by left|done|by constructor|done|done|].
    do 2 eexists. split; [done|]. apply (relays_step D _ [buf] s e s1 (mkEnv rs (writes e)) _ _ [Read bs]);
      [by split|done| |done]. unfold cat, got. cbn [map concat]. by rewrite Sp.
  - do 2 eexists. split; [done|]. apply (Hq _ _ TryAgain); [auto with quiet|by rewrite ?Ee|done].
  - do 2 eexists. split; [done|]. apply (Hq _ _ ReadError); [auto with quiet|by rewrite ?Ee|done].
Qed.

(** A channel that is not connected is not written to; data of the application may
    still be kept for a connection. *)
Lemma OnStreamRead_dead D s buf :
  channel_ (up_ s) ≠ connected → okq D (pending_data_ s) →
  ∃ s', OnStreamRead method T0 s buf = Some s' ∧ quiet s s'.
Proof.
  intros Hc (ps & Rp). unfold OnStreamRead. rewrite bool_decide_eq_false_2 by done. cbn [negb].
  rewrite (IoQueue.byte_length_represents D size _ _ Rp). cbn [mbind option_bind].
  destruct (_ <? _); eexists; split; [done| |done|]; auto with quiet.
Qed.

Lemma pipe_loop_dead D fuel s e :
  channel_ (up_ s) ≠ connected → okq D (upstream_ (up_ s)) → okq D (pending_data_ s) →
  Forall read_ok (reads e) →
  ∃ s' e' rs, pipe_loop (S fuel) s e = Some (s', e') ∧ quiet s s' ∧ reads e = rs ++ reads e'.
Proof.
  intros Hc (xs & R) Hp Hr. cbn [pipe_loop].
  assert (∀ k e0 buf, ∃ s', write_round k s e0 buf = Some (s', e0) ∧ quiet s s') as Hw.
  { intros k e0 buf. unfold write_round. rewrite bool_decide_eq_false_2 by done.
    destruct (empty buf); eexists; (split; [done|]); auto with quiet. }
  destruct xs as [|b xs].
  2:{ rewrite (GetNextUpstreamBuf_front D s e _ _ R). destruct (_ && _); cbn [mbind option_bind].
      - do 3 eexists. split; [done|]. split; [auto with quiet|]. by instantiate (1 := []).
      - destruct (Hw (pipe_loop fuel) e b) as (s' & -> & Q). exists s', e, []. done. }
  unfold GetNextUpstreamBuf. cbv zeta. rewrite (IoQueue.empty_represents _ _ _ R), bool_decide_eq_true_2 by done.
  cbn [negb]. destruct (closed_ s); [by exists s, e, []|].
  destruct (reads e) as [|[bs| |] rs] eqn:Ee; cbn [mbind option_bind].
  - exists (ReadStream s), e, []. rewrite Ee. auto with quiet.
  - inversion Hr as [|? ? Hb Hr']; subst.
    destruct (read_buf_spec SOCKET_BUF_SIZE bs Hb) as (buf & -> & W & Sp & _). cbn [mbind option_bind].
    destruct (empty buf); [exists (ReadStream s), (mkEnv rs (writes e)), [Read bs]; auto with quiet|].
    rewrite bool_decide_eq_false_2 by done. cbn [negb].
    destruct (OnStreamRead_dead D s buf Hc Hp) as (s1 & -> & Q). cbn [mbind option_bind].
    exists (ReadStream s1), (mkEnv rs (writes e)), [Read bs]. split; [done|].
    split; [|done]. by apply (quiet_trans _ s1); auto with quiet.
  - exists (ReadStream s), (mkEnv rs (writes e)), [TryAgain]. auto with quiet.
  - exists (process_error s), (mkEnv rs (writes e)), [ReadError]. auto with quiet.
Qed.

(** ** Progress *)

(** A socket that takes whole buffers, [k] times. *)
Definition eager (N k : nat) (e : env) : Prop := ∃ ws, writes e = replicate k (Wrote N false) ++ ws.

(** The state after [bs] has been written and the queue is [q]. *)
Definition flushed (s : client) (q : IoQueue.IoQueue GrowableIOBuffer) (bs : list byte) : client :=
  set_up s (add_written (set_queue (up_ s) q) bs).

(** Either the next message waits for a reply, or nothing is queued and nothing can
    be read. *)
Definition settled (s : client) (e : env) (rest : list GrowableIOBuffer) : Prop :=
  match rest with
  | [] => reads e = [] ∧ closed_ s = false
  | b :: _ => (socks5_method_select_handshake_ (up_ s) || socks5_auth_handshake_ (up_ s)) = true ∧ blank b
  end.

Lemma pipe_loop_progress D N gs : ∀ fuel k s e rest,
  channel_ (up_ s) = connected → IoQueue.represents D (upstream_ (up_ s)) (gs ++ rest) →
  Forall full gs → Forall (λ b, size b <= N) gs → eager N k e → length gs <= k → length gs < fuel →
  settled s e rest →
  ∃ q e', pipe_loop fuel s e = Some (ReadStream (flushed s q (cat gs)), e') ∧ IoQueue.represents D q rest ∧
    reads e' = reads e ∧ eager N (k - length gs) e'.
Proof.
  induction gs as [|g gs IH]; intros fuel k s e rest Hc R F Hs Hk Lk Lf St; (destruct fuel as [|fuel]; [simpl in Lf; lia|]);
    cbn [pipe_loop].
  - exists (upstream_ (up_ s)), e. cbn [app] in R. split; [|by rewrite Nat.sub_0_r].
    assert (flushed s (upstream_ (up_ s)) (cat []) = s) as ->.
    { unfold flushed, cat, add_written, set_queue, set_up. cbn. rewrite app_nil_r. by destruct s as [????????????? []]. }
    destruct rest as [|b rest]; cbn [settled] in St.
    + unfold GetNextUpstreamBuf. cbv zeta. rewrite (IoQueue.empty_represents _ _ _ R), bool_decide_eq_true_2 by done.
      destruct St as [-> ->]. done.
    + destruct St as [Hg Bb]. by rewrite (GetNextUpstreamBuf_front D s e _ _ R), Hg, blank_empty.
  - inversion F as [|? ? Fg Fs]; subst. inversion Hs as [|? ? Sg Ss]; subst.
    rewrite (GetNextUpstreamBuf_front D s e _ _ R), full_empty, andb_false_r by done. cbn [mbind option_bind].
    unfold write_round. rewrite full_empty, bool_decide_eq_true_2 by done. cbn [negb].
    destruct k as [|k]; [simpl in Lk; lia|]. destruct Hk as [ws Hws]. rewrite Hws. cbn [replicate app].
    rewrite Nat.min_r by done.
    destruct (front_written D s g (gs ++ rest) (size g) R) as (g' & Eo & Wg & Ew & R1 & R2 & K1 & K2); [apply Fg|done|].
    rewrite Eo. cbn [mbind option_bind]. set (s1 := write_front s g' _) in *. set (s2 := pop_upstream s1) in *.
    destruct (set_offset_advance g (size g)) as (g2 & Eo2 & _ & Sg2 & _); [apply Fg|done|].
    rewrite Eo in Eo2. simplify_eq. rewrite drop_ge in Sg2 by (rewrite length_span; [done|apply Fg]).
    assert (empty g2 = true) as -> by (by apply empty_span).
    assert (flushed s (upstream_ (up_ s2)) (span g) = s2) as Es2.
    { unfold flushed, s2, s1, pop_upstream, write_front, set_up, set_queue, add_written. cbn.
      rewrite take_ge by (rewrite length_span; [done|apply Fg]). done. }
    destruct (IH fuel k s2 (mkEnv (reads e) (replicate k (Wrote N false) ++ ws)) rest)
      as (q & e' & E & Rq & He & Hk'); try done; [by exists ws|simpl in Lk; lia|simpl in Lf; lia|].
    exists q, e'. rewrite E. split; [|done]. f_equal. f_equal. f_equal. rewrite <- Es2.
    unfold flushed, cat, set_up, add_written, set_queue. cbn. by rewrite <- app_assoc.
Qed.

End CliUpstream.

#[export] Hint Resolve quiet_refl quiet_flush quiet_read quiet_disconnect quiet_process_error quiet_disconnected
  quiet_writable quiet_inprogress quiet_reading quiet_pending : quiet.

End CliUpstream.
