(* ===== verification/CliHandshake.v ===== *)
(** * The SOCKS5 handshake of the client with its upstream server

    The order of what the client writes to a SOCKS5 server, whatever the server
    answers and however the sockets behave: the invariant of
    src/src/cli/cli_connection.cpp between [connected] and the end of the
    connection. *)

From Stdlib Require Import ZArith Lia.
From stdpp Require Import base list numbers option.
From S2P Require Import Prelude IoBuffer IoQueue Addr Ss Socks4 Socks5 Hkdf Crypter Cipher Conn Http Server Cli CliUpstream.

Module CliHandshake.
Import IoBuffer Addr Crypter Cipher Conn Http Cli CliUpstream.

Section CliHandshake.
Context `{Allocator} `{HttpLib} `{CryptoLib} `{Sha1} `{KeyLib} `{RND : RandLib}.

Variable method : cipher_method.
Variables username password : list byte.
Variable to_string : address → list byte.
Variable make_address : list byte → option address.
Variable T0 : list byte.

Hypothesis method_socks5 : method = CRYPTO_SOCKS5 ∨ method = CRYPTO_SOCKS5H.

Abbreviation auth := (auth_required username password).
Abbreviation pipe := (WriteUpstreamInPipe method T0).

(** The messages: the method selection, the credentials, and the request. *)
Definition greeting_msg : list byte :=
  [Socks5.version; x01; if auth then Socks5.username_or_password else Socks5.no_auth_required].
Definition auth_msg : list byte :=
  [Socks5.version] ++ [to_u8 (Z.of_nat (length username))] ++ username ++
  [to_u8 (Z.of_nat (length password))] ++ password.
Definition request_msg (d : dest) (p : Z) : list byte := Server.socks5_request Socks5.cmd_connect x00 d p.

Definition script (d : dest) (p : Z) : list byte :=
  greeting_msg ++ (if auth then auth_msg else []) ++ request_msg d p.

(** What may have been written when the flags [ms] and [au] say which reply is
    awaited. *)
Definition limit (d : dest) (p : Z) (ms au : bool) (data : list byte) : list byte :=
  if ms then greeting_msg else if au then greeting_msg ++ auth_msg else script d p ++ data.

Section Invariant.
Variables (D : nat) (d : dest) (p : Z).
Hypotheses (HD : 2 <= D) (Hd : dest_wf d) (Hp : port_wf p).

Abbreviation ms s := (socks5_method_select_handshake_ (up_ s)).
Abbreviation au s := (socks5_auth_handshake_ (up_ s)).

(** The queue: what is left of the messages, the empty buffers of the messages to
    come, and the data of the application. *)
Definition stage (s : client) (gs es : list GrowableIOBuffer) (rest data : list byte) : Prop :=
  let w := written_ (up_ s) in
  match ms s, au s with
  | true, a => length gs <= 1 ∧ w ++ cat gs = greeting_msg ∧ a = auth ∧
      (if a then 2 else 1) <= length es ∧ rest = data
  | false, true => length gs <= 1 ∧ w ++ cat gs = greeting_msg ++ auth_msg ∧ auth = true ∧
      1 <= length es ∧ rest = data
  | false, false => ∃ lost, w ++ cat gs ++ rest ++ lost = script d p ++ data ∧
      (channel_ (up_ s) = connected → lost = [])
  end.

Definition ordered (s : client) (data : list byte) : Prop :=
  request_ s = header_of d p ∧ okq D (pending_data_ s) ∧
  ∃ gs es ds, IoQueue.represents D (upstream_ (up_ s)) (gs ++ es ++ ds) ∧
    Forall full gs ∧ Forall blank es ∧ Forall wf ds ∧ stage s gs es (cat ds) data.

(** A connection that is over: the server was refused. *)
Definition over (s : client) (data : list byte) : Prop :=
  channel_ (up_ s) ≠ connected ∧ okq D (pending_data_ s) ∧ okq D (upstream_ (up_ s)) ∧
  written_ (up_ s) `prefix_of` limit d p (ms s) (au s) data.

Definition inv (s : client) (data : list byte) : Prop := ordered s data ∨ over s data.

(** ** Steps that write nothing *)

Lemma limit_mono a b x y : limit d p a b x `prefix_of` limit d p a b (x ++ y).
Proof.
  unfold limit. destruct a; [done|]. destruct b; [done|]. rewrite app_assoc. by apply prefix_app_r.
Qed.

Lemma ordered_prefix s data : ordered s data → written_ (up_ s) `prefix_of` limit d p (ms s) (au s) data.
Proof.
  intros (_ & _ & gs & es & ds & _ & _ & _ & _ & St). unfold stage, limit in *. destruct (ms s), (au s).
  1,2: destruct St as (_ & <- & _); by apply prefix_app_r.
  - destruct St as (_ & <- & _); by apply prefix_app_r.
  - destruct St as (lost & <- & _). by apply prefix_app_r.
Qed.

Lemma inv_prefix s data : inv s data → written_ (up_ s) `prefix_of` limit d p (ms s) (au s) data.
Proof. intros [O|(_ & _ & _ & Hw)]; [by apply ordered_prefix|done]. Qed.

Lemma ordered_quiet s s' data : quiet s s' → ordered s data → ordered s' data.
Proof.
  intros (K & Eq & Ew) (Hr & Hpe & gs & es & ds & R & F & B & W & St).
  destruct K as [Kc Km Ka Kh Kr Kp]. split; [congruence|]. split; [by apply Kp|]. exists gs, es, ds. rewrite Eq.
  split_and!; try done. unfold stage in *. rewrite Km, Ka, Ew. destruct (ms s), (au s); try done.
  destruct St as (lost & E & L). exists lost. split; [done|]. intros C. by apply L, Kc.
Qed.

Lemma inv_quiet s s' data : quiet s s' → inv s data → inv s' data.
Proof.
  intros Q [O|(C & P & U & W)]; [left; by eapply ordered_quiet|right].
  destruct Q as ([Kc Km Ka Kh Kr Kp] & Eq & Ew). unfold over. rewrite Eq, Ew, Km, Ka.
  split_and!; try done; [|by apply Kp]. intros C'. by apply C, Kc.
Qed.

(** ** The pipe *)

Lemma socks5_plain : plain method = true.
Proof. unfold plain, is_socks. destruct method_socks5 as [-> | ->]; reflexivity. Qed.

(** More of the application's data after the connection is lost. *)
Lemma ordered_lost s data more :
  ms s = false → au s = false → channel_ (up_ s) ≠ connected → ordered s data → ordered s (data ++ more).
Proof.
  intros Hm Ha Hc (Hr & Hpe & gs & es & ds & R & F & B & W & St). split; [done|]. split; [done|].
  exists gs, es, ds. split_and!; try done. unfold stage in *. rewrite Hm, Ha in *.
  destruct St as (lost & E & L). exists (lost ++ more). split; [|done].
  by rewrite (app_assoc (script d p)), <- E, <- !app_assoc.
Qed.

Lemma pipe_ordered s e data :
  ordered s data → Forall read_ok (reads e) →
  ∃ s' e' rs, pipe s e = Some (s', e') ∧ keeps s s' ∧ reads e = rs ++ reads e' ∧ ordered s' (data ++ got rs).
Proof.
  intros O Hr. unfold WriteUpstreamInPipe. destruct (write_inprogress_ (up_ s)).
  { exists s, e, []. by rewrite app_nil_r. }
  destruct (ms s || au s) eqn:Hg.
  - destruct O as (Hreq & Hpe & gs & es & ds & R & F & B & W & St).
    assert (∃ b es', es = b :: es') as (b & es' & ->).
    { destruct es as [|b es']; [|by do 2 eexists]. exfalso. unfold stage in St.
      destruct (ms s), (au s); try done; destruct St as (_ & _ & _ & L & _); simpl in L; lia. }
    inversion B as [|? ? Bb Bs]; subst.
    destruct (pipe_loop_gated method T0 D (length (writes e) + 1) s e gs b (es' ++ ds) Hg R F Bb)
      as (s' & e' & -> & He & K & gs' & R' & F' & L' & E'); [lia|].
    exists s', e', []. split; [done|]. split; [done|]. split; [by rewrite He|]. rewrite app_nil_r.
    destruct K as [Kc Km Ka Kh Kr Kp]. split; [congruence|]. split; [by apply Kp|].
    exists gs', (b :: es'), ds. split_and!; try done. unfold stage in *. rewrite Km, Ka.
    destruct (ms s), (au s); try done; destruct St as (? & Ew & ?); rewrite E', Ew; (split; [lia|done]).
  - apply orb_false_iff in Hg as [Hm Ha]. rewrite (Nat.add_comm _ 1). cbn [Nat.add].
    destruct (decide (channel_ (up_ s) = connected)) as [Hc|Hc].
    + destruct O as (Hreq & Hpe & gs & es & ds & R & F & B & W & St).
      destruct (pipe_loop_relays method T0 D (S (length (writes e))) s e (gs ++ es ++ ds))
        as (s' & e' & -> & K & rs & xs & He & R' & F' & E'); try done; [left; apply socks5_plain| |lia|].
      { repeat apply Forall_app_2; [eapply Forall_impl; [|exact F]; by intros ? []|
          eapply Forall_impl; [|exact B]; by intros ? []|done]. }
      exists s', e', rs. split; [done|]. split; [done|]. split; [done|].
      destruct K as [Kc Km Ka Kh Kr Kp]. split; [congruence|]. split; [by apply Kp|].
      exists [], [], xs. split_and!; try done. unfold stage in *. rewrite Km, Ka, Hm, Ha in *.
      destruct St as (lost & E & L). rewrite (L Hc), !app_nil_r in E. exists []. split; [|done].
      rewrite app_nil_r. cbn [cat map concat app]. rewrite E', !cat_app, (cat_blank es) by done. cbn [app].
      rewrite (app_assoc (script d p)), <- E, !app_assoc. done.
    + destruct (pipe_loop_dead method T0 D (length (writes e)) s e) as (s' & e' & rs & -> & Q & He);
        [done|destruct O as (_ & _ & gs & es & ds & R & _); by eexists|apply O|done|].
      exists s', e', rs. split; [done|]. split; [apply Q|]. split; [done|].
      eapply ordered_quiet; [done|]. by apply ordered_lost.
Qed.

Lemma pipe_inv s e data :
  inv s data → Forall read_ok (reads e) →
  ∃ s' e' rs, pipe s e = Some (s', e') ∧ reads e = rs ++ reads e' ∧ inv s' (data ++ got rs).
Proof.
  intros [O|O] Hr.
  - destruct (pipe_ordered s e data O Hr) as (s' & e' & rs & E & _ & He & O'). exists s', e', rs.
    split_and!; try done. by left.
  - unfold WriteUpstreamInPipe. destruct (write_inprogress_ (up_ s)).
    { exists s, e, []. rewrite app_nil_r. split_and!; try done. by right. }
    destruct O as (C & P & U & W). rewrite (Nat.add_comm _ 1). cbn [Nat.add].
    destruct (pipe_loop_dead method T0 D (length (writes e)) s e) as (s' & e' & rs & -> & Q & He); try done.
    exists s', e', rs. split; [done|]. split; [done|]. eapply inv_quiet; [done|]. right. split_and!; try done.
    etrans; [done|apply limit_mono].
Qed.

(** ** The messages *)

(** The front buffer takes a message: an empty one, or the one that is still being
    written. *)
Lemma fill_front_spec s gs es ds pieces :
  IoQueue.represents D (upstream_ (up_ s)) (gs ++ es ++ ds) → Forall full gs → Forall blank es →
  length gs <= 1 → 1 <= length es → concat pieces ≠ [] →
  ∃ q, fill_front s pieces = Some (set_up s (set_queue (up_ s) q)) ∧
    ∃ gs' es', IoQueue.represents D q (gs' ++ es' ++ ds) ∧ Forall full gs' ∧ Forall blank es' ∧
      length gs' <= 1 ∧ length es <= S (length es') ∧ cat gs' = cat gs ++ concat pieces.
Proof.
  intros R F B Lg Le Hne. unfold fill_front. rewrite (IoQueue.front_represents _ _ _ R).
  destruct gs as [|g gs].
  - destruct es as [|b es]; [simpl in Le; lia|]. inversion B as [|? ? [Wb Sb] Bs]; subst. cbn [head app mbind option_bind].
    destruct (append_all_spec pieces b Wb) as (b' & -> & W' & S'). cbn [mbind option_bind].
    eexists. split; [done|]. exists [b'], es. rewrite Sb in S'. cbn [app] in *.
    split; [by apply (IoQueue.set_front_represents D _ b)|]. split; [constructor; [split; [done|by rewrite S']|done]|].
    split; [done|]. split; [done|]. split; [simpl; lia|]. unfold cat. cbn [map concat]. by rewrite app_nil_r.
  - inversion F as [|? ? [Wg Sg] Fs]; subst. cbn [head app mbind option_bind].
    destruct (append_all_spec pieces g Wg) as (g' & -> & W' & S'). cbn [mbind option_bind].
    assert (gs = []) as -> by (destruct gs; [done|simpl in Lg; lia]). cbn [app] in *.
    eexists. split; [done|]. exists [g'], es. cbn [app].
    split; [by apply (IoQueue.set_front_represents D _ g)|]. split.
    { constructor; [split; [done|]|done]. rewrite S'. intros E. by apply app_nil in E as [? _]. }
    split; [done|]. split; [done|]. split; [lia|]. unfold cat. cbn [map concat]. by rewrite !app_nil_r.
Qed.

(** What a handler of a reply leaves behind; [P] holds when there is more to handle. *)
Definition handled (P : client → Prop) (e : env) (data : list byte) (res : option (client * env * reply_result)) : Prop :=
  ∃ s' e' r rs, res = Some (s', e', r) ∧ reads e = rs ++ reads e' ∧
    match r with
    | Rest buf => ordered s' (data ++ got rs) ∧ wf buf ∧ P s'
    | Stop => inv s' (data ++ got rs)
    end.

Lemma handled_refused P s e data :
  okq D (pending_data_ s) → okq D (upstream_ (up_ s)) → written_ (up_ s) `prefix_of` limit d p (ms s) (au s) data →
  handled P e data (refused s e).
Proof.
  intros Hpe U W. exists (disconnected s), e, Stop, []. rewrite app_nil_r. split; [done|]. split; [done|]. right.
  destruct (quiet_disconnected s) as ([Kc Km Ka _ _ Kp] & Eq & Ew). unfold over. rewrite Km, Ka, Ew, Eq.
  split_and!; try done; [|by apply Kp]. unfold disconnected. by destruct (_ && _).
Qed.

Lemma handled_after (P : client → Prop) s e e0 data rs buf :
  ordered s (data ++ got rs) → wf buf → reads e0 = rs ++ reads e → P s → handled P e0 data (after_reply s e buf).
Proof.
  intros O W He HP. unfold after_reply. destruct (empty buf).
  - exists s, e, Stop, rs. split_and!; try done. by left.
  - by exists s, e, (Rest buf), rs.
Qed.

(** The pieces of the request add up to the message. *)
Lemma request_pieces s : request_ s = header_of d p →
  ∃ pb, port_bytes (request_ s) = Some pb ∧
    concat ([[Socks5.version; Socks5.cmd_connect; x00]] ++
      (if decide (address_type (request_ s) = domain)
       then [[domain]; [to_u8 (Z.of_nat (length (domain_name (request_ s))))]; domain_name (request_ s)]
       else if decide (address_type (request_ s) = ipv6) then [[ipv6]; address6 (request_ s)]
       else [[ipv4]; address4 (request_ s)]) ++ [take 1 pb; drop 1 pb]) = request_msg d p.
Proof.
  intros Hr. destruct (Ss.ss_header_view d p (drop (wire_size d) header_init) Hd Hp) as (Hv & Hvp & _ & _).
  rewrite Hr. unfold header_of. set (h := wire d p ++ _) in *. clearbody h.
  unfold port_bytes. rewrite Hvp. exists (be16_bytes p). split; [done|].
  apply dest_of_inv in Hv as [Hat Hv]. rewrite Hat. unfold request_msg, Server.socks5_request, wire.
  destruct d as [b|n|b]; cbn [dest_atyp dest_body] in *.
  - rewrite !decide_False by done. rewrite Hv. cbn [concat app]. by rewrite app_nil_r.
  - rewrite decide_True by done. rewrite Hv. cbn [concat app]. by rewrite app_nil_r.
  - rewrite decide_False, decide_True by done. rewrite Hv. cbn [concat app]. by rewrite app_nil_r.
Qed.

(** The request goes out once its turn has come. *)
Lemma request_ordered s e gs es ds data :
  request_ s = header_of d p → okq D (pending_data_ s) →
  IoQueue.represents D (upstream_ (up_ s)) (gs ++ es ++ ds) → Forall full gs → Forall blank es → Forall wf ds →
  length gs <= 1 → 1 <= length es → ms s = false → au s = false →
  (written_ (up_ s) ++ cat gs) ++ request_msg d p = script d p → cat ds = data → Forall read_ok (reads e) →
  ∃ s' e' rs, WriteUpstreamSocks5Request method T0 s e = Some (s', e') ∧ reads e = rs ++ reads e' ∧
    ordered s' (data ++ got rs) ∧ ms s' = false.
Proof.
  intros Hr Hpe R F B W Lg Le Hm Ha Hw Hds Hok. unfold WriteUpstreamSocks5Request.
  destruct (request_pieces s Hr) as (pb & -> & Hq). cbn [mbind option_bind].
  set (pieces := [[Socks5.version; Socks5.cmd_connect; x00]] ++ _) in *.
  destruct (fill_front_spec s gs es ds pieces R F B Lg Le) as (q & -> & gs' & es' & R' & F' & B' & _ & _ & E');
    [by rewrite Hq|]. cbn [mbind option_bind]. set (s1 := set_up _ (set_flags _ _ _ _)).
  destruct (pipe_ordered s1 e data) as (s' & e' & rs & E & K & He & O); [|done|].
  - split; [done|]. split; [done|]. exists gs', es', ds. split_and!; try done.
    unfold stage. cbn [s1 up_ set_up set_flags set_queue socks5_method_select_handshake_ socks5_auth_handshake_ written_].
    rewrite Hm, Ha. exists []. split; [|done]. rewrite app_nil_r, E', Hq, <- Hds, <- Hw. by rewrite <- !app_assoc.
  - exists s', e', rs. split_and!; try done. by rewrite (kp_ms _ _ K).
Qed.

Lemma reply_bytes2 (buf : GrowableIOBuffer) : wf buf → 2 <= size buf →
  ∃ a b, rd (span buf) 0 = Some a ∧ rd (span buf) 1 = Some b ∧
    ∃ buf', set_offset buf (Z.of_nat (offset buf) + 2) = Some buf' ∧ wf buf'.
Proof.
  intros W L. pose proof (length_span buf W) as Hl.
  destruct (lookup_lt_is_Some_2 (span buf) 0 ltac:(lia)) as [a Ea].
  destruct (lookup_lt_is_Some_2 (span buf) 1 ltac:(lia)) as [b Eb]. exists a, b. split; [done|]. split; [done|].
  destruct (set_offset_advance buf 2 W L) as (b' & E & W' & _). by exists b'.
Qed.

Lemma method_response_handled s e buf data :
  ordered s data → ms s = true → wf buf → Forall read_ok (reads e) →
  handled (λ s, ms s = false) e data (ReadUpstreamMethodSelectResponse method username password T0 s e buf).
Proof.
  intros (Hr & Hpe & gs & es & ds & R & F & B & W & St) Hm Wb Hok. unfold stage in St. rewrite Hm in St.
  destruct St as (Lg & Hw & Ha & Le & Hds). unfold ReadUpstreamMethodSelectResponse.
  set (s1 := set_up s (set_flags _ _ _ _)).
  assert (∀ P, handled P e data (refused s1 e)) as Href.
  { intros P. apply handled_refused; [done|by eexists|]. cbn [s1 up_ set_up set_flags written_ socks5_method_select_handshake_
      socks5_auth_handshake_]. unfold limit. assert (written_ (up_ s) `prefix_of` greeting_msg) as Hpre
      by (rewrite <- Hw; by apply prefix_app_r).
    etrans; [exact Hpre|]. unfold script. destruct (au s); [by apply prefix_app_r|]. rewrite <- !app_assoc. by apply prefix_app_r. }
  destruct (Nat.ltb_spec (size buf) 2); [done|].
  destruct (reply_bytes2 buf Wb) as (v & m & -> & -> & b' & Eo & W'); [done|]. cbn [mbind option_bind].
  destruct (negb (bool_decide (v = _))); [done|]. destruct (negb (au s) && _); [done|].
  destruct (au s && _); [done|]. rewrite Eo. cbn [mbind option_bind].
  destruct (au s) eqn:Hau.
  - unfold WriteUpstreamAuthRequest.
    destruct (fill_front_spec s1 gs es ds [[Socks5.version]; [to_u8 (Z.of_nat (length username))]; username;
      [to_u8 (Z.of_nat (length password))]; password] R F B Lg) as (q & -> & gs' & es' & R' & F' & B' & L' & Le' & E');
      [lia|done|]. cbn [mbind option_bind].
    destruct (pipe_ordered (set_up s1 (set_queue (up_ s1) q)) e data) as (s' & e' & rs & -> & K & He & O); [|done|].
    + split; [done|]. split; [done|]. exists gs', es', ds. split_and!; try done. unfold stage.
      cbn [s1 up_ set_up set_flags set_queue socks5_method_select_handshake_ socks5_auth_handshake_ written_].
      split; [done|]. split; [|split; [done|split; [lia|done]]]. rewrite E', app_assoc, Hw.
      unfold auth_msg. cbn [concat]. by rewrite app_nil_r.
    + cbn [mbind option_bind]. apply (handled_after _ _ _ _ _ rs); try done. by rewrite (kp_ms _ _ K).
  - destruct (request_ordered s1 e gs es ds data) as (s' & e' & rs & -> & He & O & Hms'); try done.
    + cbn [s1 up_ set_up set_flags written_]. rewrite Hw. unfold script. by rewrite <- Ha.
    + cbn [mbind option_bind]. by apply (handled_after _ _ _ _ _ rs).
Qed.

Lemma auth_response_handled s e buf data :
  ordered s data → ms s = false → au s = true → wf buf → Forall read_ok (reads e) →
  handled (λ _, True) e data (ReadUpstreamAuthResponse method T0 s e buf).
Proof.
  intros (Hr & Hpe & gs & es & ds & R & F & B & W & St) Hm Hau Wb Hok. unfold stage in St. rewrite Hm, Hau in St.
  destruct St as (Lg & Hw & Ha & Le & Hds). unfold ReadUpstreamAuthResponse.
  set (s1 := set_up s (set_flags _ _ _ _)).
  assert (script d p = (greeting_msg ++ auth_msg) ++ request_msg d p) as Hs
    by (unfold script; rewrite Ha; by rewrite <- app_assoc).
  assert (∀ P, handled P e data (refused s1 e)) as Href.
  { intros P. apply handled_refused; [done|by eexists|]. cbn [s1 up_ set_up set_flags written_ socks5_method_select_handshake_
      socks5_auth_handshake_]. rewrite Hm. unfold limit. rewrite Hs, <- Hw, <- !app_assoc. by apply prefix_app_r. }
  destruct (Nat.ltb_spec (size buf) 2); [done|].
  destruct (reply_bytes2 buf Wb) as (v & m & -> & -> & b' & Eo & W'); [done|]. cbn [mbind option_bind].
  destruct (negb (bool_decide (v = _))); [done|]. destruct (negb (bool_decide (m = _))); [done|].
  rewrite Eo. cbn [mbind option_bind].
  destruct (request_ordered s1 e gs es ds data) as (s' & e' & rs & -> & He & O & Hms'); try done.
  - cbn [s1 up_ set_up set_flags written_]. by rewrite Hw, Hs.
  - cbn [mbind option_bind]. by apply (handled_after _ _ _ _ _ rs).
Qed.

Lemma socks_response_handled s e buf data :
  ordered s data → wf buf → handled (λ _, True) e data (ReadUpstreamSocksResponse method s e buf).
Proof.
  intros O Wb. unfold ReadUpstreamSocksResponse. set (s1 := set_up s (set_flags _ _ _ _)).
  assert (ordered s1 data) as O1 by exact O.
  assert (∀ P, handled P e data (refused s1 e)) as Href.
  { intros P. exists (disconnected s1), e, Stop, []. rewrite app_nil_r. split_and!; try done. left.
    eapply ordered_quiet; [apply quiet_disconnected|done]. }
  assert (∀ o : option nat, handled (λ _, True) e data (match o with
    | None => refused s1 e
    | Some n => if size buf <? n then refused s1 e else
        buf ← set_offset buf (Z.of_nat (offset buf) + Z.of_nat n); after_reply s1 e buf end)) as Hn.
  { intros [n|]; [|done]. destruct (Nat.ltb_spec (size buf) n); [done|].
    destruct (set_offset_advance buf n Wb) as (b' & -> & W' & _); [lia|]. cbn [mbind option_bind].
    apply (handled_after _ _ _ _ _ []); [by rewrite app_nil_r|done|done|done]. }
  destruct method_socks5 as [-> | ->]; cbn [mbind option_bind]; apply Hn.
Qed.

(** ** Events *)

(** A handler in the chain. *)
Lemma reply_stage_handled flag handler (P P' : client → Prop) e0 data st :
  Forall read_ok (reads e0) → handled P e0 data (Some st) →
  (∀ s e buf data', flag (up_ s) = true → P s → ordered s data' → wf buf → Forall read_ok (reads e) →
     handled P' e data' (handler s e buf)) →
  (∀ s, P s → flag (up_ s) = false → P' s) →
  ∃ st', reply_stage flag handler st = Some st' ∧ handled P' e0 data (Some st').
Proof.
  intros Hok Hst Hh HP. destruct st as [[s e] r]. destruct Hst as (s' & e' & r' & rs & E & He & Hr). simplify_eq.
  destruct r' as [buf|]; cbn [reply_stage].
  2:{ eexists. split; [done|]. by exists s', e', Stop, rs. }
  destruct Hr as (O & W & Hs). destruct (flag (up_ s')) eqn:Hf.
  2:{ eexists. split; [done|]. exists s', e', (Rest buf), rs. split_and!; try done. by apply HP. }
  rewrite He in Hok. apply Forall_app in Hok as [_ Hok].
  destruct (Hh s' e' buf _ Hf Hs O W Hok) as (s2 & e2 & r2 & rs2 & -> & He2 & Hr2).
  eexists. split; [done|]. exists s2, e2, r2, (rs ++ rs2). split; [done|]. split; [by rewrite He, He2, app_assoc|].
  assert (got (rs ++ rs2) = got rs ++ got rs2) as -> by (unfold got; by rewrite map_app, concat_app).
  by rewrite app_assoc.
Qed.

Abbreviation upstream_read := (on_upstream_read method username password T0).

Lemma on_upstream_read_inv s e bs data :
  ordered s data → (Z.of_nat (length bs) <= SOCKET_DEBUF_SIZE)%Z → Forall read_ok (reads e) →
  ∃ s' e' rs, upstream_read s e bs = Some (s', e') ∧ reads e = rs ++ reads e' ∧ inv s' (data ++ got rs).
Proof.
  intros O Hb Hok. unfold on_upstream_read. destruct (read_buf_spec _ _ Hb) as (buf & -> & W & _).
  cbn [mbind option_bind].
  destruct (reply_stage_handled socks5_method_select_handshake_
    (ReadUpstreamMethodSelectResponse method username password T0) (λ _, True) (λ s, ms s = false) e data
    (s, e, Rest buf)) as (st1 & -> & H1'); [done| |by intros; apply method_response_handled|done|].
  { exists s, e, (Rest buf), []. by rewrite app_nil_r. }
  cbn [mbind option_bind].
  destruct (reply_stage_handled socks5_auth_handshake_ (ReadUpstreamAuthResponse method T0)
    (λ s, ms s = false) (λ _, True) e data st1) as (st2 & -> & H2'); [done|done|by intros; apply auth_response_handled|done|].
  cbn [mbind option_bind].
  destruct (reply_stage_handled socks_handshake_ (ReadUpstreamSocksResponse method)
    (λ _, True) (λ _, True) e data st2) as (st3 & -> & H3'); [done|done|by intros; apply socks_response_handled|done|].
  cbn [mbind option_bind]. destruct H3' as (s' & e' & r & rs & [= ->] & He & Hr).
  destruct r as [b|]; [|by exists s', e', rs]. destruct Hr as (O' & _ & _).
  assert (is_socks method = true) as -> by (destruct method_socks5 as [-> | ->]; reflexivity).
  eexists _, e', rs. split; [done|]. split; [done|]. by left.
Qed.

Lemma got_app xs ys : got (xs ++ ys) = got xs ++ got ys.
Proof. unfold got. by rewrite map_app, concat_app. Qed.

Definition chan_read_ok (r : read_result) : Prop :=
  match r with Read bs => (Z.of_nat (length bs) <= SOCKET_DEBUF_SIZE)%Z | _ => True end.

Lemma ReadUpstream_inv s e r data :
  inv s data → chan_read_ok r → Forall read_ok (reads e) →
  ∃ s' e' rs, ReadUpstream method username password T0 s e r = Some (s', e') ∧ reads e = rs ++ reads e' ∧ inv s' (data ++ got rs).
Proof.
  intros I Hr Hok.
  assert (∀ s, inv s data → ∃ s' e' rs, Some (s, e) = Some (s', e') ∧ reads e = rs ++ reads e' ∧ inv s' (data ++ got rs)) as Hno
    by (intros s' I'; exists s', e, []; by rewrite app_nil_r).
  unfold ReadUpstream. destruct (_ || _) eqn:Hg; [by apply Hno|]. apply orb_false_iff in Hg as [_ Hc].
  destruct r as [bs| |]; [|by apply Hno|].
  - destruct I as [O|(C & _)]; [by apply on_upstream_read_inv|]. by rewrite bool_decide_eq_false_2 in Hc.
  - apply Hno. eapply inv_quiet; [apply quiet_disconnected|done].
Qed.

Definition event_ok (ev : uevent) : Prop :=
  match ev with Received bs _ => (Z.of_nat (length bs) <= SOCKET_DEBUF_SIZE)%Z | _ => True end.

Lemma ustep_inv s rs ev data :
  inv s data → Forall read_ok rs → event_ok ev →
  ∃ s' rs' c, ustep method username password T0 s rs ev = Some (s', rs') ∧ rs = c ++ rs' ∧ inv s' (data ++ got c).
Proof.
  intros I Hok Hev. unfold ustep.
  assert (∀ s', inv s' data → ∃ s1 rs1 c, Some (s', rs) = Some (s1, rs1) ∧ rs = c ++ rs1 ∧ inv s1 (data ++ got c)) as Hno
    by (intros s' I'; exists s', rs, []; by rewrite app_nil_r).
  destruct (closed_ s); [by apply Hno|].
  destruct ev as [ws|bs ws| |ws]; cbn [event_ok] in Hev.
  - destruct (_ && _); [|by apply Hno]. unfold sent. set (s1 := set_up _ (set_writable _ true)).
    destruct (pipe_inv s1 (mkEnv rs ws) data) as (s' & e' & c & -> & He & I').
    { eapply inv_quiet; [apply quiet_writable|]. eapply inv_quiet; [apply quiet_inprogress|done]. }
    { done. }
    cbn [mbind option_bind fmap option_fmap option_map left_over fst snd]. do 3 eexists. split; [done|].
    split; [exact He|]. eapply inv_quiet; [apply quiet_flush|done].
  - destruct (bool_decide_reflect (channel_ (up_ s) = connected)) as [Hc|]; [|by apply Hno].
    destruct I as [O|(C & _)]; [|done].
    destruct (on_upstream_read_inv s (mkEnv rs ws) bs data O Hev Hok) as (s' & e' & c & -> & He & I').
    by exists s', (reads e'), c.
  - apply Hno. case_match; [|done]. eapply inv_quiet; [apply quiet_disconnected|done].
  - destruct (reading_ s); try by apply Hno.
    destruct (pipe_inv (set_reading s no_read) (mkEnv rs ws) data) as (s' & e' & c & -> & He & I').
    { eapply inv_quiet; [apply quiet_reading|done]. }
    { done. }
    cbn [mbind option_bind]. do 3 eexists. split; [done|]. split; [exact He|].
    eapply inv_quiet; [apply quiet_flush|done].
Qed.

Lemma urun_inv evs : ∀ s rs data,
  inv s data → Forall read_ok rs → Forall event_ok evs →
  ∃ s' rs' c, urun method username password T0 s rs evs = Some (s', rs') ∧ rs = c ++ rs' ∧ inv s' (data ++ got c).
Proof.
  induction evs as [|ev evs IH]; intros s rs data I Hok Hev; cbn [urun].
  - exists s, rs, []. by rewrite app_nil_r.
  - inversion Hev as [|? ? He Hes]; subst.
    destruct (ustep_inv s rs ev data I Hok He) as (s1 & rs1 & c1 & -> & -> & I1). cbn [mbind option_bind].
    apply Forall_app in Hok as [_ Hok]. destruct (IH s1 rs1 _ I1 Hok Hes) as (s2 & rs2 & c2 & -> & -> & I2).
    exists s2, rs2, (c1 ++ c2). by rewrite got_app, !app_assoc.
Qed.

(** ** The start *)

Lemma ordered_push s b data :
  ordered s data → channel_ (up_ s) = connected → wf b → ordered (push s b) (data ++ span b).
Proof.
  intros (Hr & Hpe & gs & es & ds & R & F & B & W & St) Hc Wb. split; [done|]. split; [done|].
  exists gs, es, (ds ++ [b]). split; [|split; [done|split; [done|split]]].
  - cbn [push up_ set_up set_queue upstream_]. rewrite (app_assoc es), (app_assoc gs).
    by apply IoQueue.push_back_represents.
  - apply Forall_app. split; [done|by constructor].
  - assert (cat (ds ++ [b]) = cat ds ++ span b) as ->
      by (rewrite cat_app; unfold cat at 2; cbn [map concat]; by rewrite app_nil_r).
    revert St. unfold stage. cbn [push up_ set_up set_queue written_ socks5_method_select_handshake_
      socks5_auth_handshake_ channel_].
    destruct (ms s), (au s); try (intros (? & ? & ? & ? & ->); done).
    intros (lost & E & L). rewrite (L Hc), app_nil_r in E. exists []. split; [|done].
    by rewrite app_nil_r, (app_assoc (script d p)), <- E, <- !app_assoc.
Qed.

Lemma flush_channel s : channel_ (up_ (OnUpstreamWriteFlush s)) = channel_ (up_ s).
Proof.
  unfold OnUpstreamWriteFlush, wait_write. case_match; [|done]. by case_match.
Qed.

Lemma resend_ordered xs : ∀ fuel s q data,
  IoQueue.represents D q xs → Forall wf xs → length xs <= fuel →
  ordered s data → channel_ (up_ s) = connected →
  ∃ s', resend_loop method T0 fuel s q = Some s' ∧ ordered s' (data ++ cat xs) ∧ channel_ (up_ s') = connected.
Proof.
  induction xs as [|b xs IH]; intros fuel s q data R W Hf O Hc.
  - exists s. cbn [cat map concat]. rewrite app_nil_r.
    destruct fuel; cbn [resend_loop]; by rewrite (IoQueue.empty_represents _ _ _ R), bool_decide_eq_true_2.
  - destruct fuel as [|fuel]; [simpl in Hf; lia|]. cbn [resend_loop].
    rewrite (IoQueue.empty_represents _ _ _ R), bool_decide_eq_false_2 by done.
    rewrite (IoQueue.front_represents _ _ _ R). cbn [head mbind option_bind].
    inversion W as [|? ? Wb Ws]; subst. unfold OnStreamRead. rewrite bool_decide_eq_true_2 by done. cbn [negb].
    unfold push_upstream. pose proof socks5_plain as Hpl. unfold plain in Hpl. rewrite Hpl. cbn [mbind option_bind].
    fold (push s b). apply IoQueue.pop_front_represents in R as [_ R].
    destruct (IH fuel (OnUpstreamWriteFlush (push s b)) (IoQueue.pop_front q) (data ++ span b))
      as (s' & E & O' & C'); [done|done|simpl in Hf; lia| |by rewrite flush_channel|].
    + eapply ordered_quiet; [apply quiet_flush|]. by apply ordered_push.
    + exists s'. split; [done|]. split; [|done]. rewrite <- app_assoc in O'. exact O'.
Qed.

(** The method selection, with the empty buffers behind it. *)
Lemma method_select_ordered s :
  request_ s = header_of d p → okq D (pending_data_ s) →
  IoQueue.represents D (upstream_ (up_ s)) [] → written_ (up_ s) = [] → channel_ (up_ s) = connected →
  ∃ s', WriteUpstreamMethodSelectRequest username password s = Some s' ∧ ordered s' [] ∧
    channel_ (up_ s') = connected ∧ pending_data_ s' = pending_data_ s ∧ closed_ s' = closed_ s.
Proof.
  intros Hr Hpe R Hw Hc. unfold WriteUpstreamMethodSelectRequest. cbv zeta.
  destruct (append_all_spec [[Socks5.version; x01]; [if auth then Socks5.username_or_password else Socks5.no_auth_required]]
    make wf_make) as (b & -> & Wb & Sb). cbn [mbind option_bind]. cbn [concat app] in Sb.
  change (span make) with (@nil byte) in Sb. cbn [app] in Sb.
  assert (full b) as Fb by (split; [done|by rewrite Sb]). assert (blank make) as Bm by (split; [apply wf_make|done]).
  pose proof (IoQueue.push_back_represents D _ _ b R) as R1. cbn [app] in R1.
  pose proof (IoQueue.push_back_represents D _ _ make R1) as R2. cbn [app] in R2.
  pose proof (IoQueue.push_back_represents D _ _ make R2) as R3. cbn [app] in R3.
  eexists. split; [done|]. unfold ordered.
  destruct auth eqn:Ha; (split; [|done]); (split; [done|]); (split; [done|]).
  - exists [b], [make; make], []. split; [exact R3|]. split; [by constructor|].
    split; [by repeat constructor|]. split; [done|]. unfold stage. cbn. rewrite Hw. unfold cat, greeting_msg. cbn.
    rewrite Ha, Sb. done.
  - exists [b], [make], []. split; [exact R2|]. split; [by constructor|].
    split; [by repeat constructor|]. split; [done|]. unfold stage. cbn. rewrite Hw. unfold cat, greeting_msg. cbn.
    rewrite Ha, Sb. done.
Qed.

Lemma connected_inv s payload e early :
  request_ s = header_of d p → holds D (pending_data_ s) payload →
  IoQueue.represents D (upstream_ (up_ s)) [] → written_ (up_ s) = [] → closed_ s = false →
  Forall read_ok (reads e) → chan_read_ok early →
  ∃ s' e' c, connected_ method username password to_string make_address T0 D s e early = Some (s', e') ∧
    reads e = c ++ reads e' ∧ inv s' (payload ++ got c).
Proof.
  intros Hr (ps & Rp & Wp & Ep) R Hw Hcl Hok Hea. unfold connected_.
  set (s0 := set_up s (set_channel _ _)).
  assert (send_request method username password to_string make_address T0 s0
          = WriteUpstreamMethodSelectRequest username password s0) as ->
    by (unfold send_request; by destruct method_socks5 as [-> | ->]).
  destruct (method_select_ordered s0) as (s1 & -> & O1 & C1 & P1 & Cl1); [done|by eexists|done|done|done|].
  cbn [mbind option_bind]. rewrite Cl1. change (closed_ s0) with (closed_ s). rewrite Hcl.
  assert (∀ s2 e2 c0, reads e = c0 ++ reads e2 → inv s2 (payload ++ got c0) →
    ∃ s' e' c, ('(s, e) ← ReadUpstream method username password T0 (set_up s2 (set_writable (up_ s2) true)) e2 early;
      '(s, e) ← WriteUpstreamInPipe method T0 s e;
      Some (OnUpstreamWriteFlush s, e)) = Some (s', e') ∧ reads e = c ++ reads e' ∧ inv s' (payload ++ got c)) as Hend.
  { intros s2 e2 c0 He I. rewrite He in Hok. apply Forall_app in Hok as [_ Hok].
    destruct (ReadUpstream_inv (set_up s2 (set_writable (up_ s2) true)) e2 early (payload ++ got c0))
      as (s3 & e3 & c1 & -> & He3 & I3); [eapply inv_quiet; [apply quiet_writable|done]|done|done|].
    rewrite He3 in Hok. apply Forall_app in Hok as [_ Hok]. cbn [mbind option_bind].
    destruct (pipe_inv s3 e3 ((payload ++ got c0) ++ got c1)) as (s' & e' & c & -> & He' & I'); [done|done|].
    cbn [mbind option_bind]. do 2 eexists. exists (c0 ++ c1 ++ c). split; [done|]. split; [by rewrite He, He3, He', !app_assoc|].
    eapply inv_quiet; [apply quiet_flush|]. by rewrite !got_app, !app_assoc in *. }
  rewrite P1. change (pending_data_ s0) with (pending_data_ s).
  rewrite (IoQueue.empty_represents _ _ _ Rp). destruct (bool_decide_reflect (ps = [])) as [->|Hne].
  - cbn [mbind option_bind]. cbn in Ep. subst payload. apply (Hend _ _ []); [done|]. by left.
  - cbn [mbind option_bind IoQueue.move_construct]. set (q := IoQueue.mkQueue _ _ _).
    assert (IoQueue.represents D q ps) as Rq by (destruct Rp; by split).
    rewrite (IoQueue.length_represents _ _ _ Rq).
    destruct (resend_ordered ps (length ps) (set_pending_data s1 (IoQueue.mkQueue 0 0 (IoQueue.queue (IoQueue.make D)))) q [])
      as (s2 & -> & O2 & _); [done|done|done| |done|].
    { destruct O1 as (Ho & _ & gs & es & ds & Rr & Rest). split; [done|]. split; [|by exists gs, es, ds].
      exists []. by apply IoQueue.represents_make. }
    cbn [mbind option_bind app] in *. destruct (pipe_inv s2 e (cat ps)) as (s3 & e3 & c3 & -> & He3 & I3); [by left|done|].
    cbn [mbind option_bind]. unfold cat in I3. rewrite Ep in I3. by apply (Hend _ _ c3).
Qed.

End Invariant.

(** ** Properties *)

(** C5: the order of the messages to a SOCKS5 server, in a release build.  From the connection to
    the upstream server on, whatever the server answers and however early, however its answers are
    cut, whatever the sockets accept or refuse and whenever the application sends, every event is
    handled.  The credentials, if they are configured, are not written before the reply to the
    method selection has been read, and the request not before the replies to both; the request is
    followed by the application's bytes in their order, for which the client does not await the
    reply to the request.  Nothing is lost on a connection that is still up when the first
    replies have been read. *)
Theorem client_socks5_upstream_order D d p payload out s0 rs ws early evs :
  2 <= D → dest_wf (cmd_dest make_address d) → port_wf p →
  commanded make_address D s0 d p payload out → Forall read_ok rs → chan_read_ok early → Forall event_ok evs →
  let d := cmd_dest make_address d in
  ∃ s1 e1 s' rs' c,
    connected_ method username password to_string make_address T0 D s0 (mkEnv rs ws) early = Some (s1, e1) ∧
    urun method username password T0 s1 (reads e1) evs = Some (s', rs') ∧ rs = c ++ rs' ∧
    let u := up_ s' in
    let ms := socks5_method_select_handshake_ u in
    let au := socks5_auth_handshake_ u in
    written_ u `prefix_of` limit d p ms au (payload ++ got c) ∧
    (channel_ u = connected → ms = false → au = false →
     ∃ q, holds D (upstream_ u) q ∧ written_ u ++ q = script d p ++ payload ++ got c).
Proof.
  intros HD Hd Hp (Hcl & _ & Hr & Hu & Hpe & _) Hok Hea Hev d'.
  destruct (connected_inv D d' p HD Hd Hp s0 payload (mkEnv rs ws) early) as (s1 & e1 & c1 & E1 & He1 & I1);
    [done|by apply waits_holds|rewrite Hu; by apply IoQueue.represents_make|by rewrite Hu|done|done|done|].
  cbn [reads] in He1. rewrite He1 in Hok. apply Forall_app in Hok as [_ Hok].
  destruct (urun_inv D d' p HD Hd Hp evs s1 (reads e1) _ I1 Hok Hev) as (s' & rs' & c2 & E2 & He2 & I2).
  exists s1, e1, s', rs', (c1 ++ c2). split; [done|]. split; [done|]. split; [by rewrite He1, He2, app_assoc|].
  rewrite <- app_assoc, <- got_app in I2. cbv zeta. split; [by eapply inv_prefix|].
  intros Hc Hm Ha. destruct I2 as [(_ & _ & gs & es & ds & R & F & B & W & St)|(C & _)]; [|done].
  unfold stage in St. rewrite Hm, Ha in St. destruct St as (lost & E & L). rewrite (L Hc), app_nil_r in E.
  exists (cat (gs ++ es ++ ds)). split.
  - exists (gs ++ es ++ ds). split; [done|]. split; [|done].
    repeat apply Forall_app_2; [eapply Forall_impl; [|exact F]; by intros ? []|
      eapply Forall_impl; [|exact B]; by intros ? []|done].
  - by rewrite !cat_app, (cat_blank es).
Qed.

End CliHandshake.
(** ** Witnesses *)

Section Example.
Context `{Allocator}.

Definition example_commanded : client :=
  mkClient state_stream false no_read None [] false Socks5.request_init Socks4.request_init
    (header_of (to_domain [x61]) 80) None (mkHttpState [] 0 false false 0 None)
    (IoQueue.push_back (IoQueue.make 4) (mkBuf [x47] 1 0)) (IoQueue.make 4) (set_channel (up_ (init 4)) connecting).

Lemma example_commanded_ok : commanded (λ _, None) 4 example_commanded (to_domain [x61]) 80 [x47] [].
Proof.
  unfold commanded. split_and!; try done; [|apply holds_make; lia].
  exists [mkBuf [x47] 1 0]. split; [apply (IoQueue.push_back_represents 4 _ []), IoQueue.represents_make; lia|].
  split; [|done]. constructor; [|done]. split; [unfold wf; simpl; lia|done].
Qed.

End Example.

Lemma client_socks5_upstream_order_witness :
  let HA := (λ _, x00) : Allocator in
  let HL := example_http plain_request in
  let HC := example_lib in
  let HS := (λ _, replicate 20 x09) : Sha1 in
  let HK := example_keylib in
  let HN := example_rand in
  ∃ s1 e1 s' rs' c,
    connected_ CRYPTO_SOCKS5 [x75] [x70] (λ _, []) (λ _, None) [] 4 example_commanded
      (mkEnv [Read [x48]] [Wrote 2 false]) TryAgain = Some (s1, e1) ∧
    urun CRYPTO_SOCKS5 [x75] [x70] [] s1 (reads e1) [Sent [Wrote 1 false]; Received [x05; x02] []] = Some (s', rs') ∧
    [Read [x48]] = c ++ rs' ∧
    let u := up_ s' in
    let ms := socks5_method_select_handshake_ u in
    let au := socks5_auth_handshake_ u in
    written_ u `prefix_of` limit [x75] [x70] (to_domain [x61]) 80 ms au ([x47] ++ got c) ∧
    (channel_ u = connected → ms = false → au = false →
     ∃ q, holds 4 (upstream_ u) q ∧ written_ u ++ q = script [x75] [x70] (to_domain [x61]) 80 ++ [x47] ++ got c).
Proof.
  intros HA HL HC HS HK HN.
  apply (client_socks5_upstream_order CRYPTO_SOCKS5 [x75] [x70] (λ _, []) (λ _, None) [] (or_introl eq_refl) 4
    (to_domain [x61]) 80 [x47] [] example_commanded [Read [x48]] [Wrote 2 false] TryAgain
    [Sent [Wrote 1 false]; Received [x05; x02] []]);
    [lia|simpl; lia|done|apply example_commanded_ok|
     constructor; [vm_compute; congruence|constructor]|done|
     constructor; [done|constructor; [vm_compute; congruence|constructor]]].
Defined.

End CliHandshake.
