(* ===== verification/Tunnel.v ===== *)
(** * The tunnel

    The application, the client connection and the server connection together: what
    the application asks of the client is what the server connects to, with the
    application's bytes behind it.  The network between client and server is here a
    list of messages, and the sockets take what they are given; Cli.v, CliHandshake.v,
    Server.v and SsServer.v say what happens otherwise. *)

From Stdlib Require Import ZArith Lia.
From stdpp Require Import base list numbers option.
From S2P Require Import Prelude IoBuffer IoQueue Addr Ss Socks4 Socks5 Hkdf Crypter Cipher Conn Http Server SsServer.
From S2P Require Import Cli CliUpstream CliHandshake.

Module Tunnel.
Import IoBuffer Addr Crypter Cipher Conn Http Cli CliUpstream CliHandshake.

Section Shadowsocks.
Context `{Allocator} `{HttpLib} `{CryptoLaws} `{Sha1Laws} `{KeyLaws} `{RND : RandLib} `{!RandLaws RND}.

Variable method : cipher_method.
Variables username password : list byte.
Variable to_string : address → list byte.
Variable make_address : list byte → option address.
Variable T0 : list byte.

Hypothesis method_aead : is_aead method = true.

Lemma aead_not_plain : plain method = false.
Proof. clear -method_aead. by destruct method. Qed.

Lemma send_request_aead s : send_request method username password to_string make_address T0 s =
  (encoder ← make_cipher [] password method true;
   decoder ← make_cipher [] password method false;
   let s := set_up s (set_decoder (set_encoder (up_ s) encoder) decoder) in
   buf ← copyBuffer (Ss.data (request_ s));
   push_upstream method T0 s buf).
Proof. clear -method_aead. by destruct method. Qed.

(** The client whose encoder is [c] and whose queue is [q]. *)
Definition encoding (s : client) (q : IoQueue.IoQueue GrowableIOBuffer) (c : cipher) : client :=
  set_up s (set_encoder (set_queue (up_ s) q) c).

(** Data that is encrypted into the one buffer of the queue. *)
Lemma OnStreamRead_encrypts D S s q c cb pts salt b :
  channel_ (up_ s) = connected → upstream_writable_ (up_ s) = false →
  IoQueue.represents D q [cb] → wf cb → span cb = salt ++ frames S 0 pts →
  enc_ready S c → counter_ c = advance 0 pts → wf b →
  ∃ q' c' cb' pts', OnStreamRead method T0 (encoding s q c) b = Some (encoding s q' c') ∧
    IoQueue.represents D q' [cb'] ∧ wf cb' ∧ span cb' = salt ++ frames S 0 (pts ++ pts') ∧
    enc_ready S c' ∧ counter_ c' = advance 0 (pts ++ pts') ∧ Forall payload_ok pts' ∧ concat pts' = span b.
Proof.
  intros Hc Hwr R W Sp Rd Ct Wb. unfold OnStreamRead. rewrite bool_decide_eq_true_2 by done. cbn [negb].
  unfold push_upstream. pose proof aead_not_plain as Hpl. unfold plain in Hpl. rewrite Hpl.
  change (encoder_ (up_ (encoding s q c))) with (Some c). cbn [mbind option_bind]. unfold EncryptData.
  change (upstream_ (up_ (encoding s q c))) with q.
  rewrite (IoQueue.empty_represents _ _ _ R), bool_decide_eq_false_2 by done.
  rewrite (IoQueue.back_represents D q [] cb R). cbn [mbind option_bind].
  destruct (encrypt_loop_ready S T0 (span b) (length (span b)) c 0 cb false)
    as (c' & cb' & pts' & -> & Rd' & Ct' & W' & _ & Sp' & P' & K'); [done|done|lia|lia|].
  cbn [mbind option_bind].
  exists (IoQueue.set_back q cb'), c', cb', pts'. rewrite frames_app, advance_app, <- Ct, app_assoc, <- Sp.
  split_and!; try done; [|by apply (IoQueue.set_back_represents D q [] cb)].
  unfold OnUpstreamWriteFlush. change (upstream_writable_ _) with (upstream_writable_ (up_ s)).
  by rewrite Hwr, andb_false_r.
Qed.

Lemma resend_encrypts D S s salt xs : ∀ fuel q0 q c cb pts,
  channel_ (up_ s) = connected → upstream_writable_ (up_ s) = false →
  IoQueue.represents D q0 xs → Forall wf xs → length xs <= fuel →
  IoQueue.represents D q [cb] → wf cb → span cb = salt ++ frames S 0 pts →
  enc_ready S c → counter_ c = advance 0 pts → Forall payload_ok pts →
  ∃ q' c' cb' pts', resend_loop method T0 fuel (encoding s q c) q0 = Some (encoding s q' c') ∧
    IoQueue.represents D q' [cb'] ∧ wf cb' ∧ span cb' = salt ++ frames S 0 pts' ∧
    Forall payload_ok pts' ∧ concat pts' = concat pts ++ cat xs.
Proof.
  induction xs as [|b xs IH]; intros fuel q0 q c cb pts Hc Hwr R0 F Hf R W Sp Rd Ct P.
  - exists q, c, cb, pts. cbn [cat map concat]. rewrite app_nil_r. split_and!; try done.
    destruct fuel; cbn [resend_loop]; by rewrite (IoQueue.empty_represents _ _ _ R0), bool_decide_eq_true_2.
  - destruct fuel as [|fuel]; [simpl in Hf; lia|]. cbn [resend_loop].
    rewrite (IoQueue.empty_represents _ _ _ R0), bool_decide_eq_false_2 by done.
    rewrite (IoQueue.front_represents _ _ _ R0). cbn [head mbind option_bind].
    inversion F as [|? ? Wb Ws]; subst. apply IoQueue.pop_front_represents in R0 as [_ R0].
    destruct (OnStreamRead_encrypts D S s q c cb pts salt b Hc Hwr R W Sp Rd Ct Wb)
      as (q1 & c1 & cb1 & pts1 & -> & R1 & W1 & Sp1 & Rd1 & Ct1 & P1 & K1). cbn [mbind option_bind].
    destruct (IH fuel (IoQueue.pop_front q0) q1 c1 cb1 (pts ++ pts1)) as (q' & c' & cb' & pts' & E & R' & W' & Sp' & P' & K');
      try done; [simpl in Hf; lia|by apply Forall_app|].
    exists q', c', cb', pts'. split_and!; try done. rewrite K', concat_app, K1, <- app_assoc. done.
Qed.

(** The header of the request, encrypted by a fresh encoder. *)
Lemma header_encrypts D u km s dec d p :
  suite_ok u → length km = MAX_KEY_LENGTH → dest_wf d → port_wf p →
  request_ s = header_of d p → IoQueue.represents D (upstream_ (up_ s)) [] →
  let salt := rand_bytes (su_key u) in
  let S := stream_sealing u km salt in
  let s0 := set_up s (set_decoder (set_encoder (up_ s) (fresh true u km)) dec) in
  ∃ q c cb pts,
    (buf ← copyBuffer (Ss.data (request_ s0)); push_upstream method T0 s0 buf) = Some (encoding s0 q c) ∧
    IoQueue.represents D q [cb] ∧ wf cb ∧ span cb = salt ++ frames S 0 pts ∧
    enc_ready S c ∧ counter_ c = advance 0 pts ∧ Forall payload_ok pts ∧ concat pts = wire d p.
Proof.
  intros Hu Hkm Hd Hp Hr R salt S s0.
  destruct (Ss.ss_header_view d p (drop (wire_size d) header_init) Hd Hp) as (_ & _ & _ & Hv).
  change (request_ s0) with (request_ s). rewrite Hr. unfold header_of. rewrite Hv.
  destruct (copyBuffer_spec (wire d p)) as (b & -> & Wb & Sb & _). cbn [mbind option_bind].
  unfold push_upstream. pose proof aead_not_plain as Hpl. unfold plain in Hpl. rewrite Hpl.
  change (encoder_ (up_ s0)) with (Some (fresh true u km)). cbn [mbind option_bind]. unfold EncryptData.
  change (upstream_ (up_ s0)) with (upstream_ (up_ s)).
  rewrite (IoQueue.empty_represents _ _ _ R), bool_decide_eq_true_2 by done. cbn [mbind option_bind]. rewrite Sb.
  destruct (encrypt_loop_fresh u km T0 (wire d p) make) as (c & cb & pts & -> & Rd & Ct & Wc & _ & Sp & P & K & _);
    [done|done|done|apply wf_make|]. cbn [mbind option_bind].
  pose proof (IoQueue.push_back_represents D _ [] make R) as R1. cbn [app] in R1.
  exists (IoQueue.set_back (IoQueue.push_back (upstream_ (up_ s)) make) cb), c, cb, pts.
  split; [done|]. split; [by apply (IoQueue.set_back_represents D _ [] make)|]. split_and!; done.
Qed.

(** The pipe empties a queue of one buffer that the socket takes. *)
Lemma pipe_one D N k s e xs :
  channel_ (up_ s) = connected → write_inprogress_ (up_ s) = false → closed_ s = false → reads e = [] →
  IoQueue.represents D (upstream_ (up_ s)) xs → Forall full xs → Forall (λ b, size b <= N) xs →
  eager N k e → length xs <= k →
  ∃ q e', WriteUpstreamInPipe method T0 s e = Some (ReadStream (flushed s q (cat xs)), e') ∧
    IoQueue.represents D q [] ∧ reads e' = [] ∧ eager N (k - length xs) e'.
Proof.
  intros Hc Hw Hcl Hr R F Sz He Hk. unfold WriteUpstreamInPipe. rewrite Hw.
  destruct (pipe_loop_progress method T0 D N xs (length (writes e) + 1) k s e []) as (q & e' & E & R' & Hr' & He');
    try done; [by rewrite app_nil_r| |].
  { destruct He as [ws Hws]. rewrite Hws, length_app, length_replicate. lia. }
  exists q, e'. by rewrite Hr' in *.
Qed.

(** The end of [connected]: the pipe with the channel writable. *)
Lemma connected_end D N k s e xs :
  channel_ (up_ s) = connected → write_inprogress_ (up_ s) = false → closed_ s = false → reads e = [] →
  IoQueue.represents D (upstream_ (up_ s)) xs → Forall full xs → Forall (λ b, size b <= N) xs →
  eager N k e → length xs <= k →
  ∃ s' e', ('(s, e) ← WriteUpstreamInPipe method T0 (set_up s (set_writable (up_ s) true)) e;
            Some (OnUpstreamWriteFlush s, e)) = Some (s', e') ∧
    written_ (up_ s') = written_ (up_ s) ++ cat xs ∧ closed_ s' = false ∧ channel_ (up_ s') = connected ∧
    IoQueue.represents D (upstream_ (up_ s')) [].
Proof.
  intros Hc Hw Hcl Hr R F Sz He Hk.
  destruct (pipe_one D N k (set_up s (set_writable (up_ s) true)) e xs) as (q & e' & -> & R' & _ & _); try done.
  cbn [mbind option_bind]. set (s1 := ReadStream _).
  assert (s1 = set_reading (flushed (set_up s (set_writable (up_ s) true)) q (cat xs)) read_pipe) as Es1
    by (unfold s1, ReadStream; change (closed_ (flushed _ _ _)) with (closed_ s); by rewrite Hcl).
  assert (OnUpstreamWriteFlush s1 = s1) as ->.
  { unfold OnUpstreamWriteFlush. rewrite Es1. change (upstream_ (up_ (set_reading _ _))) with q.
    by rewrite (IoQueue.empty_represents _ _ _ R'), bool_decide_eq_true_2. }
  rewrite Es1. by do 2 eexists.
Qed.

Lemma connected_ss D s d p payload :
  2 <= D → dest_wf d → port_wf p →
  request_ s = header_of d p → waits D (pending_data_ s) payload →
  up_ s = set_channel (up_ (init D)) connecting → closed_ s = false →
  ∃ u km pts, suite_ok u ∧ length km = MAX_KEY_LENGTH ∧
    make_cipher [] password method false = Some (fresh false u km) ∧
    Forall payload_ok pts ∧ concat pts = wire d p ++ payload ∧
    let salt := rand_bytes (su_key u) in
    let out := salt ++ frames (stream_sealing u km salt) 0 pts in
    ∀ N ws, length out <= N →
      ∃ s' e', connected_ method username password to_string make_address T0 D s (mkEnv [] (Wrote N false :: ws)) TryAgain
               = Some (s', e') ∧
        written_ (up_ s') = out ∧ closed_ s' = false ∧ channel_ (up_ s') = connected ∧
        IoQueue.represents D (upstream_ (up_ s')) [].
Proof.
  intros HD Hd Hp Hr (ps & Rp & Wp & Ep) Hu0 Hcl.
  destruct (make_cipher_fresh method password method_aead) as (u & km & Hu & _ & Hkm & Hmk).
  set (s0 := set_up s (set_channel (up_ s) connected)).
  assert (IoQueue.represents D (upstream_ (up_ s0)) []) as R0
    by (unfold s0; rewrite Hu0; by apply IoQueue.represents_make).
  destruct (header_encrypts D u km s0 (fresh false u km) d p Hu Hkm Hd Hp Hr R0)
    as (q1 & c1 & cb1 & pts1 & E1 & R1 & W1 & Sp1 & Rd1 & Ct1 & P1 & K1).
  set (sa := set_up s0 _) in E1.
  set (salt := rand_bytes (su_key u)) in *. set (S := stream_sealing u km salt) in *.
  assert (∀ cb pts, wf cb → span cb = salt ++ frames S 0 pts → Forall full [cb]) as Hfull.
  { intros cb pts Wc Sc. constructor; [|done]. split; [done|]. rewrite Sc. intros E0. apply app_nil in E0 as [E0 _].
    pose proof (rand_length (su_key u)) as Hl. fold salt in Hl. rewrite E0 in Hl.
    pose proof (suite_key_bound u Hu). simpl in Hl. lia. }
  assert (∀ cb pts N, wf cb → span cb = salt ++ frames S 0 pts → length (salt ++ frames S 0 pts) <= N →
    Forall (λ b, size b <= N) [cb]) as Hsz by (intros cb pts N Wc <-; rewrite length_span by done; by repeat constructor).
  assert (written_ (up_ s) = []) as Hw0 by (by rewrite Hu0).
  assert (∀ N ws, connected_ method username password to_string make_address T0 D s (mkEnv [] (Wrote N false :: ws)) TryAgain =
    '(s, e) ← (if IoQueue.empty (pending_data_ s) then Some (encoding sa q1 c1, mkEnv [] (Wrote N false :: ws)) else
             let '(queue, rest) := IoQueue.move_construct D (pending_data_ s) in
             s ← resend_loop method T0 (IoQueue.length queue) (set_pending_data (encoding sa q1 c1) rest) queue;
             WriteUpstreamInPipe method T0 s (mkEnv [] (Wrote N false :: ws)));
    '(s, e) ← WriteUpstreamInPipe method T0 (set_up s (set_writable (up_ s) true)) e;
    Some (OnUpstreamWriteFlush s, e)) as Econn.
  { intros N ws. rewrite connected_idle. cbv zeta. fold s0. rewrite send_request_aead, !Hmk. cbn [mbind option_bind]. cbv zeta.
    fold sa. rewrite E1. cbn [mbind option_bind]. change (closed_ (encoding sa q1 c1)) with (closed_ s). by rewrite Hcl. }
  destruct (decide (ps = [])) as [->|Hne].
  - exists u, km, pts1. split_and!; try done; [by rewrite K1, <- Ep, app_nil_r|]. cbv zeta. intros N ws HN.
    rewrite Econn, (IoQueue.empty_represents _ _ _ Rp), bool_decide_eq_true_2 by done. cbn [mbind option_bind].
    destruct (connected_end D N 1 (encoding sa q1 c1) (mkEnv [] (Wrote N false :: ws)) [cb1])
      as (s' & e' & E & Ew & Rest); try done; [by unfold encoding, sa, s0; rewrite Hu0|by eapply Hfull|by eapply Hsz|by exists ws|].
    exists s', e'. split; [exact E|]. split; [|done]. rewrite Ew. change (written_ (up_ (encoding sa q1 c1))) with (written_ (up_ s)).
    rewrite Hw0. cbn [app cat map concat]. by rewrite app_nil_r.
  - set (sb := set_pending_data sa (IoQueue.mkQueue 0 0 (IoQueue.queue (IoQueue.make D)))).
    set (pq := IoQueue.mkQueue (IoQueue.idx (pending_data_ s)) (IoQueue.end_idx (pending_data_ s)) (IoQueue.queue (pending_data_ s))).
    assert (IoQueue.represents D pq ps) as Rq by (destruct Rp; by split).
    destruct (resend_encrypts D S sb salt ps (length ps) pq q1 c1 cb1 pts1)
      as (q2 & c2 & cb2 & pts2 & E2 & R2 & W2 & Sp2 & P2 & K2); try done;
      [by unfold sb, sa, s0; rewrite Hu0|eapply Forall_impl; [|exact Wp]; by intros ? []|].
    exists u, km, pts2. split_and!; try done; [rewrite K2, K1; unfold cat; by rewrite Ep|]. cbv zeta. intros N ws HN.
    rewrite Econn, (IoQueue.empty_represents _ _ _ Rp), bool_decide_eq_false_2 by done.
    cbn [IoQueue.move_construct]. fold pq. rewrite (IoQueue.length_represents _ _ _ Rq).
    change (set_pending_data (encoding sa q1 c1) _) with (encoding sb q1 c1). rewrite E2. cbn [mbind option_bind].
    destruct (pipe_one D N 1 (encoding sb q2 c2) (mkEnv [] (Wrote N false :: ws)) [cb2])
      as (q3 & e3 & -> & R3 & Hr3 & He3); try done; [by unfold encoding, sb, sa, s0; rewrite Hu0|by eapply Hfull|by eapply Hsz|by exists ws|].
    cbn [mbind option_bind].
    set (s3 := ReadStream _).
    assert (s3 = set_reading (flushed (encoding sb q2 c2) q3 (cat [cb2])) read_pipe) as Es3
      by (unfold s3, ReadStream; change (closed_ (flushed _ _ _)) with (closed_ s); by rewrite Hcl).
    rewrite Es3.
    destruct (connected_end D N 0 (set_reading (flushed (encoding sb q2 c2) q3 (cat [cb2])) read_pipe) e3 [])
      as (s' & e' & E & Ew & Rest); try done; [by cbn; rewrite Hu0|].
    exists s', e'. split; [exact E|]. split; [|done]. rewrite Ew, app_nil_r. cbn. rewrite Hw0. cbn [app].
    by rewrite app_nil_r.
Qed.

(** ** Properties *)

(** C3: the shadowsocks tunnel, end to end.  For every AEAD method, an application that
    asks the client for a destination, a client and a server with the same method and
    password: the application is answered, the client writes one ciphertext when it
    is connected, and the server that reads it becomes a stream to the destination,
    with the application's bytes queued for it. *)
Theorem tunnel_shadowsocks D junkm methods rsv d p payload T1 junk4 junk6 junk_hi junk_lo :
  (∀ h a, make_address h = Some a → address_wf a) →
  2 <= D → length junkm = 255 → length methods <= 255 → Socks5.no_auth_required ∈ methods →
  dest_wf d → port_wf p → dest_ok d → p ≠ 0%Z →
  let d' := cmd_dest make_address d in
  dest_ok d' →
  let q := Server.socks5_request Socks5.cmd_connect rsv d p in
  (Z.of_nat (length (q ++ payload)) <= SOCKET_BUF_SIZE)%Z →
  ∃ s0 out decoder,
    run method make_address junk4 junk6 junk_hi junk_lo T0 junkm (init D)
      [Readable (Read (Server.greeting methods)); WriteDone true; Readable (Read (q ++ payload)); WriteDone true]
    = Some s0 ∧
    sent_ s0 = [Socks5.version; Socks5.no_auth_required] ++ Server.socks5_reply d p ∧
    (∀ N ws, length out <= N →
       ∃ s1 e1, connected_ method username password to_string make_address T0 D s0 (mkEnv [] (Wrote N false :: ws)) TryAgain
                = Some (s1, e1) ∧ written_ (up_ s1) = out) ∧
    make_cipher [] password method false = Some decoder ∧
    ((Z.of_nat (length out) <= SOCKET_DEBUF_SIZE)%Z →
     ∃ srv decoder', SsServer.ss_run method to_string T1 (SsServer.ss_init D) decoder [Read out] = Some (srv, decoder') ∧
       Server.streaming to_string D srv d' p payload []).
Proof.
  intros Hma HD Hj Hl Hin Hd Hp Hok Hp0 d' Hok' q Hq.
  assert (resolves method make_address d = false) as Hr
    by (unfold resolves; clear -method_aead; destruct (cmd_dest _ _); try done; by destruct method).
  destruct (socks5_app_run method make_address junk4 junk6 junk_hi junk_lo T0 Hma D junkm methods rsv d p payload)
    as (s0 & E0 & K0 & K1 & K2 & K3 & K4 & K5 & K6 & K7 & K8); try done.
  assert (dest_wf d') as Hd' by (by apply cmd_dest_wf).
  destruct (connected_ss D s0 d' p payload) as (u & km & pts & Hu & Hkm & Hmk & P & K & Hout); try done.
  eexists s0, _, _. split; [done|]. split; [done|]. split.
  { intros N ws HN. destruct (Hout N ws HN) as (s1 & e1 & E1 & Ew & _). by exists s1, e1. }
  split; [done|]. intros Hlen. apply SsServer.ss_run_frames; try done. apply rand_length.
Qed.

End Shadowsocks.
Section Socks5.
Context `{Allocator} `{HttpLib} `{CryptoLib} `{Sha1} `{KeyLib} `{RND : RandLib}.

Variable method : cipher_method.
Variables username password : list byte.
Variable to_string : address → list byte.
Variable make_address : list byte → option address.
Variable T0 : list byte.

Hypothesis method_socks5 : method = CRYPTO_SOCKS5 ∨ method = CRYPTO_SOCKS5H.

Abbreviation auth := (auth_required username password).

Section Exchange.
Variables (D N : nat) (d : dest) (p : Z).
Hypotheses (HD : 2 <= D) (Hd : dest_wf d) (Hp : port_wf p).

(** The client between two events: the messages [gs] that are to be written, the
    empty buffers [es], the data [ds], the flags, whether the channel is waited for,
    and what was written. *)
Record at_ (s : client) (gs es ds : list GrowableIOBuffer) (ms au hs wip : bool) (w : list byte) : Prop := {
  at_closed : closed_ s = false;
  at_channel : channel_ (up_ s) = connected;
  at_request : request_ s = header_of d p;
  at_queue : IoQueue.represents D (upstream_ (up_ s)) (gs ++ es ++ ds);
  at_gs : Forall full gs;
  at_es : Forall blank es;
  at_ds : Forall full ds;
  at_small : Forall (λ b, size b <= N) (gs ++ ds);
  at_ms : socks5_method_select_handshake_ (up_ s) = ms;
  at_au : socks5_auth_handshake_ (up_ s) = au;
  at_hs : socks_handshake_ (up_ s) = hs;
  at_wip : write_inprogress_ (up_ s) = wip;
  at_written : written_ (up_ s) = w }.

(** The writable channel: the message goes out, and the data behind the last one. *)
Lemma at_sent s gs es ds ms au hs w rs ws k :
  at_ s gs es ds ms au hs true w → rs = [] → length gs + length ds <= k →
  (ms || au = true ∧ es ≠ []) ∨ (ms || au = false ∧ es = []) →
  ∃ s', ustep method username password T0 s rs (Sent (replicate k (Wrote N false) ++ ws)) = Some (s', []) ∧
    if ms || au then at_ s' [] es ds ms au hs true (w ++ cat gs)
    else at_ s' [] [] [] ms au hs false (w ++ cat (gs ++ ds)).
Proof.
  intros A -> Hk Hes. unfold ustep. rewrite (at_closed _ _ _ _ _ _ _ _ _ A), bool_decide_eq_true_2, (at_wip _ _ _ _ _ _ _ _ _ A)
    by apply A. cbn [andb]. unfold sent. set (s1 := set_up _ (set_writable _ true)). unfold WriteUpstreamInPipe.
  change (write_inprogress_ (up_ s1)) with false. cbv match.
  set (e := mkEnv [] _).
  assert (∃ gs' rest, gs ++ es ++ ds = gs' ++ rest ∧ Forall full gs' ∧ Forall (λ b, size b <= N) gs' ∧
    length gs' <= k ∧ settled s1 e rest ∧
    (if ms || au then gs' = gs ∧ rest = es ++ ds ∧ es ≠ [] else gs' = gs ++ ds ∧ rest = [])) as
    (gs' & rest & Eq & F & Sz & Lk & St & Hcase).
  { destruct A as [Acl Ac Ar Aq Ag Ae Ad As Am Aa Ah Aw Awr]. apply Forall_app in As as [As1 As2].
    destruct Hes as [[Hg Hne]|[Hg ->]]; rewrite Hg.
    - exists gs, (es ++ ds). split_and!; try done; [lia|]. destruct es as [|b es]; [done|]. inversion Ae; subst.
      split; [|done]. cbn [s1 up_ set_up set_writable set_write_inprogress socks5_method_select_handshake_ socks5_auth_handshake_].
      exact Hg.
    - exists (gs ++ ds), []. cbn [app]. rewrite app_nil_r. split_and!; try done; [by apply Forall_app|by apply Forall_app|len]. }
  assert (IoQueue.represents D (upstream_ (up_ s1)) (gs' ++ rest)) as R by (rewrite <- Eq; apply A).
  destruct (pipe_loop_progress method T0 D N gs' (length (writes e) + 1) k s1 e rest)
    as (q & e' & -> & R' & He' & _); try done; [apply A|by exists ws|cbn [e writes]; len|].
  cbn [mbind option_bind]. unfold left_over. cbn [fmap option_fmap option_map fst snd]. rewrite He'.
  eexists. split; [done|].
  set (s2 := ReadStream _).
  assert (s2 = set_reading (flushed s1 q (cat gs')) read_pipe) as -> by
    (unfold s2, ReadStream; change (closed_ (flushed _ _ _)) with (closed_ s);
     by rewrite (at_closed _ _ _ _ _ _ _ _ _ A)).
  unfold OnUpstreamWriteFlush. change (upstream_ (up_ (set_reading (flushed s1 q (cat gs')) read_pipe))) with q.
  rewrite (IoQueue.empty_represents _ _ _ R').
  destruct A as [Acl Ac Ar Aq Ag Ae Ad As Am Aa Ah Aw Awr]. apply Forall_app in As as [As1 As2].
  destruct (ms || au).
  - destruct Hcase as (-> & -> & Hne). rewrite bool_decide_eq_false_2 by (destruct es; done).
    change (upstream_writable_ _) with true. cbn [negb andb]. unfold wait_write.
    rewrite bool_decide_eq_true_2 by exact Ac. split; try done. cbn. by rewrite Awr.
  - destruct Hcase as (-> & ->). rewrite bool_decide_eq_true_2 by done. cbn [negb andb].
    split; try done. cbn. by rewrite Awr.
Qed.

(** An empty buffer at the front takes a message. *)
Lemma fill_first s b xs pieces :
  IoQueue.represents D (upstream_ (up_ s)) (b :: xs) → blank b → concat pieces ≠ [] →
  ∃ q m, fill_front s pieces = Some (set_up s (set_queue (up_ s) q)) ∧
    IoQueue.represents D q (m :: xs) ∧ full m ∧ span m = concat pieces.
Proof.
  intros R [Wb Sb] Hne. unfold fill_front. rewrite (IoQueue.front_represents _ _ _ R). cbn [head mbind option_bind].
  destruct (append_all_spec pieces b Wb) as (m & -> & Wm & Sm). cbn [mbind option_bind]. rewrite Sb in Sm.
  eexists _, m. split; [done|]. split; [by eapply IoQueue.set_front_represents|]. split; [|done].
  split; [done|]. by rewrite Sm.
Qed.

Lemma at_fill s b es ds ms au hs ms' au' hs' wip w q m :
  at_ s [] (b :: es) ds ms au hs wip w → IoQueue.represents D q (m :: es ++ ds) → full m → size m <= N →
  at_ (set_up s (set_flags (set_queue (up_ s) q) ms' au' hs')) [m] es ds ms' au' hs' wip w.
Proof.
  intros [Acl Ac Ar Aq Ag Ae Ad As Am Aa Ah Aw Awr] R F Sz. split; try done; [by constructor|by inversion Ae|by constructor].
Qed.

(** The request follows the last reply of the negotiation. *)
Lemma at_request_sent s b es ds ms au wip w :
  at_ s [] (b :: es) ds ms au false wip w → wip = true → length (request_msg d p) <= N →
  let s1 := set_up s (set_flags (up_ s) false false false) in
  ∃ s' m, WriteUpstreamSocks5Request method T0 s1 (mkEnv [] []) = Some (s', mkEnv [] []) ∧
    at_ s' [m] es ds false false true true w ∧ span m = request_msg d p.
Proof.
  intros A -> HN s1. unfold WriteUpstreamSocks5Request.
  destruct (request_pieces d p Hd Hp s1) as (pb & -> & Hq); [apply A|]. cbn [mbind option_bind].
  set (pieces := [[Socks5.version; Socks5.cmd_connect; x00]] ++ _) in *.
  pose proof (at_queue _ _ _ _ _ _ _ _ _ A) as R. cbn [app] in R. pose proof (at_es _ _ _ _ _ _ _ _ _ A) as Be.
  inversion Be as [|? ? Bb _]; subst.
  destruct (fill_first s1 b (es ++ ds) pieces) as (q & m & -> & Rq & Fm & Sm); [done|done|by rewrite Hq|].
  cbn [mbind option_bind]. unfold WriteUpstreamInPipe.
  assert (size m <= N) as Szm by (destruct Fm as [Wm _]; by rewrite <- length_span, Sm, Hq).
  change (write_inprogress_ _) with (write_inprogress_ (up_ s)). rewrite (at_wip _ _ _ _ _ _ _ _ _ A).
  eexists _, m. split; [done|]. split; [|by rewrite Sm].
  apply (at_fill s b es ds ms au false false false true true w q m A); done.
Qed.

Lemma read2 (a b : byte) : ∃ buf, read_buf SOCKET_DEBUF_SIZE [a; b] = Some buf ∧ wf buf ∧ size buf = 2 ∧
  rd (span buf) 0 = Some a ∧ rd (span buf) 1 = Some b ∧
  ∃ buf', set_offset buf (Z.of_nat (offset buf) + 2) = Some buf' ∧ empty buf' = true.
Proof.
  destruct (read_buf_spec SOCKET_DEBUF_SIZE [a; b]) as (buf & -> & W & Sp & _ & Sz & _); [unfold SOCKET_DEBUF_SIZE; simpl; lia|].
  exists buf. rewrite Sp. split_and!; try done.
  destruct (set_offset_advance buf 2 W) as (b' & E & W' & S' & _); [by rewrite Sz|].
  exists b'. split; [done|]. apply empty_span; [done|]. by rewrite S', Sp.
Qed.

Lemma at_method_reply s b es ds w :
  at_ s [] (b :: es) ds true auth false true w →
  (auth = true → length (auth_msg username password) <= N) → length (request_msg d p) <= N →
  ∃ s' m, ustep method username password T0 s []
      (Received [Socks5.version; if auth then Socks5.username_or_password else Socks5.no_auth_required] []) = Some (s', []) ∧
    at_ s' [m] es ds false auth (negb auth) true w ∧
    span m = if auth then auth_msg username password else request_msg d p.
Proof.
  intros A HNa HNr. unfold ustep. rewrite (at_closed _ _ _ _ _ _ _ _ _ A), bool_decide_eq_true_2 by apply A.
  unfold on_upstream_read. set (mt := if auth then Socks5.username_or_password else Socks5.no_auth_required).
  destruct (read2 Socks5.version mt) as (buf & -> & Wb & Sz & E0 & E1 & b' & Eo & Eb). cbn [mbind option_bind reply_stage].
  rewrite (at_ms _ _ _ _ _ _ _ _ _ A). unfold ReadUpstreamMethodSelectResponse. rewrite Sz, E0, E1. cbn [mbind option_bind].
  rewrite (at_au _ _ _ _ _ _ _ _ _ A), (at_hs _ _ _ _ _ _ _ _ _ A).
  change (2 <? 2) with false. rewrite (bool_decide_eq_true_2 (Socks5.version = _)) by done. cbn [negb].
  assert (negb auth && negb (bool_decide (mt = Socks5.no_auth_required)) = false) as -> by (unfold mt; by destruct auth).
  assert (auth && negb (bool_decide (mt = Socks5.username_or_password)) = false) as -> by (unfold mt; by destruct auth).
  rewrite Eo. cbn [mbind option_bind]. set (s1 := set_up s (set_flags _ _ _ _)). clear mt E1.
  pose proof (at_es _ _ _ _ _ _ _ _ _ A) as Be. inversion Be as [|? ? Bb _]; subst.
  pose proof (at_queue _ _ _ _ _ _ _ _ _ A) as R. cbn [app] in R.
  destruct auth eqn:Ha.
  - unfold WriteUpstreamAuthRequest.
    destruct (fill_first s1 b (es ++ ds) [[Socks5.version]; [to_u8 (Z.of_nat (length username))]; username;
      [to_u8 (Z.of_nat (length password))]; password]) as (q & m & -> & Rq & Fm & Sm); [done|done|done|].
    cbn [mbind option_bind]. unfold WriteUpstreamInPipe.
    change (write_inprogress_ _) with (write_inprogress_ (up_ s)). rewrite (at_wip _ _ _ _ _ _ _ _ _ A).
    cbn [mbind option_bind]. unfold after_reply. rewrite Eb. cbn [mbind option_bind reply_stage].
    assert (span m = auth_msg username password) as Em
      by (rewrite Sm; unfold auth_msg; cbn [concat]; by rewrite app_nil_r).
    eexists _, m. split; [done|]. split; [|done].
    apply (at_fill s b es ds true true false false true false true w q m A); try done.
    destruct Fm as [Wm _]. rewrite <- length_span, Em by done. by apply HNa.
  - destruct (at_request_sent s b es ds true false true w A) as (s' & m & E & A' & Sm); [done|done|].
    fold s1 in E. rewrite E. cbn [mbind option_bind]. unfold after_reply. rewrite Eb. cbn [mbind option_bind reply_stage].
    by exists s', m.
Qed.

Lemma at_auth_reply s b es ds w :
  at_ s [] (b :: es) ds false true false true w → length (request_msg d p) <= N →
  ∃ s' m, ustep method username password T0 s [] (Received [Socks5.version; x00] []) = Some (s', []) ∧
    at_ s' [m] es ds false false true true w ∧ span m = request_msg d p.
Proof.
  intros A HNr. unfold ustep. rewrite (at_closed _ _ _ _ _ _ _ _ _ A), bool_decide_eq_true_2 by apply A.
  unfold on_upstream_read.
  destruct (read2 Socks5.version x00) as (buf & -> & Wb & Sz & E0 & E1 & b' & Eo & Eb). cbn [mbind option_bind reply_stage].
  rewrite (at_ms _ _ _ _ _ _ _ _ _ A). cbn [mbind option_bind reply_stage]. rewrite (at_au _ _ _ _ _ _ _ _ _ A).
  unfold ReadUpstreamAuthResponse. rewrite Sz, E0, E1. cbn [mbind option_bind].
  rewrite (at_ms _ _ _ _ _ _ _ _ _ A), (at_hs _ _ _ _ _ _ _ _ _ A).
  change (2 <? 2) with false. rewrite !bool_decide_eq_true_2 by done. cbn [negb].
  rewrite Eo. cbn [mbind option_bind].
  destruct (at_request_sent s b es ds false true true w A) as (s' & m & E & A' & Sm); [done|done|].
  cbv zeta in E. rewrite E. cbn [mbind option_bind]. unfold after_reply. rewrite Eb. cbn [mbind option_bind reply_stage].
  by exists s', m.
Qed.

(** The reply of the server is as long as the client takes it to be. *)
Lemma socks5_reply_good : socks5_reply_length (Server.socks5_reply d p) = Some (length (Server.socks5_reply d p)).
Proof.
  unfold socks5_reply_length, Server.socks5_reply. cbn [length]. rewrite length_wire.
  assert (∃ b, Socks5.ep_dest (Server.bound d p) = to_v4 b ∧ length b = 4 ∨
               Socks5.ep_dest (Server.bound d p) = to_v6 b ∧ length b = 16) as (b & [[-> Hb]|[-> Hb]])
    by (destruct d as [b|n|b]; simpl in *; eauto).
  all: unfold wire_size; cbn [dest_body]; rewrite Hb; reflexivity.
Qed.

Lemma at_final_reply s wip w :
  at_ s [] [] [] false false true wip w →
  ∃ s', ustep method username password T0 s [] (Received (Server.socks5_reply d p) []) = Some (s', []) ∧
    at_ s' [] [] [] false false false wip w.
Proof.
  intros A. unfold ustep. rewrite (at_closed _ _ _ _ _ _ _ _ _ A), bool_decide_eq_true_2 by apply A.
  unfold on_upstream_read. set (r := Server.socks5_reply d p).
  assert (length r <= 22) as Hr.
  { unfold r, Server.socks5_reply. cbn [length]. rewrite length_wire. unfold wire_size.
    destruct d as [b|n|b]; simpl in *; lia. }
  destruct (read_buf_spec SOCKET_DEBUF_SIZE r) as (buf & -> & Wb & Sp & _ & Sz & _); [unfold SOCKET_DEBUF_SIZE; lia|].
  cbn [mbind option_bind reply_stage]. rewrite (at_ms _ _ _ _ _ _ _ _ _ A). cbn [mbind option_bind reply_stage].
  rewrite (at_au _ _ _ _ _ _ _ _ _ A). cbn [mbind option_bind reply_stage]. rewrite (at_hs _ _ _ _ _ _ _ _ _ A).
  unfold ReadUpstreamSocksResponse.
  assert (match method with
          | CRYPTO_SOCKS4 | CRYPTO_SOCKS4A => Some (socks4_reply_length (span buf))
          | CRYPTO_SOCKS5 | CRYPTO_SOCKS5H => Some (socks5_reply_length (span buf))
          | _ => None end = Some (socks5_reply_length (span buf))) as -> by (by destruct method_socks5 as [-> | ->]).
  cbn [mbind option_bind]. rewrite Sp. unfold r at 1. rewrite socks5_reply_good. fold r.
  rewrite Sz, Nat.ltb_irrefl.
  destruct (advance_past buf r [] (length r)) as (b' & -> & W' & S'); [done|by rewrite app_nil_r|done|].
  cbn [mbind option_bind]. unfold after_reply. assert (empty b' = true) as -> by (by apply empty_span).
  cbn [mbind option_bind]. eexists. split; [done|]. destruct A as [Acl Ac Ar Aq Ag Ae Ad As Am Aa Ah Aw Awr]. by split.
Qed.

(** ** The start *)

Lemma at_pipe s gs b es ds ms au hs w e k :
  at_ s gs (b :: es) ds ms au hs false w → ms || au = true → eager N k e → length gs <= k → reads e = [] →
  ∃ s' e', WriteUpstreamInPipe method T0 s e = Some (s', e') ∧
    at_ s' [] (b :: es) ds ms au hs false (w ++ cat gs) ∧
    upstream_writable_ (up_ s') = upstream_writable_ (up_ s) ∧ reads e' = [] ∧ eager N (k - length gs) e'.
Proof.
  intros [Acl Ac Ar Aq Ag Ae Ad As Am Aa Ah Aw Awr] Hg He Hk Hr. unfold WriteUpstreamInPipe. rewrite Aw.
  apply Forall_app in As as [As1 As2]. inversion Ae as [|? ? Bb _]; subst.
  destruct (pipe_loop_progress method T0 D N gs (length (writes e) + 1) k s e (b :: es ++ ds))
    as (q & e' & -> & R' & Hr' & He'); try done.
  { destruct He as [ws Hws]. rewrite Hws. len. }
  eexists _, e'. split; [done|]. rewrite <- Hr, <- Hr'. unfold ReadStream.
  change (closed_ (flushed _ _ _)) with (closed_ s). rewrite Acl. by split.
Qed.

Lemma at_resend xs : ∀ fuel q s gs es ds ms au hs w,
  IoQueue.represents D q xs → Forall full xs → Forall (λ b, size b <= N) xs → length xs <= fuel →
  at_ s gs es ds ms au hs false w → upstream_writable_ (up_ s) = false →
  ∃ s', resend_loop method T0 fuel s q = Some s' ∧ at_ s' gs es (ds ++ xs) ms au hs false w ∧
    upstream_writable_ (up_ s') = false.
Proof.
  induction xs as [|b xs IH]; intros fuel q s gs es ds ms au hs w R F Sz Hf A Hw.
  - exists s. rewrite app_nil_r. split; [|done].
    destruct fuel; cbn [resend_loop]; by rewrite (IoQueue.empty_represents _ _ _ R), bool_decide_eq_true_2.
  - destruct fuel as [|fuel]; [simpl in Hf; lia|]. cbn [resend_loop].
    rewrite (IoQueue.empty_represents _ _ _ R), bool_decide_eq_false_2 by done.
    rewrite (IoQueue.front_represents _ _ _ R). cbn [head mbind option_bind].
    inversion F as [|? ? Fb Fs]; subst. inversion Sz as [|? ? Sb Ss]; subst.
    unfold OnStreamRead. rewrite bool_decide_eq_true_2 by apply A. cbn [negb].
    unfold push_upstream. pose proof (socks5_plain method method_socks5) as Hpl. unfold plain in Hpl. rewrite Hpl.
    cbn [mbind option_bind]. fold (push s b). apply IoQueue.pop_front_represents in R as [_ R].
    assert (OnUpstreamWriteFlush (push s b) = push s b) as ->.
    { unfold OnUpstreamWriteFlush. change (upstream_writable_ (up_ (push s b))) with (upstream_writable_ (up_ s)).
      by rewrite Hw, andb_false_r. }
    destruct (IH fuel (IoQueue.pop_front q) (push s b) gs es (ds ++ [b]) ms au hs w) as (s' & E & A' & Hw');
      [done|done|done|simpl in Hf; lia| |done|by exists s'; rewrite <- app_assoc in A'].
    destruct A as [Acl Ac Ar Aq Ag Ae Ad As Am Aa Ah Aw Awr]. split; try done.
    + cbn [push up_ set_up set_queue upstream_]. rewrite (app_assoc es), (app_assoc gs).
      by apply IoQueue.push_back_represents.
    + apply Forall_app. split; [done|by constructor].
    + rewrite app_assoc. apply Forall_app. split; [done|by constructor].
Qed.

Lemma at_connected s payload k ws :
  request_ s = header_of d p → waits D (pending_data_ s) payload →
  up_ s = set_channel (up_ (init D)) connecting → closed_ s = false →
  1 <= k → 3 <= N → length payload <= N →
  ∃ s' e' es ps,
    connected_ method username password to_string make_address T0 D s (mkEnv [] (replicate k (Wrote N false) ++ ws)) TryAgain
    = Some (s', e') ∧
    at_ s' [] es ps true auth false true (greeting_msg username password) ∧ reads e' = [] ∧
    cat ps = payload ∧ length es = if auth then 2 else 1.
Proof.
  intros Hr (ps & Rp & Fp & Ep) Hu Hcl Hk HN Hpl. rewrite connected_idle. cbv zeta.
  set (s0 := set_up s (set_channel _ _)). set (e := mkEnv [] _).
  assert (eager N k e) as He by (by exists ws).
  assert (send_request method username password to_string make_address T0 s0
          = WriteUpstreamMethodSelectRequest username password s0) as ->
    by (unfold send_request; by destruct method_socks5 as [-> | ->]).
  assert (∃ sa g es, WriteUpstreamMethodSelectRequest username password s0 = Some sa ∧
    at_ sa [g] es [] true auth false false [] ∧ upstream_writable_ (up_ sa) = false ∧
    pending_data_ sa = pending_data_ s ∧ span g = greeting_msg username password ∧
    length es = if auth then 2 else 1) as (sa & g & es & -> & Aa & Hwa & Hpa & Sg & Les).
  { unfold WriteUpstreamMethodSelectRequest. cbv zeta.
    destruct (append_all_spec [[Socks5.version; x01]; [if auth then Socks5.username_or_password else Socks5.no_auth_required]]
      make wf_make) as (g & -> & Wg & Sg). cbn [mbind option_bind]. cbn [concat app] in Sg.
    change (span make) with (@nil byte) in Sg. cbn [app] in Sg.
    assert (full g) as Fg by (split; [done|by rewrite Sg]). assert (blank make) as Bm by (split; [apply wf_make|done]).
    assert (size g <= N) as Szg by (rewrite <- length_span, Sg by done; exact HN).
    assert (IoQueue.represents D (upstream_ (up_ s0)) []) as R
      by (unfold s0; rewrite Hu; by apply IoQueue.represents_make).
    pose proof (IoQueue.push_back_represents D _ _ g R) as R1. cbn [app] in R1.
    pose proof (IoQueue.push_back_represents D _ _ make R1) as R2. cbn [app] in R2.
    pose proof (IoQueue.push_back_represents D _ _ make R2) as R3. cbn [app] in R3.
    assert (socks_handshake_ (up_ s) = false ∧ write_inprogress_ (up_ s) = false ∧ written_ (up_ s) = [] ∧
      upstream_writable_ (up_ s) = false) as (U1 & U2 & U3 & U4) by (by rewrite Hu).
    unfold greeting_msg. destruct auth eqn:Ha.
    - eexists _, g, [make; make]. split; [done|]. split; [|by rewrite Sg].
      split; [exact Hcl|done|exact Hr|exact R3|by constructor|by repeat constructor|done|by constructor|
        done|done|exact U1|exact U2|exact U3].
    - eexists _, g, [make]. split; [done|]. split; [|by rewrite Sg].
      split; [exact Hcl|done|exact Hr|exact R2|by constructor|by repeat constructor|done|by constructor|
        done|done|exact U1|exact U2|exact U3]. }
  assert (∃ b es', es = b :: es') as (b & es' & ->) by (destruct es, auth; try done; by do 2 eexists).
  assert (greeting_msg username password = [] ++ cat [g]) as Eg by (unfold cat; cbn; by rewrite Sg, app_nil_r).
  assert (∀ s2 e2 gs2 ds2 w2, at_ s2 gs2 (b :: es') ds2 true auth false false w2 → eager N (length gs2) e2 → reads e2 = [] →
    w2 ++ cat gs2 = greeting_msg username password →
    ∃ s' e', ('(s, e) ← WriteUpstreamInPipe method T0 (set_up s2 (set_writable (up_ s2) true)) e2;
      Some (OnUpstreamWriteFlush s, e)) = Some (s', e') ∧
      at_ s' [] (b :: es') ds2 true auth false true (greeting_msg username password) ∧ reads e' = []) as Hend.
  { intros s2 e2 gs2 ds2 w2 A2 He2 Hr2 Ew. destruct (at_pipe (set_up s2 (set_writable (up_ s2) true)) gs2 b es' ds2 true auth false w2
      e2 (length gs2)) as (s3 & e3 & -> & A3 & Hw3 & Hr3 & _); try done; [by destruct A2|].
    cbn [mbind option_bind]. eexists _, e3. split; [done|]. split; [|done]. rewrite Ew in A3.
    unfold OnUpstreamWriteFlush. destruct A3 as [Acl Ac Ar Aq Ag Ae Ad As Am Aau Ah Aw Awr].
    rewrite (IoQueue.empty_represents _ _ _ Aq), bool_decide_eq_false_2 by done. rewrite Hw3.
    change (upstream_writable_ (up_ (set_up s2 _))) with true. cbn [negb andb]. unfold wait_write.
    rewrite bool_decide_eq_true_2 by exact Ac. by split. }
  cbn [mbind option_bind]. rewrite (at_closed _ _ _ _ _ _ _ _ _ Aa), Hpa, (IoQueue.empty_represents _ _ _ Rp).
  destruct (bool_decide_reflect (ps = [])) as [->|Hne].
  - cbn [mbind option_bind]. destruct (Hend sa e [g] [] [] Aa) as (s' & e' & E & A' & Hr'); [|done|done|].
    { exists (replicate (k - 1) (Wrote N false) ++ ws). cbn [e writes length]. rewrite app_assoc, <- replicate_add.
      f_equal. f_equal. lia. }
    exists s', e', (b :: es'), []. split_and!; try done.
  - cbn [mbind option_bind IoQueue.move_construct]. set (q := IoQueue.mkQueue _ _ _).
    assert (IoQueue.represents D q ps) as Rq by (destruct Rp; by split).
    rewrite (IoQueue.length_represents _ _ _ Rq).
    assert (Forall (λ b, size b <= N) ps) as Szp.
    { clear - Fp Ep Hpl. rewrite <- Ep in Hpl. clear Ep. induction Fp as [|x xs [Wx _] _ IH]; [done|].
      cbn [map concat] in Hpl. rewrite length_app, length_span in Hpl by done. constructor; [lia|]. apply IH. lia. }
    destruct (at_resend ps (length ps) q (set_pending_data sa (IoQueue.mkQueue 0 0 (IoQueue.queue (IoQueue.make D))))
      [g] (b :: es') [] true auth false []) as (s2 & -> & A2 & Hw2); try done; [by destruct Aa|]. cbn [app] in A2.
    cbn [mbind option_bind].
    destruct (at_pipe s2 [g] b es' ps true auth false [] e k) as (s3 & e3 & -> & A3 & Hw3 & Hr3 & He3); try done.
    cbn [mbind option_bind]. rewrite <- Eg in A3.
    destruct (Hend s3 e3 [] ps (greeting_msg username password) A3) as (s' & e' & E & A' & Hr');
      [by destruct He3 as [ws' E']; exists (replicate (k - length [g]) (Wrote N false) ++ ws')|done|by rewrite app_nil_r|].
    exists s', e', (b :: es'), ps. split_and!; try done.
Qed.

(** The request and the data behind it are written, and the reply to it is read. *)
Lemma at_request_written k s m ps payload w :
  at_ s [m] [] ps false false true true w → span m = request_msg d p → cat ps = payload → length ps < k →
  ∃ s', ustep method username password T0 s [] (Sent (replicate k (Wrote N false))) = Some (s', []) ∧
    at_ s' [] [] [] false false true false (w ++ request_msg d p ++ payload).
Proof.
  intros A Em Ep Hk. destruct (at_sent s [m] [] ps false false true w [] [] k A)
    as (s' & E & A'); [done|simpl; lia|by right|]. rewrite app_nil_r in E. exists s'. split; [done|].
  cbn [orb app] in A'. unfold cat in A'. cbn [map concat] in A'. rewrite Em in A'. fold (cat ps) in A'. by rewrite Ep in A'.
Qed.

Lemma at_last k s w :
  at_ s [] [] [] false false true false w →
  ∃ s', ustep method username password T0 s [] (Received (Server.socks5_reply d p) []) = Some (s', []) ∧
    ustep method username password T0 s' [] (Sent (replicate k (Wrote N false))) = Some (s', []) ∧
    at_ s' [] [] [] false false false false w.
Proof.
  intros A. destruct (at_final_reply s false w A) as (s' & E & A').
  exists s'. split; [done|]. split; [|done]. unfold ustep. rewrite (at_closed _ _ _ _ _ _ _ _ _ A').
  by rewrite (at_wip _ _ _ _ _ _ _ _ _ A'), andb_false_r.
Qed.

End Exchange.

(** ** The exchange *)

(** Each reply is followed by the channel becoming writable. *)
Definition exchange (N k : nat) (replies : list (list byte)) : list uevent :=
  concat (map (λ r, [Received r []; Sent (replicate k (Wrote N false))]) replies).

Lemma urun_two s ev1 ev2 evs s1 s2 :
  ustep method username password T0 s [] ev1 = Some (s1, []) →
  ustep method username password T0 s1 [] ev2 = Some (s2, []) →
  urun method username password T0 s [] (ev1 :: ev2 :: evs) = urun method username password T0 s2 [] evs.
Proof. intros E1 E2. cbn [urun]. rewrite E1. cbn [mbind option_bind urun]. by rewrite E2. Qed.

Lemma full_length xs : Forall full xs → length xs <= length (cat xs).
Proof.
  induction 1 as [|b xs [Wb Sb] _ IH]; [done|]. unfold cat in *. cbn [map concat length]. rewrite length_app.
  assert (1 <= length (span b)) by (destruct (span b); [done|simpl; lia]). lia.
Qed.

Abbreviation messages d p payload :=
  (Server.socks5_messages username password [Server.wanted username password] Socks5.cmd_connect x00 d p payload).
Abbreviation replies d p := (Server.socks5_replies username password d p).

Lemma exchange_run D N k d p payload s :
  2 <= D → dest_wf d → port_wf p → length (concat (messages d p payload)) <= N → length payload < k →
  request_ s = header_of d p → waits D (pending_data_ s) payload →
  up_ s = set_channel (up_ (init D)) connecting → closed_ s = false →
  ∃ s1 e1, connected_ method username password to_string make_address T0 D s (mkEnv [] (replicate k (Wrote N false))) TryAgain
           = Some (s1, e1) ∧ reads e1 = [] ∧
    ∀ j, j <= length (replies d p) →
      ∃ s', urun method username password T0 s1 [] (exchange N k (take j (replies d p))) = Some (s', []) ∧
        written_ (up_ s') = concat (take (S j) (messages d p payload)) ∧
        closed_ s' = false ∧ channel_ (up_ s') = connected.
Proof.
  intros HD Hd Hp HN Hk Hr Hw Hu Hcl.
  assert (Server.greeting [Server.wanted username password] = greeting_msg username password) as Eg
    by (unfold Server.greeting, greeting_msg, Server.wanted; reflexivity).
  assert (Socks5.auth_wire username password = auth_msg username password) as Ea by done.
  unfold Server.socks5_messages in *. rewrite Eg, Ea in *. fold (request_msg d p) in *.
  assert (length (greeting_msg username password) = 3) as Lg by done.
  assert (auth_required username password = true → length (auth_msg username password) <= N) as Ha0.
  { intros Ha. unfold Server.auth_required in HN. unfold auth_required in Ha. rewrite Ha in HN. cbn [concat app] in HN.
    rewrite !length_app in HN. lia. }
  assert (3 <= N ∧ length (request_msg d p) <= N ∧ length payload <= N) as (HN3 & HNr & HNp).
  { destruct (Server.auth_required _ _); cbn [concat app] in HN; rewrite !length_app, Lg in HN; lia. }
  destruct (at_connected D N d p HD s payload k [] Hr Hw Hu Hcl) as (s1 & e1 & es & ps & E1 & A1 & Hr1 & Ep & Les);
    [lia|done|done|]. rewrite app_nil_r in E1. exists s1, e1. split; [done|]. split; [done|].
  pose proof (full_length ps (at_ds _ _ _ _ _ _ _ _ _ _ _ _ _ A1)) as Lps. rewrite Ep in Lps.
  pose proof (λ s w, at_last D N d p HD Hd k s w) as Hlast.
  pose proof (λ s m w A E, at_request_written D N d p HD k s m ps payload w A E Ep ltac:(lia)) as Hreq.
  destruct es as [|b es]; [by destruct (auth_required _ _)|].
  destruct (at_method_reply D N d p HD Hd Hp s1 b es ps _ A1 Ha0 HNr) as (s2 & m2 & E2 & A2 & Em2).
  assert (∃ s', urun method username password T0 s1 [] [] = Some (s', []) ∧
    written_ (up_ s') = greeting_msg username password ∧ closed_ s' = false ∧ channel_ (up_ s') = connected) as Hj0.
  { exists s1. split; [done|]. destruct A1 as [? ? ? ? ? ? ? ? ? ? ? ? ->]. done. }
  unfold Server.socks5_replies, exchange. fold (auth_required username password).
  change (Server.auth_required username password) with (auth_required username password).
  change (Server.wanted username password) with
    (if auth_required username password then Socks5.username_or_password else Socks5.no_auth_required).
  destruct (auth_required username password) eqn:Ha; cbn [app length].
  - assert (es = [] → False) as Hes by (intros ->; simpl in Les; lia).
    destruct (at_sent D N d p HD s2 [m2] es ps false true false (greeting_msg username password) [] [] k A2)
      as (s3 & E3 & A3); [done|simpl; lia|left; split; [done|intros ->; by apply Hes]|]. cbn [orb] in A3. rewrite app_nil_r in E3.
    destruct es as [|b3 [|]]; [done| |by simpl in Les].
    destruct (at_auth_reply D N d p HD Hd Hp s3 b3 [] ps _ A3 HNr) as (s4 & m4 & E4 & A4 & Em4).
    destruct (Hreq s4 m4 _ A4 Em4) as (s5 & E5 & A5). destruct (Hlast s5 _ A5) as (s6 & E6 & E7 & A6).
    assert (cat [m2] = auth_msg username password) as Ecat by (unfold cat; cbn; by rewrite Em2, app_nil_r).
    rewrite Ecat in *.
    intros [|[|[|[|j]]]] Hj; cbn [take map concat app]; [by rewrite app_nil_r|..|lia].
    + rewrite (urun_two _ _ _ _ _ _ E2 E3). exists s3. rewrite app_nil_r.
      destruct A3 as [? ? ? ? ? ? ? ? ? ? ? ? ->]. done.
    + rewrite (urun_two _ _ _ _ _ _ E2 E3), (urun_two _ _ _ _ _ _ E4 E5). exists s5. rewrite app_nil_r.
      destruct A5 as [? ? ? ? ? ? ? ? ? ? ? ? ->]. by rewrite <- !app_assoc.
    + rewrite (urun_two _ _ _ _ _ _ E2 E3), (urun_two _ _ _ _ _ _ E4 E5), (urun_two _ _ _ _ _ _ E6 E7).
      exists s6. rewrite app_nil_r. destruct A6 as [? ? ? ? ? ? ? ? ? ? ? ? ->]. by rewrite <- !app_assoc.
  - destruct es as [|b3 es]; [|by simpl in Les]. cbn [negb] in A2.
    destruct (Hreq s2 m2 _ A2 Em2) as (s3 & E3 & A3). destruct (Hlast s3 _ A3) as (s4 & E4 & E5 & A4).
    intros [|[|[|j]]] Hj; cbn [take map concat app]; [by rewrite app_nil_r|..|lia].
    + rewrite (urun_two _ _ _ _ _ _ E2 E3). exists s3. rewrite app_nil_r.
      destruct A3 as [? ? ? ? ? ? ? ? ? ? ? ? ->]. done.
    + rewrite (urun_two _ _ _ _ _ _ E2 E3), (urun_two _ _ _ _ _ _ E4 E5). exists s4. rewrite app_nil_r.
      destruct A4 as [? ? ? ? ? ? ? ? ? ? ? ? ->]. done.
Qed.

(** ** Properties *)

(** C4: the SOCKS5 tunnel, end to end.  An application that asks the client for a
    destination, a client that forwards to a SOCKS5 server and that server, with the
    same user name and password or none, and a destination that is not a name which the client has to
    resolve first: the application is answered, the client
    writes to the server message by message, each as soon as the reply to the one
    before has come, exactly the bytes that the server expects, and on these
    messages the server gives exactly the replies that the client was given and
    becomes a stream to the destination, with the application's bytes queued for it. *)
Theorem tunnel_socks5 D N k junkm methods rsv d p payload junk4 junk6 junk_hi junk_lo :
  (∀ h a, make_address h = Some a → address_wf a) →
  2 <= D → length junkm = 255 → length methods <= 255 → Socks5.no_auth_required ∈ methods →
  length username <= 255 → length password <= 255 →
  dest_wf d → port_wf p → dest_ok d → p ≠ 0%Z → resolves method make_address d = false →
  let d' := cmd_dest make_address d in
  dest_ok d' →
  (Z.of_nat (length (concat (messages d' p payload))) <= SOCKET_DEBUF_SIZE)%Z →
  let q := Server.socks5_request Socks5.cmd_connect rsv d p in
  (Z.of_nat (length (q ++ payload)) <= SOCKET_BUF_SIZE)%Z →
  length (concat (messages d' p payload)) <= N → length payload < k →
  ∃ s0 s1 e1 srv,
    run method make_address junk4 junk6 junk_hi junk_lo T0 junkm (init D)
      [Readable (Read (Server.greeting methods)); WriteDone true; Readable (Read (q ++ payload)); WriteDone true]
    = Some s0 ∧
    sent_ s0 = [Socks5.version; Socks5.no_auth_required] ++ Server.socks5_reply d p ∧
    connected_ method username password to_string make_address T0 D s0 (mkEnv [] (replicate k (Wrote N false))) TryAgain
    = Some (s1, e1) ∧
    (∀ j, j <= length (replies d' p) →
       ∃ s, urun method username password T0 s1 [] (exchange N k (take j (replies d' p))) = Some (s, []) ∧
         written_ (up_ s) = concat (take (S j) (messages d' p payload))) ∧
    Server.run method username password to_string junk4 junk6 junk_hi junk_lo junkm (Server.init D)
      (Server.socks5_events false (messages d' p payload) (replies d' p)) = Some srv ∧
    Server.streaming to_string D srv d' p payload (concat (replies d' p)).
Proof.
  intros Hma HD Hj Hl Hin Hu Hpw Hd Hp Hok Hp0 Hr d' Hok' Hs q Hq HN Hk.
  destruct (socks5_app_run method make_address junk4 junk6 junk_hi junk_lo T0 Hma D junkm methods rsv d p payload)
    as (s0 & E0 & K0 & K1 & K2 & K3 & K4 & K5 & K6 & K7 & K8); try done.
  assert (dest_wf d') as Hd' by (by apply cmd_dest_wf).
  destruct (exchange_run D N k d' p payload s0) as (s1 & e1 & E1 & _ & Hex); try done.
  destruct (Server.socks5_handshake_run method username password to_string junk4 junk6 junk_hi junk_lo D junkm false
    [Server.wanted username password] Socks5.cmd_connect x00 d' p payload) as (srv & E2 & St); try done;
    [simpl; lia|by apply list_elem_of_singleton|].
  exists s0, s1, e1, srv. split_and!; try done. intros j Hj'. destruct (Hex j Hj') as (s & Es & Ew & _). by exists s.
Qed.

End Socks5.

(** ** Witnesses *)

Abbreviation example_messages :=
  (Server.socks5_messages [x75] [x70] [x02] Socks5.cmd_connect x00 (to_domain [x61]) 80 [x47]).
Abbreviation example_replies := (Server.socks5_replies [x75] [x70] (to_domain [x61]) 80).

Lemma tunnel_socks5_witness :
  let HA := (λ _, x00) : Allocator in
  let HL := example_http plain_request in
  let HC := example_lib in
  let HS := (λ _, replicate 20 x09) : Sha1 in
  let HK := example_keylib in
  let HN := example_rand in
  ∃ s0 s1 e1 srv,
    run CRYPTO_SOCKS5H (λ _, None) [] [] x00 x00 [] (replicate 255 x00) (init 4)
      [Readable (Read (Server.greeting [x00])); WriteDone true;
       Readable (Read (Server.socks5_request x01 x00 (to_domain [x61]) 80 ++ [x47])); WriteDone true] = Some s0 ∧
    sent_ s0 = [x05; x00] ++ Server.socks5_reply (to_domain [x61]) 80 ∧
    connected_ CRYPTO_SOCKS5H [x75] [x70] Server.example_to_string (λ _, None) [] 4 s0
      (mkEnv [] (replicate 2 (Wrote 100 false))) TryAgain = Some (s1, e1) ∧
    (∀ j, j <= length example_replies →
       ∃ s, urun CRYPTO_SOCKS5H [x75] [x70] [] s1 [] (exchange 100 2 (take j example_replies)) = Some (s, []) ∧
         written_ (up_ s) = concat (take (S j) example_messages)) ∧
    Server.run CRYPTO_SOCKS5H [x75] [x70] Server.example_to_string [] [] x00 x00 (replicate 255 x00) (Server.init 4)
      (Server.socks5_events false example_messages example_replies) = Some srv ∧
    Server.streaming Server.example_to_string 4 srv (to_domain [x61]) 80 [x47] (concat example_replies).
Proof.
  intros HA HL HC HS HK HN.
  apply (tunnel_socks5 CRYPTO_SOCKS5H [x75] [x70] Server.example_to_string (λ _, None) [] (or_intror eq_refl) 4 100 2
    (replicate 255 x00) [x00] x00 (to_domain [x61]) 80 [x47] [] [] x00 x00);
    [done|lia|reflexivity|simpl; lia|left|simpl; lia|simpl; lia|simpl; lia|done|done|done|reflexivity|done|
     vm_compute; congruence|vm_compute; congruence|vm_compute; lia|simpl; lia].
Defined.

Lemma tunnel_shadowsocks_witness :
  let HA := (λ _, x00) : Allocator in
  let HL := example_http plain_request in
  let HC := example_lib in
  let HS := (λ _, replicate 20 x09) : Sha1 in
  let HK := example_keylib in
  let HN := example_rand in
  ∃ s0 out decoder,
    run CRYPTO_AES128GCMSHA256_EVP (λ _, None) [] [] x00 x00 [] (replicate 255 x00) (init 4)
      [Readable (Read (Server.greeting [x00])); WriteDone true;
       Readable (Read (Server.socks5_request x01 x00 (to_domain [x61]) 80 ++ [x47])); WriteDone true] = Some s0 ∧
    sent_ s0 = [x05; x00] ++ Server.socks5_reply (to_domain [x61]) 80 ∧
    (∀ N ws, length out <= N →
       ∃ s1 e1, connected_ CRYPTO_AES128GCMSHA256_EVP [] [x70] Server.example_to_string (λ _, None) [] 4 s0
                  (mkEnv [] (Wrote N false :: ws)) TryAgain = Some (s1, e1) ∧ written_ (up_ s1) = out) ∧
    make_cipher [] [x70] CRYPTO_AES128GCMSHA256_EVP false = Some decoder ∧
    ((Z.of_nat (length out) <= SOCKET_DEBUF_SIZE)%Z →
     ∃ srv decoder', SsServer.ss_run CRYPTO_AES128GCMSHA256_EVP Server.example_to_string [] (SsServer.ss_init 4)
         decoder [Read out] = Some (srv, decoder') ∧
       Server.streaming Server.example_to_string 4 srv (to_domain [x61]) 80 [x47] []).
Proof.
  intros HA HL HC HS HK HN.
  pose proof example_laws as L1. pose proof example_sha1laws as L2. pose proof example_keylaws as L3. pose proof example_randlaws as L4.
  apply (tunnel_shadowsocks CRYPTO_AES128GCMSHA256_EVP [] [x70] Server.example_to_string (λ _, None) [] eq_refl 4
    (replicate 255 x00) [x00] x00 (to_domain [x61]) 80 [x47] [] [] [] x00 x00);
    [done|lia|reflexivity|simpl; lia|left|simpl; lia|done|done|done|done|vm_compute; congruence].
Defined.

End Tunnel.
