(* ===== verification/TunnelRelay.v ===== *)
(** * Client and server joined

    The relay of the client (CliRelay.v) and that of the shadowsocks server (Relay.v) on
    the two ends of one connection: what the one has written is what the other may
    read, in pieces of the network's choosing.  A run is any interleaving of their
    handlers.  The invariant of each side speaks of the stream of the other, which
    grows as the other seals payloads; each step keeps its own side's invariant and
    carries over the other's. *)

From Stdlib Require Import ZArith Lia.
From stdpp Require Import base list numbers option.
From S2P Require Import Prelude IoBuffer IoQueue Addr Ss Hkdf Crypter Cipher Conn Relay RelayInv RelayFlow Dns Resolver CliRelay CliFlow Server SsServer.

Module TunnelRelay.
Import IoBuffer Addr Crypter Cipher Conn Relay RelayInv.

(** ** The joint machine *)

(** What the network does with the bytes under way: a piece of at most [n] bytes, nothing
    yet, or a broken connection. *)
Inductive delivery := Deliver (n : nat) | NotYet | Broken.

Fixpoint deliver (w : list byte) (del : list delivery) : list read_result :=
  match del with
  | [] => []
  | Deliver n :: del =>
      let n := n `min` Z.to_nat SOCKET_DEBUF_SIZE in
      Read (take n w) :: deliver (drop n w) del
  | NotYet :: del => TryAgain :: deliver w del
  | Broken :: del => ReadError :: deliver w del
  end.

(** [hs_] is the number of bytes the server has read before its relay started. *)
Record tunnel := mkTunnel { cl_ : CliRelay.client; sv_ : relay; hs_ : nat }.

(** The bytes under way. *)
Definition to_server (t : tunnel) : list byte := drop (hs_ t + length (down_got_ (sv_ t))) (up_sent_ (CliRelay.rl_ (cl_ t))).
Definition to_client (t : tunnel) : list byte := drop (length (up_got_ (CliRelay.rl_ (cl_ t)))) (down_sent_ (sv_ t)).

(** An event on one side, what the connection delivers to it meanwhile, and what the
    other operations answer. *)
Inductive tevent :=
  | AtClient (ev : CliRelay.event) (del : list delivery) (dr : list read_result) (dw cw : list write_result)
  | AtServer (ev : event) (del : list delivery) (dw : list write_result) (cr : list read_result) (cw : list write_result).

(** The server's connection where its handshake ends. *)
Definition relay_of (srv : Server.server) (encoder decoder : cipher) : relay :=
  RelayFlow.start (Server.upstream_ srv) (Server.downstream_ srv) (Some encoder) (Some decoder)
    (match Server.waiting_ srv with Server.wait_pipe => true | _ => false end) false.

Section Machine.
Context `{Allocator} `{CryptoLib} `{Sha1} `{HttpResponseLib}.
(** The client's random source and the server's. *)
Variables (Rc Rs : RandLib) (method : cipher_method) (T0 : list byte).

Definition tstep (t : tunnel) (te : tevent) : option tunnel :=
  match te with
  | AtClient ev del dr dw cw =>
      '(c, _) ← CliRelay.step (RND := Rc) method T0 (cl_ t) ev (mkEnv dr dw (deliver (to_client t) del) cw);
      Some (mkTunnel c (sv_ t) (hs_ t))
  | AtServer ev del dw cr cw =>
      '(s, _) ← step (RND := Rs) method false T0 (sv_ t) ev (mkEnv (deliver (to_server t) del) dw cr cw);
      Some (mkTunnel (cl_ t) s (hs_ t))
  end.

Fixpoint trun (t : tunnel) (tes : list tevent) : option tunnel :=
  match tes with
  | [] => Some t
  | te :: tes => t ← tstep t te; trun t tes
  end.

End Machine.

Lemma deliver_fits del : ∀ w, Forall fits (deliver w del).
Proof.
  induction del as [|[n| |] del IH]; intros w; simpl; constructor; try done. simpl. rewrite length_take.
  unfold SOCKET_DEBUF_SIZE. lia.
Qed.

Lemma deliver_prefix del : ∀ w, stream_of (deliver w del) `prefix_of` w.
Proof.
  unfold stream_of. induction del as [|[n| |] del IH]; intros w; simpl; try done; [apply prefix_nil|].
  rewrite <- (take_drop (n `min` Z.to_nat SOCKET_DEBUF_SIZE) w) at 3. apply prefix_app, IH.
Qed.

(** What is under way to a reader that has a prefix [p] of the stream, of which [x] was
    written: more of the stream. *)
Lemma under_way (p x w bs : list byte) :
  p `prefix_of` w → x `prefix_of` w → bs `prefix_of` drop (length p) x → (p ++ bs) `prefix_of` w.
Proof.
  intros [tp ->] [tx Hx] Hb. destruct (decide (length p <= length x)) as [Hle|Hgt].
  - assert (x = p ++ drop (length p) x) as Ex.
    { pose proof (f_equal (take (length p)) Hx) as E. rewrite take_app_length, take_app_le in E by done.
      rewrite E at 1. by rewrite take_drop. }
    rewrite Ex, <- app_assoc in Hx. apply app_inv_head in Hx as ->. apply prefix_app. by apply prefix_app_r.
  - rewrite drop_ge in Hb by lia. apply prefix_nil_inv in Hb as ->. rewrite app_nil_r. by eexists.
Qed.

(** ** The invariant *)

(** The stream of a list of payloads, sealed with the salt that is drawn from [RND]. *)
Section Stream.
Context `{Allocator} `{CryptoLaws} `{Sha1Laws}.
Variables (RND : RandLib) (u : suite) (km : list byte).

Local Abbreviation S := (own_sealing (RND := RND) u km).

Definition stream (qts : list (list byte)) : list byte := rand_bytes (RandLib := RND) (su_key u) ++ frames S 0 qts.

Lemma stream_app qts qts' : stream (qts ++ qts') = stream qts ++ frames S (advance 0 qts) qts'.
Proof. unfold stream. by rewrite frames_app, app_assoc. Qed.

Lemma stream_prefix qts qts' : qts `prefix_of` qts' → stream qts `prefix_of` stream qts'.
Proof. intros [tl ->]. rewrite stream_app. by apply prefix_app_r. Qed.

(** A decoder does not mind the stream growing. *)
Lemma ss_dec_more dn n qts qts' dec p w :
  n <= length (stream qts) → qts `prefix_of` qts' → ss_dec u km (rand_bytes (su_key u)) qts dn (drop n (stream qts)) dec p w →
  ss_dec u km (rand_bytes (su_key u)) qts' dn (drop n (stream qts')) dec p w.
Proof.
  intros Hn [tl ->] (c & dn' & rest & E & R & Hp & Hw). exists c, dn', (rest ++ frames S (advance 0 qts) tl).
  split; [done|]. split; [by apply dec_rel_more|]. split; [|done]. by rewrite app_assoc, Hp, stream_app, drop_app_le.
Qed.

End Stream.

Section Joint.
Context `{Allocator} `{CryptoLaws} `{Sha1Laws} `{CliFlow.HttpResponseLaws}.
Variables (Rc Rs : RandLib).
Context `{!RandLaws Rc} `{!RandLaws Rs}.
Variables (method : cipher_method) (T0 : list byte) (D : nat).
Hypothesis not_plain : plain method = false.

Variables (u : suite) (km : list byte).
Hypothesis suite_good : suite_ok u.
Hypothesis km_length : length km = MAX_KEY_LENGTH.

(** The request, what was queued for the application and, by the handshake, for the
    destination, and the payloads the handshake has delivered. *)
Variables (req D0 U0 : list byte) (dn0 : list (list byte)).

(** What each end has drawn, and its stream. *)
Local Abbreviation salt_c := (rand_bytes (RandLib := Rc) (su_key u)).
Local Abbreviation salt_s := (rand_bytes (RandLib := Rs) (su_key u)).
Local Abbreviation stream_c := (stream Rc u km).
Local Abbreviation stream_s := (stream Rs u km).

(** The client, while the server has sealed [qs]; [low] are payloads the client has
    sealed behind the request, [rs] what it is to read. *)
Definition cl_inv (low qs : list (list byte)) (rs : list read_result) (c : CliRelay.client) (ds us : list GrowableIOBuffer) : Prop :=
  inv false D (ss_dec u km salt_s qs [] (drop 0 (stream_s qs))) (CliFlow.ss_up (RND := Rc) u km [req] low) D0 (stream_c [req])
    (λ p r, (p ++ r) `prefix_of` stream_s qs) rs (CliRelay.rl_ c) ds us ∧
  downs true (CliRelay.rl_ c) ds ∧ piped true (CliRelay.rl_ c) us ∧ CliFlow.waiting (CliRelay.rl_ c) ds ∧ CliFlow.pend_ok D c.

(** The server, whose handshake took [n] bytes, while the client has sealed [qc] behind
    the request. *)
Definition sv_inv (n : nat) (low qc : list (list byte)) (rs : list read_result) (s : relay) (ds us : list GrowableIOBuffer) : Prop :=
  n <= length (stream_c (req :: qc)) ∧
  sound true D (ss_enc (RND := Rs) u km low) (ss_dec u km salt_c (req :: qc) dn0 (drop n (stream_c (req :: qc)))) [] U0
    (λ p r, (p ++ r) `prefix_of` drop n (stream_c (req :: qc))) rs s ds us.

(** A step of the client: its own payloads may grow. *)
Lemma client_turn low qs c ds us ev e :
  Forall payload_ok qs → cl_inv low qs (creads e) c ds us →
  ∃ c' e' ds' us', CliRelay.step (RND := Rc) method T0 c ev e = Some (c', e') ∧ cl_inv low qs (creads e') c' ds' us'.
Proof.
  intros Pq (I & Dn & Pi & Wt & Pd).
  set (W := up_got_ (CliRelay.rl_ c) ++ stream_of (creads e)).
  assert (W `prefix_of` drop 0 (stream_s qs)) as HW by apply (i_read I).
  pose (C := CliFlow.ss_codec (RND := Rc) method T0 D not_plain u km [req] low salt_s qs (drop 0 (stream_s qs)) W suite_good (rand_length _) Pq HW).
  destruct (CliFlow.client_step_sound method T0 D D0 (stream_c [req]) (H5 := C) c ev e ds us) as (c' & e' & ds' & us' & E & (I' & Rest)).
  { split; [|done]. eapply inv_mono; [exact I|done|done|apply (i_fits I)|done]. }
  exists c', e', ds', us'. split; [done|]. split; [|done].
  eapply inv_mono; [exact I'|done|done|apply (i_fits I')|]. pose proof (i_read I') as R. unfold peer_got in *. cbn in R. by rewrite R.
Qed.

Lemma server_turn n low qc s ds us ev e :
  Forall payload_ok (req :: qc) → sv_inv n low qc (dreads e) s ds us →
  ∃ s' e' ds' us', step (RND := Rs) method false T0 s ev e = Some (s', e') ∧ sv_inv n low qc (dreads e') s' ds' us'.
Proof.
  intros Pq (Hn & I & Dn & Up).
  set (W := down_got_ s ++ stream_of (dreads e)).
  assert (W `prefix_of` drop n (stream_c (req :: qc))) as HW by apply (i_read I).
  pose (C := RelayFlow.ss_codec (RND := Rs) method not_plain false T0 D u km low salt_c (req :: qc) dn0 (drop n (stream_c (req :: qc))) W
    suite_good km_length (rand_length _) Pq HW).
  destruct (RelayFlow.step_sound method false T0 D [] U0 W (H3 := C) s ev e ds us) as (s' & e' & ds' & us' & E & (I' & Rest)).
  { split; [|done]. eapply inv_mono; [exact I|done|done|apply (i_fits I)|done]. }
  exists s', e', ds', us'. split; [done|]. split; [done|]. split; [|done].
  eapply inv_mono; [exact I'|done|done|apply (i_fits I')|]. pose proof (i_read I') as R. unfold peer_got in *. cbn in R. by rewrite R.
Qed.

(** Between two events: the client has sealed [qc] behind the request, the server [qs]. *)
Record joined (t : tunnel) (qc qs : list (list byte)) (dc uc ds us : list GrowableIOBuffer) : Prop := {
  j_qc : Forall payload_ok (req :: qc);
  j_qs : Forall payload_ok qs;
  j_client : cl_inv qc qs [] (cl_ t) dc uc;
  j_server : sv_inv (hs_ t) qs qc [] (sv_ t) ds us;
  j_up : up_sent_ (CliRelay.rl_ (cl_ t)) ++ cat uc = stream_c (req :: qc);
  j_app : down_got_ (CliRelay.rl_ (cl_ t)) = concat qc;
  j_down : (down_sent_ (sv_ t) ++ cat ds) `prefix_of` stream_s qs;
  j_all : qs ≠ [] → down_sent_ (sv_ t) ++ cat ds = stream_s qs;
  j_dest : up_got_ (sv_ t) = concat qs }.

Lemma joined_client t te_ev del dr dw cw qc qs dc uc ds us :
  joined t qc qs dc uc ds us →
  ∃ t' qc' dc' uc', tstep Rc Rs method T0 t (AtClient te_ev del dr dw cw) = Some t' ∧ joined t' qc' qs dc' uc' ds us.
Proof.
  intros [Pc Ps (I & Xc) Sv Up App Dn All Ds]. cbn [tstep].
  set (e := mkEnv dr dw (deliver (to_client t) del) cw).
  destruct (client_turn qc qs (cl_ t) dc uc te_ev e Ps) as (c' & e' & dc' & uc' & -> & (I' & Rc')).
  { split; [|done]. eapply inv_mono; [exact I|done|done|apply deliver_fits|]. unfold peer_got.
    eapply under_way; [|eapply prefix_app_l, Dn|apply deliver_prefix].
    pose proof (i_read I) as R. unfold peer_got in R. cbn in R. by rewrite app_nil_r in R. }
  cbn [mbind option_bind]. destruct (i_urel I') as (w & (c2 & qts & Ec & En & -> & Eq & Lw) & Eu).
  assert (Forall payload_ok (req :: qts)) as Pq by apply En.
  eexists _, qts, dc', uc'. split; [done|]. split; try done.
  - split; [|done]. eapply inv_change; [exact I'|apply (i_drel I')| |done|].
    + eexists. split; [|exact Eu]. by exists c2, qts.
    + cbn. eapply transitivity; [|apply (i_read I')]. rewrite app_nil_r. by apply prefix_app_r.
  - destruct Sv as (Hn & J & Xs). pose proof (stream_prefix Rc u km _ _ (prefix_cons req _ _ Lw)) as Ps'.
    split; [by eapply Nat.le_trans, prefix_length|]. split; [|done].
    eapply inv_mono; [exact J|done| |done|].
    + intros ? ? ?. apply ss_dec_more; [done|by apply prefix_cons].
    + eapply transitivity; [apply (i_read J)|]. destruct Ps' as [tl ->]. rewrite drop_app_le by done. by apply prefix_app_r.
  - cbn. by rewrite Eu, <- (stream_app Rc u km [req]).
Qed.

(** What an encoder has made of the destination's bytes is a stream or its beginning. *)
Lemma ss_enc_stream low enc p w :
  ss_enc (RND := Rs) u km low enc p w →
  ∃ qts, ss_enc (RND := Rs) u km qts enc p w ∧ low `prefix_of` qts ∧ Forall payload_ok qts ∧ p = concat qts ∧ w `prefix_of` stream_s qts ∧
    (qts ≠ [] → w = stream_s qts).
Proof.
  intros (c & -> & [(-> & -> & -> & ->)|(qts & En & -> & <- & Lw)]).
  - exists []. split; [exists (fresh true u km); split; [done|by left]|]. split_and!; try done. apply prefix_nil.
  - exists qts. split; [exists c; split; [done|right; by exists qts]|]. split_and!; try done. apply En.
Qed.

Lemma joined_server t ev del dw cr cw qc qs dc uc ds us :
  joined t qc qs dc uc ds us →
  ∃ t' qs' ds' us', tstep Rc Rs method T0 t (AtServer ev del dw cr cw) = Some t' ∧ joined t' qc qs' dc uc ds' us'.
Proof.
  intros [Pc Ps (I & Xc) (Hn & J & Xs) Up App Dn All Ds]. cbn [tstep].
  set (e := mkEnv (deliver (to_server t) del) dw cr cw).
  destruct (server_turn (hs_ t) qs qc (sv_ t) ds us ev e Pc) as (s' & e' & ds' & us' & -> & (_ & J' & Rs')).
  { split; [done|]. split; [|done]. eapply inv_mono; [exact J|done|done|apply deliver_fits|]. unfold peer_got.
    pose proof (i_read J) as R. unfold peer_got in R. cbn in R. rewrite app_nil_r in R.
    eapply (under_way _ (drop (hs_ t) (up_sent_ (CliRelay.rl_ (cl_ t))))); [done| |].
    - rewrite <- Up. unfold prefix. destruct (decide (hs_ t <= length (up_sent_ (CliRelay.rl_ (cl_ t))))).
      + rewrite drop_app_le by done. by eexists.
      + rewrite (drop_ge (up_sent_ _)) by lia. by eexists.
    - rewrite drop_drop. apply deliver_prefix. }
  cbn [mbind option_bind]. destruct (i_drel J') as (w & Ew & Es).
  destruct (ss_enc_stream _ _ _ _ Ew) as (qts & Ew' & Lw & Pq & Eg & Pw & Eall).
  eexists _, qts, ds', us'. split; [done|]. split; try done.
  - split; [|done]. eapply inv_mono; [exact I| |done|done|].
    + intros ? ? ?. apply ss_dec_more; [lia|done].
    + eapply transitivity; [apply (i_read I)|by apply stream_prefix].
  - split; [done|]. split; [|done]. eapply inv_change; [exact J'|by exists w|apply (i_urel J')|done|].
    cbn. eapply transitivity; [|apply (i_read J')]. rewrite app_nil_r. by apply prefix_app_r.
  - cbn. by rewrite Es.
  - cbn. intros Hne. rewrite Es. by apply Eall.
Qed.

Lemma joined_run tes : ∀ t qc qs dc uc ds us,
  joined t qc qs dc uc ds us →
  ∃ t' qc' qs' dc' uc' ds' us', trun Rc Rs method T0 t tes = Some t' ∧ joined t' qc' qs' dc' uc' ds' us' ∧ hs_ t' = hs_ t.
Proof.
  induction tes as [|te tes IH]; intros t qc qs dc uc ds us J; [by exists t, qc, qs, dc, uc, ds, us|]. cbn [trun].
  assert (∃ t1 qc1 qs1 dc1 uc1 ds1 us1, tstep Rc Rs method T0 t te = Some t1 ∧ joined t1 qc1 qs1 dc1 uc1 ds1 us1)
    as (t1 & qc1 & qs1 & dc1 & uc1 & ds1 & us1 & E & J1).
  { destruct te as [ev del dr dw cw|ev del dw cr cw].
    - destruct (joined_client t ev del dr dw cw qc qs dc uc ds us J) as (t1 & qc1 & dc1 & uc1 & ? & ?). by do 7 eexists.
    - destruct (joined_server t ev del dw cr cw qc qs dc uc ds us J) as (t1 & qs1 & ds1 & us1 & ? & ?). by do 7 eexists. }
  rewrite E. cbn [mbind option_bind].
  destruct (IH t1 qc1 qs1 dc1 uc1 ds1 us1 J1) as (t' & qc' & qs' & dc' & uc' & ds' & us' & E' & J' & Hh).
  exists t', qc', qs', dc', uc', ds', us'. split; [done|]. split; [done|]. rewrite Hh.
  destruct te; cbn [tstep] in E; [destruct (CliRelay.step _ _ _ _ _) as [[]|]|destruct (step _ _ _ _ _ _) as [[]|]]; by simplify_eq/=.
Qed.

(** What the invariant says of the two directions, when the handshake has delivered the
    request and [U0]. *)
Lemma joined_flow t qc qs dc uc ds us dn :
  joined t qc qs dc uc ds us → dn0 = req :: dn → concat dn = U0 →
  let c := CliRelay.rl_ (cl_ t) in
  let s := sv_ t in
  (up_sent_ s ++ cat us) `prefix_of` down_got_ c ∧
  (uc = [] → to_server t = [] → up_sent_ s ++ cat us = down_got_ c) ∧
  (down_sent_ c ++ cat dc) `prefix_of` (D0 ++ up_got_ s) ∧
  (ds = [] → to_client t = [] → down_sent_ c ++ cat dc = D0 ++ up_got_ s).
Proof.
  intros [Pc Ps (I & Xc) (Hn & J & Xs) Up App Dn All Ds] -> HU c s.
  destruct (i_urel J) as (w & (c1 & dn1 & rest & _ & R & Hr & ->) & Eu). cbn in R.
  destruct (i_drel I) as (w' & (c2 & dn2 & rest2 & _ & R2 & Hr2 & ->) & Ed). rewrite drop_0 in Hr2. cbn in R2.
  pose proof (dec_rel_prefix _ _ _ _ _ _ _ R) as [tl Htl]. cbn in Htl. injection Htl as Htl.
  pose proof (dec_rel_prefix _ _ _ _ _ _ _ R2) as [tl2 Htl2].
  unfold c, s. rewrite App, Ds, Eu, Ed, <- HU. split_and!.
  - exists (concat tl). by rewrite Htl, !concat_app.
  - intros -> Hs. unfold cat in Up. cbn [map concat] in Up. rewrite app_nil_r in Up. unfold to_server in Hs. rewrite Up in Hs.
    apply (f_equal length) in Hs. rewrite length_drop in Hs. cbn in Hs.
    assert (rest = []) as ->.
    { apply (f_equal length) in Hr. rewrite length_app, length_drop in Hr. destruct rest; [done|simpl in Hr; lia]. }
    apply dec_rel_end in R; [|apply rand_length]. injection R as <-. by rewrite concat_app.
  - apply prefix_app. exists (concat tl2). by rewrite Htl2, concat_app.
  - intros -> Hc. f_equal. destruct (decide (qs = [])) as [->|Hne].
    { symmetry in Htl2. by apply app_eq_nil in Htl2 as [-> _]. }
    specialize (All Hne). unfold cat in All. cbn [map concat] in All. rewrite app_nil_r in All.
    unfold to_client in Hc. rewrite All in Hc. apply (f_equal length) in Hc. rewrite length_drop in Hc. cbn in Hc.
    assert (rest2 = []) as ->.
    { apply (f_equal length) in Hr2. rewrite length_app in Hr2. destruct rest2; [done|simpl in Hr2; lia]. }
    apply dec_rel_end in R2; [|apply rand_length]. by rewrite R2.
Qed.

End Joint.

(** ** The start *)

Section Handshake.
Context `{Allocator} `{CryptoLaws} `{Sha1Laws} `{RND : RandLib} `{!RandLaws RND}.
Variables (method : cipher_method) (D : nat) (to_string : address → list byte).
Hypothesis not_plain : plain method = false.
Hypothesis D_2 : 2 <= D.

(** The queue for the destination after the handshake. *)
Lemma handshake_queue s buf s' :
  Server.state_ s = Server.state_handshake → wf buf → IoQueue.represents D (Server.upstream_ s) [] →
  Server.upstream_writable_ s = false → Server.ProcessReceivedData method to_string s buf = Some s' →
  Server.downstream_ s' = Server.downstream_ s ∧
  ∃ us, IoQueue.represents D (Server.upstream_ s') us ∧ Forall full us ∧ cat us = span buf.
Proof.
  intros Hs Wb R Hw. unfold Server.ProcessReceivedData. rewrite Hs.
  destruct (Server.OnConnect method to_string (Server.set_state s Server.state_stream)) as [s1|] eqn:E; [|done].
  cbn [mbind option_bind]. intros [= <-].
  assert (Server.downstream_ s1 = Server.downstream_ s ∧ Server.upstream_ s1 = Server.upstream_ s ∧
    Server.upstream_writable_ s1 = Server.upstream_writable_ s) as (E1 & E2 & E3).
  { unfold Server.OnConnect in E. destruct (Ss.port _) as [pt|]; [|done]. cbn [mbind option_bind] in E.
    destruct (if decide _ then _ else _) as [h|]; [|done]. cbn [mbind option_bind] in E.
    rewrite (bool_decide_eq_false_2 (method = CRYPTO_HTTPS)) in E by by intros ->. cbn [andb] in E. by simplify_eq. }
  pose proof (length_span buf Wb) as Hl. destruct (Nat.ltb_spec 0 (size buf)) as [Hlt|Hle].
  - unfold Server.OnStreamRead, Server.OnUpstreamWrite. destruct (empty buf) eqn:He; [apply Nat.eqb_eq in He; lia|].
    cbn [Server.upstream_ Server.upstream_writable_ Server.set_upstream Server.downstream_]. rewrite E3, Hw, andb_false_r. cbn.
    split; [done|]. exists [buf]. rewrite E2. split; [by apply (IoQueue.push_back_represents D _ [])|].
    split; [constructor; [by apply empty_full|done]|]. unfold cat. simpl. by rewrite app_nil_r.
  - cbn. split; [done|]. exists []. rewrite E2. split_and!; try done. destruct (span buf); [done|simpl in Hl; lia].
Qed.

(** What a decoder has delivered was read. *)
Lemma delivered_length u km salt pts c rest dn seg :
  dec_rel u km salt pts c rest dn → dn ≠ [] → seg ++ rest = salt ++ frames (stream_sealing u km salt) 0 pts →
  length salt + length (concat dn) <= length seg.
Proof.
  intros R Hne Hs. destruct R as [|c b rest dn todo _ -> Hspan _ Hcn]; [done|].
  rewrite frames_app, <- Hcn, <- Hspan, !app_assoc in Hs. apply app_inv_tail in Hs as ->.
  pose proof (SsServer.length_frames_concat (stream_sealing u km salt) dn 0). rewrite !length_app. lia.
Qed.

(** The first read of the server: its handshake goes on to wait, or it has the request and is a
    stream to the destination, with what came behind the request queued. *)
Lemma first_read u km qc T d p seg :
  suite_ok u → length km = MAX_KEY_LENGTH → Forall payload_ok (wire d p :: qc) →
  dest_wf d → port_wf p → dest_ok d → p ≠ 0%Z → (Z.of_nat (length seg) <= SOCKET_DEBUF_SIZE)%Z →
  seg `prefix_of` stream RND u km (wire d p :: qc) →
  ∃ srv cd, SsServer.ss_run method to_string T (SsServer.ss_init D) (fresh false u km) [Read seg] = Some (srv, cd) ∧
    (Server.state_ srv = Server.state_stream →
     ∃ dn us, dec_rel u km (rand_bytes (su_key u)) (wire d p :: qc) cd (drop (length seg) (stream RND u km (wire d p :: qc))) (wire d p :: dn) ∧
       Server.streaming to_string D srv d p (concat dn) [] ∧
       IoQueue.represents D (Server.upstream_ srv) us ∧ Forall full us ∧ cat us = concat dn ∧
       IoQueue.represents D (Server.downstream_ srv) []).
Proof.
  intros Hu Hkm Hq Hd Hp Hok Hp0 Hl [rest Hr]. rewrite SsServer.ss_run_read by done.
  destruct (SsServer.OnReadHandshake_rel method to_string u km (rand_bytes (su_key u)) (wire d p :: qc) T
    (Server.set_waiting (SsServer.ss_init D) Server.no_wait) (fresh false u km) seg rest)
    as (cd & dn & h & R & Hnil & Hh & ->); try done; [apply rand_length|rewrite <- Hr; by apply dec_rel_start|].
  rewrite Hr, drop_app_length.
  destruct h as [buf|].
  2:{ eexists _, cd. split; [done|]. done. }
  destruct Hh as [Wb Sb]. destruct dn as [|q dn]; [by specialize (Hnil eq_refl)|].
  assert (q = wire d p) as ->. { destruct (dec_rel_prefix _ _ _ _ _ _ _ R) as [tl Htl]. by injection Htl. }
  set (s0 := Server.set_handshake (Server.set_waiting (SsServer.ss_init D) Server.no_wait) (Some buf)).
  assert (Ss.enough (Server.request_ s0) d (length seg)) as He.
  { apply SsServer.enough_plaintext. pose proof (suite_key_bound u Hu).
    assert (length (rand_bytes (su_key u)) + length (concat (wire d p :: dn)) <= length seg) as Hlen
      by (eapply delivered_length; [exact R|done|by rewrite <- Hr]).
    rewrite rand_length in Hlen. cbn [concat] in Hlen. rewrite length_app, length_wire in Hlen. lia. }
  destruct (SsServer.parse_handshake_good method to_string D s0 buf (length seg) d p (concat dn) [] [])
    as (s' & E & S1 & S2 & S3 & S4 & S5 & S6 & S7); try done; [by apply holds_make..|].
  destruct (SsServer.parse_handshake_header method to_string s0 buf (length seg) d p (concat dn))
    as (r & b' & E' & _ & _ & Wb' & Sb'); try done.
  rewrite E in E' |- *. cbn [mbind option_bind SsServer.ss_run]. exists s', cd. split; [done|]. intros _.
  destruct (handshake_queue _ _ _ (eq_refl : Server.state_ (Server.set_handshake (Server.set_request s0 r) (Some b')) = _) Wb'
    (IoQueue.represents_make D D_2) eq_refl (eq_sym E')) as (Ed & us & Ru & Fu & Eu).
  exists dn, us. split; [done|]. split; [by split_and!|]. split_and!; try done; [by rewrite Eu|].
  rewrite Ed. by apply IoQueue.represents_make.
Qed.

End Handshake.
(** The client before the server answers. *)
Lemma session_sealed `{Allocator} `{CryptoLaws} `{Sha1Laws} `{CliFlow.HttpResponseLaws} (Rc Rs : RandLib) `{!RandLaws Rc} `{!RandLaws Rs} method T0 D
    (not_plain : plain method = false) (D_2 : 2 <= D) u km
    (suite_good : suite_ok u) (km_length : length km = MAX_KEY_LENGTH)
    request T1 ce up down pending reading writing ds xs dr dw cw evs c1 rs1 :
  full request → length (span request) <= SS_FRAME_SIZE →
  EncryptData (RND := Rc) T1 (fresh true u km) (IoQueue.make D) (span request) = Some (ce, up, false) →
  IoQueue.represents D down ds → Forall full ds → (ds ≠ [] ↔ writing = true) →
  IoQueue.represents D pending xs → Forall full xs →
  CliRelay.session (RND := Rc) method T0 D (CliFlow.start up down pending (Some ce) (Some (fresh false u km)) false reading writing)
    [] dr dw cw evs = Some (c1, rs1) →
  ∃ qc dc uc, cl_inv Rc Rs D u km (span request) (cat ds) qc [] [] c1 dc uc ∧ Forall payload_ok (span request :: qc) ∧
    up_sent_ (CliRelay.rl_ c1) ++ cat uc = stream Rc u km (span request :: qc) ∧ down_got_ (CliRelay.rl_ c1) = concat qc.
Proof.
  intros Fq Hl Eq Rd Fd Hw Rp Fp Es.
  destruct (EncryptData_fresh (RND := Rc) T1 u km suite_good D (IoQueue.make D) request km_length Fq)
    as (c' & q' & y & qts0 & E' & Ry & Fy & En & Sy & _ & One); [by apply IoQueue.represents_make|].
  rewrite Eq in E'. injection E' as <- <-. specialize (One Hl) as ->.
  destruct (CliFlow.session_sound method T0 D (CliFlow.ss_codec (RND := Rc) method T0 D not_plain u km [span request] [] (rand_bytes (RandLib := Rs) (su_key u)) []
    (drop 0 (stream Rs u km [])) [] suite_good (rand_length _) (Forall_nil_2 _) (prefix_nil _))
    up down pending (Some ce) (Some (fresh false u km)) false reading writing [y] ds xs [] dr dw cw evs)
    as (c & rs' & dc & uc & E & (I & Dn & P & Wt & Pd)); try done.
  { split_and!; try done. by constructor. }
  { exists (fresh false u km), [], (drop 0 (stream Rs u km [])). split_and!; try done. by apply dec_rel_start. }
  { exists ce, []. rewrite app_nil_r. by split_and!. }
  rewrite Es in E. injection E as <- <-.
  destruct (i_urel I) as (w & [(c2 & qts & Ec & En2 & -> & Eg & _) _] & Eu).
  assert (cat [y] = stream Rc u km [span request]) as Ey by (unfold cat; cbn [map concat]; by rewrite app_nil_r).
  rewrite Ey in Eu. exists qts, dc, uc. split; [|split_and!; try done; [apply En2|by rewrite Eu, <- (stream_app Rc u km [_])]].
  split; [|by split_and!]. rewrite Ey in I. eapply inv_change; [exact I|apply (i_drel I)| |done|].
  - eexists. split; [|exact Eu]. by exists c2, qts.
  - pose proof (i_read I) as R. cbn in R. apply app_eq_nil in R as [R _]. cbn. rewrite R. apply prefix_nil.
Qed.

(** ** Properties *)

Section Properties.
Context `{Allocator} `{CryptoLaws} `{Sha1Laws} `{KeyLaws} `{CliFlow.HttpResponseLaws}.
Variables (Rc Rs : RandLib).
Context `{!RandLaws Rc} `{!RandLaws Rs}.
Variables (method : cipher_method) (T0 : list byte) (D : nat) (to_string : address → list byte).

(** C1: client and shadowsocks server as one machine, for every AEAD method and
    password.  The two ends draw from random sources of their own.  The client has sealed the request for [d] and [p] and lives on through any events
    ([session]); the server reads a first piece of what the client has written, and
    its handshake succeeds with it.  From there on, under every interleaving of
    the handlers on both sides, however the connection cuts the bytes under way and
    whatever the application, the destination and the sockets do: no handler aborts;
    the destination is sent exactly the application's bytes in order, and all
    of them are sent or queued there when none is queued at the client or under way;
    the same holds of the destination's bytes and the application; and neither
    side is left with data and without a handler for it. *)
Theorem tunnel_transparent password d p :
  is_aead method = true → 2 <= D → dest_wf d → port_wf p → dest_ok d → p ≠ 0%Z →
  ∃ u km, make_cipher [] password method true = Some (fresh true u km) ∧
  make_cipher [] password method false = Some (fresh false u km) ∧
  ∀ request T1 ce up down pending reading writing ds xs dr dw cw evs c1 rs1 n T2 srv cd,
  let c0 := CliFlow.start up down pending (Some ce) (Some (fresh false u km)) false reading writing in
  wf request → span request = wire d p →
  EncryptData (RND := Rc) T1 (fresh true u km) (IoQueue.make D) (span request) = Some (ce, up, false) →
  IoQueue.represents D down ds → Forall full ds → (ds ≠ [] ↔ writing = true) →
  IoQueue.represents D pending xs → Forall full xs →
  CliRelay.session (RND := Rc) method T0 D c0 [] dr dw cw evs = Some (c1, rs1) →
  let seg := take n (up_sent_ (CliRelay.rl_ c1)) in
  (Z.of_nat n <= SOCKET_DEBUF_SIZE)%Z →
  SsServer.ss_run method to_string T2 (SsServer.ss_init D) (fresh false u km) [Read seg] = Some (srv, cd) →
  Server.state_ srv = Server.state_stream →
  Server.closed_ srv = false ∧ Server.channel_ srv = Some (Server.host_of to_string d, p) ∧
  ∀ tes, ∃ t dc uc dd uu,
    trun Rc Rs method T0 (mkTunnel c1 (relay_of srv (fresh true u km) cd) (length seg)) tes = Some t ∧
    let c := CliRelay.rl_ (cl_ t) in
    let s := sv_ t in
    queued D c dc uc ∧ queued D s dd uu ∧ awake c dc uc ∧ awake s dd uu ∧
    (up_sent_ s ++ cat uu) `prefix_of` down_got_ c ∧
    (uc = [] → to_server t = [] → up_sent_ s ++ cat uu = down_got_ c) ∧
    (down_sent_ c ++ cat dc) `prefix_of` (cat ds ++ up_got_ s) ∧
    (dd = [] → to_client t = [] → down_sent_ c ++ cat dc = cat ds ++ up_got_ s).
Proof.
  intros Hm HD Hd Hp Hok Hp0. destruct (make_cipher_fresh method password Hm) as (u & km & Hu & _ & Hkm & Hmk).
  exists u, km. split; [done|]. split; [done|].
  intros request T1 ce up down pending reading writing ds xs dr dw cw evs c1 rs1 n T2 srv cd c0 Wq Sq Eq Rd Fd Hw Rp Fp Es seg Hn Er Hst.
  assert (plain method = false) as Hnp by by destruct method.
  assert (full request) as Fq by by split; [|rewrite Sq].
  destruct (session_sealed Rc Rs method T0 D Hnp HD u km Hu Hkm request T1 ce up down pending reading writing ds xs dr dw cw evs c1 rs1)
    as (qc & dc & uc & Ic & Pq & Up & App); try done.
  { rewrite Sq, length_wire. unfold wire_size. destruct d; simpl in *; rewrite ?length_app; simpl; unfold SS_FRAME_SIZE; lia. }
  rewrite Sq in *. set (req := wire d p) in *.
  assert (seg `prefix_of` stream Rc u km (req :: qc)) as Hseg.
  { rewrite <- Up. apply prefix_app_r. unfold seg. exists (drop n (up_sent_ (CliRelay.rl_ c1))). by rewrite take_drop. }
  destruct (first_read (RND := Rc) method D to_string Hnp HD u km qc T2 d p seg) as (srv' & cd' & Er' & Hs); try done.
  { unfold seg. rewrite length_take. lia. }
  rewrite Er in Er'. injection Er' as <- <-. destruct (Hs Hst) as (dn & us & R & (Hcl & _ & _ & _ & Hch & _ & _) & Ru & Fu & Eu & Rds).
  split; [done|]. split; [done|]. intros tes.
  assert (joined Rc Rs D u km req (cat ds) (cat us) (req :: dn) (mkTunnel c1 (relay_of srv (fresh true u km) cd) (length seg))
    qc [] dc uc [] us) as J.
  { split; try done.
    - split; [by apply prefix_length|]. split; [|done]. split; try done.
      + exists []. split; [|done]. exists (fresh true u km). split; [done|by left].
      + exists []. rewrite app_nil_r. split; [|done]. exists cd, [], (drop (length seg) (stream Rc u km (req :: qc))).
        by rewrite app_nil_r.
      + apply prefix_nil.
    - cbn. apply prefix_nil. }
  destruct (joined_run Rc Rs method T0 D Hnp u km Hu Hkm req (cat ds) (cat us) (req :: dn) tes _ _ _ _ _ _ _ J)
    as (t & qc' & qs' & dc' & uc' & dd' & uu' & E & J' & Hh).
  exists t, dc', uc', dd', uu'. split; [done|]. cbv zeta.
  pose proof (joined_flow Rc Rs D u km Hkm req _ _ _ t qc' qs' dc' uc' dd' uu' dn J' eq_refl) as Fl.
  destruct J' as [_ _ (I & Dc & Pc & _) (_ & Sv) _ _ _ _ _].
  split; [by eapply inv_queued|]. split; [eapply inv_queued, Sv|]. split; [eapply sound_awake; by split_and!|].
  split; [by eapply sound_awake|]. apply Fl. by rewrite Eu.
Qed.

End Properties.
(** ** Witnesses *)

(** An application that has sent [x40] and sends [x61], and a destination that answers [x42]. *)
Definition example_tes : list tevent :=
  [AtServer (ChannelConnected true) [Deliver 999; NotYet] [] [TryAgain] [Wrote 99 false];
   AtClient (CliRelay.AppReadable true) [] [Read [x61]; TryAgain] [] [Wrote 999 false];
   AtServer (ClientReadable true) [Deliver 7; NotYet] [] [] [];
   AtServer (ClientReadable true) [Deliver 999; NotYet] [] [] [Wrote 99 false];
   AtServer (ChannelReadable true) [] [Wrote 999 false] [Read [x42]; TryAgain] [];
   AtClient (CliRelay.ChannelReadable true) [Deliver 999; NotYet] [] [Wrote 9 false] []].

Definition other_rand : RandLib := {| rand_bytes n := replicate n x06 |}.

Lemma other_randlaws : RandLaws other_rand.
Proof. split; intros; apply length_replicate. Qed.

Lemma tunnel_transparent_witness :
  let HA := (λ _, x00) : Allocator in
  let HC := example_lib in
  let HS := (λ _, replicate 20 x09) : Sha1 in
  let HK := example_keylib in
  let HR := (λ bs, mkHttpResponse 0 false 0 [] 0) : HttpResponseLib in
  let L1 := example_laws in
  let m := CRYPTO_AES128GCMSHA256_EVP in
  let d := to_v4 [x7f; x00; x00; x01] in
  ∃ u km ce up c1 srv cd t,
    EncryptData (RND := example_rand) [] (fresh true u km) (IoQueue.make 4) (wire d 80) = Some (ce, up, false) ∧
    CliRelay.session (RND := example_rand) m [] 4 (CliFlow.start up (queue_of []) (queue_of [byte_buf [x40]]) (Some ce) (Some (fresh false u km)) false true false)
      [] [TryAgain] [] [Wrote 999 false; Wrote 999 false] [] = Some (c1, []) ∧
    let seg := take 999 (up_sent_ (CliRelay.rl_ c1)) in
    SsServer.ss_run m (λ _, []) [] (SsServer.ss_init 4) (fresh false u km) [Read seg] = Some (srv, cd) ∧
    Server.channel_ srv = Some ([], 80%Z) ∧
    trun example_rand other_rand m [] (mkTunnel c1 (relay_of srv (fresh true u km) cd) (length seg)) example_tes = Some t ∧
    up_sent_ (sv_ t) = [x40; x61] ∧ down_sent_ (CliRelay.rl_ (cl_ t)) = [x42].
Proof.
  intros HA HC HS HK HR L1 m d. pose proof example_sha1laws as L2. pose proof example_keylaws as L3. pose proof example_randlaws as L4. pose proof other_randlaws as L5.
  assert (CliFlow.HttpResponseLaws) as LR by (intros bs; simpl; lia).
  destruct (tunnel_transparent example_rand other_rand m [] 4 (λ _, []) [x70] d 80) as (u & km & Ee & Ed & T);
    [reflexivity|lia|done|unfold port_wf; lia|by intros [? _]%Forall_cons_1|done|].
  pose proof Ed as E'. vm_compute in E'. injection E' as Ek Et Em.
  destruct u as [um ub uk ut un]. cbn in Ek, Et, Em. subst. clear Ee Ed.
  match type of T with context [fresh false ?x ?k] => set (u := x) in *; set (km := k) in * end.
  destruct (EncryptData (RND := example_rand) [] (fresh true u km) (IoQueue.make 4) (wire d 80)) as [[[ce up] []]|] eqn:Eq; [by vm_compute in Eq| |by vm_compute in Eq].
  set (c0 := CliFlow.start up (queue_of []) (queue_of [byte_buf [x40]]) (Some ce) (Some (fresh false u km)) false true false).
  destruct (CliRelay.session (RND := example_rand) m [] 4 c0 [] [TryAgain] [] [Wrote 999 false; Wrote 999 false] []) as [[c1 rs1]|] eqn:Es;
    [|vm_compute in Eq; injection Eq as <- <-; by vm_compute in Es].
  set (seg := take 999 (up_sent_ (CliRelay.rl_ c1))).
  destruct (SsServer.ss_run m (λ _, []) [] (SsServer.ss_init 4) (fresh false u km) [Read seg]) as [[srv cd]|] eqn:Er;
    [|vm_compute in Eq; injection Eq as <- <-; vm_compute in Es; injection Es as <- <-; by vm_compute in Er].
  destruct (T (byte_buf (wire d 80)) [] ce up (queue_of []) (queue_of [byte_buf [x40]]) true false [] [byte_buf [x40]]
    [TryAgain] [] [Wrote 999 false; Wrote 999 false] [] c1 rs1 999 [] srv cd) as (_ & Hch & Ht);
    [apply byte_buf_full|reflexivity|exact Eq|apply queue_of_represents|constructor|by split|apply queue_of_represents|
     repeat constructor; apply byte_buf_full|exact Es|by vm_compute|exact Er| |].
  { vm_compute in Eq. injection Eq as <- <-. vm_compute in Es. injection Es as <- <-. vm_compute in Er. by injection Er as <- <-. }
  destruct (Ht example_tes) as (t & _ & _ & _ & _ & E & _). exists u, km, ce, up, c1, srv, cd, t.
  split; [exact Eq|]. vm_compute in Eq. injection Eq as <- <-.
  vm_compute in Es. injection Es as <- <-. split; [vm_compute; reflexivity|]. cbv zeta. split; [exact Er|]. split; [exact Hch|].
  split; [exact E|]. vm_compute in Er. injection Er as <- <-. vm_compute in E. injection E as <-. by split.
Defined.

End TunnelRelay.
