(* ===== verification/ContentServer.v ===== *)
(** * The listening server

    [ContentServer] of src/src/net/content_server.hpp, built without TBB (the default): its
    listening addresses, the connections it has accepted and the limit on their number,
    shutting down and stopping; the choice of a protocol and the check of the server name in
    a TLS handshake; and src/src/net/protocol.cpp.

    The members are those of the class.  Beside them the record has what the
    surroundings owe it: the handlers posted to the io_context, in order, the accepts
    that are under way, the connections that have not closed yet and those that have not been freed, and the
    calls of the delegate.  A run is a sequence of events; [None] is the use of a null pointer, and
    [freed_] records a use of freed memory.  The setting up of the TLS contexts is BoringSSL's and
    not modelled; of its behaviour the model has that the callbacks of a context are called with
    the argument that was set last. *)

From Stdlib Require Import ZArith Lia.
From stdpp Require Import base list numbers option gmap sets.
From S2P Require Import Prelude Addr Crypter Conn.

Module ContentServer.
Import Addr Crypter.

(** ** protocol.cpp *)

Inductive NextProto := kProtoUnknown | kProtoHTTP11 | kProtoHTTP2 | kProtoQUIC.

#[export] Instance NextProto_eq_decision : EqDecision NextProto.
Proof. solve_decision. Defined.

Definition NextProtoFromString (proto_string : list byte) : NextProto :=
  if decide (proto_string = str "http/1.1") then kProtoHTTP11
  else if decide (proto_string = str "h2") then kProtoHTTP2
  else if decide (proto_string = str "quic" ∨ proto_string = str "hq") then kProtoQUIC
  else kProtoUnknown.

Definition NextProtoToString (next_proto : NextProto) : list byte :=
  match next_proto with
  | kProtoHTTP11 => str "http/1.1"
  | kProtoHTTP2 => str "h2"
  | kProtoQUIC => str "quic"
  | kProtoUnknown => str "unknown"
  end.

(** ** The TLS handshake *)

(** What [SSLDownlink] keeps of it; [local_cipher_] is the connection's. *)
Record downlink := mkDownlink {
  selected_proto_ : NextProto; renego_allowed_for_http11_proto_ : bool; local_cipher_ : cipher_method }.

(** [CIPHER_METHOD_IS_HTTP2] and [CIPHER_METHOD_IS_TLS]. *)
Definition is_http2 (m : cipher_method) : bool := bool_decide (m = CRYPTO_HTTP2_PLAINTEXT) || bool_decide (m = CRYPTO_HTTP2).
Definition is_tls (m : cipher_method) : bool := bool_decide (m = CRYPTO_HTTPS) || bool_decide (m = CRYPTO_HTTP2).

(** [SSLDownlink::on_alpn_select]. *)
Definition downlink_on_alpn_select (dl : downlink) (proto : NextProto) : downlink * bool :=
  let selected :=
    match proto with
    | kProtoHTTP2 => is_http2 (local_cipher_ dl)
    | kProtoHTTP11 =>
        is_http2 (local_cipher_ dl) && renego_allowed_for_http11_proto_ dl
        || bool_decide (local_cipher_ dl = CRYPTO_HTTPS)
    | _ => false
    end in
  if selected
  then (mkDownlink proto (renego_allowed_for_http11_proto_ dl)
          (if decide (proto = kProtoHTTP11) then CRYPTO_HTTPS else local_cipher_ dl), true)
  else (dl, false).

(** The loop of the static [on_alpn_select] over the client's list; [select] is the question put to
    the connection, and the answer is the protocol chosen, or none for a fatal alert.  A round uses up
    a byte at least. *)
Fixpoint alpn_loop {St} (select : St → NextProto → St * bool) (fuel : nat) (st : St) (inp : list byte) : St * option (list byte) :=
  match fuel, inp with
  | S fuel, n :: rest =>
      let n := Z.to_nat (u8 n) in
      if length inp <? n + 1 then (st, None)
      else
        let alpn := take n rest in
        let '(st, ok) := select st (NextProtoFromString alpn) in
        if (ok : bool) then (st, Some alpn) else alpn_loop select fuel st (drop n rest)
  | _, _ => (st, None)
  end.

Definition on_alpn_select {St} (select : St → NextProto → St * bool) (st : St) (inp : list byte) : St * option (list byte) :=
  alpn_loop select (length inp) st inp.

(** [on_tlsext]: the server name the client sent, if it did, and the configured one. *)
Definition on_tlsext (expected_server_name : list byte) (server_name : option (list byte)) : bool :=
  bool_decide (default [] server_name = expected_server_name).

(** ** The server *)

Definition MAX_LISTEN_ADDRESSES : nat := 30.
Definition TLSEXT_MAXLEN_host_name : nat := 255.

(** [ListenCtx]; [tlsext_arg] is the [connection_id] of the [tlsext_ctx_t] that the callbacks of its
    [ssl_ctx] are given. *)
Record listen_ctx := mkListenCtx {
  acceptor : bool; server_name : list byte; cipher : cipher_method; enable_tls : bool; renego_allowed : bool;
  tlsext_arg : option Z }.

Definition set_arg (ctx : listen_ctx) (id : Z) : listen_ctx :=
  mkListenCtx (acceptor ctx) (server_name ctx) (cipher ctx) (enable_tls ctx) (renego_allowed ctx) (Some id).

(** A connection that has not been freed: the address it came from, its end of the TLS handshake and
    what the TLS library negotiated. *)
Record conn := mkConn { conn_ctx : nat; conn_link : downlink; negotiated : option (list byte) }.

(** What is posted to the io_context. *)
Inductive task := TAccept (n : nat) | TShutdown | TStop | TStart (id : Z) | TReset.

Inductive call := OnConnect (id : Z) | OnDisconnect (id : Z).

#[export] Instance call_eq_decision : EqDecision call.
Proof. solve_decision. Defined.

Record server := mkServer {
  work_guard_ : bool; listen_ctxs_ : list listen_ctx; next_listen_ctx_ : nat;
  pending_next_listen_ctxes_ : list nat; in_shutdown_ : bool;
  connection_map_ : gset Z; next_connection_id_ : Z; opened_connections_ : Z;
  posted_ : list task; accepting_ : list nat; open_ : gset Z; calls_ : list call;
  conns_ : gmap Z conn; freed_ : bool }.

Definition no_ctx : listen_ctx := mkListenCtx false [] CRYPTO_INVALID false false None.

Definition init : server :=
  mkServer true (replicate MAX_LISTEN_ADDRESSES no_ctx) 0 [] false ∅ 1 0 [] [] ∅ [] ∅ false.

Definition set_guard (s : server) (b : bool) : server :=
  mkServer b (listen_ctxs_ s) (next_listen_ctx_ s) (pending_next_listen_ctxes_ s) (in_shutdown_ s)
    (connection_map_ s) (next_connection_id_ s) (opened_connections_ s) (posted_ s) (accepting_ s) (open_ s) (calls_ s)
    (conns_ s) (freed_ s).
Definition set_ctxs (s : server) (l : list listen_ctx) (n : nat) : server :=
  mkServer (work_guard_ s) l n (pending_next_listen_ctxes_ s) (in_shutdown_ s)
    (connection_map_ s) (next_connection_id_ s) (opened_connections_ s) (posted_ s) (accepting_ s) (open_ s) (calls_ s)
    (conns_ s) (freed_ s).
Definition set_pending (s : server) (l : list nat) : server :=
  mkServer (work_guard_ s) (listen_ctxs_ s) (next_listen_ctx_ s) l (in_shutdown_ s)
    (connection_map_ s) (next_connection_id_ s) (opened_connections_ s) (posted_ s) (accepting_ s) (open_ s) (calls_ s)
    (conns_ s) (freed_ s).
Definition set_shutdown (s : server) : server :=
  mkServer (work_guard_ s) (listen_ctxs_ s) (next_listen_ctx_ s) (pending_next_listen_ctxes_ s) true
    (connection_map_ s) (next_connection_id_ s) (opened_connections_ s) (posted_ s) (accepting_ s) (open_ s) (calls_ s)
    (conns_ s) (freed_ s).
Definition set_map (s : server) (m : gset Z) (n : Z) : server :=
  mkServer (work_guard_ s) (listen_ctxs_ s) (next_listen_ctx_ s) (pending_next_listen_ctxes_ s) (in_shutdown_ s)
    m (next_connection_id_ s) n (posted_ s) (accepting_ s) (open_ s) (calls_ s)
    (conns_ s) (freed_ s).
Definition set_next_id (s : server) (id : Z) : server :=
  mkServer (work_guard_ s) (listen_ctxs_ s) (next_listen_ctx_ s) (pending_next_listen_ctxes_ s) (in_shutdown_ s)
    (connection_map_ s) id (opened_connections_ s) (posted_ s) (accepting_ s) (open_ s) (calls_ s)
    (conns_ s) (freed_ s).
Definition set_posted (s : server) (l : list task) : server :=
  mkServer (work_guard_ s) (listen_ctxs_ s) (next_listen_ctx_ s) (pending_next_listen_ctxes_ s) (in_shutdown_ s)
    (connection_map_ s) (next_connection_id_ s) (opened_connections_ s) l (accepting_ s) (open_ s) (calls_ s)
    (conns_ s) (freed_ s).
Definition set_accepting (s : server) (l : list nat) : server :=
  mkServer (work_guard_ s) (listen_ctxs_ s) (next_listen_ctx_ s) (pending_next_listen_ctxes_ s) (in_shutdown_ s)
    (connection_map_ s) (next_connection_id_ s) (opened_connections_ s) (posted_ s) l (open_ s) (calls_ s)
    (conns_ s) (freed_ s).
Definition set_open (s : server) (o : gset Z) : server :=
  mkServer (work_guard_ s) (listen_ctxs_ s) (next_listen_ctx_ s) (pending_next_listen_ctxes_ s) (in_shutdown_ s)
    (connection_map_ s) (next_connection_id_ s) (opened_connections_ s) (posted_ s) (accepting_ s) o (calls_ s)
    (conns_ s) (freed_ s).
Definition add_call (s : server) (c : call) : server :=
  mkServer (work_guard_ s) (listen_ctxs_ s) (next_listen_ctx_ s) (pending_next_listen_ctxes_ s) (in_shutdown_ s)
    (connection_map_ s) (next_connection_id_ s) (opened_connections_ s) (posted_ s) (accepting_ s) (open_ s) (calls_ s ++ [c])
    (conns_ s) (freed_ s).
Definition set_conns (s : server) (m : gmap Z conn) : server :=
  mkServer (work_guard_ s) (listen_ctxs_ s) (next_listen_ctx_ s) (pending_next_listen_ctxes_ s) (in_shutdown_ s)
    (connection_map_ s) (next_connection_id_ s) (opened_connections_ s) (posted_ s) (accepting_ s) (open_ s) (calls_ s)
    m (freed_ s).
Definition set_freed (s : server) : server :=
  mkServer (work_guard_ s) (listen_ctxs_ s) (next_listen_ctx_ s) (pending_next_listen_ctxes_ s) (in_shutdown_ s)
    (connection_map_ s) (next_connection_id_ s) (opened_connections_ s) (posted_ s) (accepting_ s) (open_ s) (calls_ s)
    (conns_ s) true.

Definition post (s : server) (t : task) : server := set_posted s (posted_ s ++ [t]).

(** The conversion to [size_t] and to [int32_t]. *)
Definition to_size (z : Z) : Z := (z mod 2 ^ 64)%Z.
Definition to_int32 (z : Z) : Z := ((z + 2 ^ 31) mod 2 ^ 32 - 2 ^ 31)%Z.

(** What the system calls of [listen] answer: true for an error. *)
Record listen_io := mkListenIo {
  open_ec : bool; reuse_ec : bool; fast_open_ec : bool; bind_ec : bool; listen_ec : bool; endpoint_ec : bool;
  upstream_ssl_ec : bool; ssl_ec : bool }.

Inductive listen_result := listening | already_started | invalid_argument | listen_failed.

Section ContentServer.

(** [T::Type] is [CONNECTION_FACTORY_SERVER]; [enable_upstream_tls_]; the flags [reuse_port] and
    [parallel_max]. *)
Variables (is_server enable_upstream_tls_ reuse_port : bool) (parallel_max : Z).

Definition listen (s : server) (name : list byte) (server_cipher : cipher_method) (io : listen_io) : server * listen_result :=
  if MAX_LISTEN_ADDRESSES <=? next_listen_ctx_ s then (s, already_started)
  else if TLSEXT_MAXLEN_host_name <? length name then (s, invalid_argument)
  else
    let ctx := mkListenCtx true name server_cipher (is_server && is_tls server_cipher) (is_server && is_tls server_cipher) None in
    let s := set_ctxs s (<[next_listen_ctx_ s := ctx]> (listen_ctxs_ s)) (next_listen_ctx_ s) in
    if open_ec io || reuse_port && reuse_ec io || fast_open_ec io || bind_ec io || listen_ec io || endpoint_ec io
       || enable_upstream_tls_ && upstream_ssl_ec io || enable_tls ctx && ssl_ec io
    then (s, listen_failed)
    else
      let listen_ctx_num := next_listen_ctx_ s in
      (post (set_ctxs s (listen_ctxs_ s) (S listen_ctx_num)) (TAccept listen_ctx_num), listening).

(** [ctx.acceptor->async_accept]. *)
Definition accept (s : server) (listen_ctx_num : nat) : option server :=
  ctx ← listen_ctxs_ s !! listen_ctx_num;
  if acceptor ctx then Some (set_accepting s (accepting_ s ++ [listen_ctx_num])) else None.

Definition on_accept (s : server) (connection_id : Z) (c : conn) : server :=
  let s := set_conns (set_open s ({[connection_id]} ∪ open_ s)) (<[connection_id := c]> (conns_ s)) in
  let s := set_map s ({[connection_id]} ∪ connection_map_ s) (to_size (opened_connections_ s + 1)) in
  post (add_call s (OnConnect connection_id)) (TStart connection_id).

(** The callbacks of the address's [ssl_ctx] are given the new connection's [tlsext_ctx]. *)
Definition setup_ssl_ctx_cbs (s : server) (listen_ctx_num : nat) (ctx : listen_ctx) (connection_id : Z) : server :=
  if enable_tls ctx
  then set_ctxs s (<[listen_ctx_num := set_arg ctx connection_id]> (listen_ctxs_ s)) (next_listen_ctx_ s) else s.

Definition on_async_accept (s : server) (listen_ctx_num : nat) (connection_id : Z) : option server :=
  ctx ← listen_ctxs_ s !! listen_ctx_num;
  let s := setup_ssl_ctx_cbs s listen_ctx_num ctx connection_id in
  let c := mkConn listen_ctx_num (mkDownlink kProtoUnknown (renego_allowed ctx) (cipher ctx)) None in
  let s := on_accept s connection_id c in
  if (parallel_max <=? opened_connections_ s)%Z
  then Some (set_pending s (pending_next_listen_ctxes_ s ++ [listen_ctx_num]))
  else accept s listen_ctx_num.

Inductive accept_result := Accept | Aborted | AcceptError.

#[export] Instance accept_result_eq_decision : EqDecision accept_result.
Proof. solve_decision. Defined.

(** The handler of [accept]. *)
Definition on_accepted (s : server) (listen_ctx_num : nat) (r : accept_result) : option server :=
  ctx ← listen_ctxs_ s !! listen_ctx_num;
  if negb (acceptor ctx) then Some s
  else if in_shutdown_ s then Some s
  else
    match r with
    | Aborted => Some s
    | AcceptError => Some (set_guard s false)
    | Accept =>
        let connection_id := next_connection_id_ s in
        on_async_accept (set_next_id s (to_int32 (connection_id + 1))) listen_ctx_num connection_id
    end.

(** [for (int listen_ctx_num : listen_ctxes) accept(listen_ctx_num)]. *)
Fixpoint resume (s : server) (listen_ctxes : list nat) : option server :=
  match listen_ctxes with
  | [] => Some s
  | n :: ns => s ← accept s n; resume s ns
  end.

Definition on_disconnect (s : server) (connection_id : Z) : option server :=
  let s := if decide (connection_id ∈ connection_map_ s)
           then set_map s (connection_map_ s ∖ {[connection_id]}) (to_size (opened_connections_ s - 1)) else s in
  let s := add_call s (OnDisconnect connection_id) in
  let s := if in_shutdown_ s && (opened_connections_ s =? 0)%Z then post s TReset else s in
  resume (set_pending s []) (pending_next_listen_ctxes_ s).

(** [conn->close()] of a connection that is open. *)
Definition conn_close (s : server) (connection_id : Z) : option server :=
  if decide (connection_id ∈ open_ s)
  then on_disconnect (set_open s (open_ s ∖ {[connection_id]})) connection_id else Some s.

(** [acceptor.reset()] of the first [n]. *)
Definition close_acceptors (l : list listen_ctx) (n : nat) : list listen_ctx :=
  map (λ ctx, mkListenCtx false (server_name ctx) (cipher ctx) (enable_tls ctx) (renego_allowed ctx) (tlsext_arg ctx))
    (take n l) ++ drop n l.

(** What [shutdown] and [stop] have in common. *)
Definition begin_shutdown (s : server) : server :=
  set_shutdown (set_pending (set_ctxs s (close_acceptors (listen_ctxs_ s) (next_listen_ctx_ s)) (next_listen_ctx_ s)) []).

Definition end_shutdown (s : server) : server :=
  if (opened_connections_ s =? 0)%Z then set_guard s false else s.

(** The handler that [shutdown] posts. *)
Definition do_shutdown (s : server) : server := end_shutdown (begin_shutdown s).

Fixpoint close_all (s : server) (ids : list Z) : option server :=
  match ids with
  | [] => Some s
  | id :: ids => s ← conn_close s id; close_all s ids
  end.

(** The handler that [stop] posts; the order of the hash map is not specified. *)
Definition do_stop (s : server) : option server :=
  let s := begin_shutdown s in
  let connection_map := elements (connection_map_ s) in
  end_shutdown <$> close_all (set_map s ∅ 0) connection_map.

Definition shutdown (s : server) : server := post s TShutdown.
Definition stop (s : server) : server := post s TStop.

Definition run_task (s : server) (t : task) : option server :=
  match t with
  | TAccept n => accept s n
  | TShutdown => Some (do_shutdown s)
  | TStop => do_stop s
  | TStart _ => Some s
  | TReset => Some (set_guard s false)
  end.

(** *** The handshake of a connection *)

(** [on_alpn_select] of the connection with that number. *)
Definition server_on_alpn_select (connection_id : Z) (s : server) (proto : NextProto) : server * bool :=
  if decide (connection_id ∈ connection_map_ s) then
    match conns_ s !! connection_id with
    | Some c =>
        let '(dl, ok) := downlink_on_alpn_select (conn_link c) proto in
        (set_conns s (<[connection_id := mkConn (conn_ctx c) dl (negotiated c)]> (conns_ s)), ok)
    | None => (s, false)
    end
  else (s, false).

(** The hello of connection [id]: the TLS library calls [on_tlsext] and [on_alpn_select] with the
    argument that its [ssl_ctx] has.  A [tlsext_ctx_t] is freed with its connection. *)
Definition client_hello (s : server) (id : Z) (sni : option (list byte)) (protos : list byte) : server :=
  match conns_ s !! id with
  | None => s
  | Some c =>
      match listen_ctxs_ s !! conn_ctx c with
      | None => s
      | Some ctx =>
          match tlsext_arg ctx with
          | None => s
          | Some connection_id =>
              match conns_ s !! connection_id with
              | None => set_freed s
              | Some _ =>
                  if on_tlsext (server_name ctx) sni then
                    let '(s, r) := on_alpn_select (server_on_alpn_select connection_id) s protos in
                    set_conns s (alter (λ c, mkConn (conn_ctx c) (conn_link c) r) id (conns_ s))
                  else s
              end
          end
      end
  end.

(** The last reference to a connection that has closed goes away. *)
Definition conn_destroy (s : server) (id : Z) : server :=
  if decide (id ∈ open_ s) then s else set_conns s (delete id (conns_ s)).

(** ** Runs *)

Inductive event :=
  | Listen (name : list byte) (server_cipher : cipher_method) (io : listen_io)
  | Shutdown
  | Stop
  | RunTask
  | Accepted (i : nat) (r : accept_result)
  | ConnClosed (id : Z)
  | ClientHello (id : Z) (sni : option (list byte)) (protos : list byte)
  | ConnDestroyed (id : Z).

(** [Accepted i] completes the accept at place [i] of those under way. *)
Definition step (s : server) (ev : event) : option server :=
  match ev with
  | Listen name m io => Some (fst (listen s name m io))
  | Shutdown => Some (shutdown s)
  | Stop => Some (stop s)
  | RunTask =>
      match posted_ s with
      | [] => Some s
      | t :: ts => run_task (set_posted s ts) t
      end
  | Accepted i r =>
      match accepting_ s !! i with
      | None => Some s
      | Some n => on_accepted (set_accepting s (delete i (accepting_ s))) n r
      end
  | ConnClosed id => conn_close s id
  | ClientHello id sni protos => Some (if decide (id ∈ open_ s) then client_hello s id sni protos else s)
  | ConnDestroyed id => Some (conn_destroy s id)
  end.

Fixpoint run (s : server) (evs : list event) : option server :=
  match evs with
  | [] => Some s
  | ev :: evs => s ← step s ev; run s evs
  end.

End ContentServer.

(** ** The invariant *)

Section Invariant.
Variables (is_server enable_upstream_tls_ reuse_port : bool) (parallel_max : Z).

Local Abbreviation step := (step is_server enable_upstream_tls_ reuse_port parallel_max).
Local Abbreviation run := (run is_server enable_upstream_tls_ reuse_port parallel_max).

(** The accepts that are posted. *)
Definition to_accept (ts : list task) : list nat := omap (λ t, match t with TAccept n => Some n | _ => None end) ts.

(** Where a listening address can be: accepting, waiting for a connection to close, or about to
    accept. *)
Definition slots (s : server) : list nat := accepting_ s ++ pending_next_listen_ctxes_ s ++ to_accept (posted_ s).

(** Nothing accepts behind the order to shut down. *)
Fixpoint settled (ts : list task) : Prop :=
  match ts with
  | [] => True
  | (TShutdown | TStop) :: ts => to_accept ts = []
  | _ :: ts => settled ts
  end.

Definition asked (s : server) : Prop := in_shutdown_ s = true ∨ TShutdown ∈ posted_ s ∨ TStop ∈ posted_ s.

Definition has_acceptor (s : server) (n : nat) : Prop := ∃ ctx, listen_ctxs_ s !! n = Some ctx ∧ acceptor ctx = true.

(** [B] bounds the number of the next connection. *)
Record wf (B : Z) (s : server) : Prop := {
  w_ctxs : length (listen_ctxs_ s) = MAX_LISTEN_ADDRESSES;
  w_next : next_listen_ctx_ s <= MAX_LISTEN_ADDRESSES;
  w_count : opened_connections_ s = Z.of_nat (size (connection_map_ s));
  w_small : (Z.of_nat (size (connection_map_ s)) < next_connection_id_ s <= B)%Z;
  w_open : open_ s = connection_map_ s;
  w_ids : ∀ id, id ∈ connection_map_ s → (1 <= id < next_connection_id_ s)%Z;
  w_nodup : NoDup (slots s);
  w_slots : ∀ n, n ∈ slots s → n < next_listen_ctx_ s;
  w_live : in_shutdown_ s = false → ∀ n, n < next_listen_ctx_ s → has_acceptor s n;
  w_down : in_shutdown_ s = true → pending_next_listen_ctxes_ s = [] ∧ to_accept (posted_ s) = [];
  w_settled : settled (posted_ s);
  w_full : pending_next_listen_ctxes_ s ≠ [] → (parallel_max <= opened_connections_ s)%Z ∧ (1 <= opened_connections_ s)%Z;
  w_guard : in_shutdown_ s = true → opened_connections_ s = 0%Z → work_guard_ s = false ∨ TReset ∈ posted_ s }.

(** *** The addresses and the count *)

(** What the limit is about: the number of connections, the addresses that accept, that wait for a
    connection to close and that are about to accept, how many there are and whether the server is
    shutting down. *)
Record view := mkView { v_opened : Z; v_accepting : list nat; v_pending : list nat; v_posted : list nat; v_next : nat; v_down : bool }.

Definition view_of (s : server) : view :=
  mkView (opened_connections_ s) (accepting_ s) (pending_next_listen_ctxes_ s) (to_accept (posted_ s)) (next_listen_ctx_ s) (in_shutdown_ s).

(** The turns of the game; an accept may fail only where [fails] is set. *)
Inductive turn (fails : bool) : view → view → Prop :=
  | turn_same v : turn fails v v
  | turn_listen k A P Q n : turn fails (mkView k A P Q n false) (mkView k A P (Q ++ [n]) (S n) false)
  | turn_begin k A P Q n m : turn fails (mkView k A P (m :: Q) n false) (mkView k (A ++ [m]) P Q n false)
  | turn_fail k A P Q n i d : fails = true ∨ d = true → turn fails (mkView k A P Q n d) (mkView k (delete i A) P Q n d)
  | turn_accept k A P Q n i m : A !! i = Some m → (k + 1 < parallel_max)%Z →
      turn fails (mkView k A P Q n false) (mkView (k + 1) (delete i A ++ [m]) P Q n false)
  | turn_wait k A P Q n i m : A !! i = Some m → (parallel_max <= k + 1)%Z →
      turn fails (mkView k A P Q n false) (mkView (k + 1) (delete i A) (P ++ [m]) Q n false)
  | turn_close k A P Q n d : (1 <= k)%Z → turn fails (mkView k A P Q n d) (mkView (k - 1) (A ++ P) [] Q n d)
  | turn_down k A P Q n d k' : k' = k ∨ k' = 0%Z → turn fails (mkView k A P Q n d) (mkView k' A [] [] n true).

Lemma to_accept_app ts ts' : to_accept (ts ++ ts') = to_accept ts ++ to_accept ts'.
Proof. apply omap_app. Qed.

(** A task that accepts nothing is posted. *)
Lemma settled_post ts t : settled ts → to_accept [t] = [] → settled (ts ++ [t]).
Proof.
  intros Hs Ht. induction ts as [|t' ts IH]; [by destruct t|]. destruct t'; simpl in *; auto; rewrite to_accept_app, Hs; done.
Qed.

Lemma settled_accept ts n : settled ts → TShutdown ∉ ts → TStop ∉ ts → settled (ts ++ [TAccept n]).
Proof.
  intros Hs H1 H2. induction ts as [|t ts IH]; [done|]. destruct t; simpl in *; try (by destruct H1; left); try (by destruct H2; left);
    apply IH; set_solver.
Qed.

Lemma settled_tail t ts : settled (t :: ts) → settled ts.
Proof.
  assert (∀ ts, to_accept ts = [] → settled ts) as Hn.
  { clear. induction ts as [|t ts IH]; [done|]. destruct t; simpl; try done; auto. }
  destruct t; simpl; auto.
Qed.

#[local] Arguments w_ctxs {_ _}.
#[local] Arguments w_next {_ _}.
#[local] Arguments w_count {_ _}.
#[local] Arguments w_small {_ _}.
#[local] Arguments w_open {_ _}.
#[local] Arguments w_ids {_ _}.
#[local] Arguments w_nodup {_ _}.
#[local] Arguments w_slots {_ _}.
#[local] Arguments w_live {_ _}.
#[local] Arguments w_down {_ _}.
#[local] Arguments w_settled {_ _}.
#[local] Arguments w_full {_ _}.
#[local] Arguments w_guard {_ _}.

Lemma wf_weaken B B' s : wf B s → (B <= B')%Z → wf B' s.
Proof. intros [] ?. split; try done. lia. Qed.

Lemma wf_init : wf 1 init.
Proof.
  split; try done; try (simpl; lia); try apply NoDup_nil_2; try set_solver; intros; simpl in *; lia.
Qed.

Lemma accept_ok s n : has_acceptor s n → accept s n = Some (set_accepting s (accepting_ s ++ [n])).
Proof. intros (ctx & E & A). unfold accept. by rewrite E; simpl; rewrite A. Qed.

Lemma resume_ok ns : ∀ s, Forall (has_acceptor s) ns → resume s ns = Some (set_accepting s (accepting_ s ++ ns)).
Proof.
  induction ns as [|n ns IH]; intros s F; simpl; [by rewrite app_nil_r; destruct s|].
  apply Forall_cons_1 in F as [Hn F]. rewrite accept_ok by done. cbn [mbind option_bind].
  rewrite IH by (eapply Forall_impl; [exact F|done]). cbn. by rewrite <- app_assoc.
Qed.

Lemma to_size_small n : (0 <= n < 2 ^ 32)%Z → to_size n = n.
Proof. intros. unfold to_size. apply Z.mod_small. lia. Qed.

Lemma to_int32_small n : (0 <= n < 2 ^ 31)%Z → to_int32 n = n.
Proof. intros. unfold to_int32. rewrite Z.mod_small by lia. lia. Qed.

#[local] Opaque to_size to_int32.

(** *** Listening and asking to stop *)

Lemma listen_wf B s name m io :
  wf B s → ¬ asked s → wf B (fst (listen is_server enable_upstream_tls_ reuse_port s name m io)).
Proof.
  intros W Na. unfold listen. destruct (Nat.leb_spec MAX_LISTEN_ADDRESSES (next_listen_ctx_ s)) as [|Hlt]; [done|].
  destruct (_ <? length name); [done|].
  set (ctx := mkListenCtx _ _ _ _ _ _).
  assert (in_shutdown_ s = false) as Sh by (destruct (in_shutdown_ s) eqn:E; [by destruct Na; left|done]).
  assert (∀ n, n < S (next_listen_ctx_ s) →
    ∃ ctx', <[next_listen_ctx_ s:=ctx]> (listen_ctxs_ s) !! n = Some ctx' ∧ acceptor ctx' = true) as Ha.
  { intros n Hn. destruct (decide (n = next_listen_ctx_ s)) as [->|Hne].
    - exists ctx. split; [|done]. apply list_lookup_insert_eq. rewrite (w_ctxs W). done.
    - rewrite list_lookup_insert_ne by done. apply (w_live W); [done|lia]. }
  match goal with |- context [if ?b then _ else _] => destruct b end.
  - destruct W. split; try done; [by simpl; rewrite length_insert|]. intros _ n Hn. apply Ha. simpl in Hn. lia.
  - assert (∀ n, n ∈ slots s → n < next_listen_ctx_ s) as Hs by apply W.
    assert (Permutation (next_listen_ctx_ s :: slots s) (slots s ++ [next_listen_ctx_ s])) as Pm by apply Permutation_cons_append.
    destruct W. split; unfold slots in *; cbn; rewrite ?to_accept_app; cbn; try done.
    + by rewrite length_insert.
    + rewrite !app_assoc in *. rewrite <- Pm. constructor; [|done]. intros Hin%Hs. lia.
    + intros n. rewrite !app_assoc in *. rewrite elem_of_app, list_elem_of_singleton. intros [Hin%Hs| ->]; lia.
    + intros E. congruence.
    + apply settled_accept; [done|intros Hin; apply Na; right; by left|intros Hin; apply Na; right; by right].
    + intros Sh'. congruence.
Qed.

Lemma post_wf B s t : wf B s → to_accept [t] = [] → wf B (post s t).
Proof.
  intros W Ht. assert (to_accept (posted_ s ++ [t]) = to_accept (posted_ s)) as E by by rewrite to_accept_app, Ht, app_nil_r.
  destruct W. split; unfold slots in *; cbn -[settled to_accept]; rewrite ?E; try done; [by apply settled_post|].
  intros Sh Op. destruct (w_guard0 Sh Op); [by left|right; set_solver].
Qed.

(** *** Accepting *)

(** Addresses change their places. *)
Lemma slots_set B s a pe ts :
  wf B s → in_shutdown_ s = false → NoDup (a ++ pe ++ to_accept ts) →
  (∀ n, n ∈ a ++ pe ++ to_accept ts → n < next_listen_ctx_ s) → settled ts →
  (pe ≠ [] → (parallel_max <= opened_connections_ s)%Z ∧ (1 <= opened_connections_ s)%Z) →
  wf B (set_posted (set_pending (set_accepting s a) pe) ts).
Proof. intros W Sh Nd Lt St Fu. destruct W. split; try done; intros E; cbn in E; congruence. Qed.

(** The state with new callbacks has the same places and the same acceptors. *)
Lemma setup_cbs_facts s n ctx id :
  listen_ctxs_ s !! n = Some ctx → let s' := setup_ssl_ctx_cbs s n ctx id in
  length (listen_ctxs_ s') = length (listen_ctxs_ s) ∧ (∀ m, has_acceptor s m → has_acceptor s' m) ∧
  (∃ l, s' = set_ctxs s l (next_listen_ctx_ s)).
Proof.
  intros E. unfold setup_ssl_ctx_cbs. destruct (enable_tls ctx); cbn -[has_acceptor].
  - rewrite length_insert. split; [done|]. split; [|by eexists]. intros m (ctx' & E' & A). destruct (decide (m = n)) as [->|Hne].
    + exists (set_arg ctx id). cbn. rewrite list_lookup_insert_eq by (by eapply lookup_lt_Some). split; [done|]. cbn. congruence.
    + exists ctx'. cbn. by rewrite list_lookup_insert_ne.
  - split; [done|]. split; [done|]. exists (listen_ctxs_ s). by destruct s.
Qed.

(** The connection is entered, the address still without a place. *)
Lemma on_accept_wf B s l c :
  wf (B + 1) s → (B + 1 < 2 ^ 31)%Z → (next_connection_id_ s <= B)%Z → in_shutdown_ s = false →
  let sn := set_next_id s (to_int32 (next_connection_id_ s + 1)) in
  length l = length (listen_ctxs_ s) → (∀ m, has_acceptor s m → has_acceptor (set_ctxs sn l (next_listen_ctx_ s)) m) →
  let s1 := on_accept (set_ctxs sn l (next_listen_ctx_ s)) (next_connection_id_ s) c in
  wf (B + 1) s1 ∧ slots s1 = slots s ∧ (asked s1 → asked s) ∧ opened_connections_ s1 = (opened_connections_ s + 1)%Z ∧
  to_accept (posted_ s1) = to_accept (posted_ s).
Proof.
  intros W0 HB Hid0 Sh sn Hl Ha s1. set (id := next_connection_id_ s) in *.
  pose proof (w_small W0) as Hsm. pose proof (w_count W0) as Hct. fold id in Hsm.
  assert (id ∉ connection_map_ s) as Hid. { intros Hin%(w_ids W0). fold id in Hin. lia. }
  assert (size ({[id]} ∪ connection_map_ s) = S (size (connection_map_ s))) as Hsz by (rewrite size_union, size_singleton; set_solver).
  assert (opened_connections_ s1 = (opened_connections_ s + 1)%Z) as Op1 by (cbn; rewrite Hct, to_size_small; lia).
  assert (next_connection_id_ s1 = (id + 1)%Z) as Id1 by (cbn; fold id; rewrite to_int32_small; lia).
  assert (connection_map_ s1 = {[id]} ∪ connection_map_ s) as Cm by done.
  assert (to_accept (posted_ s1) = to_accept (posted_ s)) as Et by (cbn -[to_accept]; rewrite to_accept_app; apply app_nil_r).
  assert (slots s1 = slots s) as Sl by (unfold slots; by rewrite Et).
  split; [|split_and!; try done; unfold asked; cbn; rewrite !elem_of_app; set_solver].
  destruct W0. split; rewrite ?Sl, ?Op1, ?Id1, ?Cm, ?Hsz; try done.
  - exact (eq_trans Hl w_ctxs0).
  - lia.
  - lia.
  - cbn. by rewrite w_open0.
  - intros x [->%elem_of_singleton|Hx]%elem_of_union; [lia|]. apply w_ids0 in Hx. fold id in Hx. lia.
  - intros _ m Hm. by apply Ha, w_live0.
  - intros E. cbn in E. congruence.
  - by apply settled_post.
  - intros Hp. destruct (w_full0 Hp). split; lia.
  - intros E. cbn in E. congruence.
Qed.

Lemma on_async_accept_wf B s n ctx :
  wf (B + 1) s → (B + 1 < 2 ^ 31)%Z → (next_connection_id_ s <= B)%Z → in_shutdown_ s = false → n < next_listen_ctx_ s → n ∉ slots s →
  listen_ctxs_ s !! n = Some ctx → acceptor ctx = true →
  ∃ s', on_async_accept parallel_max (set_next_id s (to_int32 (next_connection_id_ s + 1))) n (next_connection_id_ s) = Some s' ∧
    wf (B + 1) s' ∧ (asked s' → asked s) ∧
    opened_connections_ s' = (opened_connections_ s + 1)%Z ∧ in_shutdown_ s' = false ∧ next_listen_ctx_ s' = next_listen_ctx_ s ∧
    to_accept (posted_ s') = to_accept (posted_ s) ∧
    if (parallel_max <=? opened_connections_ s + 1)%Z
    then accepting_ s' = accepting_ s ∧ pending_next_listen_ctxes_ s' = pending_next_listen_ctxes_ s ++ [n]
    else accepting_ s' = accepting_ s ++ [n] ∧ pending_next_listen_ctxes_ s' = pending_next_listen_ctxes_ s.
Proof.
  intros W0 HB Hid0 Sh Hn Hnot Ec Ea.
  unfold on_async_accept. cbn [set_next_id listen_ctxs_]. rewrite Ec. cbn [mbind option_bind].
  set (sn := set_next_id s _).
  destruct (setup_cbs_facts sn n ctx (next_connection_id_ s) Ec) as (Hl & Ha & l & Es).
  set (ss := setup_ssl_ctx_cbs sn n ctx _) in *. clearbody ss. subst ss. set (c := mkConn _ _ _).
  destruct (on_accept_wf B s l c) as (W1 & Sl & As & Op1 & Et); try done. fold sn in W1, Sl, As, Op1, Et.
  change (next_listen_ctx_ sn) with (next_listen_ctx_ s).
  set (s1 := on_accept _ _ c) in *. rewrite <- Op1.
  assert (in_shutdown_ s1 = false ∧ next_listen_ctx_ s1 = next_listen_ctx_ s ∧ accepting_ s1 = accepting_ s ∧
    pending_next_listen_ctxes_ s1 = pending_next_listen_ctxes_ s ∧ has_acceptor s1 n) as (Sh1 & Nx1 & Ac1 & Pe1 & An1).
  { split_and!; try done. apply (Ha n). by exists ctx. }
  clearbody s1. rewrite <- Ac1, <- Pe1, <- Nx1, <- Et.
  assert (∀ a pe, Permutation (a ++ pe ++ to_accept (posted_ s1)) (n :: slots s1) →
    NoDup (a ++ pe ++ to_accept (posted_ s1)) ∧
    ∀ m, m ∈ a ++ pe ++ to_accept (posted_ s1) → m < next_listen_ctx_ s1) as Mv.
  { intros a pe Pn. split; [rewrite Pn; constructor; [by rewrite Sl|apply W1]|]. intros m Hm. rewrite Pn in Hm.
    apply elem_of_cons in Hm as [->|Hm]; [by rewrite Nx1|by apply (w_slots W1)]. }
  destruct (Z.leb_spec parallel_max (opened_connections_ s1)) as [Hle|Hlt].
  - eexists. split; [done|]. split; [|done].
    destruct (Mv (accepting_ s1) (pending_next_listen_ctxes_ s1 ++ [n])) as [Nd Lt].
    { unfold slots. rewrite <- !app_assoc. cbn [app]. by rewrite <- Permutation_middle, <- Permutation_middle. }
    apply (slots_set _ s1 (accepting_ s1) (pending_next_listen_ctxes_ s1 ++ [n]) (posted_ s1)); try done; [apply W1|].
    intros _. split; [done|]. pose proof (w_count W0). lia.
  - rewrite accept_ok by done. eexists. split; [done|]. split; [|done].
    destruct (Mv (accepting_ s1 ++ [n]) (pending_next_listen_ctxes_ s1)) as [Nd Lt].
    { unfold slots. rewrite <- !app_assoc. cbn [app]. by rewrite <- Permutation_middle. }
    apply (slots_set _ s1 (accepting_ s1 ++ [n]) (pending_next_listen_ctxes_ s1) (posted_ s1)); try done; apply W1.
Qed.

(** The accept at place [i] is over. *)
Lemma accept_over B s i n :
  wf B s → accepting_ s !! i = Some n → let s0 := set_accepting s (delete i (accepting_ s)) in
  wf B s0 ∧ (n ∉ slots s0) ∧ n < next_listen_ctx_ s ∧ is_Some (listen_ctxs_ s0 !! n).
Proof.
  intros W Hi s0. pose proof (delete_Permutation _ _ _ Hi) as Pm.
  assert (n < next_listen_ctx_ s) as Hn by (apply (w_slots W), elem_of_app; left; by eapply list_elem_of_lookup_2).
  split_and!; [|..|done|].
  - assert (sublist (slots s0) (slots s)) as Sb by (apply sublist_app; [apply sublist_delete|done]).
    destruct W. split; try done; [by eapply sublist_NoDup|]. intros m Hm. apply w_slots0. by eapply elem_of_sublist.
  - pose proof (w_nodup W) as Nd. unfold slots in Nd. rewrite Pm in Nd. by apply NoDup_cons_1_1 in Nd.
  - apply lookup_lt_is_Some. cbn. rewrite (w_ctxs W). pose proof (w_next W). lia.
Qed.

Lemma on_accepted_accept B s i n :
  wf B s → (B + 1 < 2 ^ 31)%Z → accepting_ s !! i = Some n → in_shutdown_ s = false →
  let k := opened_connections_ s in let A := delete i (accepting_ s) in let P := pending_next_listen_ctxes_ s in
  let full := (parallel_max <=? k + 1)%Z in
  ∃ s', on_accepted parallel_max (set_accepting s A) n Accept = Some s' ∧ wf (B + 1) s' ∧ (asked s' → asked s) ∧
    view_of s' = mkView (k + 1) (if full then A else A ++ [n]) (if full then P ++ [n] else P)
      (to_accept (posted_ s)) (next_listen_ctx_ s) false.
Proof.
  intros W HB Hi Sh. destruct (accept_over B s i n W Hi) as (W0 & Hnot & Hn & ctx & Ec). cbv zeta.
  set (s0 := set_accepting s (delete i (accepting_ s))) in *.
  assert (acceptor ctx = true) as Ea. { destruct (w_live W Sh n Hn) as (? & ? & ?). cbn in Ec. congruence. }
  unfold on_accepted. rewrite Ec. cbn [mbind option_bind]. rewrite Ea. change (in_shutdown_ s0) with (in_shutdown_ s). rewrite Sh. cbn [negb].
  destruct (on_async_accept_wf B s0 n ctx) as (s' & -> & W' & A' & Eo & Es & En & Et & Em); try done;
    [apply wf_weaken with (B := B); [done|lia]|apply (w_small W)|].
  exists s'. split_and!; try done. unfold view_of. rewrite Eo, Es, En, Et.
  change (opened_connections_ s0) with (opened_connections_ s) in *. by destruct (parallel_max <=? _)%Z; destruct Em as [-> ->].
Qed.

Lemma on_accepted_wf B s i n r :
  wf B s → (B + 1 < 2 ^ 31)%Z → accepting_ s !! i = Some n →
  ∃ s', on_accepted parallel_max (set_accepting s (delete i (accepting_ s))) n r = Some s' ∧ wf (B + 1) s' ∧
    (asked s' → asked s) ∧ turn (match r with Accept => false | _ => true end) (view_of s) (view_of s').
Proof.
  intros W HB Hi. destruct (in_shutdown_ s) eqn:Sh.
  - destruct (accept_over B s i n W Hi) as (W0 & _ & _ & ctx & Ec). set (s0 := set_accepting s (delete i (accepting_ s))) in *.
    exists s0. unfold on_accepted. rewrite Ec. cbn [mbind option_bind]. change (in_shutdown_ s0) with (in_shutdown_ s). rewrite Sh.
    split; [by destruct (acceptor ctx)|]. split; [apply wf_weaken with (B := B); [done|lia]|]. split; [done|]. apply turn_fail. by right.
  - destruct (decide (r = Accept)) as [->|Hr].
    + destruct (on_accepted_accept B s i n) as (s' & -> & W' & A' & Ev); try done. exists s'. split_and!; try done. rewrite Ev.
      unfold view_of. rewrite Sh. destruct (Z.leb_spec parallel_max (opened_connections_ s + 1)); [by apply turn_wait|by apply turn_accept].
    + destruct (accept_over B s i n W Hi) as (W0 & _ & _ & ctx & Ec). apply (wf_weaken _ (B + 1)) in W0; [|lia].
      set (s0 := set_accepting s (delete i (accepting_ s))) in *.
      assert (turn true (view_of s) (view_of s0)) as T by (apply turn_fail; by left).
      unfold on_accepted. rewrite Ec. cbn [mbind option_bind]. change (in_shutdown_ s0) with (in_shutdown_ s). rewrite Sh.
      destruct (acceptor ctx), r; cbn [negb]; try done; try (by exists s0).
      exists (set_guard s0 false). split_and!; try done. destruct W0. split; try done. intros _ _. by left.
Qed.

(** *** Closing *)

Lemma conn_close_wf B s id :
  wf B s → (B < 2 ^ 31)%Z →
  ∃ s', conn_close s id = Some s' ∧ wf B s' ∧ (asked s' → asked s) ∧
    if decide (id ∈ open_ s)
    then (1 <= opened_connections_ s)%Z ∧
      view_of s' = mkView (opened_connections_ s - 1) (accepting_ s ++ pending_next_listen_ctxes_ s) []
        (to_accept (posted_ s)) (next_listen_ctx_ s) (in_shutdown_ s)
    else s' = s.
Proof.
  intros W HB. unfold conn_close. case_decide as Ho; [|by exists s]. rewrite (w_open W) in Ho.
  unfold on_disconnect. rewrite decide_True by done.
  pose proof (w_small W) as Hsm. pose proof (w_count W) as Hct.
  assert (size (connection_map_ s ∖ {[id]}) = size (connection_map_ s) - 1 ∧ 1 <= size (connection_map_ s)) as [Hsz H1].
  { rewrite (size_difference_alt _ {[id]}). assert (connection_map_ s ∩ {[id]} = {[id]}) as -> by set_solver.
    rewrite size_singleton. split; [done|]. destruct (size (connection_map_ s)) eqn:E; [|lia]. apply size_empty_inv in E. set_solver. }
  set (s1 := set_map _ _ _).
  assert (opened_connections_ s1 = Z.of_nat (size (connection_map_ s ∖ {[id]}))) as Op1.
  { cbn. rewrite Hct, to_size_small by lia. lia. }
  set (s2 := add_call s1 _). change (in_shutdown_ s2) with (in_shutdown_ s).
  change (opened_connections_ s2) with (opened_connections_ s1).
  set (s3 := if in_shutdown_ s && _ then post s2 TReset else s2).
  assert (to_accept (posted_ s3) = to_accept (posted_ s) ∧ (asked s3 → asked s) ∧ settled (posted_ s3) ∧
    (in_shutdown_ s = true → opened_connections_ s1 = 0%Z → TReset ∈ posted_ s3) ∧
    pending_next_listen_ctxes_ s3 = pending_next_listen_ctxes_ s ∧ accepting_ s3 = accepting_ s ∧ listen_ctxs_ s3 = listen_ctxs_ s ∧
    in_shutdown_ s3 = in_shutdown_ s ∧ opened_connections_ s3 = opened_connections_ s1 ∧ next_listen_ctx_ s3 = next_listen_ctx_ s ∧
    connection_map_ s3 = connection_map_ s1 ∧ next_connection_id_ s3 = next_connection_id_ s ∧ open_ s3 = open_ s ∖ {[id]} ∧
    work_guard_ s3 = work_guard_ s)
    as (T1 & T2 & T3 & T4 & T5 & T6 & T7 & T8 & T9 & T10 & T11 & T12 & T13 & T14).
  { unfold s3. destruct (in_shutdown_ s && (opened_connections_ s1 =? 0)%Z) eqn:E.
    - split_and!; try done.
      + cbn -[to_accept]. rewrite to_accept_app. apply app_nil_r.
      + intros Ha. unfold asked in *. cbn in *. rewrite !elem_of_app in Ha. set_solver.
      + apply settled_post; [apply W|done].
      + intros _ _. cbn. set_solver.
    - split_and!; try done; [apply W|]. intros E1 E2. rewrite E1, E2 in E. done. }
  clearbody s3. rewrite T5.
  assert (Forall (has_acceptor (set_pending s3 [])) (pending_next_listen_ctxes_ s)) as Fa.
  { destruct (in_shutdown_ s) eqn:Sh; [destruct (w_down W Sh) as [-> _]; constructor|].
    apply Forall_forall. intros n Hn. unfold has_acceptor. cbn. rewrite T7. apply (w_live W Sh), (w_slots W).
    unfold slots. set_solver. }
  rewrite resume_ok by done. eexists. split; [done|].
  split; [|split; [by intros Ha; apply T2|unfold view_of; cbn -[to_accept]; rewrite T1, T6, T8, T9, T10, Op1]].
  2:{ split; [lia|]. f_equal. lia. }
  destruct W. unfold slots in *. split; unfold slots, has_acceptor in *; cbn -[to_accept settled]; rewrite ?T1, ?T6, ?T7, ?T8, ?T9, ?T10, ?T11, ?T12, ?T13, ?T14; try done.
  - cbn. lia.
  - cbn. by rewrite w_open0.
  - cbn. intros x Hx. apply w_ids0. set_solver.
  - by rewrite <- app_assoc.
  - intros n. rewrite <- app_assoc. apply w_slots0.
  - intros Sh. split; [done|by apply w_down0].
  - intros Sh E. right. by apply T4.
Qed.

(** *** Shutting down *)

(** [stop] closes the connections when its map is already empty. *)
Lemma close_all_ok ids : ∀ s,
  in_shutdown_ s = true → pending_next_listen_ctxes_ s = [] → connection_map_ s = ∅ → opened_connections_ s = 0%Z →
  NoDup ids → (∀ id, id ∈ ids → id ∈ open_ s) →
  close_all s ids = Some (mkServer (work_guard_ s) (listen_ctxs_ s) (next_listen_ctx_ s) [] true ∅ (next_connection_id_ s) 0
    (posted_ s ++ replicate (length ids) TReset) (accepting_ s) (open_ s ∖ list_to_set ids) (calls_ s ++ map OnDisconnect ids) (conns_ s) (freed_ s)).
Proof.
  induction ids as [|id ids IH]; intros s Sh Pe Mp Op Nd Hin.
  - cbn. rewrite !app_nil_r. rewrite difference_empty_L. destruct s; simpl in *; congruence.
  - apply NoDup_cons in Nd as [Hid Nd]. cbn [close_all]. unfold conn_close. rewrite decide_True by (apply Hin; left).
    unfold on_disconnect. cbn [set_open connection_map_]. rewrite Mp, decide_False by set_solver.
    cbn -[difference resume close_all]. rewrite Sh, Op. cbn -[difference resume close_all]. rewrite Pe. cbn [resume mbind option_bind].
    rewrite IH; try done.
    + cbn. f_equal. f_equal; [by rewrite <- app_assoc|set_solver|by rewrite <- app_assoc].
    + intros x Hx. cbn. assert (x ≠ id) by (intros ->; done). specialize (Hin x ltac:(by right)). set_solver.
Qed.

Lemma begin_shutdown_facts s :
  length (listen_ctxs_ (begin_shutdown s)) = length (listen_ctxs_ s).
Proof. cbn. unfold close_acceptors. by rewrite length_app, length_map, <- length_app, take_drop. Qed.

(** A task at the head of the queue has run. *)
Lemma wf_popped B s t ts :
  wf B s → posted_ s = t :: ts → to_accept [t] = [] → (t = TReset → work_guard_ s = false) → wf B (set_posted s ts).
Proof.
  intros W Ep Ht Hg. assert (to_accept (posted_ s) = to_accept ts) as Et by (rewrite Ep; by destruct t).
  pose proof (w_settled W) as St. rewrite Ep in St. apply settled_tail in St.
  destruct W. split; unfold slots in *; cbn -[to_accept settled]; rewrite <- ?Et; try done.
  intros Sh Op. destruct (w_guard0 Sh Op) as [|Hin]; [by left|]. rewrite Ep in Hin. apply elem_of_cons in Hin as [<-|]; [left; by apply Hg|by right].
Qed.

(** The io_context runs out of work when all connections are closed. *)
Lemma do_shutdown_wf B s ts :
  wf B s → posted_ s = TShutdown :: ts → wf B (do_shutdown (set_posted s ts)).
Proof.
  intros W Ep. pose proof (w_settled W) as St. rewrite Ep in St. cbn in St.
  assert (to_accept (posted_ s) = []) as Ea by by rewrite Ep.
  unfold do_shutdown, end_shutdown. set (s1 := begin_shutdown (set_posted s ts)).
  assert (∀ g, (opened_connections_ s = 0%Z → g = false ∨ TReset ∈ ts) → wf B (set_guard s1 g)) as Hw.
  { intros g Hg. pose proof (begin_shutdown_facts (set_posted s ts)) as Hl. fold s1 in Hl.
    assert (settled ts) as Sts by (eapply (settled_tail TShutdown); done).
    destruct W. unfold slots in *. rewrite Ea in *. split; unfold slots; cbn -[to_accept settled]; rewrite ?St; try done.
    - exact (eq_trans Hl w_ctxs0).
    - rewrite app_nil_r in *. eapply sublist_NoDup; [exact w_nodup0|]. by apply sublist_inserts_r.
    - intros n Hn. apply w_slots0. set_solver. }
  change (opened_connections_ s1) with (opened_connections_ s).
  destruct (Z.eqb_spec (opened_connections_ s) 0); [apply Hw; by left|].
  replace s1 with (set_guard s1 (work_guard_ s1)) by by destruct s1. by apply Hw.
Qed.

Lemma do_stop_wf B s ts :
  wf B s → posted_ s = TStop :: ts → ∃ s', do_stop (set_posted s ts) = Some s' ∧ wf B s' ∧ open_ s' = ∅ ∧ work_guard_ s' = false ∧
    view_of s' = mkView 0 (accepting_ s) [] [] (next_listen_ctx_ s) true ∧ calls_ s' = calls_ s ++ map OnDisconnect (elements (connection_map_ s)).
Proof.
  intros W Ep. pose proof (w_settled W) as St. rewrite Ep in St. cbn in St.
  assert (to_accept (posted_ s) = []) as Ea by by rewrite Ep.
  unfold do_stop. set (s1 := begin_shutdown (set_posted s ts)).
  change (connection_map_ s1) with (connection_map_ s).
  rewrite close_all_ok; try done; [|apply NoDup_elements|intros id; rewrite elem_of_elements; cbn; by rewrite (w_open W)].
  cbn [fmap option_fmap option_map]. eexists. split; [done|]. cbn.
  assert (open_ s ∖ list_to_set (elements (connection_map_ s)) = ∅) as Eo by (rewrite (w_open W), list_to_set_elements_L; set_solver).
  pose proof (begin_shutdown_facts (set_posted s ts)) as Hl. fold s1 in Hl.
  assert (settled ts) as Sts by (eapply (settled_tail TStop); done).
  assert (∀ n, to_accept (ts ++ replicate n TReset) = [] ∧ settled (ts ++ replicate n TReset)) as Hp.
  { induction n as [|n [IH1 IH2]]; [by rewrite app_nil_r|]. rewrite replicate_S_end, app_assoc. split.
    - by rewrite to_accept_app, IH1.
    - by apply settled_post. }
  destruct (Hp (length (elements (connection_map_ s)))) as [Hp1 Hp2].
  split; [|by unfold view_of; cbn -[to_accept]; rewrite Eo, Hp1].
  destruct W. unfold slots in *. rewrite Ea in *. split; unfold slots; cbn -[to_accept settled]; rewrite ?Hp1; try done; try (by intros id []%not_elem_of_empty).
  - exact (eq_trans Hl w_ctxs0).
  - rewrite size_empty. lia.
  - rewrite app_nil_r in *. eapply sublist_NoDup; [exact w_nodup0|]. by apply sublist_inserts_r.
  - intros n Hn. apply w_slots0. set_solver.
  - intros _ _. by left.
Qed.

(** *** Runs *)

Lemma run_task_wf B s t ts :
  wf B s → posted_ s = t :: ts →
  ∃ s', run_task (set_posted s ts) t = Some s' ∧ wf B s' ∧ (asked s' → asked s) ∧ turn false (view_of s) (view_of s').
Proof.
  intros W Ep.
  assert (∀ s', in_shutdown_ s' = in_shutdown_ s → posted_ s' = ts → asked s' → asked s) as Ha.
  { intros s' E1 E2 [Sh|Hin]; [left; congruence|]. right. rewrite E2 in Hin. rewrite Ep. set_solver. }
  destruct t as [n| | |id|]; cbn [run_task].
  - assert (in_shutdown_ s = false) as Sh.
    { destruct (in_shutdown_ s) eqn:Sh; [|done]. destruct (w_down W Sh) as [_ E]. by rewrite Ep in E. }
    assert (has_acceptor s n) as An.
    { apply (w_live W Sh), (w_slots W). unfold slots. rewrite Ep. cbn. set_solver. }
    rewrite accept_ok by done. eexists. split; [done|].
    split; [|split; [by apply Ha|unfold view_of; cbn; rewrite Ep, Sh; apply turn_begin]].
    pose proof (w_settled W) as St. rewrite Ep in St. apply settled_tail in St.
    assert (Permutation ((accepting_ s ++ [n]) ++ pending_next_listen_ctxes_ s ++ to_accept ts) (slots s)) as Pm.
    { unfold slots. rewrite Ep. cbn [to_accept omap list_omap]. rewrite <- app_assoc. apply Permutation_app_head. cbn [app].
      by rewrite Permutation_middle. }
    apply (slots_set B s (accepting_ s ++ [n]) (pending_next_listen_ctxes_ s) ts); try done; try apply W; [rewrite Pm; apply W|].
    intros m. rewrite Pm. apply W.
  - eexists. split; [done|]. split; [by apply do_shutdown_wf|]. split; [intros _; right; left; rewrite Ep; left|].
    pose proof (w_settled W) as St. rewrite Ep in St. cbn in St.
    unfold do_shutdown, end_shutdown, view_of. destruct (_ =? 0)%Z; cbn -[to_accept]; rewrite St; apply turn_down; by left.
  - destruct (do_stop_wf B s ts W Ep) as (s' & E & W' & _ & _ & Ev & _). exists s'. split; [done|]. split; [done|].
    split; [intros _; right; right; rewrite Ep; left|]. rewrite Ev. apply turn_down. by right.
  - eexists. split; [done|]. split; [by eapply wf_popped|]. split; [by apply Ha|].
    unfold view_of. cbn -[to_accept]. rewrite Ep. apply turn_same.
  - eexists. split; [done|]. split; [|split; [by apply Ha|unfold view_of; cbn -[to_accept]; rewrite Ep; apply turn_same]].
    assert (wf B (set_guard s false)) as Wg by (destruct W; split; try done; intros _ _; by left).
    by apply (wf_popped B (set_guard s false) TReset ts).
Qed.

(** A hello touches nothing but the connections. *)
Lemma alpn_loop_same id fuel : ∀ s inp,
  ∃ m r, alpn_loop (server_on_alpn_select id) fuel s inp = (set_conns s m, r).
Proof.
  assert (∀ s, set_conns s (conns_ s) = s) as Hs by by intros [].
  induction fuel as [|fuel IH]; intros s [|n rest]; cbn [alpn_loop]; try (eexists (conns_ s), _; by rewrite Hs).
  destruct (_ <? _); [eexists (conns_ s), _; by rewrite Hs|].
  assert (∃ m b, server_on_alpn_select id s (NextProtoFromString (take (Z.to_nat (u8 n)) rest)) = (set_conns s m, b)) as (m & b & ->).
  { unfold server_on_alpn_select. case_decide; [|eexists (conns_ s), _; by rewrite Hs].
    destruct (conns_ s !! id); [|eexists (conns_ s), _; by rewrite Hs]. destruct (downlink_on_alpn_select _ _). by eexists _, _. }
  destruct b; [by eexists _, _|]. destruct (IH (set_conns s m) (drop (Z.to_nat (u8 n)) rest)) as (m' & r & ->). by eexists _, _.
Qed.

Lemma client_hello_same s id sni ps : ∃ m, client_hello s id sni ps = set_conns s m ∨ client_hello s id sni ps = set_freed s.
Proof.
  assert (∀ s, set_conns s (conns_ s) = s) as Hs by by intros [].
  unfold client_hello. repeat case_match; try (exists (conns_ s); rewrite Hs; by auto).
  match goal with H : on_alpn_select _ _ _ = _ |- _ => unfold on_alpn_select in H; rename H into E end.
  match type of E with alpn_loop (server_on_alpn_select ?a) ?f _ ?i = _ => destruct (alpn_loop_same a f s i) as (m & r & E') end.
  rewrite E' in E. injection E as <- <-. eexists. left. done.
Qed.

Lemma conns_wf B s m : wf B s → wf B (set_conns s m) ∧ wf B (set_freed s).
Proof. intros []. by split; split. Qed.

(** No address is added once the server was asked to stop. *)
Fixpoint orderly (stopped : bool) (evs : list event) : bool :=
  match evs with
  | [] => true
  | Listen _ _ _ :: evs => negb stopped && orderly stopped evs
  | (Shutdown | Stop) :: evs => orderly true evs
  | _ :: evs => orderly stopped evs
  end.

Lemma listen_turn s name m io :
  in_shutdown_ s = false → let s' := fst (listen is_server enable_upstream_tls_ reuse_port s name m io) in
  turn false (view_of s) (view_of s') ∧ (asked s' → asked s).
Proof.
  intros Sh. unfold listen. destruct (_ <=? _); [split; [apply turn_same|done]|]. destruct (_ <? _); [split; [apply turn_same|done]|].
  match goal with |- context [if ?b then _ else _] => destruct b end; [split; [apply turn_same|done]|]. split.
  - unfold view_of. cbn -[to_accept]. rewrite to_accept_app, Sh. apply turn_listen.
  - unfold asked. cbn. rewrite !elem_of_app. set_solver.
Qed.

(** An event after which an accept may have failed. *)
Definition failing (ev : event) : bool :=
  match ev with Accepted _ (Aborted | AcceptError) => true | _ => false end.

Lemma turn_mono (f : bool) v v' : turn false v v' → turn f v v'.
Proof. intros T. destruct T; try (by constructor). destruct H as [|]; [done|]. constructor. by right. Qed.

Lemma step_wf B s ev evs (b : bool) :
  wf B s → (B + 1 < 2 ^ 31)%Z → orderly b (ev :: evs) = true → (asked s → b = true) →
  ∃ s' b', step s ev = Some s' ∧ wf (B + 1) s' ∧ orderly b' evs = true ∧ (asked s' → b' = true) ∧
    turn (failing ev) (view_of s) (view_of s').
Proof.
  intros W HB Ho Ha. assert (wf (B + 1) s) as W' by (apply wf_weaken with (B := B); [done|lia]).
  destruct ev as [name m io| | | |i r|id|id sni ps|id]; cbn [orderly] in Ho.
  - apply andb_true_iff in Ho as [Hb Ho]. assert (¬ asked s) as Na by (intros A; apply Ha in A; subst; done).
    destruct (listen_turn s name m io) as [Tl Al]; [by destruct (in_shutdown_ s) eqn:E; [destruct Na; left|]|].
    eexists _, b. split; [done|]. split; [by apply listen_wf|]. split; [done|]. by auto.
  - eexists _, true. split; [done|]. split; [by apply post_wf|]. split; [done|]. split; [done|].
    unfold view_of. cbn -[to_accept]. rewrite to_accept_app, app_nil_r. apply turn_same.
  - eexists _, true. split; [done|]. split; [by apply post_wf|]. split; [done|]. split; [done|].
    unfold view_of. cbn -[to_accept]. rewrite to_accept_app, app_nil_r. apply turn_same.
  - cbn [ContentServer.step]. destruct (posted_ s) as [|t ts] eqn:Ep; [exists s, b; split_and!; try done; apply turn_same|].
    destruct (run_task_wf (B + 1) s t ts W' Ep) as (s' & -> & W1 & A' & T). exists s', b. split_and!; by auto.
  - cbn [ContentServer.step]. destruct (accepting_ s !! i) as [n|] eqn:Ei; [|exists s, b; split_and!; try done; apply turn_same].
    destruct (on_accepted_wf B s i n r W HB Ei) as (s' & -> & W1 & A' & T). exists s', b. by destruct r; split_and!; auto.
  - cbn [ContentServer.step]. destruct (conn_close_wf (B + 1) s id W') as (s' & -> & W1 & A' & T); [lia|]. exists s', b. split_and!; auto.
    case_decide; [destruct T as [Hk ->]; by apply turn_close|subst; apply turn_same].
  - destruct (client_hello_same s id sni ps) as (m & E). destruct (conns_wf (B + 1) s m) as [W1 W2]; [done|].
    eexists _, b. split; [done|]. case_decide; [destruct E as [-> | ->]|]; split_and!; try done; apply turn_same.
  - eexists _, b. split; [done|]. unfold conn_destroy. case_decide; split_and!; try done; [apply turn_same|by apply conns_wf|apply turn_same].
Qed.

(** What every event of a run keeps, the run keeps; and every such run has an end. *)
Lemma run_keeps (P : server → Prop) (ok : event → bool) evs :
  (∀ B s ev s', wf B s → (B + 1 < 2 ^ 31)%Z → ok ev = true → P s → step s ev = Some s' →
     turn (failing ev) (view_of s) (view_of s') → P s') →
  ∀ B s (b : bool), wf B s → (B + Z.of_nat (length evs) < 2 ^ 31)%Z → orderly b evs = true → (asked s → b = true) →
  forallb ok evs = true → P s → ∃ s', run s evs = Some s' ∧ wf (B + Z.of_nat (length evs)) s' ∧ P s'.
Proof.
  intros Hst. induction evs as [|ev evs IH]; intros B s b W HB Ho Ha Hok HP.
  - exists s. split; [done|]. cbn. by rewrite Z.add_0_r.
  - cbn [length] in *. cbn in Hok. apply andb_true_iff in Hok as [Hok1 Hok2].
    destruct (step_wf B s ev evs b W) as (s1 & b1 & E & W1 & Ho1 & Ha1 & Tu); [lia|done|done|].
    cbn [ContentServer.run]. rewrite E. cbn [mbind option_bind].
    destruct (IH (B + 1)%Z s1 b1 W1) as (s' & E' & W' & P'); try done; [lia|eapply (Hst B s ev); try done; lia|].
    exists s'. split; [done|]. by replace (B + Z.of_nat (S (length evs)))%Z with (B + 1 + Z.of_nat (length evs))%Z by lia.
Qed.

Lemma server_run_app evs evs' : ∀ s, run s (evs ++ evs') = s ← run s evs; run s evs'.
Proof.
  induction evs as [|ev evs IH]; intros s; [done|]. cbn [ContentServer.run app]. destruct (step s ev); [|done].
  cbn [mbind option_bind]. apply IH.
Qed.

(** From the start. *)
Lemma run_from_init (P : server → Prop) (ok : event → bool) evs :
  (∀ B s ev s', wf B s → (B + 1 < 2 ^ 31)%Z → ok ev = true → P s → step s ev = Some s' →
     turn (failing ev) (view_of s) (view_of s') → P s') →
  (Z.of_nat (length evs) < 2 ^ 31 - 1)%Z → orderly false evs = true → forallb ok evs = true → P init →
  ∃ s', run init evs = Some s' ∧ wf (1 + Z.of_nat (length evs)) s' ∧ P s'.
Proof.
  intros Hst HB Ho Hok HP. apply (run_keeps P ok evs Hst 1 init false); try done; [apply wf_init|lia|].
  intros [|[[]%elem_of_nil|[]%elem_of_nil]]; done.
Qed.

(** *** What the delegate is told *)

Record told (s : server) : Prop := {
  t_open : ∀ id, id ∈ open_ s ↔ OnConnect id ∈ calls_ s ∧ OnDisconnect id ∉ calls_ s;
  t_nodup : NoDup (calls_ s);
  t_ids : ∀ id, OnConnect id ∈ calls_ s → (id < next_connection_id_ s)%Z;
  t_before : ∀ id pre post, calls_ s = pre ++ OnDisconnect id :: post → OnConnect id ∈ pre }.

Lemma told_ext s s' :
  told s → open_ s' = open_ s → calls_ s' = calls_ s → next_connection_id_ s' = next_connection_id_ s → told s'.
Proof. intros [] E1 E2 E3. split; by rewrite ?E1, ?E2, ?E3. Qed.

Lemma told_connect s s' id :
  told s → (∀ id', id' ∈ open_ s → (id' < id)%Z) → id = next_connection_id_ s →
  open_ s' = {[id]} ∪ open_ s → calls_ s' = calls_ s ++ [OnConnect id] → next_connection_id_ s' = (id + 1)%Z → told s'.
Proof.
  intros [To Tn Ti Tb] Hlt Eid E1 E2 E3.
  assert (OnConnect id ∉ calls_ s) as Hn by (intros Hin%Ti; lia).
  assert (OnDisconnect id ∉ calls_ s) as Hd.
  { intros (pre & post & E)%list_elem_of_split. pose proof (Tb _ _ _ E) as Hin. destruct Hn. rewrite E. set_solver. }
  split; rewrite ?E1, ?E2, ?E3.
  - intros id'. rewrite elem_of_union, elem_of_singleton, To. split.
    + intros [->|[? ?]]; set_solver.
    + intros [Hc Hnd]. apply elem_of_app in Hc as [Hc|Hc]; [right; set_solver|]. apply list_elem_of_singleton in Hc as [= ->]. by left.
  - apply NoDup_app. split_and!; [done| |apply NoDup_singleton]. intros x Hx ->%list_elem_of_singleton. done.
  - intros id' [Hin|[= ->]%list_elem_of_singleton]%elem_of_app; [apply Ti in Hin; lia|lia].
  - intros id' pre post E. destruct (exists_last (l := OnDisconnect id' :: post)) as (post' & x & Ep); [done|].
    rewrite Ep, app_assoc in E. apply app_inj_tail in E as [E <-].
    destruct post' as [|y post']; [by injection Ep|]. injection Ep as <- ->. by apply (Tb id' pre post').
Qed.

Lemma told_disconnect s s' id :
  told s → id ∈ open_ s → open_ s' = open_ s ∖ {[id]} → calls_ s' = calls_ s ++ [OnDisconnect id] →
  next_connection_id_ s' = next_connection_id_ s → told s'.
Proof.
  intros [To Tn Ti Tb] Ho E1 E2 E3. pose proof (proj1 (To id) Ho) as [Hc Hd].
  split; rewrite ?E1, ?E2, ?E3.
  - intros id'. rewrite elem_of_difference, elem_of_singleton, !elem_of_app, !list_elem_of_singleton, To. split.
    + intros [[? ?] Hne]. split; [by left|]. intros [|[= ->]]; done.
    + intros [[?|[=]] Hnd]. split; [split; [done|]; intros ?; apply Hnd; by left|]. intros ->. apply Hnd. by right.
  - apply NoDup_app. split_and!; [done| |apply NoDup_singleton]. intros x Hx ->%list_elem_of_singleton. done.
  - intros id' [Hin|[=]%list_elem_of_singleton]%elem_of_app. by apply Ti.
  - intros id' pre post E. destruct (exists_last (l := OnDisconnect id' :: post)) as (post' & x & Ep); [done|].
    rewrite Ep, app_assoc in E. apply app_inj_tail in E as [E <-].
    destruct post' as [|y post']; [injection Ep as -> _|injection Ep as <- ->; by apply (Tb id' pre post')].
    rewrite app_nil_r in E. by rewrite <- E.
Qed.

Lemma told_close_all ids : ∀ s s',
  told s → NoDup ids → (∀ id, id ∈ ids → id ∈ open_ s) → open_ s' = open_ s ∖ list_to_set ids →
  calls_ s' = calls_ s ++ map OnDisconnect ids → next_connection_id_ s' = next_connection_id_ s → told s'.
Proof.
  induction ids as [|id ids IH]; intros s s' T Nd Hin E1 E2 E3.
  - cbn in *. rewrite app_nil_r in E2. rewrite difference_empty_L in E1. by apply (told_ext s).
  - apply NoDup_cons in Nd as [Hid Nd].
    apply (IH (add_call (set_open s (open_ s ∖ {[id]})) (OnDisconnect id))); try done.
    + apply (told_disconnect s _ id); try done. apply Hin. left.
    + intros x Hx. cbn. assert (x ≠ id) by (intros ->; done). specialize (Hin x ltac:(by right)). set_solver.
    + rewrite E1. cbn. set_solver.
    + rewrite E2. cbn. by rewrite <- app_assoc.
Qed.

Lemma accept_same s n s' :
  accept s n = Some s' → s' = set_accepting s (accepting_ s ++ [n]).
Proof. unfold accept. destruct (_ !! n) as [ctx|]; [|done]. cbn. by destruct (acceptor ctx); intros [= <-]. Qed.

Lemma resume_same ns : ∀ s s', resume s ns = Some s' → s' = set_accepting s (accepting_ s ++ ns).
Proof.
  induction ns as [|n ns IH]; intros s s'; cbn [resume]; [intros [= <-]; rewrite app_nil_r; by destruct s|].
  destruct (accept s n) as [s1|] eqn:E; [|done]. cbn [mbind option_bind]. intros ->%IH. apply accept_same in E as ->. cbn.
  by rewrite <- app_assoc.
Qed.

Lemma on_async_accept_told s n nid s' :
  told s → nid = (next_connection_id_ s + 1)%Z → (∀ id, id ∈ open_ s → (id < next_connection_id_ s)%Z) →
  on_async_accept parallel_max (set_next_id s nid) n (next_connection_id_ s) = Some s' → told s'.
Proof.
  intros T En Hlt. unfold on_async_accept. destruct (_ !! n) as [ctx|] eqn:Ec; [|done]. cbn [mbind option_bind].
  destruct (setup_cbs_facts _ n ctx (next_connection_id_ s) Ec) as (_ & _ & l & ->).
  set (c := mkConn _ _ _). set (s1 := on_accept _ _ c).
  assert (told s1) as T1 by by apply (told_connect s _ (next_connection_id_ s)).
  clearbody s1. case_match; [intros [= <-]; by apply (told_ext s1)|]. intros ->%accept_same. by apply (told_ext s1).
Qed.

Lemma step_told B s ev s' : wf B s → (B + 1 < 2 ^ 31)%Z → told s → step s ev = Some s' → told s'.
Proof.
  intros W HB T. destruct ev as [name m io| | | |i r|id|id sni ps|id]; cbn [ContentServer.step].
  - intros [= <-]. apply (told_ext s); try done; unfold listen; repeat case_match; done.
  - intros [= <-]. by apply (told_ext s).
  - intros [= <-]. by apply (told_ext s).
  - destruct (posted_ s) as [|t ts] eqn:Ep; [by intros [= <-]|]. destruct t; cbn [run_task].
    + intros ->%accept_same. by apply (told_ext s).
    + intros [= <-]. apply (told_ext s); try done; unfold do_shutdown, end_shutdown; by case_match.
    + unfold do_stop. change (connection_map_ (begin_shutdown (set_posted s ts))) with (connection_map_ s).
      rewrite close_all_ok; try done; [|apply NoDup_elements|intros x; rewrite elem_of_elements; cbn; by rewrite (w_open W)].
      cbn. intros [= <-]. apply (told_close_all (elements (connection_map_ s)) s); try done; [apply NoDup_elements|].
      intros x. rewrite elem_of_elements, (w_open W). done.
    + intros [= <-]. by apply (told_ext s).
    + intros [= <-]. by apply (told_ext s).
  - destruct (accepting_ s !! i) as [n|] eqn:Ei; [|by intros [= <-]].
    set (s0 := set_accepting s _). assert (told s0) as T0 by by apply (told_ext s). pose proof (w_small W).
    assert (∀ id, id ∈ open_ s0 → (id < next_connection_id_ s0)%Z) as Hlt by (intros id; cbn; rewrite (w_open W); apply (w_ids W)).
    assert (to_int32 (next_connection_id_ s0 + 1) = (next_connection_id_ s0 + 1)%Z) as E by (apply to_int32_small; cbn; lia).
    clearbody s0. unfold on_accepted. destruct (_ !! n) as [ctx|]; [|done]. cbn [mbind option_bind].
    case_match; [by intros [= <-]|]. case_match; [by intros [= <-]|].
    destruct r; [by apply on_async_accept_told|by intros [= <-]|intros [= <-]; by apply (told_ext s0)].
  - unfold conn_close. case_decide as Ho; [|by intros [= <-]]. unfold on_disconnect. intros ->%resume_same.
    apply (told_disconnect s _ id); try done; repeat case_match; done.
  - intros [= <-]. case_decide; [|done]. destruct (client_hello_same s id sni ps) as (m & [-> | ->]); by apply (told_ext s).
  - intros [= <-]. unfold conn_destroy. case_decide; [done|]. by apply (told_ext s).
Qed.

(** *** Invariants of the game *)

Definition sane (v : view) : Prop :=
  (0 <= v_opened v)%Z ∧ NoDup (v_accepting v ++ v_pending v ++ v_posted v) ∧
  ∀ n, n ∈ v_accepting v ++ v_pending v ++ v_posted v → n < v_next v.

Lemma wf_sane B s : wf B s → sane (view_of s).
Proof. intros W. split; [cbn; rewrite (w_count W); lia|]. split; apply W. Qed.

(** With a single address the limit holds. *)
Definition limited (v : view) : Prop :=
  (v_next v = 0 → v_opened v = 0%Z) ∧
  (v_next v <= 1 → (v_opened v <= Z.max 1 parallel_max)%Z ∧
    (v_accepting v ++ v_posted v ≠ [] → (v_opened v < Z.max 1 parallel_max)%Z)).

Lemma single_slot (l : list nat) (n : nat) : NoDup l → (∀ m, m ∈ l → m < n) → n <= 1 → length l <= 1.
Proof.
  intros Nd Lt Hn. destruct l as [|x [|y l]]; cbn; try lia. exfalso.
  pose proof (Lt x ltac:(left)). pose proof (Lt y ltac:(right; left)). apply NoDup_cons_1_1 in Nd. apply Nd.
  replace x with y by lia. left.
Qed.

Lemma limited_turn v v' : sane v → limited v → turn true v v' → limited v'.
Proof.
  intros (Hk & Nd & Lt) [L0 L1] T. destruct T; cbn in *; [done|..].
  - split; [done|]. cbn. intros Hn. assert (n = 0) as -> by lia. rewrite L0 by done. lia.
  - split; [done|]. cbn. intros Hn. destruct (L1 Hn) as [? L2]. split; [done|]. intros _. apply L2. by destruct A.
  - split; [done|]. cbn. intros Hn. destruct (L1 Hn) as [? L2]. split; [done|]. intros Hne. apply L2. by destruct A, Q.
  - assert (m < n) by (apply Lt, elem_of_app; left; by eapply list_elem_of_lookup_2). split; cbn; [lia|]. lia.
  - assert (m < n) by (apply Lt, elem_of_app; left; by eapply list_elem_of_lookup_2). split; cbn; [lia|]. intros Hn.
    destruct (L1 Hn) as [? L2].
    pose proof (single_slot _ _ Nd Lt Hn) as Hl. rewrite (delete_Permutation _ _ _ H) in Hl. rewrite !length_app in Hl. cbn in Hl.
    assert (k < Z.max 1 parallel_max)%Z by (apply L2; by destruct A). split; [lia|]. intros Hne. exfalso. apply Hne.
    assert (length (delete i A ++ Q) = 0) as E by (rewrite length_app; lia). by destruct (delete i A ++ Q).
  - split; cbn; [intros Hn; specialize (L0 Hn); lia|]. intros Hn. destruct (L1 Hn). split; lia.
  - split; cbn; [intros Hn; specialize (L0 Hn); destruct H; lia|]. intros Hn. destruct (L1 Hn) as [? L2].
    split; [destruct H; lia|]. destruct H as [->| ->]; [|lia]. intros Hne. apply L2. rewrite app_nil_r in Hne. by destruct A.
Qed.

(** Every address has a place until the server shuts down. *)
Definition attended (v : view) : Prop := v_down v = false → ∀ n, n < v_next v → n ∈ v_accepting v ++ v_pending v ++ v_posted v.

Lemma attended_turn v v' : attended v → turn false v v' → attended v'.
Proof.
  intros At T. unfold attended in *. destruct T; cbn in *; try done.
  - intros _ m Hm. destruct (decide (m = n)) as [->|]; [set_solver|]. specialize (At eq_refl m ltac:(lia)). set_solver.
  - intros _ x Hx. specialize (At eq_refl x Hx). set_solver.
  - intros ->. by destruct H.
  - intros _ x Hx. specialize (At eq_refl x Hx). rewrite (delete_Permutation _ _ _ H) in At. set_solver.
  - intros _ x Hx. specialize (At eq_refl x Hx). rewrite (delete_Permutation _ _ _ H) in At. set_solver.
  - intros D x Hx. specialize (At D x Hx). set_solver.
Qed.

(** The io_context is let go only when no connection is left. *)
Definition guarded (s : server) : Prop :=
  work_guard_ s = false ∨ TReset ∈ posted_ s → in_shutdown_ s = true ∧ opened_connections_ s = 0%Z.

Lemma guarded_ext s s' :
  guarded s → (work_guard_ s' = false → work_guard_ s = false ∨ TReset ∈ posted_ s) → (TReset ∈ posted_ s' → TReset ∈ posted_ s) →
  in_shutdown_ s' = in_shutdown_ s → opened_connections_ s' = opened_connections_ s → guarded s'.
Proof. intros G Hg Hp E1 E2 [H|H]; rewrite E1, E2; apply G; auto. Qed.

Lemma step_guarded B s ev s' :
  wf B s → (B + 1 < 2 ^ 31)%Z → failing ev = false → guarded s → step s ev = Some s' → guarded s'.
Proof.
  intros W HB Hf G. destruct ev as [name m io| | | |i r|id|id sni ps|id]; cbn [ContentServer.step].
  - intros [= <-]. unfold listen. repeat case_match; apply (guarded_ext s); try done; cbn; try (by left); set_solver.
  - intros [= <-]. apply (guarded_ext s); try done; cbn; [by left|]. set_solver.
  - intros [= <-]. apply (guarded_ext s); try done; cbn; [by left|]. set_solver.
  - destruct (posted_ s) as [|t ts] eqn:Ep; [by intros [= <-]|].
    assert (∀ x, x ∈ ts → x ∈ posted_ s) as Hts by (rewrite Ep; set_solver).
    destruct t; cbn [run_task].
    + intros ->%accept_same. apply (guarded_ext s); try done; [by left|apply Hts].
    + intros [= <-]. unfold do_shutdown, end_shutdown. cbn. destruct (Z.eqb_spec (opened_connections_ s) 0); [by intros _; cbn|].
      intros [Hw|Hp]; cbn in *; destruct G; auto.
    + unfold do_stop. change (connection_map_ (begin_shutdown (set_posted s ts))) with (connection_map_ s).
      rewrite close_all_ok; try done; [|apply NoDup_elements|intros x; rewrite elem_of_elements; cbn; by rewrite (w_open W)].
      by cbn; intros [= <-] _.
    + intros [= <-]. apply (guarded_ext s); try done; [by left|apply Hts].
    + intros [= <-]. apply (guarded_ext s); try done; [|apply Hts]. intros _. right. rewrite Ep. left.
  - destruct (accepting_ s !! i) as [n|] eqn:Ei; [|by intros [= <-]]. destruct r; try done.
    unfold on_accepted. destruct (_ !! n) as [ctx|]; [|done]. cbn [mbind option_bind].
    case_match; [by intros [= <-]|]. case_match eqn:Sh; [by intros [= <-]|]. cbn in Sh. unfold on_async_accept.
    destruct (_ !! n) as [ctx'|] eqn:Ec; [|done]. cbn [mbind option_bind].
    match goal with |- context [setup_ssl_ctx_cbs ?x n ctx' ?y] => destruct (setup_cbs_facts x n ctx' y Ec) as (_ & _ & l & Es) end.
    rewrite Es. clear Es. case_match; [intros [= <-]|intros ->%accept_same]; (intros [Hg|Hg]; cbn in Hg;
      [destruct G; [by left|]; congruence|apply elem_of_app in Hg as [Hg|Hg]; [destruct G; [by right|]; congruence|set_solver]]).
  - unfold conn_close. case_decide as Ho; [|by intros [= <-]]. rewrite (w_open W) in Ho.
    assert (opened_connections_ s ≠ 0%Z) as Hne.
    { rewrite (w_count W). intros E. assert (size (connection_map_ s) = 0) as E' by lia. apply size_empty_inv in E'. set_solver. }
    unfold on_disconnect. rewrite decide_True by done. intros ->%resume_same. cbn.
    destruct (in_shutdown_ s) eqn:Sh; cbn; [destruct (to_size (opened_connections_ s - 1) =? 0)%Z eqn:Ez|];
      intros [Hg|Hg]; cbn in *; rewrite ?Sh; try (split; [done|]; lia); destruct G; auto; congruence.
  - intros [= <-]. case_decide; [|done]. destruct (client_hello_same s id sni ps) as (m & [-> | ->]); by apply (guarded_ext s); [|left|..].
  - intros [= <-]. unfold conn_destroy. case_decide; [done|]. by apply (guarded_ext s); [|left|..].
Qed.

Lemma forallb_true (evs : list event) : forallb (λ _, true) evs = true.
Proof. by induction evs. Qed.

Lemma told_init : told init.
Proof. split; cbn; [set_solver|apply NoDup_nil_2|set_solver|]. intros id pre post E. by destruct pre. Qed.

(** C26: every sequence of fewer than 2^31 - 1 events in which no address is added after the server was
    asked to shut down or stop is handled without the use of a null acceptor.  At its end the count of
    connections is the size of the map and the map holds the connections that are open; no address
    has two accepts under way or waiting; an address waits only when the limit is reached, and
    none does when the server is shutting down; and when it is, with no connection left, the io_context is let go
    or that is posted. *)
Theorem server_invariant evs :
  (Z.of_nat (length evs) < 2 ^ 31 - 1)%Z → orderly false evs = true →
  ∃ s, run init evs = Some s ∧
    opened_connections_ s = Z.of_nat (size (connection_map_ s)) ∧ open_ s = connection_map_ s ∧
    NoDup (accepting_ s ++ pending_next_listen_ctxes_ s) ∧
    (pending_next_listen_ctxes_ s ≠ [] → (parallel_max <= opened_connections_ s)%Z ∧ in_shutdown_ s = false) ∧
    (in_shutdown_ s = true → opened_connections_ s = 0%Z → work_guard_ s = false ∨ TReset ∈ posted_ s).
Proof.
  intros HB Ho. destruct (run_from_init (λ _, True) (λ _, true) evs) as (s & E & W & _); try done; [apply forallb_true|].
  exists s. split; [done|]. split; [apply W|]. split; [apply W|].
  split; [pose proof (w_nodup W) as Nd; unfold slots in Nd; rewrite app_assoc in Nd; by apply NoDup_app in Nd as [Nd _]|].
  split; [|apply W]. intros Hp. split; [by apply (w_full W)|]. destruct (in_shutdown_ s) eqn:Sh; [|done].
  by destruct (w_down W Sh).
Qed.

(** As long as no accept fails, no listening address is lost and the io_context is kept: until the server
    shuts down each address accepts, is about to, or waits for a connection to close; and the
    io_context is let go only in a shutdown, when no connection is left. *)
Theorem server_attended evs :
  (Z.of_nat (length evs) < 2 ^ 31 - 1)%Z → orderly false evs = true → forallb (λ ev, negb (failing ev)) evs = true →
  ∃ s, run init evs = Some s ∧
    (in_shutdown_ s = false → ∀ n, n < next_listen_ctx_ s →
       n ∈ accepting_ s ∨ n ∈ pending_next_listen_ctxes_ s ∨ TAccept n ∈ posted_ s) ∧
    (work_guard_ s = false → in_shutdown_ s = true ∧ open_ s = ∅).
Proof.
  intros HB Ho Hf.
  destruct (run_from_init (λ s, attended (view_of s) ∧ guarded s) (λ ev, negb (failing ev)) evs) as (s & E & W & At & G); try done.
  { intros B s ev s' W HB' Hok%negb_true_iff [At G] E Tu. rewrite Hok in Tu. split; [by eapply attended_turn|by eapply step_guarded]. }
  { split; [intros _ n Hn; cbn in Hn; lia|]. intros [|Hin]; [done|]. cbn in Hin. set_solver. }
  exists s. split; [done|]. split.
  - intros Sh n Hn. specialize (At Sh n Hn). cbn -[to_accept] in At. rewrite !elem_of_app in At.
    destruct At as [|[|At]]; [by auto..|]. right; right. unfold to_accept in At. apply list_elem_of_omap in At as (t & Ht & Et).
    by destruct t; simplify_eq.
  - intros Hg. destruct G as [Sh Op]; [by left|]. split; [done|]. rewrite (w_open W). rewrite (w_count W) in Op.
    apply leibniz_equiv, size_empty_inv. lia.
Qed.

(** C27: over every sequence of fewer than 2^31 - 1 events in which no address is added after the server was asked to stop,
    with at most one listening address the number of connections is never more than
    [parallel_max], or one where that is zero. *)
Theorem server_limit evs :
  (Z.of_nat (length evs) < 2 ^ 31 - 1)%Z → orderly false evs = true →
  ∃ s, run init evs = Some s ∧
    (next_listen_ctx_ s <= 1 → (Z.of_nat (size (open_ s)) <= Z.max 1 parallel_max)%Z).
Proof.
  intros HB Ho. destruct (run_from_init (λ s, limited (view_of s)) (λ _, true) evs) as (s & E & W & L); try done.
  - intros B s ev s' W _ _ L _ Tu. eapply limited_turn; [by eapply wf_sane|done|].
    by destruct (failing ev); [|apply turn_mono].
  - apply forallb_true.
  - split; [done|]. cbn. lia.
  - exists s. split; [done|]. intros Hn. destruct L as [_ L]. destruct (L Hn) as [Hle _].
    cbn in Hle. rewrite (w_open W), <- (w_count W). done.
Qed.

(** The delegate hears of a connection once when it opens and once, later, when it closes; the
    connections that are open are those it has heard the first and not the second of. *)
Theorem server_delegate evs :
  (Z.of_nat (length evs) < 2 ^ 31 - 1)%Z → orderly false evs = true →
  ∃ s, run init evs = Some s ∧ NoDup (calls_ s) ∧
    (∀ id pre post, calls_ s = pre ++ OnDisconnect id :: post → OnConnect id ∈ pre) ∧
    (∀ id, id ∈ open_ s ↔ OnConnect id ∈ calls_ s ∧ OnDisconnect id ∉ calls_ s).
Proof.
  intros HB Ho. destruct (run_from_init told (λ _, true) evs) as (s & E & W & T); try done.
  - intros B s ev s' W HB' _ T E _. by eapply step_told.
  - apply forallb_true.
  - apply told_init.
  - exists s. split; [done|]. destruct T. by split_and!.
Qed.

(** *** Stopping *)

Lemma run_task_posted B s t ts s' :
  wf B s → run_task (set_posted s ts) t = Some s' → ∃ ext, posted_ s' = ts ++ ext.
Proof.
  intros W. destruct t; cbn [run_task].
  - intros ->%accept_same. exists []. by rewrite app_nil_r.
  - intros [= <-]. exists []. rewrite app_nil_r. unfold do_shutdown, end_shutdown. by case_match.
  - unfold do_stop. change (connection_map_ (begin_shutdown (set_posted s ts))) with (connection_map_ s).
    rewrite close_all_ok; try done; [|apply NoDup_elements|intros x; rewrite elem_of_elements; cbn; by rewrite (w_open W)].
    cbn. intros [= <-]. by eexists.
  - intros [= <-]. exists []. by rewrite app_nil_r.
  - intros [= <-]. exists []. by rewrite app_nil_r.
Qed.

Lemma orderly_run_tasks n : orderly true (replicate n RunTask) = true.
Proof. by induction n. Qed.

(** The handlers before the order to stop run, and then it does. *)
Lemma run_to_stop pre : ∀ B s ts,
  wf B s → (B + Z.of_nat (length pre) + 1 < 2 ^ 31)%Z → told s → posted_ s = pre ++ TStop :: ts →
  ∃ s', run s (replicate (S (length pre)) RunTask) = Some s' ∧ open_ s' = ∅ ∧ work_guard_ s' = false ∧ in_shutdown_ s' = true ∧ told s'.
Proof.
  induction pre as [|t pre IH]; intros B s ts W HB T Ep; cbn [length replicate app] in *.
  - pose proof (step_told B s RunTask) as St. cbn [ContentServer.run ContentServer.step] in *. rewrite Ep in *. cbn [run_task] in *.
    destruct (do_stop_wf B s ts W Ep) as (s' & E & W' & Eo & Eg & Ev & Ec). rewrite E in *. exists s'. split; [done|].
    split_and!; try done; [by injection Ev|]. by apply St; [|lia|..].
  - change (replicate (S (S (length pre))) RunTask) with (RunTask :: replicate (S (length pre)) RunTask).
    destruct (step_wf B s RunTask (replicate (S (length pre)) RunTask) true W) as (s1 & b1 & E & W1 & _); [lia|by apply orderly_run_tasks|done|].
    assert (told s1) as T1 by (apply (step_told B s RunTask); try done; lia).
    assert (∃ ts', posted_ s1 = pre ++ TStop :: ts') as (ts' & Ep1).
    { cbn [ContentServer.step] in E. rewrite Ep in E. apply (run_task_posted B) in E as (ext & ->); [|done].
      exists (ts ++ ext). by rewrite <- app_assoc. }
    cbn [ContentServer.run]. rewrite E. cbn [mbind option_bind]. apply (IH (B + 1)%Z s1 ts'); try done. lia.
Qed.

(** C28: whatever has happened before, in fewer than 2^31 - 3 events and handlers posted and without an address added after the server was
    asked to stop: once [stop] is called and the handlers that were posted by then have run,
    every connection is closed, the delegate has heard so of each that was ever opened, and the
    io_context is let go. *)
Theorem server_stop evs s0 :
  orderly false evs = true → run init evs = Some s0 →
  (Z.of_nat (length evs) + Z.of_nat (length (posted_ s0)) < 2 ^ 31 - 3)%Z →
  ∃ s, run init (evs ++ Stop :: replicate (S (length (posted_ s0))) RunTask) = Some s ∧
    in_shutdown_ s = true ∧ open_ s = ∅ ∧ work_guard_ s = false ∧
    ∀ id, OnConnect id ∈ calls_ s → OnDisconnect id ∈ calls_ s.
Proof.
  intros Ho E0 HB. destruct (run_from_init told (λ _, true) evs) as (s & E & W & T); try done; [|lia|apply forallb_true|apply told_init|].
  { intros B s ev s' W HB' _ T E _. by eapply step_told. }
  assert (s = s0) as -> by congruence.
  destruct (run_to_stop (posted_ s0) (1 + Z.of_nat (length evs)) (stop s0) []) as (s & Er & Eo & Eg & Sh & Ts);
    [by apply post_wf|lia|by apply (told_ext s0)|done|].
  exists s. split; [rewrite server_run_app, E0; cbn [mbind option_bind]; exact Er|]. split_and!; try done.
  intros id Hc. destruct (decide (OnDisconnect id ∈ calls_ s)) as [|Hn]; [done|].
  assert (id ∈ open_ s) as Hin by by apply (t_open _ Ts). rewrite Eo in Hin. set_solver.
Qed.

(** *** Two addresses and the limit *)

(** Both addresses accept. *)
Definition both (k : Z) (s : server) : Prop :=
  ∃ a b Q, view_of s = mkView k [a; b] [] Q 2 false.

(** A round of three events at most, after which there is one connection more. *)
Lemma overrun_round B s k :
  wf B s → (B + 2 < 2 ^ 31)%Z → both k s → ∃ evs s', length evs <= 3 ∧ orderly true evs = true ∧
    run s evs = Some s' ∧ wf (B + 2) s' ∧ both (k + 1) s'.
Proof.
  intros W HB (a & b & Q & E). pose proof E as [= E1 E2 E3 E4 E5 E6].
  destruct (on_accepted_accept B s 0 a) as (s1 & F1 & W1 & _ & V1); [done|lia|by rewrite E2|done|]. rewrite E1, E2, E3, E4, E5 in V1. cbn in V1.
  assert (step s (Accepted 0 Accept) = Some s1) as S1 by (cbn [ContentServer.step]; rewrite E2; cbn; rewrite <- F1; by rewrite E2).
  destruct (Z.leb_spec parallel_max (k + 1)) as [Hle|Hlt].
  2:{ exists [Accepted 0 Accept], s1. cbn [ContentServer.run]. rewrite S1. split_and!; try done; [cbn; lia| |by eexists _, _, _].
      apply wf_weaken with (B := (B + 1)%Z); [done|lia]. }
  pose proof V1 as [= G1 G2 G3 G4 G5 G6].
  destruct (on_accepted_accept (B + 1) s1 0 b) as (s2 & F2 & W2 & _ & V2); [done|lia|by rewrite G2|done|]. rewrite G1, G2, G3, G4, G5 in V2. cbn in V2.
  assert (step s1 (Accepted 0 Accept) = Some s2) as S2 by (cbn [ContentServer.step]; rewrite G2; cbn; rewrite <- F2; by rewrite G2).
  rewrite (proj2 (Z.leb_le _ _)) in V2 by lia. cbn in V2. pose proof V2 as [= H1 H2 H3 H4 H5 H6].
  assert (∃ id, id ∈ open_ s2) as (id & Hid).
  { rewrite (w_open W2). apply size_pos_elem_of. pose proof (w_count W2). pose proof (w_count W). lia. }
  destruct (conn_close_wf (B + 1 + 1) s2 id W2) as (s3 & F3 & W3 & _ & V3); [lia|]. rewrite decide_True in V3 by done.
  destruct V3 as [_ V3]. rewrite H1, H2, H3, H4, H5, H6 in V3. cbn in V3.
  exists [Accepted 0 Accept; Accepted 0 Accept; ConnClosed id], s3. cbn [ContentServer.run]. rewrite S1. cbn [mbind option_bind]. rewrite S2.
  cbn [mbind option_bind ContentServer.step]. rewrite F3. split_and!; try done; [by replace (B + 2)%Z with (B + 1 + 1)%Z by lia|].
  exists a, b, Q. rewrite V3. f_equal. lia.
Qed.

Lemma overrun n : ∀ B s k,
  wf B s → (B + 2 * Z.of_nat n < 2 ^ 31)%Z → both k s → ∃ evs s', length evs <= 3 * n ∧ orderly true evs = true ∧
    run s evs = Some s' ∧ wf (B + 2 * Z.of_nat n) s' ∧ both (k + Z.of_nat n) s'.
Proof.
  induction n as [|n IH]; intros B s k W HB Bo.
  - exists [], s. split_and!; try done; [by rewrite Z.mul_0_r, Z.add_0_r|by rewrite Z.add_0_r].
  - destruct (overrun_round B s k) as (evs & s1 & L1 & O1 & R1 & W1 & B1); [done|lia|done|].
    destruct (IH (B + 2)%Z s1 (k + 1)%Z) as (evs' & s' & L' & O' & R' & W' & B'); [done|lia|done|].
    exists (evs ++ evs'), s'. split_and!.
    + rewrite length_app. lia.
    + clear -O1 O'. induction evs as [|[] evs IHe]; cbn in *; auto.
    + rewrite server_run_app, R1. exact R'.
    + by replace (B + 2 * Z.of_nat (S n))%Z with (B + 2 + 2 * Z.of_nat n)%Z by lia.
    + by replace (k + Z.of_nat (S n))%Z with (k + 1 + Z.of_nat n)%Z by lia.
Qed.

(** With two listening addresses the limit does not hold: a connection that closes lets every address that waits
    accept again, so that whatever [parallel_max] is there are events that lead to any number of
    open connections up to 2^29. *)
Theorem server_limit_exceeded (N : nat) :
  (Z.of_nat N < 2 ^ 29)%Z →
  ∃ evs s, orderly false evs = true ∧ run init evs = Some s ∧ next_listen_ctx_ s = 2 ∧ size (open_ s) = N.
Proof.
  intros HN. set (io := mkListenIo false false false false false false false false).
  set (start := [Listen [] CRYPTO_HTTPS io; Listen [] CRYPTO_HTTPS io; RunTask; RunTask]).
  destruct (run_from_init (λ _, True) (λ _, true) start) as (s0 & E0 & W0 & _); try done.
  assert (∃ s1, run init start = Some s1 ∧ both 0 s1) as (s1 & E1 & B0).
  { clear. destruct is_server, enable_upstream_tls_, reuse_port; (eexists; split; [vm_compute; reflexivity|]; do 3 eexists; vm_compute; reflexivity). }
  assert (s1 = s0) as -> by congruence.
  destruct (overrun N _ s0 0 W0) as (evs & s & _ & O & R & W & (a & b & Q & V)); [cbn; lia|done|].
  exists (start ++ evs), s. split_and!.
  - clear -O. cbn. induction evs as [|[] evs IHe]; cbn in *; auto; try done.
  - by rewrite server_run_app, E0.
  - by injection V.
  - injection V as V1 _ _ _ _ _. rewrite (w_open W). pose proof (w_count W). lia.
Qed.

End Invariant.

(** ** The handshake *)

(** A list of protocols as the client sends it. *)
Definition alpn_encode (ps : list (list byte)) : list byte :=
  concat (map (λ p, to_u8 (Z.of_nat (length p)) :: p) ps).

(** What may follow: nothing, or an entry that is cut short. *)
Definition cut_short (tail : list byte) : Prop :=
  match tail with [] => True | n :: rest => (Z.of_nat (length rest) < u8 n)%Z end.

(** The protocols a connection can take. *)
Definition acceptable (m : cipher_method) (renego : bool) (p : list byte) : bool :=
  bool_decide (p = str "h2") && is_http2 m ||
  bool_decide (p = str "http/1.1") && (is_http2 m && renego || bool_decide (m = CRYPTO_HTTPS)).

(** The connection once it has taken it. *)
Definition taken (dl : downlink) (p : list byte) : downlink :=
  mkDownlink (NextProtoFromString p) (renego_allowed_for_http11_proto_ dl)
    (if decide (p = str "http/1.1") then CRYPTO_HTTPS else local_cipher_ dl).

Lemma alpn_select_acceptable dl p :
  downlink_on_alpn_select dl (NextProtoFromString p) =
  if acceptable (local_cipher_ dl) (renego_allowed_for_http11_proto_ dl) p then (taken dl p, true) else (dl, false).
Proof.
  unfold downlink_on_alpn_select, acceptable, taken, NextProtoFromString.
  destruct (decide (p = str "http/1.1")) as [->|H1].
  { change (bool_decide (str "http/1.1" = str "h2")) with false. change (bool_decide (str "http/1.1" = str "http/1.1")) with true.
    rewrite decide_True by done. by repeat case_match. }
  rewrite (bool_decide_false (p = str "http/1.1")) by done. rewrite andb_false_l, orb_false_r.
  destruct (decide (p = str "h2")) as [->|H2].
  { change (bool_decide (str "h2" = str "h2")) with true. by repeat case_match. }
  rewrite (bool_decide_false (p = str "h2")) by done. by repeat case_decide.
Qed.

(** The loop takes the first protocol that [select] takes, if a refusal changes nothing. *)
Lemma alpn_loop_first {St} (select : St → NextProto → St * bool) (ok : list byte → bool) (st : St) (st' : list byte → St) ps tail :
  (∀ p, select st (NextProtoFromString p) = if ok p then (st' p, true) else (st, false)) →
  Forall (λ p, length p < 256) ps → cut_short tail →
  ∀ fuel, length (alpn_encode ps ++ tail) <= fuel →
  alpn_loop select fuel st (alpn_encode ps ++ tail) =
    match List.find ok ps with Some p => (st' p, Some p) | None => (st, None) end.
Proof.
  intros Hsel F Ct. induction ps as [|p ps IH]; intros fuel Hf.
  - cbn in *. destruct tail as [|n rest]; [by destruct fuel|]. destruct fuel as [|fuel]; [cbn in Hf; lia|]. cbn [alpn_loop].
    cbn [cut_short] in Ct. destruct (Nat.ltb_spec (length (n :: rest)) (Z.to_nat (u8 n) + 1)); [done|]. cbn [length] in *. lia.
  - apply Forall_cons_1 in F as [Hp F]. cbn [alpn_encode map concat] in *. fold (alpn_encode ps) in *. rewrite <- app_assoc in *. cbn [app] in *.
    destruct fuel as [|fuel]; [cbn in Hf; lia|]. cbn [alpn_loop]. rewrite u8_to_u8_small, Nat2Z.id by lia.
    cbn [length] in *. rewrite length_app in *. destruct (Nat.ltb_spec (S (length p + length (alpn_encode ps ++ tail))) (length p + 1)); [lia|].
    rewrite take_app_length, drop_app_length, Hsel. cbn [List.find]. destruct (ok p); [done|]. apply IH; [done|]. rewrite ?length_app in *. lia.
Qed.

(** Of the protocols that a client offers, the first that the connection can take is chosen: h2 on an
    HTTP/2 listener, http/1.1 on an HTTPS listener or on an HTTP/2 listener that may fall back, and then the
    connection speaks HTTPS.  If there is none the handshake fails and the connection is as before, also when the
    list ends in an entry that is cut short. *)
Theorem alpn_select_first dl ps tail :
  Forall (λ p, length p < 256) ps → cut_short tail →
  on_alpn_select downlink_on_alpn_select dl (alpn_encode ps ++ tail) =
    match List.find (acceptable (local_cipher_ dl) (renego_allowed_for_http11_proto_ dl)) ps with
    | Some p => (taken dl p, Some p)
    | None => (dl, None)
    end.
Proof.
  intros F Ct. unfold on_alpn_select. apply alpn_loop_first; try done. intros p. apply alpn_select_acceptable.
Qed.

Definition link_after (c : conn) (dl : downlink) : conn := mkConn (conn_ctx c) dl (negotiated c).

Lemma server_alpn_select a s c p :
  a ∈ connection_map_ s → conns_ s !! a = Some c →
  server_on_alpn_select a s (NextProtoFromString p) =
  if acceptable (local_cipher_ (conn_link c)) (renego_allowed_for_http11_proto_ (conn_link c)) p
  then (set_conns s (<[a := link_after c (taken (conn_link c) p)]> (conns_ s)), true) else (s, false).
Proof.
  intros Hin Hc. unfold server_on_alpn_select. rewrite decide_True, Hc, alpn_select_acceptable by done.
  destruct (acceptable _ _ p); [done|]. rewrite insert_id; [by destruct s|]. rewrite Hc. by destruct c.
Qed.

(** Whose hello it is and which connection is asked. *)
Lemma client_hello_spec s id a c ca ctx sni ps :
  conns_ s !! id = Some c → listen_ctxs_ s !! conn_ctx c = Some ctx → tlsext_arg ctx = Some a →
  a ∈ connection_map_ s → conns_ s !! a = Some ca → default [] sni = server_name ctx → Forall (λ p, length p < 256) ps →
  client_hello s id sni (alpn_encode ps) =
    match List.find (acceptable (local_cipher_ (conn_link ca)) (renego_allowed_for_http11_proto_ (conn_link ca))) ps with
    | Some p => set_conns s (alter (λ c, mkConn (conn_ctx c) (conn_link c) (Some p)) id
        (<[a := link_after ca (taken (conn_link ca) p)]> (conns_ s)))
    | None => set_conns s (alter (λ c, mkConn (conn_ctx c) (conn_link c) None) id (conns_ s))
    end.
Proof.
  intros Hc Hx Ha Hin Hca Hs F. unfold client_hello. rewrite Hc, Hx, Ha, Hca. unfold on_tlsext. rewrite bool_decide_true by done.
  rewrite <- (app_nil_r (alpn_encode ps)). unfold on_alpn_select.
  rewrite (alpn_loop_first _ _ s _ ps [] (λ p, server_alpn_select a s ca p Hin Hca)) by done.
  by destruct (List.find _ ps).
Qed.

(** When a connection is the last that was accepted on its address and asks for the right server name, its hello
    settles its protocol: what it takes is what the TLS library negotiates for it, and no other
    connection changes. *)
Theorem client_hello_own s id c ctx sni ps :
  conns_ s !! id = Some c → listen_ctxs_ s !! conn_ctx c = Some ctx → tlsext_arg ctx = Some id →
  id ∈ connection_map_ s → default [] sni = server_name ctx → Forall (λ p, length p < 256) ps →
  let chosen := List.find (acceptable (local_cipher_ (conn_link c)) (renego_allowed_for_http11_proto_ (conn_link c))) ps in
  client_hello s id sni (alpn_encode ps) =
    set_conns s (<[id := mkConn (conn_ctx c) (from_option (taken (conn_link c)) (conn_link c) chosen) chosen]> (conns_ s)).
Proof.
  intros Hc Hx Ha Hin Hs F. cbv zeta. rewrite (client_hello_spec s id id c c ctx) by done.
  destruct (List.find _ ps); cbn [from_option]; f_equal; apply map_eq; intros i; destruct (decide (i = id)) as [->|Hne].
  - by rewrite lookup_alter_eq, !lookup_insert_eq.
  - by rewrite lookup_alter_ne, !lookup_insert_ne.
  - by rewrite lookup_alter_eq, lookup_insert_eq, Hc.
  - by rewrite lookup_alter_ne, lookup_insert_ne.
Qed.

(** When another connection has been accepted on the address since, it is the other one that the
    hello changes: the protocol that is negotiated is recorded with, and the cipher changed of, the
    connection accepted last, and the one that sent the hello stays as it was. *)
Theorem client_hello_crossed s id a c ca ctx sni ps p :
  conns_ s !! id = Some c → listen_ctxs_ s !! conn_ctx c = Some ctx → tlsext_arg ctx = Some a → a ≠ id →
  a ∈ connection_map_ s → conns_ s !! a = Some ca → default [] sni = server_name ctx → Forall (λ p, length p < 256) ps →
  List.find (acceptable (local_cipher_ (conn_link ca)) (renego_allowed_for_http11_proto_ (conn_link ca))) ps = Some p →
  let s' := client_hello s id sni (alpn_encode ps) in
  conns_ s' !! id = Some (mkConn (conn_ctx c) (conn_link c) (Some p)) ∧
  conns_ s' !! a = Some (link_after ca (taken (conn_link ca) p)).
Proof.
  intros Hc Hx Ha Hne Hin Hca Hs F Hp. cbv zeta. rewrite (client_hello_spec s id a c ca ctx), Hp by done. cbn. split.
  - by rewrite lookup_alter_eq, lookup_insert_ne, Hc.
  - by rewrite lookup_alter_ne, lookup_insert_eq.
Qed.

(** The callbacks of an address keep the context of the connection accepted last after that connection is freed: with
    the default limit, the hello of a connection that was accepted before it then reads freed
    memory. *)
Theorem client_hello_freed (enable_upstream_tls_ reuse_port : bool) :
  ∃ evs, orderly false evs = true ∧
    freed_ <$> run true enable_upstream_tls_ reuse_port 65535 init evs = Some true.
Proof.
  exists [Listen [] CRYPTO_HTTP2 (mkListenIo false false false false false false false false); RunTask;
    Accepted 0 Accept; Accepted 0 Accept; ConnClosed 2; ConnDestroyed 2; ClientHello 1 None (alpn_encode [str "h2"])].
  split; [done|]. destruct enable_upstream_tls_, reuse_port; vm_compute; reflexivity.
Qed.

(** ** The theorems on runs *)

Definition no_error : listen_io := mkListenIo false false false false false false false false.

(** Two connections, a third that waits for a place, one that closes, and a shutdown. *)
Definition sample : list event :=
  [Listen [] CRYPTO_HTTP2 no_error; RunTask; Accepted 0 Accept; Accepted 0 Accept; RunTask; ConnClosed 1;
   Accepted 0 Accept; Shutdown; RunTask; RunTask].

Lemma sample_ok :
  (Z.of_nat (length sample) < 2 ^ 31 - 1)%Z ∧ orderly false sample = true ∧ forallb (λ ev, negb (failing ev)) sample = true.
Proof. split; [cbn; lia|]. by split. Defined.

Local Abbreviation run2 := (run true false false 2).

Lemma server_invariant_witness :
  ∃ s, run2 init sample = Some s ∧
    opened_connections_ s = Z.of_nat (size (connection_map_ s)) ∧ open_ s = connection_map_ s ∧
    NoDup (accepting_ s ++ pending_next_listen_ctxes_ s) ∧
    (pending_next_listen_ctxes_ s ≠ [] → (2 <= opened_connections_ s)%Z ∧ in_shutdown_ s = false) ∧
    (in_shutdown_ s = true → opened_connections_ s = 0%Z → work_guard_ s = false ∨ TReset ∈ posted_ s).
Proof. apply server_invariant; apply sample_ok. Defined.

Lemma server_attended_witness :
  ∃ s, run2 init sample = Some s ∧
    (in_shutdown_ s = false → ∀ n, n < next_listen_ctx_ s →
       n ∈ accepting_ s ∨ n ∈ pending_next_listen_ctxes_ s ∨ TAccept n ∈ posted_ s) ∧
    (work_guard_ s = false → in_shutdown_ s = true ∧ open_ s = ∅).
Proof. apply server_attended; apply sample_ok. Defined.

Lemma server_limit_witness :
  ∃ s, run2 init sample = Some s ∧ (next_listen_ctx_ s <= 1 → (Z.of_nat (size (open_ s)) <= Z.max 1 2)%Z).
Proof. apply server_limit; apply sample_ok. Defined.

Lemma server_delegate_witness :
  ∃ s, run2 init sample = Some s ∧ NoDup (calls_ s) ∧
    (∀ id pre post, calls_ s = pre ++ OnDisconnect id :: post → OnConnect id ∈ pre) ∧
    (∀ id, id ∈ open_ s ↔ OnConnect id ∈ calls_ s ∧ OnDisconnect id ∉ calls_ s).
Proof. apply server_delegate; apply sample_ok. Defined.

(** The state after the first four events. *)
Definition two_open : server := default init (run2 init (take 4 sample)).

Lemma server_stop_witness :
  ∃ s, run2 init (take 4 sample ++ Stop :: replicate 3 RunTask) = Some s ∧
    in_shutdown_ s = true ∧ open_ s = ∅ ∧ work_guard_ s = false ∧
    ∀ id, OnConnect id ∈ calls_ s → OnDisconnect id ∈ calls_ s.
Proof. apply (server_stop true false false 2 (take 4 sample) two_open); vm_compute; reflexivity. Defined.

Lemma server_limit_exceeded_witness :
  ∃ evs s, orderly false evs = true ∧ run2 init evs = Some s ∧ next_listen_ctx_ s = 2 ∧ size (open_ s) = 1000.
Proof. apply server_limit_exceeded. lia. Defined.

Lemma alpn_select_first_witness :
  on_alpn_select downlink_on_alpn_select (mkDownlink kProtoUnknown true CRYPTO_HTTP2)
    (alpn_encode [str "h3"; str "http/1.1"; str "h2"] ++ []) =
  (mkDownlink kProtoHTTP11 true CRYPTO_HTTPS, Some (str "http/1.1")).
Proof.
  rewrite (alpn_select_first (mkDownlink kProtoUnknown true CRYPTO_HTTP2) [str "h3"; str "http/1.1"; str "h2"] []);
    [reflexivity|repeat constructor; cbn; lia|exact I].
Defined.

Definition no_alpn : conn := mkConn 0 (mkDownlink kProtoUnknown true CRYPTO_HTTP2) None.

Lemma client_hello_own_witness :
  client_hello two_open 2 None (alpn_encode [str "h2"]) =
  set_conns two_open (<[2%Z := mkConn 0 (mkDownlink kProtoHTTP2 true CRYPTO_HTTP2) (Some (str "h2"))]> (conns_ two_open)).
Proof.
  apply (client_hello_own two_open 2 no_alpn (mkListenCtx true [] CRYPTO_HTTP2 true true (Some 2%Z)) None [str "h2"]); try reflexivity.
  repeat constructor; cbn; lia.
Defined.

Lemma client_hello_crossed_witness :
  let s' := client_hello two_open 1 None (alpn_encode [str "http/1.1"]) in
  conns_ s' !! 1%Z = Some (mkConn 0 (mkDownlink kProtoUnknown true CRYPTO_HTTP2) (Some (str "http/1.1"))) ∧
  conns_ s' !! 2%Z = Some (mkConn 0 (mkDownlink kProtoHTTP11 true CRYPTO_HTTPS) None).
Proof.
  apply (client_hello_crossed two_open 1 2 no_alpn no_alpn (mkListenCtx true [] CRYPTO_HTTP2 true true (Some 2%Z)) None
    [str "http/1.1"] (str "http/1.1")); try reflexivity; try done.
  repeat constructor; cbn; lia.
Defined.

End ContentServer.
