(* ===== verification/Config.v ===== *)
(** * The configuration

    The flags of src/src/config, the text forms of those that have one (config_core.cpp,
    config_export.hpp), the configuration file (config_impl.cpp, config_impl_local.hpp), and
    what config.cpp does with them: [ReadConfig], [SaveConfig], [ValidateConfig] and
    [ReadConfigFromArgument], for the builds that keep their configuration in a file and not on macOS.

    The flags are a function from the name of a flag to a value of its type.  jsoncpp, abseil's
    string functions, GURL and [StringToInt] are parameters, the class [ConfigLib].  What is logged is
    left out. *)

From Stdlib Require Import ZArith Lia.
From Stdlib Require Decimal DecimalString DecimalN Strings.String.
From stdpp Require Import base list numbers option gmap strings.
From S2P Require Import Prelude Crypter.

Module Config.
Import Crypter.

Abbreviation text := (list byte).

Definition INT64_MAX : Z := 2 ^ 63 - 1.
Definition UINT16_MAX : Z := 2 ^ 16 - 1.

(** ** Flags *)

Inductive kind := KString | KPort | KMethod | KRate | KStringArray | KBool | KInt32.

#[export] Instance kind_eq_decision : EqDecision kind.
Proof. solve_decision. Defined.

Definition denote (k : kind) : Type :=
  match k with
  | KString => text
  | KPort | KRate | KInt32 => Z
  | KMethod => cipher_method
  | KStringArray => list text
  | KBool => bool
  end.

Inductive flag :=
  | FLAGS_server_host | FLAGS_server_sni | FLAGS_server_port | FLAGS_username | FLAGS_password | FLAGS_method
  | FLAGS_local_host | FLAGS_local_port | FLAGS_limit_rate
  | FLAGS_tcp_fastopen | FLAGS_tcp_fastopen_connect | FLAGS_connect_timeout | FLAGS_tcp_nodelay
  | FLAGS_tcp_keep_alive | FLAGS_tcp_keep_alive_cnt | FLAGS_tcp_keep_alive_idle_timeout | FLAGS_tcp_keep_alive_interval
  | FLAGS_tcp_congestion_algorithm | FLAGS_doh_url | FLAGS_dot_host
  | FLAGS_certificate_chain_file | FLAGS_private_key_file | FLAGS_private_key_password | FLAGS_insecure_mode
  | FLAGS_cacert | FLAGS_capath | FLAGS_tls13_early_data | FLAGS_enable_post_quantum_kyber
  | FLAGS_proxy | FLAGS_listen.

#[export] Instance flag_eq_decision : EqDecision flag.
Proof. solve_decision. Defined.

Definition kind_of (f : flag) : kind :=
  match f with
  | FLAGS_server_port | FLAGS_local_port => KPort
  | FLAGS_method => KMethod
  | FLAGS_limit_rate => KRate
  | FLAGS_proxy | FLAGS_listen => KStringArray
  | FLAGS_tcp_fastopen | FLAGS_tcp_fastopen_connect | FLAGS_tcp_nodelay | FLAGS_tcp_keep_alive
  | FLAGS_insecure_mode | FLAGS_tls13_early_data | FLAGS_enable_post_quantum_kyber => KBool
  | FLAGS_connect_timeout | FLAGS_tcp_keep_alive_cnt | FLAGS_tcp_keep_alive_idle_timeout
  | FLAGS_tcp_keep_alive_interval => KInt32
  | _ => KString
  end.

Abbreviation flags := (∀ f, denote (kind_of f)).

(** [absl::SetFlag]; [absl::GetFlag] is application. *)
Definition SetFlag (fs : flags) (f : flag) (v : denote (kind_of f)) : flags :=
  λ g, match decide (f = g) with
       | left e => eq_rect f (λ f, denote (kind_of f)) v g e
       | right _ => fs g
       end.

Lemma SetFlag_eq fs f v : SetFlag fs f v f = v.
Proof.
  unfold SetFlag. destruct (decide (f = f)) as [e|]; [|done]. by rewrite (proof_irrel e eq_refl).
Qed.

Lemma SetFlag_ne fs f v g : f ≠ g → SetFlag fs f v g = fs g.
Proof. intros. unfold SetFlag. by destruct (decide (f = g)). Qed.

(** [ProgramType] and its tests. *)
Inductive ProgramType :=
  | YASS_UNSPEC | YASS_SERVER_DEFAULT | YASS_UNITTEST_DEFAULT | YASS_BENCHMARK_DEFAULT
  | YASS_CLIENT_DEFAULT | YASS_CLIENT_GUI | YASS_CLIENT_LIB.

#[export] Instance ProgramType_eq_decision : EqDecision ProgramType.
Proof. solve_decision. Defined.

Definition ProgramType_num (t : ProgramType) : Z :=
  match t with
  | YASS_UNSPEC => 0 | YASS_SERVER_DEFAULT => 0x10 | YASS_UNITTEST_DEFAULT => 0x20 | YASS_BENCHMARK_DEFAULT => 0x40
  | YASS_CLIENT_DEFAULT => 0x80 | YASS_CLIENT_GUI => 0x81 | YASS_CLIENT_LIB => 0x82
  end%Z.

Definition pType_IsClient (t : ProgramType) : bool := negb (Z.land (ProgramType_num t) 0x80 =? 0)%Z.
Definition pType_IsServer (t : ProgramType) : bool := negb (Z.land (ProgramType_num t) 0x10 =? 0)%Z.

(** ** Rates *)

Definition is_digit (b : byte) : bool := (48 <=? u8 b)%Z && (u8 b <=? 57)%Z.

(** The loop of [ngx_atosz]. *)
Fixpoint atosz_loop (value : Z) (line : text) : Z :=
  match line with
  | [] => value
  | b :: line =>
      if negb (is_digit b) then -1
      else
        let cutoff := INT64_MAX / 10 in
        let cutlim := INT64_MAX mod 10 in
        if (cutoff <=? value) && ((cutoff <? value) || (cutlim <? u8 b - 48)) then -1
        else atosz_loop (value * 10 + (u8 b - 48)) line
  end%Z.

Definition ngx_atosz (line : text) : Z :=
  match line with [] => (-1)%Z | _ => atosz_loop 0 line end.

Definition ngx_parse_size (line : text) : Z :=
  match last line with
  | None => -1
  | Some unit =>
      let '(line, max, scale) :=
        if decide (unit = x4b ∨ unit = x6b) then (take (length line - 1) line, INT64_MAX / 1024, 1024)
        else if decide (unit = x4d ∨ unit = x6d) then (take (length line - 1) line, INT64_MAX / (1024 * 1024), 1024 * 1024)
        else (line, INT64_MAX, 1) in
      let size := ngx_atosz line in
      if (size <? 0) || (max <? size) then -1 else size * scale
  end%Z.

(** [AbslParseFlag] of a rate. *)
Definition ParseRate (t : text) : option Z :=
  match t with
  | [] => Some 0%Z
  | _ => let size := ngx_parse_size t in if (size <? 0)%Z then None else Some size
  end.

(** [RateFlag::operator std::string]. *)
Definition UnparseRate (rate : Z) : text :=
  if (rate mod 2 ^ 20 =? 0)%Z then decimal (rate / 2 ^ 20) ++ str "m"
  else if (rate mod 2 ^ 10 =? 0)%Z then decimal (rate / 2 ^ 10) ++ str "k"
  else decimal rate.

(** [AbslParseFlag] and the text of a method. *)
Definition ParseMethod (t : text) : option cipher_method :=
  let m := to_cipher_method (String.string_of_list_byte t) in
  if decide (m = CRYPTO_INVALID) then None else Some m.

Definition UnparseMethod (m : cipher_method) : text := str (to_cipher_method_str (cipher_num m)).

(** *** The value of digits *)

Definition digits (ds : text) : Z := foldl (λ v b, (v * 10 + (u8 b - 48))%Z) 0%Z ds.

Lemma INT64_MAX_div : (INT64_MAX / 10 = 922337203685477580 ∧ INT64_MAX mod 10 = 7)%Z.
Proof. done. Qed.

Lemma is_digit_range b : is_digit b = true → (0 <= u8 b - 48 <= 9)%Z.
Proof. unfold is_digit. lia. Qed.

Lemma digits_from ds : ∀ v, forallb is_digit ds = true → (0 <= v)%Z →
  (v <= foldl (λ v b, (v * 10 + (u8 b - 48))%Z) v ds)%Z.
Proof.
  induction ds as [|b ds IH]; intros v F Hv; cbn; [lia|]. cbn in F. apply andb_true_iff in F as [Hb%is_digit_range F].
  specialize (IH (v * 10 + (u8 b - 48))%Z F ltac:(lia)). lia.
Qed.

(** The loop computes the value, and -1 for anything else and on overflow. *)
Lemma atosz_loop_spec ds : ∀ v, (0 <= v <= INT64_MAX)%Z →
  atosz_loop v ds =
    let n := foldl (λ v b, (v * 10 + (u8 b - 48))%Z) v ds in
    if forallb is_digit ds && (n <=? INT64_MAX)%Z then n else (-1)%Z.
Proof.
  destruct INT64_MAX_div as [E1 E2]. assert (INT64_MAX = 9223372036854775807%Z) as E3 by done.
  induction ds as [|b ds IH]; intros v Hv; cbn [atosz_loop foldl forallb].
  - cbn. by rewrite (proj2 (Z.leb_le _ _)) by lia.
  - destruct (is_digit b) eqn:Hb; cbn [negb andb]; [|done]. pose proof (is_digit_range _ Hb) as Hd. rewrite E1, E2.
    destruct (Z.leb_spec 922337203685477580 v) as [H1|H1]; cbn [andb].
    + destruct (Z.ltb_spec 922337203685477580 v) as [H2|H2]; cbn [orb]; [|destruct (Z.ltb_spec 7 (u8 b - 48)) as [H3|H3]].
      1,2: cbv zeta; destruct (forallb is_digit ds) eqn:Hf; cbn [andb]; [|done];
        pose proof (digits_from ds (v * 10 + (u8 b - 48)) Hf ltac:(lia)); rewrite (proj2 (Z.leb_gt _ _)) by lia; done.
      apply IH. lia.
    + apply IH. lia.
Qed.

Lemma ngx_atosz_spec ds :
  ngx_atosz ds = if bool_decide (ds ≠ []) && forallb is_digit ds && (digits ds <=? INT64_MAX)%Z then digits ds else (-1)%Z.
Proof.
  destruct ds as [|b ds]; [done|]. unfold ngx_atosz. rewrite atosz_loop_spec by (unfold INT64_MAX; lia).
  rewrite bool_decide_true by done. done.
Qed.

(** The decimal digits of a number. *)
Fixpoint uint_value (v : Z) (d : Decimal.uint) : Z :=
  match d with
  | Decimal.Nil => v
  | Decimal.D0 d => uint_value (v * 10) d
  | Decimal.D1 d => uint_value (v * 10 + 1) d
  | Decimal.D2 d => uint_value (v * 10 + 2) d
  | Decimal.D3 d => uint_value (v * 10 + 3) d
  | Decimal.D4 d => uint_value (v * 10 + 4) d
  | Decimal.D5 d => uint_value (v * 10 + 5) d
  | Decimal.D6 d => uint_value (v * 10 + 6) d
  | Decimal.D7 d => uint_value (v * 10 + 7) d
  | Decimal.D8 d => uint_value (v * 10 + 8) d
  | Decimal.D9 d => uint_value (v * 10 + 9) d
  end%Z.

Lemma uint_value_acc d : ∀ p, Zpos (Pos.of_uint_acc d p) = uint_value (Zpos p) d.
Proof. induction d; intros p; cbn [Pos.of_uint_acc uint_value]; [done|..]; rewrite IHd; f_equal; lia. Qed.

Lemma uint_value_of d : Z.of_N (Pos.of_uint d) = uint_value 0 d.
Proof.
  induction d; cbn [Pos.of_uint uint_value]; [done|exact IHd|..]; exact (uint_value_acc d _).
Qed.

Lemma digit_value (c : Ascii.ascii) (s : String.string) :
  String.list_byte_of_string (String.String c s) = Ascii.byte_of_ascii c :: String.list_byte_of_string s.
Proof. done. Qed.

Lemma uint_digits d : ∀ v,
  let ds := String.list_byte_of_string (DecimalString.NilEmpty.string_of_uint d) in
  forallb is_digit ds = true ∧ foldl (λ v b, (v * 10 + (u8 b - 48))%Z) v ds = uint_value v d.
Proof.
  induction d; intros v; [done|..]; cbn [DecimalString.NilEmpty.string_of_uint uint_value]; cbv zeta; rewrite digit_value;
    match goal with |- context [uint_value ?w d] => destruct (IHd w) as [F E] end; (split; [exact F|]); rewrite <- E; cbn [foldl];
    f_equal; match goal with |- context [u8 ?b] => let x := eval vm_compute in (u8 b) in change (u8 b) with x end; lia.
Qed.

Lemma decimal_digits n : (0 <= n)%Z → forallb is_digit (decimal n) = true ∧ digits (decimal n) = n ∧ decimal n ≠ [].
Proof.
  intros Hn. unfold decimal, digits. set (d := N.to_uint (Z.to_N n)).
  assert (uint_value 0 d = n) as Ev.
  { rewrite <- uint_value_of. change (Pos.of_uint d) with (N.of_uint d). unfold d. rewrite DecimalN.Unsigned.of_to. lia. }
  destruct (uint_digits d 0) as [F E]. rewrite Ev in E. cbv zeta in *. destruct d; try done.
Qed.

(** The units of a rate: what they are written as and what they stand for. *)
Definition unit_of (u : text) : option Z :=
  if decide (u = []) then Some 1%Z
  else if decide (u = str "K" ∨ u = str "k") then Some (2 ^ 10)%Z
  else if decide (u = str "M" ∨ u = str "m") then Some (2 ^ 20)%Z
  else None.

(** [t] is written as [ds], a number, and a unit. *)
Definition rate_text (t ds u : text) (scale : Z) : Prop :=
  t = ds ++ u ∧ unit_of u = Some scale ∧ ds ≠ [] ∧ forallb is_digit ds = true.

Lemma scaled_size ds scale :
  (0 < scale)%Z → ds ≠ [] → forallb is_digit ds = true →
  (let size := ngx_atosz ds in if (size <? 0) || (INT64_MAX / scale <? size) then -1 else size * scale)%Z =
  if (digits ds * scale <=? INT64_MAX)%Z then (digits ds * scale)%Z else (-1)%Z.
Proof.
  intros Hs Hd F. cbv zeta. rewrite ngx_atosz_spec, bool_decide_true, F by done. cbn [andb].
  pose proof (digits_from ds 0 F ltac:(lia)) as Hp. fold (digits ds) in Hp.
  assert (INT64_MAX / scale < digits ds ↔ INT64_MAX < digits ds * scale)%Z as Hdiv.
  { pose proof (Z.div_mod INT64_MAX scale ltac:(lia)). pose proof (Z.mod_pos_bound INT64_MAX scale Hs). split; nia. }
  destruct (Z.leb_spec (digits ds) INT64_MAX) as [H1|H1].
  - rewrite (proj2 (Z.ltb_ge _ _)) by lia. cbn [orb].
    destruct (Z.ltb_spec (INT64_MAX / scale) (digits ds)), (Z.leb_spec (digits ds * scale) INT64_MAX); try done; lia.
  - cbn. destruct (Z.leb_spec (digits ds * scale) INT64_MAX); [nia|done].
Qed.

Lemma unit_bytes (b : byte) :
  [b] = str "K" ∨ [b] = str "k" ↔ b = x4b ∨ b = x6b.
Proof. cbn. split; intros [H|H]; simplify_eq; auto. Qed.

Lemma unit_bytes' (b : byte) :
  [b] = str "M" ∨ [b] = str "m" ↔ b = x4d ∨ b = x6d.
Proof. cbn. split; intros [H|H]; simplify_eq; auto. Qed.

Lemma digit_no_unit b : is_digit b = true → unit_of [b] = None.
Proof.
  intros H. unfold unit_of. rewrite decide_False by done.
  rewrite !decide_False; [done|rewrite unit_bytes'|rewrite unit_bytes]; intros [-> | ->]; done.
Qed.

(** What the parser does with a rate, by the last byte. *)
Lemma ngx_parse_size_snoc line b :
  ngx_parse_size (line ++ [b]) =
  match unit_of [b] with
  | Some scale => (let size := ngx_atosz line in if (size <? 0) || (INT64_MAX / scale <? size) then -1 else size * scale)%Z
  | None => (let size := ngx_atosz (line ++ [b]) in if (size <? 0) || (INT64_MAX / 1 <? size) then -1 else size * 1)%Z
  end.
Proof.
  unfold ngx_parse_size. rewrite last_snoc, length_app. cbn [length]. rewrite Nat.add_sub, take_app_length.
  unfold unit_of. rewrite (decide_False (P := [b] = [])) by done.
  destruct (decide (b = x4b ∨ b = x6b)) as [H|H].
  { rewrite decide_True by by apply unit_bytes. done. }
  rewrite (decide_False (P := [b] = str "K" ∨ _)) by by rewrite unit_bytes.
  destruct (decide (b = x4d ∨ b = x6d)) as [H'|H'].
  { rewrite decide_True by by apply unit_bytes'. done. }
  by rewrite (decide_False (P := [b] = str "M" ∨ _)) by by rewrite unit_bytes'.
Qed.

Lemma unit_of_length u scale : unit_of u = Some scale → u = [] ∧ scale = 1%Z ∨ ∃ b, u = [b].
Proof.
  unfold unit_of. destruct (decide (u = [])); [intros [= <-]; by left|].
  destruct (decide (u = str "K" ∨ _)) as [[-> | ->]|]; [by right; eexists..|].
  destruct (decide (u = str "M" ∨ _)) as [[-> | ->]|]; [by right; eexists..|done].
Qed.

Lemma unit_of_pos u scale : unit_of u = Some scale → (0 < scale)%Z.
Proof. unfold unit_of. repeat case_decide; intros [= <-]; lia. Qed.

Lemma ParseRate_good t ds u scale :
  rate_text t ds u scale → ParseRate t = if (digits ds * scale <=? INT64_MAX)%Z then Some (digits ds * scale)%Z else None.
Proof.
  intros (-> & Eu & Hd & F). pose proof (unit_of_pos _ _ Eu) as Hs. pose proof (digits_from ds 0 F ltac:(lia)) as Hp. fold (digits ds) in Hp.
  assert (ngx_parse_size (ds ++ u) = if (digits ds * scale <=? INT64_MAX)%Z then (digits ds * scale)%Z else (-1)%Z) as E.
  { destruct (unit_of_length _ _ Eu) as [[-> ->]|[b ->]].
    - rewrite app_nil_r. destruct (exists_last (l := ds)) as (ds' & b & E); [done|]. rewrite E at 1. rewrite ngx_parse_size_snoc.
      rewrite digit_no_unit by (rewrite E, forallb_app in F; cbn in F; by apply andb_true_iff in F as [_ [F _]%andb_true_iff]). rewrite <- E. by rewrite (scaled_size ds 1).
    - rewrite ngx_parse_size_snoc, Eu. by apply scaled_size. }
  unfold ParseRate. rewrite E. destruct (ds ++ u) eqn:E'; [by destruct ds|].
  destruct (Z.leb_spec (digits ds * scale) INT64_MAX); [|done]. by rewrite (proj2 (Z.ltb_ge _ _)) by nia.
Qed.

Lemma ngx_atosz_good ds : (0 <= ngx_atosz ds)%Z → ds ≠ [] ∧ forallb is_digit ds = true.
Proof. rewrite ngx_atosz_spec. case_bool_decide; destruct (forallb is_digit ds); cbn; try done. Qed.

Lemma ParseRate_inv t r : ParseRate t = Some r → t = [] ∧ r = 0%Z ∨ ∃ ds u scale, rate_text t ds u scale.
Proof.
  destruct (decide (t = [])) as [->|Ht]; [intros [= <-]; by left|]. intros E. right.
  destruct (exists_last (l := t)) as (line & b & ->); [done|].
  assert (0 <= ngx_parse_size (line ++ [b]))%Z as H.
  { unfold ParseRate in E. destruct (line ++ [b]) eqn:El; [done|]. rewrite <- El in *. destruct (Z.ltb_spec (ngx_parse_size (line ++ [b])) 0); done. }
  rewrite ngx_parse_size_snoc in H. destruct (unit_of [b]) as [scale|] eqn:Eu; cbv zeta in H.
  - destruct (Z.ltb_spec (ngx_atosz line) 0) as [|Hn]; [done|]. apply ngx_atosz_good in Hn as [Hn F]. by exists line, [b], scale.
  - destruct (Z.ltb_spec (ngx_atosz (line ++ [b])) 0) as [|Hn]; [done|]. apply ngx_atosz_good in Hn as [Hn F]. exists (line ++ [b]), [], 1%Z.
    split; [by rewrite app_nil_r|]. done.
Qed.

Lemma ParseRate_decimal r u scale :
  (0 <= r)%Z → unit_of u = Some scale → (r * scale < 2 ^ 63)%Z → ParseRate (decimal r ++ u) = Some (r * scale)%Z.
Proof.
  intros H0 Eu Hlt. destruct (decimal_digits r H0) as (F & E & Hne).
  rewrite (ParseRate_good _ (decimal r) u scale) by done. rewrite E. by rewrite (proj2 (Z.leb_le _ _)) by (unfold INT64_MAX; lia).
Qed.

Lemma ParseRate_Unparse r : (0 <= r < 2 ^ 63)%Z → ParseRate (UnparseRate r) = Some r.
Proof.
  intros Hr. unfold UnparseRate.
  pose proof (Z.div_mod r (2 ^ 20) ltac:(lia)). pose proof (Z.div_mod r (2 ^ 10) ltac:(lia)).
  pose proof (Z.div_pos r (2 ^ 20) ltac:(lia) ltac:(lia)). pose proof (Z.div_pos r (2 ^ 10) ltac:(lia) ltac:(lia)).
  destruct (Z.eqb_spec (r mod 2 ^ 20) 0); [|destruct (Z.eqb_spec (r mod 2 ^ 10) 0)].
  - rewrite (ParseRate_decimal _ _ (2 ^ 20)%Z); [f_equal; lia|lia|done|lia].
  - rewrite (ParseRate_decimal _ _ (2 ^ 10)%Z); [f_equal; lia|lia|done|lia].
  - rewrite <- (app_nil_r (decimal r)), (ParseRate_decimal _ _ 1%Z); [f_equal; lia|lia|done|lia].
Qed.

(** The text forms of rates.  A rate is accepted exactly if it is empty, which is no limit, or a number of decimal digits with
    the unit k, m or none whose value is less than 2^63, and then it has that value; and every
    rate is read back from the text it is written as. *)
Theorem rate_flag_text :
  (∀ t r, ParseRate t = Some r ↔
     (t = [] ∧ r = 0%Z) ∨ ∃ ds u scale, rate_text t ds u scale ∧ r = (digits ds * scale)%Z ∧ (r < 2 ^ 63)%Z) ∧
  (∀ r, (0 <= r < 2 ^ 63)%Z → ParseRate (UnparseRate r) = Some r).
Proof.
  assert (∀ x, (x <=? INT64_MAX)%Z = true ↔ (x < 2 ^ 63)%Z) as Hm by (intros; unfold INT64_MAX; lia).
  split.
  - intros t r. split.
    + intros E. destruct (ParseRate_inv t r E) as [H|(ds & u & scale & H)]; [by left|right]. exists ds, u, scale. split; [done|].
      rewrite (ParseRate_good _ _ _ _ H) in E. destruct (_ <=? _)%Z eqn:El; [|done]. apply Hm in El. injection E as <-. done.
    + intros [[-> ->]|(ds & u & scale & H & -> & Hlt)]; [done|]. rewrite (ParseRate_good _ _ _ _ H). by rewrite (proj2 (Hm _)).
  - apply ParseRate_Unparse.
Qed.

Lemma ParseMethod_Unparse m : m ≠ CRYPTO_INVALID → ParseMethod (UnparseMethod m) = Some m.
Proof.
  intros Hm. unfold ParseMethod, UnparseMethod, str. rewrite String.string_of_list_byte_of_string.
  assert (to_cipher_method (to_cipher_method_str (cipher_num m)) = m) as -> by by destruct m. by rewrite decide_False.
Qed.

(** ** The libraries *)

(** Values of jsoncpp with the accessors the code uses: each gives the value where the test before it
    ([isString], [isBool], [isInt], [isArray]) holds.  [append] is none where jsoncpp throws.  [json_parse] is none where
    the text is not an object. *)
Class ConfigLib := {
  Value : Type;
  Null : Value;
  of_string : text → Value;
  of_bool : bool → Value;
  of_int : Z → Value;
  as_string : Value → option text;
  as_bool : Value → option bool;
  as_int : Value → option Z;
  as_array : Value → option (list Value);
  append : Value → Value → option Value;
  json_parse : text → option (gmap string Value);
  json_write : gmap string Value → text;
  StrSplit : text → list text;
  StringToInt : text → option Z;
  doh_url_ok : text → bool;
  url_host : text → text }.

Class ConfigLaws (L : ConfigLib) : Prop := {
  as_string_of s : as_string (of_string s) = Some s;
  as_bool_of b : as_bool (of_bool b) = Some b;
  as_int_of n : (- 2 ^ 31 <= n < 2 ^ 31)%Z → as_int (of_int n) = Some n;
  null_no_string : as_string Null = None;
  null_no_array : as_array Null = None;
  append_null v : ∃ a, append Null v = Some a ∧ as_array a = Some [v];
  append_array a l v : as_array a = Some l → ∃ a', append a v = Some a' ∧ as_array a' = Some (l ++ [v]);
  append_string a t v : as_string a = Some t → append a v = None }.

Section Config.
Context {L : ConfigLib}.

Abbreviation root := (gmap string Value).

(** ** The file *)

Definition kReadBufferSize : Z := 32768.

(** [ConfigImplLocal::OpenImpl]: the members of the object in the file, which is the text in it if
    there is one. *)
Definition OpenImpl (dontread : bool) (file : option text) : option root :=
  let loaded :=
    t ← file;
    if decide (t = []) then None
    else if (kReadBufferSize <=? Z.of_nat (length t))%Z then None
    else json_parse t in
  match loaded with
  | Some r => Some r
  | None => if dontread then Some ∅ else None
  end.

Definition HasKeyStringImpl (r : root) (key : string) : bool := bool_decide (is_Some (r !! key ≫= as_string)).

Definition HasKeyStringArrayImpl (r : root) (key : string) : bool :=
  match r !! key ≫= as_array with
  | Some members => forallb (λ v, bool_decide (is_Some (as_string v))) members
  | None => false
  end.

Definition HasKeyInt32Impl (r : root) (key : string) : bool := bool_decide (is_Some (r !! key ≫= as_int)).

(** [ReadImpl] for each type. *)
Definition ReadImpl_string (r : root) (key : string) : option text := r !! key ≫= as_string.
Definition ReadImpl_bool (r : root) (key : string) : option bool := r !! key ≫= as_bool.
Definition ReadImpl_int32 (r : root) (key : string) : option Z := r !! key ≫= as_int.
Definition ReadImpl_array (r : root) (key : string) : option (list text) :=
  members ← r !! key ≫= as_array; mapM as_string members.

(** [AbslParseFlag] of a list of strings. *)
Definition ParseStringArray (t : text) : list text := if decide (t = []) then [] else StrSplit t.

(** [ConfigImpl::Read] for each type of flag. *)
Definition Read_value (r : root) (key : string) (k : kind) : option (denote k) :=
  match k return option (denote k) with
  | KString => ReadImpl_string r key
  | KPort =>
      real_value ← ReadImpl_int32 r key;
      if (real_value <? 0)%Z || (UINT16_MAX <? real_value)%Z then None else Some real_value
  | KMethod => real_value ← ReadImpl_string r key; ParseMethod real_value
  | KRate => real_value ← ReadImpl_string r key; ParseRate real_value
  | KStringArray =>
      if HasKeyStringArrayImpl r key then ReadImpl_array r key
      else real_value ← ReadImpl_string r key; Some (ParseStringArray real_value)
  | KBool => ReadImpl_bool r key
  | KInt32 => ReadImpl_int32 r key
  end.

Definition Read (r : root) (fs : flags) (key : string) (f : flag) : flags * bool :=
  match Read_value r key (kind_of f) with
  | Some v => (SetFlag fs f v, true)
  | None => (fs, false)
  end.

(** [WriteImpl] of a list: [root_[key]] is the member, made null if there is none, and what is written is appended. *)
Fixpoint append_all (arr : Value) (value : list text) : option Value :=
  match value with
  | [] => Some arr
  | v :: value => arr ← append arr (of_string v); append_all arr value
  end.

Definition WriteImpl_array (r : root) (key : string) (value : list text) : option root :=
  arr ← append_all (default Null (r !! key)) value; Some (<[key := arr]> r).

(** [ConfigImpl::Write] for each type of flag; [WriteImpl] always answers true. *)
Definition Write_value (r : root) (key : string) (k : kind) : denote k → option root :=
  match k return denote k → option root with
  | KString => λ v, Some (<[key := of_string v]> r)
  | KPort | KInt32 => λ v, Some (<[key := of_int v]> r)
  | KMethod => λ v, Some (<[key := of_string (UnparseMethod v)]> r)
  | KRate => λ v, Some (<[key := of_string (UnparseRate v)]> r)
  | KStringArray => λ v, WriteImpl_array r key v
  | KBool => λ v, Some (<[key := of_bool v]> r)
  end.

Definition Write (r : root) (fs : flags) (key : string) (f : flag) : option (root * bool) :=
  r ← Write_value r key (kind_of f) (fs f); Some (r, true).

(** ** Reading the configuration *)

(** A call of [Read], alone, into [required_fields_loaded], or behind a test of the key. *)
Inductive read_op :=
  | Required (key : string) (f : flag) | Optional (key : string) (f : flag)
  | IfInt32 (key : string) (f : flag) | IfString (key : string) (f : flag) | IfStrings (key : string) (f : flag).

#[export] Instance read_op_eq_decision : EqDecision read_op.
Proof. solve_decision. Defined.

Definition do_read (r : root) (st : flags * bool) (op : read_op) : flags * bool :=
  let '(fs, required_fields_loaded) := st in
  match op with
  | Required key f => let '(fs, ok) := Read r fs key f in (fs, required_fields_loaded && ok)
  | Optional key f => (fst (Read r fs key f), required_fields_loaded)
  | IfInt32 key f => (if HasKeyInt32Impl r key then fst (Read r fs key f) else fs, required_fields_loaded)
  | IfString key f => (if HasKeyStringImpl r key then fst (Read r fs key f) else fs, required_fields_loaded)
  | IfStrings key f =>
      (if HasKeyStringArrayImpl r key || HasKeyStringImpl r key then fst (Read r fs key f) else fs, required_fields_loaded)
  end.

Definition cli_options (pType : ProgramType) : list read_op :=
  if decide (pType = YASS_CLIENT_DEFAULT) then [IfStrings "proxy" FLAGS_proxy; IfStrings "listen" FLAGS_listen] else [].

Definition required_fields (pType : ProgramType) : list read_op :=
  [Required "server" FLAGS_server_host; Required "server_port" FLAGS_server_port; Required "username" FLAGS_username;
   Required "password" FLAGS_password; Required "method" FLAGS_method]
  ++ (if pType_IsClient pType then [Required "local" FLAGS_local_host; Required "local_port" FLAGS_local_port] else [])
  ++ [Optional "server_sni" FLAGS_server_sni].

Definition other_fields (pType : ProgramType) : list read_op :=
  [Optional "fast_open" FLAGS_tcp_fastopen; Optional "fast_open_connect" FLAGS_tcp_fastopen_connect;
   Optional "doh_url" FLAGS_doh_url; Optional "dot_host" FLAGS_dot_host;
   IfInt32 "timeout" FLAGS_connect_timeout; Optional "connect_timeout" FLAGS_connect_timeout;
   Optional "tcp_nodelay" FLAGS_tcp_nodelay; Optional "limit_rate" FLAGS_limit_rate;
   Optional "tcp_keep_alive" FLAGS_tcp_keep_alive; Optional "tcp_keep_alive_cnt" FLAGS_tcp_keep_alive_cnt;
   Optional "tcp_keep_alive_idle_timeout" FLAGS_tcp_keep_alive_idle_timeout;
   Optional "tcp_keep_alive_interval" FLAGS_tcp_keep_alive_interval;
   IfString "congestion_algorithm" FLAGS_tcp_congestion_algorithm;
   Optional "tcp_congestion_algorithm" FLAGS_tcp_congestion_algorithm;
   Optional "cacert" FLAGS_cacert; Optional "capath" FLAGS_capath;
   Optional "certificate_chain_file" FLAGS_certificate_chain_file]
  ++ (if pType_IsServer pType
      then [Optional "private_key_file" FLAGS_private_key_file; Optional "private_key_password" FLAGS_private_key_password] else [])
  ++ (if pType_IsClient pType then [Optional "insecure_mode" FLAGS_insecure_mode] else [])
  ++ [Optional "enable_post_quantum_kyber" FLAGS_enable_post_quantum_kyber; Optional "tls13_early_data" FLAGS_tls13_early_data].

Definition at_least_0 (fs : flags) : flags :=
  let fs := SetFlag fs FLAGS_connect_timeout (Z.max 0 (fs FLAGS_connect_timeout)) in
  let fs := SetFlag fs FLAGS_tcp_keep_alive_cnt (Z.max 0 (fs FLAGS_tcp_keep_alive_cnt)) in
  let fs := SetFlag fs FLAGS_tcp_keep_alive_idle_timeout (Z.max 0 (fs FLAGS_tcp_keep_alive_idle_timeout)) in
  SetFlag fs FLAGS_tcp_keep_alive_interval (Z.max 0 (fs FLAGS_tcp_keep_alive_interval)).

Inductive outcome := Exited | Returned (ret : bool) (fs : flags).

Definition overridable (pType : ProgramType) (fs : flags) : bool :=
  bool_decide (pType = YASS_CLIENT_DEFAULT) && bool_decide (fs FLAGS_proxy ≠ []) && bool_decide (fs FLAGS_listen ≠ []).

(** [enforce_read]: the file was named by the user. *)
Definition ReadConfig (pType : ProgramType) (enforce_read : bool) (file : option text) (fs : flags) : outcome :=
  match OpenImpl false file with
  | None => if enforce_read then Exited else Returned false fs
  | Some r =>
      let '(fs, _) := foldl (do_read r) (fs, true) (cli_options pType) in
      let '(fs, required_fields_loaded) :=
        if overridable pType fs then (fs, true) else foldl (do_read r) (fs, true) (required_fields pType) in
      let '(fs, _) := foldl (do_read r) (fs, true) (other_fields pType) in
      if negb required_fields_loaded && enforce_read then Exited
      else Returned required_fields_loaded (at_least_0 fs)
  end.

(** ** Saving it *)

Inductive save_op := Put (key : string) (f : flag) | Delete (key : string).

#[export] Instance save_op_eq_decision : EqDecision save_op.
Proof. solve_decision. Defined.

Definition do_save (fs : flags) (st : option (root * bool)) (op : save_op) : option (root * bool) :=
  '(r, all_fields_written) ← st;
  match op with
  | Put key f => '(r, ok) ← Write r fs key f; Some (r, all_fields_written && ok)
  | Delete key => Some (delete key r, all_fields_written)
  end.

Definition saved_fields (pType : ProgramType) : list save_op :=
  [Put "server" FLAGS_server_host; Put "server_sni" FLAGS_server_sni; Put "server_port" FLAGS_server_port;
   Put "method" FLAGS_method; Put "username" FLAGS_username; Put "password" FLAGS_password;
   Put "local" FLAGS_local_host; Put "local_port" FLAGS_local_port;
   Put "fast_open" FLAGS_tcp_fastopen; Put "fast_open_connect" FLAGS_tcp_fastopen_connect; Delete "threads";
   Put "doh_url" FLAGS_doh_url; Put "dot_host" FLAGS_dot_host; Delete "timeout";
   Put "connect_timeout" FLAGS_connect_timeout; Put "tcp_nodelay" FLAGS_tcp_nodelay; Put "limit_rate" FLAGS_limit_rate;
   Put "tcp_keep_alive" FLAGS_tcp_keep_alive; Put "tcp_keep_alive_cnt" FLAGS_tcp_keep_alive_cnt;
   Put "tcp_keep_alive_idle_timeout" FLAGS_tcp_keep_alive_idle_timeout;
   Put "tcp_keep_alive_interval" FLAGS_tcp_keep_alive_interval; Delete "congestion_algorithm";
   Put "tcp_congestion_algorithm" FLAGS_tcp_congestion_algorithm;
   Put "cacert" FLAGS_cacert; Put "capath" FLAGS_capath; Put "certificate_chain_file" FLAGS_certificate_chain_file]
  ++ (if pType_IsServer pType
      then [Put "private_key_file" FLAGS_private_key_file; Put "private_key_password" FLAGS_private_key_password] else [])
  ++ (if pType_IsClient pType
      then [Put "insecure_mode" FLAGS_insecure_mode; Put "enable_post_quantum_kyber" FLAGS_enable_post_quantum_kyber] else [])
  ++ [Put "tls13_early_data" FLAGS_tls13_early_data]
  ++ (if decide (pType = YASS_CLIENT_DEFAULT) then [Put "proxy" FLAGS_proxy; Put "listen" FLAGS_listen] else []).

(** What the file system does for [CloseImpl]. *)
Inductive close_io := CloseOk | NoDirectory | WriteFailed (left_behind : option text).

Definition CloseImpl (r : root) (file : option text) (io : close_io) : option text * bool :=
  match io with
  | CloseOk => (Some (json_write r), true)
  | NoDirectory => (file, false)
  | WriteFailed left_behind => (left_behind, false)
  end.

(** None where jsoncpp throws. *)
Definition SaveConfig (pType : ProgramType) (file : option text) (fs : flags) (io : close_io) : option (option text * bool) :=
  r ← OpenImpl true file;
  '(r, all_fields_written) ← foldl (do_save fs) (Some (r, false)) (saved_fields pType);
  let '(file, ok) := CloseImpl r file io in
  Some (file, all_fields_written && ok).

(** ** Checking it *)

Definition TLSEXT_MAXLEN_host_name : nat := 255.

(** [if (c) err_msg << m]. *)
Definition fail_if (c : bool) (m : text) : text := if c then m else [].

Definition is_empty (t : text) : bool := bool_decide (t = []).
Definition too_long (t : text) : bool := TLSEXT_MAXLEN_host_name <? length t.

(** [CIPHER_METHOD_IS_HTTP]. *)
Definition is_http (m : cipher_method) : bool :=
  bool_decide (m = CRYPTO_HTTPS) || bool_decide (m = CRYPTO_HTTP2_PLAINTEXT) || bool_decide (m = CRYPTO_HTTP2).

(** The messages that [ValidateConfig] and both forms of [ReadConfigFromArgument] have in common. *)
Definition check_server (server_host server_sni : text) : list text :=
  [fail_if (is_empty server_host || too_long server_host) (str ",Invalid Server Host: " ++ server_host);
   fail_if (too_long server_sni) (str ",Invalid Server Host: " ++ server_sni)].

Definition check_credentials (method : cipher_method) (username password : text) : list text :=
  [fail_if ((bool_decide (method = CRYPTO_SOCKS4) || bool_decide (method = CRYPTO_SOCKS4A)) &&
            (negb (is_empty username) || negb (is_empty password)))
     (str ",SOCKS4/SOCKSA doesn't support username and passsword");
   fail_if ((bool_decide (method = CRYPTO_SOCKS5) || bool_decide (method = CRYPTO_SOCKS5H)) && xorb (is_empty username) (is_empty password))
     (str ",SOCKS5/SOCKS5H requires both of username and passsword");
   fail_if (is_http method && xorb (is_empty username) (is_empty password)) (str ",HTTP requires both of username and passsword")].

Definition check_local_host (local_host : text) : list text :=
  [fail_if (is_empty local_host || too_long local_host) (str ",Invalid Local Host: " ++ local_host)].

Definition check_dns (doh_url dot_host : text) : list text :=
  [fail_if (negb (is_empty doh_url) && negb (doh_url_ok doh_url)) (str ",Invalid DoH URL: " ++ doh_url);
   fail_if (negb (is_empty doh_url) && too_long (url_host doh_url)) (str ",Invalid DoH Host: " ++ url_host doh_url);
   fail_if (negb (is_empty doh_url) && negb (is_empty dot_host)) (str ",Conflicting DoT Host: " ++ dot_host);
   fail_if (negb (is_empty dot_host) && too_long dot_host) (str ",Invalid DoT Host: " ++ dot_host)].

(** The text of an [int]. *)
Definition int_text (n : Z) : text := if (n <? 0)%Z then str "-" ++ decimal (- n) else decimal n.

(** [ret.empty() ? ret : ret.substr(1)]. *)
Definition ValidateConfig (fs : flags) : text :=
  drop 1 (concat (
    check_server (fs FLAGS_server_host) (fs FLAGS_server_sni)
    ++ [fail_if (fs FLAGS_server_port =? 0)%Z (str ",Invalid Server Port: " ++ int_text (fs FLAGS_server_port));
        fail_if (bool_decide (fs FLAGS_method = CRYPTO_INVALID)) (str ",Invalid Cipher: " ++ UnparseMethod (fs FLAGS_method))]
    ++ check_credentials (fs FLAGS_method) (fs FLAGS_username) (fs FLAGS_password)
    ++ check_local_host (fs FLAGS_local_host)
    ++ check_dns (fs FLAGS_doh_url) (fs FLAGS_dot_host)
    ++ [fail_if (fs FLAGS_connect_timeout <? 0)%Z (str ",Invalid Connect Timeout: " ++ int_text (fs FLAGS_connect_timeout))])).

(** The arguments; the method is a value in one form and a text in the other. *)
Record arguments := mkArguments {
  server_host : text; server_sni : text; server_port : text; username : text; password : text;
  method : cipher_method + text; local_host : text; local_port : text; doh_url : text; dot_host : text;
  limit_rate : text; timeout : text }.

(** [AbslParseFlag] of a port. *)
Definition ParsePort (t : text) : option Z :=
  result ← StringToInt t;
  if (result <? 0)%Z || (UINT16_MAX <? result)%Z then None else Some result.

Definition method_value (m : cipher_method + text) : cipher_method :=
  match m with inl m => m | inr t => default CRYPTO_INVALID (ParseMethod t) end.
Definition method_text (m : cipher_method + text) : text :=
  match m with inl m => UnparseMethod m | inr t => t end.

(** The messages; what is parsed but not valid is not used. *)
Definition argument_errors (a : arguments) : list text :=
  check_server (server_host a) (server_sni a)
  ++ [fail_if (bool_decide (ParsePort (server_port a) = None) || (default 0 (ParsePort (server_port a)) =? 0))%Z
        (str ",Invalid Server Port: " ++ server_port a);
      fail_if (bool_decide (method_value (method a) = CRYPTO_INVALID)) (str ",Invalid Cipher: " ++ method_text (method a))]
  ++ check_credentials (method_value (method a)) (username a) (password a)
  ++ check_local_host (local_host a)
  ++ [fail_if (bool_decide (ParsePort (local_port a) = None)) (str ",Invalid Local Port: " ++ local_port a)]
  ++ check_dns (doh_url a) (dot_host a)
  ++ [fail_if (bool_decide (ParseRate (limit_rate a) = None)) (str ",Invalid Rate Limit: " ++ limit_rate a);
      fail_if (bool_decide (StringToInt (timeout a) = None) || (default 0 (StringToInt (timeout a)) <? 0))%Z
        (str ",Invalid Connect Timeout: " ++ timeout a)].

Definition ReadConfigFromArgument (a : arguments) (fs : flags) : text * flags :=
  let ret := concat (argument_errors a) in
  if decide (ret = []) then
    let fs := SetFlag fs FLAGS_server_host (server_host a) in
    let fs := SetFlag fs FLAGS_server_sni (server_sni a) in
    let fs := SetFlag fs FLAGS_server_port (default 0%Z (ParsePort (server_port a))) in
    let fs := SetFlag fs FLAGS_username (username a) in
    let fs := SetFlag fs FLAGS_password (password a) in
    let fs := SetFlag fs FLAGS_method (method_value (method a)) in
    let fs := SetFlag fs FLAGS_local_host (local_host a) in
    let fs := SetFlag fs FLAGS_local_port (default 0%Z (ParsePort (local_port a))) in
    let fs := SetFlag fs FLAGS_doh_url (doh_url a) in
    let fs := SetFlag fs FLAGS_dot_host (dot_host a) in
    let fs := SetFlag fs FLAGS_limit_rate (default 0%Z (ParseRate (limit_rate a))) in
    let fs := SetFlag fs FLAGS_connect_timeout (default 0%Z (StringToInt (timeout a))) in
    (ret, fs)
  else (drop 1 ret, fs).

(** ** The round trip *)

#[local] Opaque ParseRate UnparseRate ParseMethod UnparseMethod.

(** The member that [Write] leaves, given the one before. *)
Definition entry (old : option Value) (k : kind) : denote k → option Value :=
  match k return denote k → option Value with
  | KString => λ v, Some (of_string v)
  | KPort | KInt32 => λ v, Some (of_int v)
  | KMethod => λ v, Some (of_string (UnparseMethod v))
  | KRate => λ v, Some (of_string (UnparseRate v))
  | KStringArray => λ v, append_all (default Null old) v
  | KBool => λ v, Some (of_bool v)
  end.

Lemma Write_value_entry r key k v :
  Write_value r key k v = (λ e, <[key := e]> r) <$> entry (r !! key) k v.
Proof. by destruct k. Qed.

Definition save_key (op : save_op) : string := match op with Put key _ => key | Delete key => key end.

(** A key that no call mentions keeps its member. *)
Lemma saves_keep fs ops key : ∀ r b r' b',
  foldl (do_save fs) (Some (r, b)) ops = Some (r', b') → key ∉ map save_key ops → r' !! key = r !! key.
Proof.
  induction ops as [|op ops IH]; intros r b r' b'; [intros [= <- _]; done|]. cbn [foldl map]. rewrite not_elem_of_cons.
  intros E [Hne Hnot]. destruct op as [k f|k]; cbn [do_save mbind option_bind save_key] in *.
  - unfold Write in E. rewrite Write_value_entry in E. destruct (entry _ _ _) as [e|]; cbn [fmap option_fmap option_map mbind option_bind] in E.
    + rewrite (IH _ _ _ _ E Hnot). by rewrite lookup_insert_ne.
    + exfalso. clear -E. by induction ops.
  - rewrite (IH _ _ _ _ E Hnot). by rewrite lookup_delete_ne.
Qed.

(** Each call decides about its key. *)
Lemma saves_get fs ops op : ∀ r b r' b',
  foldl (do_save fs) (Some (r, b)) ops = Some (r', b') → NoDup (map save_key ops) → op ∈ ops →
  match op with
  | Put key f => r' !! key = entry (r !! key) (kind_of f) (fs f) ∧ is_Some (r' !! key)
  | Delete key => r' !! key = None
  end.
Proof.
  induction ops as [|op0 ops IH]; intros r b r' b' E Nd Hin; [by apply elem_of_nil in Hin|].
  cbn [foldl map] in *. apply NoDup_cons in Nd as [Hnot Nd].
  destruct (do_save fs (Some (r, b)) op0) as [[r1 b1]|] eqn:E1; [|exfalso; clear -E; by induction ops].
  apply elem_of_cons in Hin as [->|Hin].
  - destruct op0 as [k f|k]; cbn [do_save mbind option_bind save_key] in *; rewrite (saves_keep _ _ _ _ _ _ _ E Hnot).
    + unfold Write in E1. rewrite Write_value_entry in E1. destruct (entry _ _ _) as [e|]; [|done].
      injection E1 as <- _. rewrite lookup_insert_eq. split; [done|by eexists].
    + injection E1 as <- _. apply lookup_delete_eq.
  - specialize (IH r1 b1 r' b' E Nd Hin). destruct op as [k f|k]; [|done].
    assert (r1 !! k = r !! k) as <-; [|done].
    apply (saves_keep fs [op0] k r b r1 b1); [done|]. cbn. intros ->%list_elem_of_singleton. apply Hnot.
    by apply (list_elem_of_fmap_2 save_key _ (Put (save_key op0) f)).
Qed.

Lemma saved_keys pType : NoDup (map save_key (saved_fields pType)).
Proof. destruct pType; apply (bool_decide_unpack _); vm_compute; exact I. Qed.

(** No write is stopped when the lists are new. *)
Lemma append_all_total `{!ConfigLaws L} l : ∀ a, a = Null ∨ is_Some (as_array a) → is_Some (append_all a l).
Proof.
  induction l as [|t l IH]; intros a Ha; [by eexists|]. cbn [append_all].
  assert (∃ a', append a (of_string t) = Some a' ∧ is_Some (as_array a')) as (a' & -> & Ha').
  { destruct Ha as [->|[m Em]].
    - destruct (append_null (of_string t)) as (a' & E & E'). exists a'. split; [done|by eexists].
    - destruct (append_array a m (of_string t) Em) as (a' & E & E'). exists a'. split; [done|by eexists]. }
  apply IH. by right.
Qed.

Lemma entry_total `{!ConfigLaws L} old k v : (k = KStringArray → default Null old = Null) → is_Some (entry old k v).
Proof.
  destruct k; cbn [entry]; intros Hn; try (eexists; reflexivity). rewrite Hn by done. apply append_all_total. by left.
Qed.

Definition new_lists (r : root) (ops : list save_op) : Prop :=
  ∀ key f, Put key f ∈ ops → kind_of f = KStringArray → default Null (r !! key) = Null.

Lemma new_lists_change r r' op ops :
  NoDup (map save_key (op :: ops)) → (∀ key, key ≠ save_key op → r' !! key = r !! key) → new_lists r (op :: ops) → new_lists r' ops.
Proof.
  intros Nd Hr Hf key g Hin Hg. cbn [map] in Nd. apply NoDup_cons in Nd as [Hnot Nd].
  rewrite Hr; [apply (Hf key g); [by right|done]|]. intros ->. apply Hnot. by apply (list_elem_of_fmap_2 save_key _ (Put (save_key op) g)).
Qed.

Lemma saves_total `{!ConfigLaws L} fs ops : ∀ r b,
  NoDup (map save_key ops) → new_lists r ops → ∃ r', foldl (do_save fs) (Some (r, b)) ops = Some (r', b).
Proof.
  induction ops as [|op ops IH]; intros r b Nd Hf; [by eexists|]. cbn [foldl].
  assert (∃ r1, do_save fs (Some (r, b)) op = Some (r1, b) ∧ ∀ key, key ≠ save_key op → r1 !! key = r !! key) as (r1 & -> & Hr1).
  { destruct op as [k f|k]; cbn [do_save mbind option_bind save_key].
    - unfold Write. rewrite Write_value_entry. destruct (entry_total (r !! k) (kind_of f) (fs f)) as [e ->]; [apply Hf; left|].
      eexists. split; [cbn [fmap option_fmap option_map mbind option_bind]; by rewrite andb_true_r|]. intros key Hne. by apply lookup_insert_ne.
    - eexists. split; [done|]. intros key Hne. by apply lookup_delete_ne. }
  apply IH; [|by eapply new_lists_change]. cbn [map] in Nd. by apply NoDup_cons in Nd as [_ Nd].
Qed.

(** What can be written so that it is read back. *)
Definition valid_value (k : kind) : denote k → Prop :=
  match k return denote k → Prop with
  | KPort => λ v, (0 <= v <= UINT16_MAX)%Z
  | KInt32 => λ v, (0 <= v < 2 ^ 31)%Z
  | KMethod => λ v, v ≠ CRYPTO_INVALID
  | KRate => λ v, (0 <= v < 2 ^ 63)%Z
  | _ => λ _, True
  end.

Lemma append_all_array `{!ConfigLaws L} l : ∀ a m a',
  as_array a = Some m → append_all a l = Some a' → as_array a' = Some (m ++ map of_string l).
Proof.
  induction l as [|t l IH]; intros a m a' Em; cbn [append_all map]; [intros [= <-]; by rewrite app_nil_r|].
  destruct (append_array a m (of_string t) Em) as (b & -> & Eb). cbn. intros E. rewrite (IH _ _ _ Eb E), <- app_assoc. done.
Qed.

Lemma append_all_null `{!ConfigLaws L} l a' : l ≠ [] → append_all Null l = Some a' → as_array a' = Some (map of_string l).
Proof.
  destruct l as [|t l]; [done|]. intros _. cbn. destruct (append_null (of_string t)) as (b & -> & Eb). cbn. apply (append_all_array l b [of_string t] a' Eb).
Qed.

Lemma read_strings `{!ConfigLaws L} r key a l :
  r !! key = Some a → as_array a = Some (map of_string l) → HasKeyStringArrayImpl r key = true ∧ Read_value r key KStringArray = Some l.
Proof.
  intros E Ea. assert (HasKeyStringArrayImpl r key = true) as Hk.
  { unfold HasKeyStringArrayImpl. rewrite E. cbn. rewrite Ea. clear -ConfigLaws0. induction l as [|t l IH]; [done|]. cbn.
    rewrite bool_decide_true; [done|]. rewrite as_string_of. by eexists. }
  split; [done|]. cbn [Read_value]. rewrite Hk. unfold ReadImpl_array. rewrite E. cbn [mbind option_bind]. rewrite Ea.
  apply (mapM_fmap_Some as_string of_string), as_string_of.
Qed.

(** What was written is read. *)
Lemma read_entry `{!ConfigLaws L} r key k v :
  r !! key = entry None k v → valid_value k v → k ≠ KStringArray → Read_value r key k = Some v.
Proof.
  intros E V Hk. destruct k; cbn in *; unfold ReadImpl_string, ReadImpl_bool, ReadImpl_int32; rewrite E; cbn.
  - apply as_string_of.
  - rewrite as_int_of by (unfold UINT16_MAX in V; lia). cbn. destruct (Z.ltb_spec v 0); [lia|]. destruct (Z.ltb_spec UINT16_MAX v); [lia|done].
  - rewrite as_string_of. cbn. by apply ParseMethod_Unparse.
  - rewrite as_string_of. cbn. by apply ParseRate_Unparse.
  - done.
  - apply as_bool_of.
  - apply as_int_of. lia.
Qed.

Definition read_key (op : read_op) : string :=
  match op with Required key _ | Optional key _ | IfInt32 key _ | IfString key _ | IfStrings key _ => key end.
Definition read_flag (op : read_op) : flag :=
  match op with Required _ f | Optional _ f | IfInt32 _ f | IfString _ f | IfStrings _ f => f end.
Definition guard (r : root) (op : read_op) : bool :=
  match op with
  | Required _ _ | Optional _ _ => true
  | IfInt32 key _ => HasKeyInt32Impl r key
  | IfString key _ => HasKeyStringImpl r key
  | IfStrings key _ => HasKeyStringArrayImpl r key || HasKeyStringImpl r key
  end.

Lemma do_read_ne r fs b op f : read_flag op ≠ f → fst (do_read r (fs, b) op) f = fs f.
Proof.
  assert (∀ key g, g ≠ f → fst (Read r fs key g) f = fs f) as Hr.
  { intros key g Hg. unfold Read. destruct (Read_value _ _ _); [|done]. by apply SetFlag_ne. }
  destruct op; cbn; intros Hne; try (case_match; cbn; [|done]); try (by apply Hr).
  specialize (Hr key f0 Hne). by destruct (Read r fs key f0).
Qed.

Lemma do_read_eq r fs b op :
  fst (do_read r (fs, b) op) (read_flag op) =
  if guard r op then default (fs (read_flag op)) (Read_value r (read_key op) (kind_of (read_flag op))) else fs (read_flag op).
Proof.
  assert (∀ key g, fst (Read r fs key g) g = default (fs g) (Read_value r key (kind_of g))) as Hr.
  { intros key g. unfold Read. destruct (Read_value _ _ _); [|done]. cbn. by rewrite SetFlag_eq. }
  destruct op; cbn; try (case_match; cbn; [|done]); try (by apply Hr).
  specialize (Hr key f). by destruct (Read r fs key f).
Qed.

(** If what a list of calls reads into [f] is always [v], and one of them does or [f] is [v], then it is afterwards. *)
Lemma reads_get r f v ops : ∀ fs b,
  (∀ op, op ∈ ops → read_flag op = f → guard r op = true → Read_value r (read_key op) (kind_of f) ∈ [Some v; None]) →
  fs f = v ∨ (∃ op, op ∈ ops ∧ read_flag op = f ∧ guard r op = true ∧ Read_value r (read_key op) (kind_of f) = Some v) →
  fst (foldl (do_read r) (fs, b) ops) f = v.
Proof.
  induction ops as [|op ops IH]; intros fs b Hall Hex; cbn [foldl].
  - destruct Hex as [|(op & Hin & _)]; [done|by apply elem_of_nil in Hin].
  - destruct (do_read r (fs, b) op) as [fs1 b1] eqn:E1. apply IH; [intros op' Hin; apply Hall; by right|].
    destruct (decide (read_flag op = f)) as [Hf|Hf].
    + pose proof (do_read_eq r fs b op) as Hd. rewrite E1 in Hd. cbn [fst] in Hd. specialize (Hall op ltac:(left) Hf).
      destruct Hf. destruct (guard r op) eqn:Hg.
      * specialize (Hall eq_refl). apply elem_of_cons in Hall as [Hv|Hv].
        -- left. rewrite Hd, Hv. done.
        -- apply list_elem_of_singleton in Hv. rewrite Hv in Hd. cbn in Hd. rewrite Hd. destruct Hex as [|(op' & Hin & H1 & H2 & H3)]; [by left|].
           apply elem_of_cons in Hin as [->|Hin]; [congruence|right; by exists op'].
      * rewrite Hd. destruct Hex as [|(op' & Hin & H1 & H2 & H3)]; [by left|].
        apply elem_of_cons in Hin as [->|Hin]; [congruence|right; by exists op'].
    + pose proof (do_read_ne r fs b op f Hf) as Hd. rewrite E1 in Hd. cbn [fst] in Hd. rewrite Hd.
      destruct Hex as [|(op' & Hin & H1 & H2 & H3)]; [by left|].
      apply elem_of_cons in Hin as [->|Hin]; [congruence|right; by exists op'].
Qed.

Lemma reads_keep r f ops : ∀ fs b, (∀ op, op ∈ ops → read_flag op ≠ f) → fst (foldl (do_read r) (fs, b) ops) f = fs f.
Proof. intros fs b Hn. apply reads_get; [|by left]. intros op Hin Hf. by destruct (Hn op Hin). Qed.

Lemma reads_required r ops : ∀ fs b,
  (∀ key f, Required key f ∈ ops → is_Some (Read_value r key (kind_of f))) →
  snd (foldl (do_read r) (fs, b) ops) = b.
Proof.
  induction ops as [|op ops IH]; intros fs b Hr; [done|]. cbn [foldl].
  destruct (do_read r (fs, b) op) as [fs1 b1] eqn:E1. rewrite IH by (intros key f Hin; apply Hr; by right).
  destruct op; cbn in E1; try (by simplify_eq). unfold Read in E1. destruct (Hr key f ltac:(left)) as [v Ev]. rewrite Ev in E1.
  simplify_eq. apply andb_true_r.
Qed.

(** The flags that a program of type [pType] gets back. *)
Definition restored (pType : ProgramType) (fs : flags) (f : flag) : bool :=
  match f with
  | FLAGS_proxy | FLAGS_listen => bool_decide (pType = YASS_CLIENT_DEFAULT)
  | FLAGS_server_host | FLAGS_server_sni | FLAGS_server_port | FLAGS_username | FLAGS_password | FLAGS_method =>
      negb (overridable pType fs)
  | FLAGS_local_host | FLAGS_local_port => pType_IsClient pType && negb (overridable pType fs)
  | FLAGS_private_key_file | FLAGS_private_key_password => pType_IsServer pType
  | FLAGS_insecure_mode | FLAGS_enable_post_quantum_kyber => pType_IsClient pType
  | _ => true
  end.

(** A call of [ops] that reads [f] from where it was saved. *)
Definition loads (pType : ProgramType) (ops : list read_op) (f : flag) : bool :=
  existsb (λ op, match op with
                 | Required key g | Optional key g => bool_decide (g = f) && bool_decide (Put key f ∈ saved_fields pType)
                 | _ => false
                 end) ops.

(** The flags of [required_fields]. *)
Definition overridden (f : flag) : bool :=
  match f with
  | FLAGS_server_host | FLAGS_server_sni | FLAGS_server_port | FLAGS_username | FLAGS_password | FLAGS_method
  | FLAGS_local_host | FLAGS_local_port => true
  | _ => false
  end.

Lemma reads_loaded pType fs f :
  restored pType fs f = true → kind_of f ≠ KStringArray →
  loads pType (if overridden f then required_fields pType else other_fields pType) f = true ∧
  (overridden f = true → overridable pType fs = false).
Proof.
  intros Hr Hk.
  assert (overridden f = true → overridable pType fs = false) as Ho.
  { intros E. destruct f; try done; cbn -[overridable] in Hr; try (by apply negb_true_iff); apply andb_true_iff in Hr as [_ Hr]; by apply negb_true_iff. }
  split; [|done]. destruct f; try done; destruct pType; try done; cbn -[overridable] in Hr; try done; vm_compute; reflexivity.
Qed.

Lemma read_ops_saved pType op :
  op ∈ required_fields pType ++ other_fields pType →
  Put (read_key op) (read_flag op) ∈ saved_fields pType ∨ Delete (read_key op) ∈ saved_fields pType ∨
  read_flag op = FLAGS_enable_post_quantum_kyber ∧ pType_IsClient pType = false.
Proof.
  revert op. apply Forall_forall. destruct pType; apply (bool_decide_unpack _); vm_compute; exact I.
Qed.

Lemma required_saved pType key f : Required key f ∈ required_fields pType → Put key f ∈ saved_fields pType.
Proof.
  assert (Forall (λ op, match op with Required key f => bool_decide (Put key f ∈ saved_fields pType) | _ => true end = true)
    (required_fields pType)) as F.
  { destruct pType; apply (bool_decide_unpack _); vm_compute; exact I. }
  intros Hin. rewrite Forall_forall in F. specialize (F _ Hin). by apply bool_decide_eq_true in F.
Qed.

Lemma read_ops_groups pType :
  (∀ op, op ∈ cli_options pType → read_flag op = FLAGS_proxy ∨ read_flag op = FLAGS_listen) ∧
  (∀ op, op ∈ required_fields pType → overridden (read_flag op) = true ∧ kind_of (read_flag op) ≠ KStringArray) ∧
  (∀ op, op ∈ other_fields pType → overridden (read_flag op) = false ∧ kind_of (read_flag op) ≠ KStringArray).
Proof.
  split_and!; apply Forall_forall; destruct pType; apply (bool_decide_unpack _); vm_compute; exact I.
Qed.

Lemma entry_old old k v : k ≠ KStringArray → entry old k v = entry None k v.
Proof. by destruct k. Qed.

Lemma read_missing r key k : r !! key = None → Read_value r key k = None.
Proof.
  intros E. destruct k; cbn [Read_value]; unfold HasKeyStringArrayImpl, ReadImpl_string, ReadImpl_bool, ReadImpl_int32; by rewrite E.
Qed.

Lemma SetFlag_same fs f v : v = fs f → ∀ g, SetFlag fs f v g = fs g.
Proof. intros -> g. destruct (decide (f = g)) as [->|]; [by rewrite SetFlag_eq|by rewrite SetFlag_ne]. Qed.

Lemma at_least_0_same (fs : flags) :
  (0 <= fs FLAGS_connect_timeout)%Z → (0 <= fs FLAGS_tcp_keep_alive_cnt)%Z → (0 <= fs FLAGS_tcp_keep_alive_idle_timeout)%Z →
  (0 <= fs FLAGS_tcp_keep_alive_interval)%Z → ∀ f, at_least_0 fs f = fs f.
Proof.
  intros H1 H2 H3 H4 f. unfold at_least_0.
  rewrite SetFlag_same; [rewrite SetFlag_same; [rewrite SetFlag_same; [rewrite SetFlag_same|]|]|]; try done;
    repeat (rewrite SetFlag_ne by done); by apply Z.max_r.
Qed.

Lemma saved_lists pType key f :
  Put key f ∈ saved_fields pType → kind_of f = KStringArray → key = "proxy" ∨ key = "listen".
Proof.
  assert (Forall (λ op, match op with Put key f => bool_decide (kind_of f ≠ KStringArray) || bool_decide (key = "proxy" ∨ key = "listen")
                                | Delete _ => true end = true) (saved_fields pType)) as F.
  { destruct pType; apply (bool_decide_unpack _); vm_compute; exact I. }
  intros Hin Hk. rewrite Forall_forall in F. specialize (F _ Hin). cbn in F. rewrite bool_decide_false in F by (by intros Hn; apply Hn).
  by apply bool_decide_eq_true in F.
Qed.

Section Saved.
Context `{!ConfigLaws L} (pType : ProgramType) (fs : flags) (r0 r : root) (b0 b1 : bool).
Hypothesis saved : foldl (do_save fs) (Some (r0, b0)) (saved_fields pType) = Some (r, b1).
Hypothesis valid : ∀ f, valid_value (kind_of f) (fs f).
Hypothesis new : new_lists r0 (saved_fields pType).

Lemma saved_reads key f :
  Put key f ∈ saved_fields pType → kind_of f ≠ KStringArray → Read_value r key (kind_of f) = Some (fs f).
Proof.
  intros Hin Hk. apply read_entry; [|apply valid|done].
  pose proof (saves_get fs _ _ _ _ _ _ saved (saved_keys pType) Hin) as [E _]. by rewrite E, entry_old.
Qed.

Lemma deleted_reads key k : Delete key ∈ saved_fields pType → Read_value r key k = None.
Proof. intros Hin. apply read_missing. exact (saves_get fs _ _ _ _ _ _ saved (saved_keys pType) Hin). Qed.

Lemma loaded_reads ops fs1 b f :
  (∀ op, op ∈ ops → op ∈ required_fields pType ++ other_fields pType) → kind_of f ≠ KStringArray →
  (f = FLAGS_enable_post_quantum_kyber → pType_IsClient pType = true) → loads pType ops f = true →
  fst (foldl (do_read r) (fs1, b) ops) f = fs f.
Proof.
  intros Hops Hk Hc Hl. apply reads_get.
  - intros op Hin Hf _. destruct (read_ops_saved pType op (Hops op Hin)) as [Hs|[Hd|[Hq Hn]]].
    + rewrite Hf in Hs. rewrite (saved_reads _ _ Hs Hk). left.
    + rewrite (deleted_reads _ _ Hd). right. left.
    + rewrite <- Hf in Hc. rewrite Hc in Hn by done. done.
  - right. unfold loads in Hl. apply existsb_exists in Hl as (op & Hin & Hop). apply list_elem_of_In in Hin.
    destruct op as [key g|key g| | |]; try done; apply andb_true_iff in Hop as [->%bool_decide_eq_true Hs%bool_decide_eq_true];
      eexists; (split; [exact Hin|]); cbn [read_flag guard read_key]; (split; [done|]); (split; [done|]); by apply saved_reads.
Qed.

(** A list is read back; an empty one leaves a null member, which is not read. *)
Lemma list_reads key (f : flag) (v : list text) :
  r !! key = append_all Null v →
  (v = [] → HasKeyStringArrayImpl r key || HasKeyStringImpl r key = false) ∧
  (v ≠ [] → HasKeyStringArrayImpl r key = true ∧ Read_value r key KStringArray = Some v).
Proof.
  intros E. split.
  - intros ->. cbn in E. unfold HasKeyStringArrayImpl, HasKeyStringImpl. rewrite E. cbn [mbind option_bind].
    rewrite null_no_array, null_no_string. by rewrite bool_decide_false by by intros [].
  - intros Hne. destruct (append_all Null v) as [a|] eqn:Ea.
    + apply (read_strings r key a); [done|]. by apply append_all_null.
    + destruct (append_all_total v Null) as [a Ha]; [by left|]. congruence.
Qed.

Lemma saved_list key f :
  Put key f ∈ saved_fields pType → kind_of f = KStringArray → r !! key = entry None (kind_of f) (fs f).
Proof.
  intros Hin Hk. pose proof (saves_get fs _ _ _ _ _ _ saved (saved_keys pType) Hin) as [E _]. rewrite E.
  pose proof (new key f Hin Hk) as Hn. clear E. generalize (fs f). revert Hk. destruct (kind_of f); try done. intros _ v. cbn [entry]. by rewrite Hn.
Qed.

Lemma cli_reads (fs1 : flags) (b : bool) :
  (pType = YASS_CLIENT_DEFAULT → fs1 FLAGS_proxy = [] ∧ fs1 FLAGS_listen = []) →
  let fs2 := fst (foldl (do_read r) (fs1, b) (cli_options pType)) in
  (pType = YASS_CLIENT_DEFAULT → fs2 FLAGS_proxy = fs FLAGS_proxy ∧ fs2 FLAGS_listen = fs FLAGS_listen) ∧
  overridable pType fs2 = overridable pType fs.
Proof.
  intros H1 fs2. assert (pType = YASS_CLIENT_DEFAULT → fs2 FLAGS_proxy = fs FLAGS_proxy ∧ fs2 FLAGS_listen = fs FLAGS_listen) as H2.
  { intros Hp. destruct (H1 Hp) as [P1 L1]. unfold fs2.
    assert (r !! "proxy" = append_all Null (fs FLAGS_proxy)) as Ep by (apply (saved_list "proxy" FLAGS_proxy); [rewrite Hp; apply (bool_decide_unpack _); vm_compute; exact I|done]).
    assert (r !! "listen" = append_all Null (fs FLAGS_listen)) as El by (apply (saved_list "listen" FLAGS_listen); [rewrite Hp; apply (bool_decide_unpack _); vm_compute; exact I|done]).
    destruct (list_reads "proxy" FLAGS_proxy _ Ep) as [Pn Pv]. destruct (list_reads "listen" FLAGS_listen _ El) as [Ln Lv].
    unfold cli_options. rewrite decide_True by done.
    split; apply reads_get.
    - intros op [->|[->|[]%elem_of_nil]%elem_of_cons]%elem_of_cons; [|done]. cbn [read_flag guard read_key]. intros _ Hg.
      destruct (decide (fs FLAGS_proxy = [])) as [He|He]; [by rewrite (Pn He) in Hg|]. destruct (Pv He) as [_ Hv]. apply elem_of_cons. left. exact Hv.
    - destruct (decide (fs FLAGS_proxy = [])) as [He|He]; [left; congruence|right]. exists (IfStrings "proxy" FLAGS_proxy). destruct (Pv He) as [Hk Hv].
      split; [left|]. cbn [read_flag guard read_key]. by rewrite Hk.
    - intros op [->|[->|[]%elem_of_nil]%elem_of_cons]%elem_of_cons; [done|]. cbn [read_flag guard read_key]. intros _ Hg.
      destruct (decide (fs FLAGS_listen = [])) as [He|He]; [by rewrite (Ln He) in Hg|]. destruct (Lv He) as [_ Hv]. apply elem_of_cons. left. exact Hv.
    - destruct (decide (fs FLAGS_listen = [])) as [He|He]; [left; congruence|right]. exists (IfStrings "listen" FLAGS_listen). destruct (Lv He) as [Hk Hv].
      split; [right; left|]. cbn [read_flag guard read_key]. by rewrite Hk. }
  split; [done|]. unfold overridable. case_bool_decide as Hp; [|done]. destruct (H2 Hp) as [-> ->]. done.
Qed.

Lemma reads_restored fs1 fs2 b2 fs3 b3 :
  (pType = YASS_CLIENT_DEFAULT → fs1 FLAGS_proxy = fs FLAGS_proxy ∧ fs1 FLAGS_listen = fs FLAGS_listen) →
  (if overridable pType fs then (fs1, true) else foldl (do_read r) (fs1, true) (required_fields pType)) = (fs2, b2) →
  foldl (do_read r) (fs2, true) (other_fields pType) = (fs3, b3) →
  ∀ f, restored pType fs f = true → fs3 f = fs f.
Proof.
  destruct (read_ops_groups pType) as (_ & G2 & G3). intros Hcli E2 E3 f Hr. destruct (decide (kind_of f = KStringArray)) as [Hk|Hk].
  - assert ((f = FLAGS_proxy ∨ f = FLAGS_listen) ∧ pType = YASS_CLIENT_DEFAULT) as [Hf Hpt].
    { destruct f; try done; cbn in Hr; apply bool_decide_eq_true in Hr; auto. }
    assert (fs3 f = fs1 f) as ->; [|destruct (Hcli Hpt); by destruct Hf as [-> | ->]].
    pose proof (reads_keep r f (other_fields pType) fs2 true) as K3. rewrite E3 in K3. cbn [fst] in K3. rewrite K3.
    + destruct (overridable pType fs); [by injection E2 as ->|].
      pose proof (reads_keep r f (required_fields pType) fs1 true) as K2. rewrite E2 in K2. apply K2.
      intros op Hin Hop. destruct (G2 op Hin) as [_ Hx]. by rewrite Hop in Hx.
    + intros op Hin Hop. destruct (G3 op Hin) as [_ Hx]. by rewrite Hop in Hx.
  - destruct (reads_loaded pType fs f Hr Hk) as [Hl Ho].
    assert (f = FLAGS_enable_post_quantum_kyber → pType_IsClient pType = true) as Hq by by intros ->.
    destruct (overridden f) eqn:Eov.
    + rewrite Ho in E2 by done.
      pose proof (reads_keep r f (other_fields pType) fs2 true) as K3. rewrite E3 in K3. cbn [fst] in K3. rewrite K3.
      * pose proof (loaded_reads (required_fields pType) fs1 true f) as L2. rewrite E2 in L2. apply L2; try done.
        intros op Hin. apply elem_of_app. by left.
      * intros op Hin Hop. destruct (G3 op Hin) as [Hx _]. rewrite Hop in Hx. congruence.
    + pose proof (loaded_reads (other_fields pType) fs2 true f) as L3. rewrite E3 in L3. apply L3; try done.
      intros op Hin. apply elem_of_app. by right.
Qed.

End Saved.

(** The members that are written. *)
Definition saved_root (pType : ProgramType) (file : option text) (fs : flags) : option root :=
  r ← OpenImpl true file; fst <$> foldl (do_save fs) (Some (r, false)) (saved_fields pType).

(** C24: the configuration that is saved is the one that is read.  For every type of program, flags in their
    ranges and a file that holds no lists of proxies and of addresses yet: [SaveConfig] writes a text
    from which, if it is shorter than the 32 KiB that are read and jsoncpp reads what it wrote, [ReadConfig] of any
    program of that type gets back each flag it looks at, and answers true. *)
Theorem config_roundtrip `{!ConfigLaws L} pType file (fs fs0 : flags) enforce_read :
  (∀ f, valid_value (kind_of f) (fs f)) →
  (pType = YASS_CLIENT_DEFAULT → fs0 FLAGS_proxy = [] ∧ fs0 FLAGS_listen = []) →
  (∀ r, OpenImpl true file = Some r → r !! "proxy" = None ∧ r !! "listen" = None) →
  ∃ r, saved_root pType file fs = Some r ∧ (∃ b, SaveConfig pType file fs CloseOk = Some (Some (json_write r), b)) ∧
    (json_parse (json_write r) = Some r → json_write r ≠ [] → (Z.of_nat (length (json_write r)) < kReadBufferSize)%Z →
     ∃ fs', ReadConfig pType enforce_read (Some (json_write r)) fs0 = Returned true fs' ∧
       ∀ f, restored pType fs f = true → fs' f = fs f).
Proof.
  intros Hv H0 Hn.
  assert (∃ r0, OpenImpl true file = Some r0) as [r0 E0] by (unfold OpenImpl; case_match; by eexists).
  assert (new_lists r0 (saved_fields pType)) as New.
  { destruct (Hn r0 E0) as [Np Nl]. intros key f Hin Hk.
    destruct (saved_lists pType key f Hin Hk) as [-> | ->]; [by rewrite Np|by rewrite Nl]. }
  destruct (saves_total fs (saved_fields pType) r0 false (saved_keys pType) New) as [r Er].
  exists r. split; [unfold saved_root; rewrite E0; cbn [mbind option_bind]; by rewrite Er|].
  split; [exists false; unfold SaveConfig; rewrite E0; cbn [mbind option_bind]; by rewrite Er|].
  intros Hp Hne Hlen.
  assert (OpenImpl false (Some (json_write r)) = Some r) as Eo.
  { unfold OpenImpl. cbn [mbind option_bind]. rewrite decide_False by done. rewrite (proj2 (Z.leb_gt _ _)) by done. by rewrite Hp. }
  unfold ReadConfig. rewrite Eo.
  destruct (cli_reads pType fs r0 r false false Er New fs0 true H0) as [Hcli Hov].
  destruct (foldl (do_read r) (fs0, true) (cli_options pType)) as [fs1 b1]. cbn [fst] in Hcli, Hov. rewrite Hov.
  destruct (read_ops_groups pType) as (_ & G2 & _).
  destruct (if overridable pType fs then (fs1, true) else foldl (do_read r) (fs1, true) (required_fields pType)) as [fs2 b2] eqn:E2.
  destruct (foldl (do_read r) (fs2, true) (other_fields pType)) as [fs3 b3] eqn:E3.
  assert (b2 = true) as ->.
  { destruct (overridable pType fs); [by injection E2|].
    pose proof (reads_required r (required_fields pType) fs1 true) as Hr. rewrite E2 in Hr. apply Hr. intros key f Hin.
    destruct (G2 _ Hin) as [_ Hk]. exists (fs f). apply (saved_reads pType fs r0 r false false Er Hv); [by apply required_saved|done]. }
  pose proof (reads_restored pType fs r0 r false false Er Hv fs1 fs2 true fs3 b3 Hcli E2 E3) as H3.
  eexists. split; [done|]. intros f Hr. rewrite at_least_0_same; [by apply H3|..]; rewrite H3 by done;
    match goal with |- (0 <= fs ?g)%Z => exact (proj1 (Hv g)) end.
Qed.

(** [SaveConfig] answers false however well it went, and when it could write the file it has. *)
Theorem save_config_answer pType file fs io file' b :
  SaveConfig pType file fs io = Some (file', b) → b = false ∧ (io = CloseOk → ∃ r, file' = Some (json_write r)).
Proof.
  assert (∀ ops r b r' b', foldl (do_save fs) (Some (r, b)) ops = Some (r', b') → b = false → b' = false) as Hb.
  { induction ops as [|op ops IH]; intros r b0 r' b'; cbn [foldl]; [intros [= _ <-]; done|]. intros E ->.
    destruct (do_save fs (Some (r, false)) op) as [[r1 b1]|] eqn:E1; [|exfalso; clear -E; by induction ops].
    apply (IH _ _ _ _ E). destruct op as [k f|k]; cbn [do_save mbind option_bind] in E1; [|by injection E1].
    destruct (Write r fs k f) as [[r2 b2]|]; [|done]. by injection E1 as _ <-. }
  unfold SaveConfig. destruct (OpenImpl true file) as [r0|]; [|done]. cbn [mbind option_bind].
  destruct (foldl _ _ _) as [[r b1]|] eqn:E; [|done]. cbn [mbind option_bind]. rewrite (Hb _ _ _ _ _ E eq_refl).
  destruct io; cbn; intros [= <- <-]; split; done || (intros _; by eexists).
Qed.

(** Saving the lists of proxies and of addresses again adds them to those that the file has: what is read
    afterwards is the old list followed by the new one.  Where the file has the list as a text,
    which [ReadConfig] accepts, jsoncpp throws. *)
Theorem save_config_appends `{!ConfigLaws L} file (fs : flags) r0 key a :
  OpenImpl true file = Some r0 → key = "proxy" ∨ key = "listen" → r0 !! key = Some a →
  let new := if decide (key = "proxy") then fs FLAGS_proxy else fs FLAGS_listen in
  (∀ old file' b, as_array a = Some (map of_string old) → SaveConfig YASS_CLIENT_DEFAULT file fs CloseOk = Some (file', b) →
     ∃ r, file' = Some (json_write r) ∧ Read_value r key KStringArray = Some (old ++ new)) ∧
  (∀ t, as_string a = Some t → new ≠ [] → SaveConfig YASS_CLIENT_DEFAULT file fs CloseOk = None).
Proof.
  intros E0 Hk Ea new. pose proof (saved_keys YASS_CLIENT_DEFAULT) as Nd. unfold SaveConfig. rewrite E0. cbn [mbind option_bind].
  destruct (foldl (do_save fs) (Some (r0, false)) (saved_fields YASS_CLIENT_DEFAULT)) as [[r b1]|] eqn:Er; [|done].
  assert (r !! key = append_all a new ∧ is_Some (r !! key)) as [El Hs].
  { assert (∀ k f, Put k f ∈ saved_fields YASS_CLIENT_DEFAULT → r !! k = entry (r0 !! k) (kind_of f) (fs f) ∧ is_Some (r !! k)) as Hg
      by (intros k f Hin; exact (saves_get fs _ _ _ _ _ _ Er Nd Hin)).
    assert (Put "proxy" FLAGS_proxy ∈ saved_fields YASS_CLIENT_DEFAULT ∧ Put "listen" FLAGS_listen ∈ saved_fields YASS_CLIENT_DEFAULT) as [H1%Hg H2%Hg]
      by (apply (bool_decide_unpack _); vm_compute; exact I).
    unfold new. destruct Hk as [-> | ->]; rewrite Ea in *; done. }
  split.
  - cbn [mbind option_bind CloseImpl]. intros old file' b Eo [= <- _]. eexists. split; [done|].
    destruct (append_all a new) as [a'|] eqn:Ha; [|by rewrite El in Hs; destruct Hs].
    apply (read_strings r key a'); [done|]. rewrite (append_all_array new a _ a' Eo Ha), map_app. done.
  - intros t Ht Hne. destruct new as [|x l]; [done|]. cbn [append_all] in El. rewrite (append_string a t) in El by done.
    rewrite El in Hs. by destruct Hs.
Qed.

(** ** The arguments *)

(** What is accepted. *)
Definition host_ok (h : text) : Prop := h ≠ [] ∧ length h <= TLSEXT_MAXLEN_host_name.

Definition credentials_ok (m : cipher_method) (u p : text) : Prop :=
  (m = CRYPTO_SOCKS4 ∨ m = CRYPTO_SOCKS4A → u = [] ∧ p = []) ∧
  (m = CRYPTO_SOCKS5 ∨ m = CRYPTO_SOCKS5H ∨ is_http m = true → (u = [] ↔ p = [])).

Definition dns_ok (doh dot : text) : Prop :=
  (doh ≠ [] → doh_url_ok doh = true ∧ length (url_host doh) <= TLSEXT_MAXLEN_host_name ∧ dot = []) ∧
  length dot <= TLSEXT_MAXLEN_host_name.

Definition acceptable (a : arguments) : Prop :=
  host_ok (server_host a) ∧ length (server_sni a) <= TLSEXT_MAXLEN_host_name ∧
  (∃ p, ParsePort (server_port a) = Some p ∧ p ≠ 0%Z) ∧ method_value (method a) ≠ CRYPTO_INVALID ∧
  credentials_ok (method_value (method a)) (username a) (password a) ∧ host_ok (local_host a) ∧
  is_Some (ParsePort (local_port a)) ∧ dns_ok (doh_url a) (dot_host a) ∧ is_Some (ParseRate (limit_rate a)) ∧
  (∃ t, StringToInt (timeout a) = Some t ∧ (0 <= t)%Z).

Lemma fail_if_nil c m : m ≠ [] → fail_if c m = [] ↔ c = false.
Proof. by destruct c. Qed.

Lemma fail_if_long c m : 2 <= length m → fail_if c m = [] ∨ 2 <= length (fail_if c m).
Proof. destruct c; [by right|by left]. Qed.

(** A list of messages none of which is too short. *)
Ltac long_messages := repeat (apply Forall_cons; split; [apply fail_if_long; rewrite ?length_app; cbn; lia|]); apply Forall_nil; done.

Lemma concat_nil (ms : list text) : concat ms = [] ↔ Forall (λ m, m = []) ms.
Proof.
  induction ms as [|m ms IH]; cbn; [split; [constructor|done]|]. rewrite Forall_cons, <- IH. split; [apply app_nil|intros [-> ->]; done].
Qed.

Lemma host_errors h m : m ≠ [] → fail_if (is_empty h || too_long h) (m ++ h) = [] ↔ host_ok h.
Proof.
  intros Hm. rewrite fail_if_nil by (by destruct m). unfold host_ok, is_empty, too_long. rewrite orb_false_iff, bool_decide_eq_false, Nat.ltb_ge. done.
Qed.

Lemma long_errors h m : m ≠ [] → fail_if (too_long h) (m ++ h) = [] ↔ length h <= TLSEXT_MAXLEN_host_name.
Proof. intros Hm. rewrite fail_if_nil by (by destruct m). unfold too_long. by rewrite Nat.ltb_ge. Qed.

Lemma check_server_nil h sni : Forall (λ m, m = []) (check_server h sni) ↔ host_ok h ∧ length sni <= TLSEXT_MAXLEN_host_name.
Proof. unfold check_server. rewrite !Forall_cons, Forall_nil, host_errors, long_errors by done. tauto. Qed.

Lemma check_local_host_nil h : Forall (λ m, m = []) (check_local_host h) ↔ host_ok h.
Proof. unfold check_local_host. rewrite Forall_cons, Forall_nil, host_errors by done. tauto. Qed.

Lemma check_credentials_nil m u p : Forall (λ t, t = []) (check_credentials m u p) ↔ credentials_ok m u p.
Proof.
  unfold check_credentials, credentials_ok, is_empty. rewrite !Forall_cons, Forall_nil, !fail_if_nil by done.
  assert (xorb (bool_decide (u = [])) (bool_decide (p = [])) = false ↔ (u = [] ↔ p = [])) as Hx by (repeat case_bool_decide; cbn; naive_solver).
  rewrite !andb_false_iff, !orb_false_iff, !negb_false_iff, Hx, !bool_decide_eq_true, !bool_decide_eq_false.
  destruct (decide (m = CRYPTO_SOCKS4 ∨ m = CRYPTO_SOCKS4A)); destruct (decide (m = CRYPTO_SOCKS5 ∨ m = CRYPTO_SOCKS5H)); destruct (is_http m); intuition done.
Qed.

Lemma check_dns_nil doh dot : Forall (λ t, t = []) (check_dns doh dot) ↔ dns_ok doh dot.
Proof.
  unfold check_dns, dns_ok, is_empty, too_long. rewrite !Forall_cons, Forall_nil, !fail_if_nil by done.
  rewrite !andb_false_iff, !negb_false_iff, !bool_decide_eq_true, !Nat.ltb_ge.
  destruct (decide (doh = [])), (decide (dot = [])) as [->|]; naive_solver lia.
Qed.

Lemma argument_errors_nil a : Forall (λ m, m = []) (argument_errors a) ↔ acceptable a.
Proof.
  unfold argument_errors, acceptable.
  rewrite !Forall_app, !Forall_cons, !Forall_nil, check_server_nil, check_credentials_nil, check_local_host_nil, check_dns_nil, !fail_if_nil by done.
  rewrite !orb_false_iff, !bool_decide_eq_false, Z.eqb_neq, Z.ltb_ge.
  rewrite !not_eq_None_Some.
  split.
  - intros ([? ?] & ([[p Ep] Hp] & ? & _) & ? & ? & [? _] & ? & ? & [[t Et] Ht] & _). rewrite Ep in Hp. rewrite Et in Ht. cbn in Hp, Ht.
    split_and!; try done; by eexists.
  - intros (? & ? & (p & Ep & Hp) & ? & ? & ? & ? & ? & ? & (t & Et & Ht)). rewrite Ep, Et. cbn. split_and!; try done; by eexists.
Qed.

Lemma drop_concat (ms : list text) :
  Forall (λ m, m = [] ∨ 2 <= length m) ms → drop 1 (concat ms) = [] → concat ms = [].
Proof.
  induction 1 as [|m ms [->|Hm] F IH]; cbn; [done|done|]. intros E. exfalso. apply (f_equal length) in E. revert E.
  rewrite length_drop, length_app. cbn. lia.
Qed.

Lemma ValidateConfig_nil (fs : flags) :
  host_ok (fs FLAGS_server_host) → length (fs FLAGS_server_sni) <= TLSEXT_MAXLEN_host_name → fs FLAGS_server_port ≠ 0%Z →
  fs FLAGS_method ≠ CRYPTO_INVALID → credentials_ok (fs FLAGS_method) (fs FLAGS_username) (fs FLAGS_password) →
  host_ok (fs FLAGS_local_host) → dns_ok (fs FLAGS_doh_url) (fs FLAGS_dot_host) → (0 <= fs FLAGS_connect_timeout)%Z →
  ValidateConfig fs = [].
Proof.
  intros H1 H2 H3 H4 H5 H6 H7 H8. unfold ValidateConfig. rewrite (proj2 (concat_nil _)); [done|].
  rewrite !Forall_app, !Forall_cons, !Forall_nil, check_server_nil, check_credentials_nil, check_local_host_nil, check_dns_nil, !fail_if_nil by done.
  rewrite bool_decide_eq_false, Z.eqb_neq, Z.ltb_ge. split_and!; done.
Qed.

(** C25: [ReadConfigFromArgument] takes all or nothing.  It answers with no message exactly for arguments that are
    acceptable, and then every flag it is about has the value given, no other has changed, and
    [ValidateConfig] has nothing to say; for all others no flag has changed. *)
Theorem arguments_all_or_nothing a (fs : flags) :
  let '(ret, fs') := ReadConfigFromArgument a fs in
  (ret = [] ↔ acceptable a) ∧
  (acceptable a →
     fs' FLAGS_server_host = server_host a ∧ fs' FLAGS_server_sni = server_sni a ∧
     Some (fs' FLAGS_server_port) = ParsePort (server_port a) ∧ fs' FLAGS_username = username a ∧ fs' FLAGS_password = password a ∧
     fs' FLAGS_method = method_value (method a) ∧ fs' FLAGS_local_host = local_host a ∧
     Some (fs' FLAGS_local_port) = ParsePort (local_port a) ∧ fs' FLAGS_doh_url = doh_url a ∧ fs' FLAGS_dot_host = dot_host a ∧
     Some (fs' FLAGS_limit_rate) = ParseRate (limit_rate a) ∧ Some (fs' FLAGS_connect_timeout) = StringToInt (timeout a) ∧
     (∀ f, f ∉ [FLAGS_server_host; FLAGS_server_sni; FLAGS_server_port; FLAGS_username; FLAGS_password; FLAGS_method;
                FLAGS_local_host; FLAGS_local_port; FLAGS_doh_url; FLAGS_dot_host; FLAGS_limit_rate; FLAGS_connect_timeout] → fs' f = fs f) ∧
     ValidateConfig fs' = []) ∧
  (¬ acceptable a → fs' = fs).
Proof.
  pose proof (argument_errors_nil a) as Hn. rewrite <- concat_nil in Hn. unfold ReadConfigFromArgument. cbv zeta.
  destruct (decide (concat (argument_errors a) = [])) as [E|E].
  - split; [split; [intros _; by apply Hn|done]|]. split; [|intros Ha; by destruct Ha; apply Hn]. intros Ha.
    set (fs' := SetFlag _ FLAGS_connect_timeout _).
    pose proof Ha as (H1 & H2 & (p & Ep & Hp) & H4 & H5 & H6 & (lp & Elp) & H8 & (rt & Ert) & (t & Et & Ht)).
    assert (fs' FLAGS_server_host = server_host a ∧ fs' FLAGS_server_sni = server_sni a ∧ fs' FLAGS_server_port = p ∧
      fs' FLAGS_username = username a ∧ fs' FLAGS_password = password a ∧ fs' FLAGS_method = method_value (method a) ∧
      fs' FLAGS_local_host = local_host a ∧ fs' FLAGS_local_port = lp ∧ fs' FLAGS_doh_url = doh_url a ∧ fs' FLAGS_dot_host = dot_host a ∧
      fs' FLAGS_limit_rate = rt ∧ fs' FLAGS_connect_timeout = t) as (F1 & F2 & F3 & F4 & F5 & F6 & F7 & F8 & F9 & F10 & F11 & F12).
    { unfold fs'. rewrite Ep, Elp, Ert, Et. split_and!; reflexivity. }
    split_and!; try (rewrite ?F3, ?F8, ?F11, ?F12; done).
    + intros f Hf. unfold fs'. rewrite !SetFlag_ne; [done|..]; intros <-; apply Hf; repeat (left || right); fail.
    + apply ValidateConfig_nil; rewrite ?F1, ?F2, ?F3, ?F4, ?F5, ?F6, ?F7, ?F9, ?F10, ?F12; done.
  - split; [|split; [intros Ha; by destruct E; apply Hn|done]]. split; [|intros Ha; by destruct E; apply Hn].
    intros Ed. apply Hn. apply drop_concat in Ed; [done|]. unfold argument_errors.
    rewrite !Forall_app. split_and!; long_messages.
Qed.

End Config.

(** ** A library *)

(** JSON values; the text of one object is known. *)
Inductive json := JNull | JBool (b : bool) | JInt (n : Z) | JString (t : text) | JArray (l : list json).

Definition example_lib (known : gmap string json) : ConfigLib := {|
  Value := json; Null := JNull; of_string := JString; of_bool := JBool; of_int := JInt;
  as_string v := match v with JString t => Some t | _ => None end;
  as_bool v := match v with JBool b => Some b | _ => None end;
  as_int v := match v with JInt n => if (- 2 ^ 31 <=? n)%Z && (n <? 2 ^ 31)%Z then Some n else None | _ => None end;
  as_array v := match v with JArray l => Some l | _ => None end;
  append a v := match a with JNull => Some (JArray [v]) | JArray l => Some (JArray (l ++ [v])) | _ => None end;
  json_parse t := if decide (t = str "{ known }") then Some known else None;
  json_write _ := str "{ known }";
  StrSplit t := [t];
  StringToInt t := let n := ngx_atosz t in if (n <? 0)%Z || (2 ^ 31 <=? n)%Z then None else Some n;
  doh_url_ok _ := true;
  url_host t := t |}.

Lemma config_example_laws known : ConfigLaws (example_lib known).
Proof.
  split; cbn; try done.
  - intros n Hn. by rewrite (proj2 (Z.leb_le _ _)), (proj2 (Z.ltb_lt _ _)) by lia.
  - intros v. by eexists.
  - intros a l v E. destruct a; try done. injection E as ->. by eexists.
  - intros a t v E. by destruct a.
Qed.

Definition example_flags (host : text) (proxies : list text) : flags :=
  λ f, match f return denote (kind_of f) with
       | FLAGS_server_port => 443%Z
       | FLAGS_local_port => 1080%Z
       | FLAGS_method => CRYPTO_HTTP2
       | FLAGS_limit_rate => (3 * 2 ^ 20)%Z
       | FLAGS_proxy | FLAGS_listen => proxies
       | FLAGS_tcp_fastopen | FLAGS_tcp_fastopen_connect | FLAGS_tcp_nodelay | FLAGS_tcp_keep_alive
       | FLAGS_insecure_mode | FLAGS_tls13_early_data | FLAGS_enable_post_quantum_kyber => true
       | FLAGS_connect_timeout | FLAGS_tcp_keep_alive_cnt | FLAGS_tcp_keep_alive_idle_timeout
       | FLAGS_tcp_keep_alive_interval => 10%Z
       | _ => host
       end.

Definition example_root : gmap string json :=
  default ∅ (saved_root (L := example_lib ∅) YASS_CLIENT_GUI None (example_flags (str "example.net") [])).

Lemma config_roundtrip_witness :
  ∃ r fs', saved_root (L := example_lib example_root) YASS_CLIENT_GUI None (example_flags (str "example.net") []) = Some r ∧
    ReadConfig (L := example_lib example_root) YASS_CLIENT_GUI true (Some (json_write r)) (example_flags [] []) = Returned true fs' ∧
    fs' FLAGS_server_host = str "example.net" ∧ fs' FLAGS_limit_rate = 3145728%Z.
Proof.
  destruct (config_roundtrip (L := example_lib example_root) (ConfigLaws0 := config_example_laws example_root) YASS_CLIENT_GUI None
    (example_flags (str "example.net") []) (example_flags [] []) true) as (r & Es & _ & Hr).
  - intros f. destruct f; cbn; unfold UINT16_MAX; try exact I; try discriminate; split; lia.
  - discriminate.
  - intros r E. injection E as <-. split; reflexivity.
  - assert (saved_root (L := example_lib example_root) YASS_CLIENT_GUI None (example_flags (str "example.net") []) = Some example_root) as Ee
      by (vm_cast_no_check (eq_refl (Some example_root))).
    assert (r = example_root) as -> by congruence.
    destruct Hr as (fs' & Er & Hf); [reflexivity|discriminate|reflexivity|].
    exists example_root, fs'. split; [exact Es|]. split; [exact Er|].
    split; [exact (Hf FLAGS_server_host eq_refl)|exact (Hf FLAGS_limit_rate eq_refl)].
Defined.

Lemma save_config_answer_witness :
  ∃ r, SaveConfig (L := example_lib ∅) YASS_SERVER_DEFAULT None (example_flags (str "example.net") []) CloseOk =
    Some (Some (json_write (ConfigLib := example_lib ∅) r), false).
Proof.
  destruct (save_config_answer (L := example_lib ∅) YASS_SERVER_DEFAULT None (example_flags (str "example.net") []) CloseOk
    (Some (str "{ known }")) false ltac:(vm_cast_no_check (eq_refl (Some (Some (str "{ known }"), false))))) as [_ H].
  destruct (H eq_refl) as [r E]. exists r. rewrite <- E. vm_cast_no_check (eq_refl (Some (Some (str "{ known }"), false))).
Defined.

(** A file with a list of proxies, and one with the same as a text. *)
Definition listed : gmap string json := {["proxy" := JArray [JString (str "https://a")]]}.
Definition as_text : gmap string json := {["proxy" := JString (str "https://a")]}.

Lemma save_config_appends_witness :
  (∃ r file' b, SaveConfig (L := example_lib listed) YASS_CLIENT_DEFAULT (Some (str "{ known }")) (example_flags (str "h") [str "https://a"]) CloseOk
      = Some (file', b) ∧ file' = Some (json_write (ConfigLib := example_lib listed) r) ∧
      Read_value (L := example_lib listed) r "proxy" KStringArray = Some [str "https://a"; str "https://a"]) ∧
  SaveConfig (L := example_lib as_text) YASS_CLIENT_DEFAULT (Some (str "{ known }")) (example_flags (str "h") [str "https://a"]) CloseOk = None.
Proof.
  split.
  - destruct (save_config_appends (L := example_lib listed) (ConfigLaws0 := config_example_laws listed) (Some (str "{ known }"))
      (example_flags (str "h") [str "https://a"]) listed "proxy" (JArray [JString (str "https://a")])) as [H _]; [reflexivity|by left|reflexivity|].
    destruct (H [str "https://a"] (Some (str "{ known }")) false) as (r & E & Er); [reflexivity|vm_cast_no_check (eq_refl (Some (Some (str "{ known }"), false)))|].
    exists r, (Some (str "{ known }")), false. split; [vm_cast_no_check (eq_refl (Some (Some (str "{ known }"), false)))|]. split; [exact E|exact Er].
  - destruct (save_config_appends (L := example_lib as_text) (ConfigLaws0 := config_example_laws as_text) (Some (str "{ known }"))
      (example_flags (str "h") [str "https://a"]) as_text "proxy" (JString (str "https://a"))) as [_ H]; [reflexivity|by left|reflexivity|].
    apply (H (str "https://a")); [reflexivity|discriminate].
Defined.

End Config.
