(* ===== verification/Stream.v ===== *)
(** * The upstream stream

    [stream] of src/src/net/stream.hpp: the resolution of the host and the attempts to connect to its
    addresses, with their timer, and the waits for the socket under the limit of the rate.  Relay.v and
    CliRelay.v use of it what [Relay.stream] has; here is the class as a whole, without the TLS of
    [ssl_stream].

    The operations of asio are those of [Asio.op]: every handler ignores the error of a cancelled one.  Time is in nanoseconds, of one clock for
    [absl::Now] and the timers.  What is logged is left out, and so are the options of the socket; [DCHECK]
    is that of a release build. *)

From Stdlib Require Import ZArith Lia.
From stdpp Require Import base list numbers option.
From S2P Require Import Prelude Addr.

Module Stream.
Import Addr Asio.

Abbreviation text := (list byte).

(** ** The limit of the rate *)

Definition INT64_MAX : Z := 2 ^ 63 - 1.

(** Signed arithmetic of 64 bits: none on overflow. *)
Definition int64 (z : Z) : option Z :=
  if (- 2 ^ 63 <=? z)%Z && (z <=? INT64_MAX)%Z then Some z else None.

Definition MIN_RATE_LIMIT_PERIOD : Z := 3000.

(** [absl::ToInt64Milliseconds] of a difference of times. *)
Definition milliseconds (d : Z) : Z := Z.quot d 1000000.

Definition pgrsLimitWaitTime (cursize startsize limit start now : Z) : option Z :=
  size ← int64 (cursize - startsize);
  if (limit =? 0)%Z || (size =? 0)%Z then Some 0%Z
  else
    minimum ←
      (if (size <? INT64_MAX / 1000)%Z then t ← int64 (1000 * size); int64 (Z.quot t limit)
       else
         minimum ← int64 (Z.quot size limit);
         if (minimum <? INT64_MAX / 1000)%Z then int64 (minimum * 1000) else Some INT64_MAX);
    let actual := milliseconds (now - start) in
    if (actual <? minimum)%Z then int64 (minimum - actual) else Some 0%Z.

(** ** Connecting *)

Inductive error :=
  | operation_aborted | bad_descriptor | try_again | would_block | network_unreachable | host_not_found | timed_out
  | other_error (code : Z).

#[export] Instance error_eq_dec : EqDecision error.
Proof. solve_decision. Defined.

Abbreviation error_code := (option error).

(** asio's addresses and abseil's [StrSplit]. *)
Class AddressLib := {
  make_address : text → option address;
  is_unspecified : address → bool;
  is_multicast : address → bool;
  StrSplit : text → byte → list text
}.

(** The operations on the socket. *)
Record socket := mkSocket { is_open : bool; connects : op error_code; reads : op error_code; writes : op error_code }.

(** The members that connecting uses.  [answers_] are the calls of the callback given to [async_connect],
    [tried_] the endpoints a connection was started to. *)
Record conn := mkConn {
  endpoint_ : endpoint;
  endpoints_ : list endpoint;
  connected_ : bool;
  eof_ : bool;
  closed_ : bool;
  user_connect_callback_ : bool;
  socket_ : socket;
  resolver_ : op (list endpoint + error);
  connect_timer_ : op unit;
  answers_ : list error_code;
  tried_ : list endpoint
}.

Definition conn_init : conn :=
  mkConn endpoint_default [] false false false false (mkSocket false idle idle idle) idle idle [] [].

Definition set_endpoint (c : conn) (e : endpoint) (es : list endpoint) : conn :=
  mkConn e es (connected_ c) (eof_ c) (closed_ c) (user_connect_callback_ c) (socket_ c) (resolver_ c)
    (connect_timer_ c) (answers_ c) (tried_ c).
Definition set_flags (c : conn) (connected eof closed callback : bool) : conn :=
  mkConn (endpoint_ c) (endpoints_ c) connected eof closed callback (socket_ c) (resolver_ c) (connect_timer_ c)
    (answers_ c) (tried_ c).
Definition set_closed (c : conn) : conn := set_flags c (connected_ c) (eof_ c) true (user_connect_callback_ c).
Definition set_socket (c : conn) (k : socket) : conn :=
  mkConn (endpoint_ c) (endpoints_ c) (connected_ c) (eof_ c) (closed_ c) (user_connect_callback_ c) k (resolver_ c)
    (connect_timer_ c) (answers_ c) (tried_ c).
Definition set_resolver (c : conn) (r : op (list endpoint + error)) : conn :=
  mkConn (endpoint_ c) (endpoints_ c) (connected_ c) (eof_ c) (closed_ c) (user_connect_callback_ c) (socket_ c) r
    (connect_timer_ c) (answers_ c) (tried_ c).
Definition set_timer (c : conn) (t : op unit) : conn :=
  mkConn (endpoint_ c) (endpoints_ c) (connected_ c) (eof_ c) (closed_ c) (user_connect_callback_ c) (socket_ c) (resolver_ c)
    t (answers_ c) (tried_ c).

Definition on_async_connect_callback (c : conn) (ec : error_code) : conn :=
  if user_connect_callback_ c then
    mkConn (endpoint_ c) (endpoints_ c) (connected_ c) (eof_ c) (closed_ c) false (socket_ c) (resolver_ c)
      (connect_timer_ c) (answers_ c ++ [ec]) (tried_ c)
  else c.

(** [s_close]: the operations on the socket end. *)
Definition s_close (c : conn) : conn :=
  let k := socket_ c in set_socket c (mkSocket false (cancel (connects k)) (cancel (reads k)) (cancel (writes k))).

Definition set_connects (k : socket) (o : op error_code) : socket := mkSocket (is_open k) o (reads k) (writes k).
Definition set_reads (k : socket) (o : op error_code) : socket := mkSocket (is_open k) (connects k) o (writes k).
Definition set_writes (k : socket) (o : op error_code) : socket := mkSocket (is_open k) (connects k) (reads k) o.

Section Connect.
Context `{AddressLib}.

(** The arguments of the constructor, and the flag. *)
Variables (host_ips_ host_sni_ : text) (port_ : Z) (connect_timeout : Z).

(** The end of [on_resolve], once the socket is open. *)
Definition start_connect (c : conn) : conn :=
  let k := socket_ c in
  mkConn (endpoint_ c) (endpoints_ c) (connected_ c) (eof_ c) (closed_ c) (user_connect_callback_ c)
    (set_connects k (start (connects k))) (resolver_ c)
    (if (connect_timeout =? 0)%Z then connect_timer_ c else rearm (connect_timer_ c)) (answers_ c) (tried_ c ++ [endpoint_ c]).

Definition avoided (e : endpoint) : bool := is_unspecified (ep_address e) || is_multicast (ep_address e).

(** [on_try_next_endpoint] and [on_resolve], which call each other; [open] is what [socket_.open] answers, for
    the call that has so many endpoints left. *)
Fixpoint try_endpoints (open : nat → error_code) (es : list endpoint) (c : conn) : option conn :=
  match es with
  | [] => None
  | e :: rest =>
      let c := set_endpoint c e rest in
      let next (c : conn) (ec : error_code) :=
        match rest with
        | [] => Some (on_async_connect_callback (set_closed c) ec)
        | _ => try_endpoints open rest c
        end in
      if avoided e then next c (Some network_unreachable)
      else
        let c := if is_open (socket_ c) then s_close c else c in
        match open (length rest) with
        | Some ec => next c (Some ec)
        | None =>
            let k := socket_ c in Some (start_connect (set_socket c (mkSocket true (connects k) (reads k) (writes k))))
        end
  end.

Definition on_try_next_endpoint (open : nat → error_code) (c : conn) : option conn := try_endpoints open (endpoints_ c) c.

Definition on_async_connected (open : nat → error_code) (c : conn) (ec : error_code) : option conn :=
  let c := set_timer c (cancel (connect_timer_ c)) in
  match ec with
  | Some _ =>
      match endpoints_ c with
      | [] => Some (on_async_connect_callback c ec)
      | _ => on_try_next_endpoint open c
      end
  | None => Some (on_async_connect_callback (set_flags c true (eof_ c) (closed_ c) (user_connect_callback_ c)) None)
  end.

Definition endpoints_of (ips : list text) : list endpoint := omap (λ ip, a ← make_address ip; Some (mkEndpoint a port_)) ips.

(** [async_connect]; [init] is the answer of [resolver_.Init]. *)
Definition async_connect (open : nat → error_code) (init : error_code) (c : conn) : option conn :=
  let c := set_flags c (connected_ c) (eof_ c) (closed_ c) true in
  if (port_ =? 0)%Z then Some (on_async_connect_callback (set_closed c) (Some network_unreachable))
  else if decide (host_ips_ ≠ []) then
    let c := set_endpoint c (endpoint_ c) (endpoints_ c ++ endpoints_of (StrSplit host_ips_ x3b)) in
    match endpoints_ c with
    | [] => Some (on_async_connect_callback (set_closed c) (Some host_not_found))
    | _ => on_try_next_endpoint open c
    end
  else
    match make_address host_sni_ with
    | Some addr => on_try_next_endpoint open (set_endpoint c (endpoint_ c) (endpoints_ c ++ [mkEndpoint addr port_]))
    | None =>
        match init with
        | Some ec => Some (on_async_connect_callback (set_closed c) (Some ec))
        | None => Some (set_resolver c (start (resolver_ c)))
        end
    end.

(** The handler of the resolution. *)
Definition on_resolved (open : nat → error_code) (c : conn) (r : list endpoint + error) : option conn :=
  match r with
  | inr operation_aborted => Some c
  | _ =>
      if closed_ c then Some c
      else
        match r with
        | inr ec => on_async_connected open c (Some ec)
        | inl results => on_try_next_endpoint open (set_endpoint c (endpoint_ c) (endpoints_ c ++ results))
        end
  end.

(** Errors that the handlers of the socket ignore. *)
Definition ignored (ec : error_code) : bool := bool_decide (ec = Some bad_descriptor ∨ ec = Some operation_aborted).

(** The handler of [socket_.async_connect]. *)
Definition on_connect (open : nat → error_code) (c : conn) (ec : error_code) : option conn :=
  if ignored ec then Some c
  else if closed_ c then Some c
  else on_async_connected open c ec.

Definition on_async_connect_expired (c : conn) (ec : error_code) : conn :=
  if connected_ c then c
  else
    on_async_connect_callback (set_flags c (connected_ c) true (closed_ c) (user_connect_callback_ c))
      (match ec with None => Some timed_out | _ => ec end).

(** [close()], as far as it concerns connecting and the socket. *)
Definition close_conn (c : conn) : conn :=
  if closed_ c then c
  else
    let c := s_close (set_flags c false true true false) in
    set_resolver (set_timer c (cancel (connect_timer_ c))) (cancel (resolver_ c)).

End Connect.

(** ** Waiting for the socket *)

(** The members of the waits and of the limits; the callbacks are numbered.  [dl_deadline_] and [ul_deadline_] are
    when the timers expire.  [reads_asked_] and [writes_asked_] are the callbacks given to [wait_read] and [wait_write] while the
    stream was connected, [reads_called_] and [writes_called_] those that were called. *)
Record io := mkIo {
  read_inprogress_ : bool;
  write_inprogress_ : bool;
  wait_read_callback_ : option nat;
  wait_write_callback_ : option nat;
  rbytes_transferred_ : Z;
  wbytes_transferred_ : Z;
  dl_limit_start_ : Z;
  dl_limit_size_ : Z;
  dl_limit_state_ : bool;
  ul_limit_start_ : Z;
  ul_limit_size_ : Z;
  ul_limit_state_ : bool;
  dl_delay_timer : op unit;
  dl_deadline_ : Z;
  ul_delay_timer : op unit;
  ul_deadline_ : Z;
  read_yield_timer_ : op unit;
  reads_asked_ : list nat;
  writes_asked_ : list nat;
  reads_called_ : list (nat * error_code);
  writes_called_ : list (nat * error_code)
}.

Definition io_init : io := mkIo false false None None 0 0 0 0 false 0 0 false idle 0 idle 0 idle [] [] [] [].

Definition set_read (s : io) (b : bool) (cb : option nat) : io :=
  mkIo b (write_inprogress_ s) cb (wait_write_callback_ s) (rbytes_transferred_ s) (wbytes_transferred_ s)
    (dl_limit_start_ s) (dl_limit_size_ s) (dl_limit_state_ s) (ul_limit_start_ s) (ul_limit_size_ s) (ul_limit_state_ s)
    (dl_delay_timer s) (dl_deadline_ s) (ul_delay_timer s) (ul_deadline_ s) (read_yield_timer_ s) (reads_asked_ s) (writes_asked_ s) (reads_called_ s)
    (writes_called_ s).
Definition set_write (s : io) (b : bool) (cb : option nat) : io :=
  mkIo (read_inprogress_ s) b (wait_read_callback_ s) cb (rbytes_transferred_ s) (wbytes_transferred_ s)
    (dl_limit_start_ s) (dl_limit_size_ s) (dl_limit_state_ s) (ul_limit_start_ s) (ul_limit_size_ s) (ul_limit_state_ s)
    (dl_delay_timer s) (dl_deadline_ s) (ul_delay_timer s) (ul_deadline_ s) (read_yield_timer_ s) (reads_asked_ s) (writes_asked_ s) (reads_called_ s)
    (writes_called_ s).
Definition set_bytes (s : io) (r w : Z) : io :=
  mkIo (read_inprogress_ s) (write_inprogress_ s) (wait_read_callback_ s) (wait_write_callback_ s) r w
    (dl_limit_start_ s) (dl_limit_size_ s) (dl_limit_state_ s) (ul_limit_start_ s) (ul_limit_size_ s) (ul_limit_state_ s)
    (dl_delay_timer s) (dl_deadline_ s) (ul_delay_timer s) (ul_deadline_ s) (read_yield_timer_ s) (reads_asked_ s) (writes_asked_ s) (reads_called_ s)
    (writes_called_ s).
Definition set_dl (s : io) (start size : Z) : io :=
  mkIo (read_inprogress_ s) (write_inprogress_ s) (wait_read_callback_ s) (wait_write_callback_ s) (rbytes_transferred_ s)
    (wbytes_transferred_ s) start size (dl_limit_state_ s) (ul_limit_start_ s) (ul_limit_size_ s) (ul_limit_state_ s)
    (dl_delay_timer s) (dl_deadline_ s) (ul_delay_timer s) (ul_deadline_ s) (read_yield_timer_ s) (reads_asked_ s) (writes_asked_ s) (reads_called_ s)
    (writes_called_ s).
Definition set_ul (s : io) (start size : Z) : io :=
  mkIo (read_inprogress_ s) (write_inprogress_ s) (wait_read_callback_ s) (wait_write_callback_ s) (rbytes_transferred_ s)
    (wbytes_transferred_ s) (dl_limit_start_ s) (dl_limit_size_ s) (dl_limit_state_ s) start size (ul_limit_state_ s)
    (dl_delay_timer s) (dl_deadline_ s) (ul_delay_timer s) (ul_deadline_ s) (read_yield_timer_ s) (reads_asked_ s) (writes_asked_ s) (reads_called_ s)
    (writes_called_ s).
Definition set_states (s : io) (dl ul : bool) : io :=
  mkIo (read_inprogress_ s) (write_inprogress_ s) (wait_read_callback_ s) (wait_write_callback_ s) (rbytes_transferred_ s)
    (wbytes_transferred_ s) (dl_limit_start_ s) (dl_limit_size_ s) dl (ul_limit_start_ s) (ul_limit_size_ s) ul
    (dl_delay_timer s) (dl_deadline_ s) (ul_delay_timer s) (ul_deadline_ s) (read_yield_timer_ s) (reads_asked_ s) (writes_asked_ s) (reads_called_ s)
    (writes_called_ s).
Definition set_timers (s : io) (dl : op unit) (dl_deadline : Z) (ul : op unit) (ul_deadline : Z) (y : op unit) : io :=
  mkIo (read_inprogress_ s) (write_inprogress_ s) (wait_read_callback_ s) (wait_write_callback_ s) (rbytes_transferred_ s)
    (wbytes_transferred_ s) (dl_limit_start_ s) (dl_limit_size_ s) (dl_limit_state_ s) (ul_limit_start_ s) (ul_limit_size_ s)
    (ul_limit_state_ s) dl dl_deadline ul ul_deadline y (reads_asked_ s) (writes_asked_ s) (reads_called_ s) (writes_called_ s).
Definition set_dl_timer (s : io) (o : op unit) (d : Z) : io :=
  set_timers s o d (ul_delay_timer s) (ul_deadline_ s) (read_yield_timer_ s).
Definition set_ul_timer (s : io) (o : op unit) (d : Z) : io :=
  set_timers s (dl_delay_timer s) (dl_deadline_ s) o d (read_yield_timer_ s).
Definition set_yield_timer (s : io) (o : op unit) : io :=
  set_timers s (dl_delay_timer s) (dl_deadline_ s) (ul_delay_timer s) (ul_deadline_ s) o.
Definition call_read (s : io) (id : nat) (ec : error_code) : io :=
  mkIo (read_inprogress_ s) (write_inprogress_ s) (wait_read_callback_ s) (wait_write_callback_ s) (rbytes_transferred_ s)
    (wbytes_transferred_ s) (dl_limit_start_ s) (dl_limit_size_ s) (dl_limit_state_ s) (ul_limit_start_ s) (ul_limit_size_ s)
    (ul_limit_state_ s) (dl_delay_timer s) (dl_deadline_ s) (ul_delay_timer s) (ul_deadline_ s) (read_yield_timer_ s)
    (reads_asked_ s) (writes_asked_ s) (reads_called_ s ++ [(id, ec)]) (writes_called_ s).
Definition call_write (s : io) (id : nat) (ec : error_code) : io :=
  mkIo (read_inprogress_ s) (write_inprogress_ s) (wait_read_callback_ s) (wait_write_callback_ s) (rbytes_transferred_ s)
    (wbytes_transferred_ s) (dl_limit_start_ s) (dl_limit_size_ s) (dl_limit_state_ s) (ul_limit_start_ s) (ul_limit_size_ s)
    (ul_limit_state_ s) (dl_delay_timer s) (dl_deadline_ s) (ul_delay_timer s) (ul_deadline_ s) (read_yield_timer_ s)
    (reads_asked_ s) (writes_asked_ s) (reads_called_ s) (writes_called_ s ++ [(id, ec)]).

Definition ask (s : io) (r w : list nat) : io :=
  mkIo (read_inprogress_ s) (write_inprogress_ s) (wait_read_callback_ s) (wait_write_callback_ s) (rbytes_transferred_ s)
    (wbytes_transferred_ s) (dl_limit_start_ s) (dl_limit_size_ s) (dl_limit_state_ s) (ul_limit_start_ s) (ul_limit_size_ s)
    (ul_limit_state_ s) (dl_delay_timer s) (dl_deadline_ s) (ul_delay_timer s) (ul_deadline_ s) (read_yield_timer_ s)
    (reads_asked_ s ++ r) (writes_asked_ s ++ w) (reads_called_ s) (writes_called_ s).

Record stream := mkStream { conn_ : conn; io_ : io }.

Definition stream_init : stream := mkStream conn_init io_init.

Definition with_reads (s : stream) (o : op error_code) : stream :=
  mkStream (set_socket (conn_ s) (set_reads (socket_ (conn_ s)) o)) (io_ s).
Definition with_writes (s : stream) (o : op error_code) : stream :=
  mkStream (set_socket (conn_ s) (set_writes (socket_ (conn_ s)) o)) (io_ s).
Definition with_io (s : stream) (i : io) : stream := mkStream (conn_ s) i.
Definition reads_of (s : stream) : op error_code := reads (socket_ (conn_ s)).
Definition writes_of (s : stream) : op error_code := writes (socket_ (conn_ s)).

Section Io.
Variables dl_limit_rate_ ul_limit_rate_ : Z.

Definition unusable (c : conn) : bool := negb (connected_ c) || closed_ c.

Definition ratelimit (now : Z) (i : io) : io :=
  let i :=
    if negb (dl_limit_rate_ =? 0)%Z && (MIN_RATE_LIMIT_PERIOD <=? milliseconds (now - dl_limit_start_ i))%Z
    then set_dl i now (rbytes_transferred_ i) else i in
  if negb (ul_limit_rate_ =? 0)%Z && (MIN_RATE_LIMIT_PERIOD <=? milliseconds (now - ul_limit_start_ i))%Z
  then set_ul i now (wbytes_transferred_ i) else i.

(** The limits, when the connection is made. *)
Definition start_limits (now : Z) (i : io) : io :=
  ratelimit now (set_states (set_ul (set_dl i now 0) now 0) false false).

(** [wait_read]; [now] and [now'] are the times of the first and of a second look at the clock. *)
Definition wait_read (now now' : Z) (callback : option nat) (yield : bool) (s : stream) : option stream :=
  if unusable (conn_ s) then Some s
  else
    let i := set_read (io_ s) true callback in
    recv_timeout_ms ←
      (if (dl_limit_rate_ =? 0)%Z then Some 0%Z
       else pgrsLimitWaitTime (rbytes_transferred_ i) (dl_limit_size_ i) dl_limit_rate_ (dl_limit_start_ i) now);
    if negb (recv_timeout_ms =? 0)%Z then
      let i := if negb (ul_limit_state_ i) && negb (dl_limit_state_ i) then ratelimit now' i else i in
      let i := set_states i true (ul_limit_state_ i) in
      Some (with_io s (set_dl_timer i (rearm (dl_delay_timer i)) (now' + recv_timeout_ms * 1000000)))
    else
      let i := if dl_limit_state_ i && negb (ul_limit_state_ i) then ratelimit now' i else i in
      let i := set_states i false (ul_limit_state_ i) in
      if yield then Some (with_io s (set_yield_timer i (rearm (read_yield_timer_ i))))
      else Some (with_reads (with_io s i) (start (reads_of s))).

Definition on_dl_delay (now now' : Z) (s : stream) : option stream :=
  wait_read now now' (wait_read_callback_ (io_ s)) false (with_io s (set_read (io_ s) false None)).

Definition on_read_yield (now now' : Z) (s : stream) : option stream :=
  let callback := wait_read_callback_ (io_ s) in
  let s := with_io s (set_read (io_ s) false None) in
  if unusable (conn_ s) then Some s else wait_read now now' callback false s.

Definition on_wait_read (ec : error_code) (s : stream) : stream :=
  if ignored ec then s
  else
    let callback := wait_read_callback_ (io_ s) in
    let s := with_io s (set_read (io_ s) false None) in
    if unusable (conn_ s) then s
    else match callback with None => s | Some id => with_io s (call_read (io_ s) id ec) end.

(** [DCHECK(!wait_write_callback_)] follows the assignment on the delayed path, and is not that of a release build. *)
Definition wait_write (now now' : Z) (callback : option nat) (s : stream) : option stream :=
  if unusable (conn_ s) then Some s
  else
    let i := io_ s in
    send_timeout_ms ←
      (if (ul_limit_rate_ =? 0)%Z then Some 0%Z
       else pgrsLimitWaitTime (wbytes_transferred_ i) (ul_limit_size_ i) ul_limit_rate_ (ul_limit_start_ i) now);
    if negb (send_timeout_ms =? 0)%Z then
      let i := if negb (ul_limit_state_ i) && negb (dl_limit_state_ i) then ratelimit now' i else i in
      let i := set_states i (dl_limit_state_ i) true in
      Some (with_io s (set_write (set_ul_timer i (rearm (ul_delay_timer i)) (now' + send_timeout_ms * 1000000))
                         (write_inprogress_ i) callback))
    else
      let i := set_write i true callback in
      let i := if ul_limit_state_ i && negb (dl_limit_state_ i) then ratelimit now' i else i in
      let i := set_states i (dl_limit_state_ i) false in
      Some (with_writes (with_io s i) (start (writes_of s))).

Definition on_ul_delay (now now' : Z) (s : stream) : option stream :=
  wait_write now now' (wait_write_callback_ (io_ s)) (with_io s (set_write (io_ s) (write_inprogress_ (io_ s)) None)).

Definition on_wait_write (ec : error_code) (s : stream) : stream :=
  if ignored ec then s
  else
    let callback := wait_write_callback_ (io_ s) in
    let s := with_io s (set_write (io_ s) false None) in
    if unusable (conn_ s) then s
    else match callback with None => s | Some id => with_io s (call_write (io_ s) id ec) end.

(** The counters, as [int64_t] plus [size_t]. *)
Definition wrap64 (z : Z) : Z := (z + 2 ^ 63) mod 2 ^ 64 - 2 ^ 63.

(** [read_some] and [write_some], for what the socket answers; with them whether the channel is told that
    it is disconnected. *)
Definition fatal (ec : error_code) : bool := negb (bool_decide (ec = None ∨ ec = Some try_again ∨ ec = Some would_block)).

Definition read_some (read : Z) (ec : error_code) (s : stream) : stream * bool :=
  (with_io s (set_bytes (io_ s) (wrap64 (rbytes_transferred_ (io_ s) + read)) (wbytes_transferred_ (io_ s))), fatal ec).
Definition write_some (written : Z) (ec : error_code) (s : stream) : stream * bool :=
  (with_io s (set_bytes (io_ s) (rbytes_transferred_ (io_ s)) (wrap64 (wbytes_transferred_ (io_ s) + written))), fatal ec).

Definition close (s : stream) : stream :=
  if closed_ (conn_ s) then s
  else
    let i := set_write (set_read (io_ s) (read_inprogress_ (io_ s)) None) (write_inprogress_ (io_ s)) None in
    mkStream (close_conn (conn_ s))
      (set_timers i (cancel (dl_delay_timer i)) (dl_deadline_ i) (cancel (ul_delay_timer i)) (ul_deadline_ i)
         (cancel (read_yield_timer_ i))).

End Io.

(** ** Runs *)

(** The channel's calls, the results of the operations of asio, and their handlers. *)
Inductive event :=
  | Close
  | WaitRead (id : nat) (yield : bool)
  | WaitWrite (id : nat)
  | ReadSome (read : Z) (ec : error_code)
  | WriteSome (written : Z) (ec : error_code)
  | ResolveDone (r : list endpoint + error)
  | ConnectDone (ec : error_code)
  | ConnectTimerDone | DlTimerDone | UlTimerDone | YieldTimerDone
  | ReadDone (ec : error_code)
  | WriteDone (ec : error_code)
  | RunResolve (open : nat → error_code)
  | RunConnect (open : nat → error_code)
  | RunConnectTimer | RunDlTimer | RunUlTimer | RunYieldTimer | RunRead | RunWrite.

Section Run.
Context `{AddressLib}.
Variables (host_ips_ host_sni_ : text) (port_ connect_timeout dl_limit_rate_ ul_limit_rate_ : Z).

Definition begin (open : nat → error_code) (init : error_code) : option stream :=
  c ← async_connect host_ips_ host_sni_ port_ connect_timeout open init conn_init; Some (mkStream c io_init).

(** One event, at the time [now]; [now'] is the clock when it is looked at again. *)
Definition step (now now' : Z) (s : stream) (e : event) : option stream :=
  let c := conn_ s in
  let i := io_ s in
  let k := socket_ c in
  match e with
  | Close => Some (close s)
  | WaitRead id yield => 
      wait_read dl_limit_rate_ ul_limit_rate_ now now' (Some id) yield (with_io s (ask i (if unusable c then [] else [id]) []))
  | WaitWrite id => 
      wait_write dl_limit_rate_ ul_limit_rate_ now now' (Some id) (with_io s (ask i [] (if unusable c then [] else [id])))
  | ReadSome n ec => Some (read_some n ec s).1
  | WriteSome n ec => Some (write_some n ec s).1
  | ResolveDone r => Some (mkStream (set_resolver c (complete (resolver_ c) r)) i)
  | ConnectDone ec => Some (mkStream (set_socket c (set_connects k (complete (connects k) ec))) i)
  | ConnectTimerDone => Some (mkStream (set_timer c (complete (connect_timer_ c) ())) i)
  | DlTimerDone => Some (with_io s (set_dl_timer i (complete (dl_delay_timer i) ()) (dl_deadline_ i)))
  | UlTimerDone => Some (with_io s (set_ul_timer i (complete (ul_delay_timer i) ()) (ul_deadline_ i)))
  | YieldTimerDone => Some (with_io s (set_yield_timer i (complete (read_yield_timer_ i) ())))
  | ReadDone ec => Some (with_reads s (complete (reads_of s) ec))
  | WriteDone ec => Some (with_writes s (complete (writes_of s) ec))
  | RunResolve open =>
      r ← head (queued (resolver_ c));
      c' ← on_resolved connect_timeout open (set_resolver c (dequeue (resolver_ c))) r;
      Some (mkStream c' i)
  | RunConnect open =>
      ec ← head (queued (connects k));
      c' ← on_connect connect_timeout open (set_socket c (set_connects k (dequeue (connects k)))) ec;
      (* the limits start in [on_async_connected] *)
      Some (mkStream c' (if bool_decide (ec = None) && negb (closed_ c) then start_limits dl_limit_rate_ ul_limit_rate_ now i else i))
  | RunConnectTimer =>
      _ ← head (queued (connect_timer_ c));
      Some (mkStream (on_async_connect_expired (set_timer c (dequeue (connect_timer_ c))) None) i)
  | RunDlTimer =>
      _ ← head (queued (dl_delay_timer i));
      on_dl_delay dl_limit_rate_ ul_limit_rate_ now now' (with_io s (set_dl_timer i (dequeue (dl_delay_timer i)) (dl_deadline_ i)))
  | RunUlTimer =>
      _ ← head (queued (ul_delay_timer i));
      on_ul_delay dl_limit_rate_ ul_limit_rate_ now now' (with_io s (set_ul_timer i (dequeue (ul_delay_timer i)) (ul_deadline_ i)))
  | RunYieldTimer =>
      _ ← head (queued (read_yield_timer_ i));
      on_read_yield dl_limit_rate_ ul_limit_rate_ now now' (with_io s (set_yield_timer i (dequeue (read_yield_timer_ i))))
  | RunRead => ec ← head (queued (reads_of s)); Some (on_wait_read ec (with_reads s (dequeue (reads_of s))))
  | RunWrite => ec ← head (queued (writes_of s)); Some (on_wait_write ec (with_writes s (dequeue (writes_of s))))
  end.

(** What may happen: an operation completes while it is under way, with another error than that of a cancelled one; a
    resolution succeeds with an address; a handler runs when it is queued; the channel waits once at a
    time; and fewer than 2^63 bytes are moved. *)
Definition allowed (s : stream) (e : event) : Prop :=
  let c := conn_ s in
  let i := io_ s in
  match e with
  | Close => True
  | WaitRead _ _ => read_inprogress_ i = false
  | WaitWrite _ => write_inprogress_ i = false
  | ReadSome n _ => (0 <= n)%Z ∧ (rbytes_transferred_ i + n <= INT64_MAX)%Z
  | WriteSome n _ => (0 <= n)%Z ∧ (wbytes_transferred_ i + n <= INT64_MAX)%Z
  | ResolveDone r => 0 < waiting (resolver_ c) ∧ r ≠ inr operation_aborted ∧ r ≠ inl []
  | ConnectDone ec => 0 < waiting (connects (socket_ c)) ∧ ignored ec = false
  | ConnectTimerDone => 0 < waiting (connect_timer_ c)
  | DlTimerDone => 0 < waiting (dl_delay_timer i)
  | UlTimerDone => 0 < waiting (ul_delay_timer i)
  | YieldTimerDone => 0 < waiting (read_yield_timer_ i)
  | ReadDone ec => 0 < waiting (reads_of s) ∧ ignored ec = false
  | WriteDone ec => 0 < waiting (writes_of s) ∧ ignored ec = false
  | RunResolve _ => queued (resolver_ c) ≠ []
  | RunConnect _ => queued (connects (socket_ c)) ≠ []
  | RunConnectTimer => queued (connect_timer_ c) ≠ []
  | RunDlTimer => queued (dl_delay_timer i) ≠ []
  | RunUlTimer => queued (ul_delay_timer i) ≠ []
  | RunYieldTimer => queued (read_yield_timer_ i) ≠ []
  | RunRead => queued (reads_of s) ≠ []
  | RunWrite => queued (writes_of s) ≠ []
  end.

(** [runs t s es t' s']: from [s] at the time [t] the events [es] lead to [s'] at the time [t'], and the clock does not go back. *)
Inductive runs : Z → stream → list event → Z → stream → Prop :=
  | runs_nil t s : runs t s [] t s
  | runs_snoc t s es t1 s1 now now' e s' :
      runs t s es t1 s1 → (t1 <= now <= now')%Z → allowed s1 e → step now now' s1 e = Some s' →
      runs t s (es ++ [e]) now' s'.

End Run.

(** ** The delay of a wait *)

Lemma int64_ok z : (- 2 ^ 63 <= z <= INT64_MAX)%Z → int64 z = Some z.
Proof. intros. unfold int64. by rewrite !(proj2 (Z.leb_le _ _)) by lia. Qed.

Lemma INT64_MAX_value : INT64_MAX = 9223372036854775807%Z ∧ (INT64_MAX / 1000 = 9223372036854775)%Z.
Proof. done. Qed.

(** The time that [size] bytes should take. *)
Definition minimum_ms (size limit : Z) : Z :=
  if (size <? INT64_MAX / 1000)%Z then (1000 * size / limit)%Z
  else if (size / limit <? INT64_MAX / 1000)%Z then (size / limit * 1000)%Z else INT64_MAX.

Lemma milliseconds_mono a b : (0 <= a <= b)%Z → (0 <= milliseconds a <= milliseconds b)%Z.
Proof.
  intros. unfold milliseconds. rewrite !Z.quot_div_nonneg by lia. split; [apply Z.div_pos; lia|apply Z.div_le_mono; lia].
Qed.

Lemma milliseconds_add a n : (0 <= a)%Z → (0 <= n)%Z → milliseconds (a + n * 1000000) = (milliseconds a + n)%Z.
Proof. intros. unfold milliseconds. rewrite !Z.quot_div_nonneg by lia. by rewrite Z.div_add by lia. Qed.

Lemma div_at_most a b : (0 <= a)%Z → (0 < b)%Z → (0 <= a / b <= a)%Z.
Proof. intros. split; [apply Z.div_pos; lia|]. apply Z.div_le_upper_bound; [done|]. nia. Qed.

Lemma minimum_range size limit :
  (0 <= size <= INT64_MAX)%Z → (0 < limit <= INT64_MAX)%Z → (0 <= minimum_ms size limit <= INT64_MAX)%Z.
Proof.
  intros Hs Hl. destruct INT64_MAX_value as [E1 E2]. unfold minimum_ms. rewrite E2.
  pose proof (div_at_most (1000 * size) limit ltac:(lia) ltac:(lia)). pose proof (div_at_most size limit ltac:(lia) ltac:(lia)).
  destruct (Z.ltb_spec size 9223372036854775); [lia|].
  destruct (Z.ltb_spec (size / limit) 9223372036854775); lia.
Qed.

(** No overflow, and the value. *)
Lemma pgrs_spec cursize startsize limit start now :
  (0 <= startsize <= cursize)%Z → (cursize <= INT64_MAX)%Z → (0 < limit <= INT64_MAX)%Z → (start <= now)%Z →
  pgrsLimitWaitTime cursize startsize limit start now =
    Some (Z.max 0 (minimum_ms (cursize - startsize) limit - milliseconds (now - start))).
Proof.
  intros Hc Hm Hl Ht. destruct INT64_MAX_value as [E1 E2]. unfold pgrsLimitWaitTime.
  pose proof (milliseconds_mono 0 (now - start) ltac:(lia)) as Ha.
  rewrite int64_ok by lia. cbn [mbind option_bind]. rewrite (proj2 (Z.eqb_neq limit 0)) by lia. cbn [orb].
  set (size := (cursize - startsize)%Z) in *. assert (0 <= size <= INT64_MAX)%Z as Hs by lia.
  destruct (Z.eqb_spec size 0) as [Ez|Ez].
  { f_equal. rewrite Ez. change (minimum_ms 0 limit) with (0 / limit)%Z. rewrite Z.div_0_l; lia. }
  assert ((if (size <? INT64_MAX / 1000)%Z then t ← int64 (1000 * size); int64 (Z.quot t limit)
       else minimum ← int64 (Z.quot size limit);
            if (minimum <? INT64_MAX / 1000)%Z then int64 (minimum * 1000) else Some INT64_MAX) = Some (minimum_ms size limit)) as ->.
  { pose proof (minimum_range size limit Hs Hl) as Hr. unfold minimum_ms in *. rewrite E2 in *.
    destruct (Z.ltb_spec size 9223372036854775) as [H1|H1].
    - rewrite int64_ok by lia. cbn [mbind option_bind]. rewrite Z.quot_div_nonneg by lia. by rewrite int64_ok by lia.
    - pose proof (div_at_most size limit ltac:(lia) ltac:(lia)).
      rewrite Z.quot_div_nonneg by lia. rewrite int64_ok by lia. cbn [mbind option_bind].
      destruct (Z.ltb_spec (size / limit) 9223372036854775) as [H2|H2]; [|done]. by rewrite int64_ok by lia. }
  cbn [mbind option_bind]. pose proof (minimum_range size limit Hs Hl) as Hr.
  destruct (Z.ltb_spec (milliseconds (now - start)) (minimum_ms size limit)) as [H1|H1].
  - rewrite int64_ok by lia. f_equal. lia.
  - f_equal. lia.
Qed.

(** The limits are about what was transferred so far. *)
Definition limits_ok (t : Z) (i : io) : Prop :=
  (0 <= dl_limit_size_ i <= rbytes_transferred_ i)%Z ∧ (rbytes_transferred_ i <= INT64_MAX)%Z ∧ (dl_limit_start_ i <= t)%Z ∧
  (0 <= ul_limit_size_ i <= wbytes_transferred_ i)%Z ∧ (wbytes_transferred_ i <= INT64_MAX)%Z ∧ (ul_limit_start_ i <= t)%Z.

(** What [ratelimit] leaves alone, and what it may do. *)
Lemma ratelimit_spec dl ul now i :
  ∃ a b c d, ratelimit dl ul now i = set_ul (set_dl i a b) c d ∧
    (a = dl_limit_start_ i ∧ b = dl_limit_size_ i ∨ a = now ∧ b = rbytes_transferred_ i) ∧
    (c = ul_limit_start_ i ∧ d = ul_limit_size_ i ∨ c = now ∧ d = wbytes_transferred_ i).
Proof.
  unfold ratelimit. destruct (negb (dl =? 0)%Z && _), (negb (ul =? 0)%Z && _).
  - by exists now, (rbytes_transferred_ i), now, (wbytes_transferred_ i); auto.
  - by exists now, (rbytes_transferred_ i), (ul_limit_start_ i), (ul_limit_size_ i); auto.
  - exists (dl_limit_start_ i), (dl_limit_size_ i), now, (wbytes_transferred_ i). split; [by destruct i|auto].
  - exists (dl_limit_start_ i), (dl_limit_size_ i), (ul_limit_start_ i), (ul_limit_size_ i). split; [by destruct i|auto].
Qed.

Lemma ratelimit_limits dl ul now t i :
  limits_ok t i → (t <= now)%Z → limits_ok now (ratelimit dl ul now i).
Proof.
  intros (H1 & H2 & H3 & H4 & H5 & H6) Ht. destruct (ratelimit_spec dl ul now i) as (a & b & c & d & -> & [[-> ->]|[-> ->]] & [[-> ->]|[-> ->]]);
    unfold limits_ok; cbn; lia.
Qed.

Section Delay.
Context `{AddressLib}.
Variables (host_ips_ host_sni_ : text) (port_ connect_timeout dl_limit_rate_ ul_limit_rate_ : Z).

Local Abbreviation runs := (runs connect_timeout dl_limit_rate_ ul_limit_rate_).
Local Abbreviation step := (step connect_timeout dl_limit_rate_ ul_limit_rate_).
Local Abbreviation wait_read := (wait_read dl_limit_rate_ ul_limit_rate_).
Local Abbreviation wait_write := (wait_write dl_limit_rate_ ul_limit_rate_).
Local Abbreviation ratelimit := (ratelimit dl_limit_rate_ ul_limit_rate_).

(** Events of the other direction, and that the timer expires. *)
Definition of_upload (e : event) : bool :=
  match e with
  | WaitWrite _ | WriteSome _ _ | UlTimerDone | WriteDone _ | RunUlTimer | RunWrite | DlTimerDone => true
  | _ => false
  end.

(** What they leave alone while the download is delayed. *)
Definition delayed (s s' : stream) : Prop :=
  connected_ (conn_ s') = connected_ (conn_ s) ∧ closed_ (conn_ s') = closed_ (conn_ s) ∧ reads_of s' = reads_of s ∧
  wait_read_callback_ (io_ s') = wait_read_callback_ (io_ s) ∧ rbytes_transferred_ (io_ s') = rbytes_transferred_ (io_ s) ∧
  dl_limit_start_ (io_ s') = dl_limit_start_ (io_ s) ∧ dl_limit_size_ (io_ s') = dl_limit_size_ (io_ s) ∧
  dl_limit_state_ (io_ s') = true ∧ dl_deadline_ (io_ s') = dl_deadline_ (io_ s).

Lemma wait_write_delayed now now' cb s0 s s' :
  delayed s0 s → wait_write now now' cb s = Some s' → delayed s0 s'.
Proof.
  intros (H1 & H2 & H3 & H4 & H5 & H6 & H7 & H8 & H9). unfold Stream.wait_write.
  destruct (unusable _); [intros [= <-]; done|]. destruct (if (ul_limit_rate_ =? 0)%Z then _ else _) as [w|]; [|done].
  cbn [mbind option_bind]. rewrite H8. rewrite !andb_false_r. destruct (negb (w =? 0)%Z); intros [= <-].
  - unfold delayed. cbn. done.
  - cbn [set_write dl_limit_state_]. rewrite H8, !andb_false_r. unfold delayed. cbn. done.
Qed.

Lemma upload_delayed now now' s0 s e s' :
  of_upload e = true → delayed s0 s → step now now' s e = Some s' → delayed s0 s'.
Proof.
  intros He D. destruct e; try done; cbn [Stream.step].
  - apply wait_write_delayed, D.
  - intros [= <-]. exact D.
  - intros [= <-]. exact D.
  - intros [= <-]. exact D.
  - intros [= <-]. exact D.
  - destruct (queued _); [done|]. cbn [mbind option_bind head]. apply wait_write_delayed, D.
  - destruct (queued _) as [|ec ?]; [done|]. cbn [mbind option_bind head]. intros [= <-]. unfold on_wait_write.
    destruct (ignored ec); [exact D|]. destruct (unusable _); [exact D|]. cbn. by destruct (wait_write_callback_ _).
Qed.

Lemma uploads_delayed t s0 es t' s :
  runs t s0 es t' s → forallb of_upload es = true → dl_limit_state_ (io_ s0) = true → delayed s0 s.
Proof.
  induction 1 as [t s|t s es t1 s1 now now' e s' _ IH _ _ E]; intros F Hd; [done|].
  rewrite forallb_app in F. apply andb_true_iff in F as [F He]. cbn in He. rewrite andb_true_r in He.
  eapply upload_delayed; [exact He|by apply IH|exact E].
Qed.

(** A wait that is not delayed. *)
Lemma wait_read_granted now now' cb yield s :
  unusable (conn_ s) = false →
  pgrsLimitWaitTime (rbytes_transferred_ (io_ s)) (dl_limit_size_ (io_ s)) dl_limit_rate_ (dl_limit_start_ (io_ s)) now = Some 0%Z →
  ∃ s', wait_read now now' cb yield s = Some s' ∧ wait_read_callback_ (io_ s') = cb ∧ dl_limit_state_ (io_ s') = false ∧
    if yield then read_yield_timer_ (io_ s') = rearm (read_yield_timer_ (io_ s)) ∧ reads_of s' = reads_of s
    else reads_of s' = start (reads_of s).
Proof.
  intros Hu Ew. unfold Stream.wait_read. rewrite Hu.
  assert ((if (dl_limit_rate_ =? 0)%Z then Some 0%Z else
    pgrsLimitWaitTime (rbytes_transferred_ (io_ s)) (dl_limit_size_ (io_ s)) dl_limit_rate_ (dl_limit_start_ (io_ s)) now) = Some 0%Z) as E
    by by destruct (dl_limit_rate_ =? 0)%Z.
  cbn [set_read rbytes_transferred_ dl_limit_size_ dl_limit_start_]. rewrite E. cbn [mbind option_bind Z.eqb negb].
  set (i := set_read (io_ s) true cb).
  destruct (ratelimit_spec dl_limit_rate_ ul_limit_rate_ now' i) as (a & b & c & d & Er & _).
  destruct yield; eexists; (split; [reflexivity|]); destruct (_ && _); rewrite ?Er; done.
Qed.

Lemma wait_read_postponed now now' cb yield s w :
  unusable (conn_ s) = false → dl_limit_rate_ ≠ 0%Z → w ≠ 0%Z →
  pgrsLimitWaitTime (rbytes_transferred_ (io_ s)) (dl_limit_size_ (io_ s)) dl_limit_rate_ (dl_limit_start_ (io_ s)) now = Some w →
  ∃ s', wait_read now now' cb yield s = Some s' ∧ conn_ s' = conn_ s ∧ wait_read_callback_ (io_ s') = cb ∧ dl_limit_state_ (io_ s') = true ∧
    dl_delay_timer (io_ s') = rearm (dl_delay_timer (io_ s)) ∧ dl_deadline_ (io_ s') = (now' + w * 1000000)%Z ∧
    rbytes_transferred_ (io_ s') = rbytes_transferred_ (io_ s) ∧
    (dl_limit_start_ (io_ s') = dl_limit_start_ (io_ s) ∧ dl_limit_size_ (io_ s') = dl_limit_size_ (io_ s) ∨
     dl_limit_start_ (io_ s') = now' ∧ dl_limit_size_ (io_ s') = rbytes_transferred_ (io_ s)).
Proof.
  intros Hu Hr Hw Ew. unfold Stream.wait_read. rewrite Hu, (proj2 (Z.eqb_neq _ _) Hr).
  cbn [set_read rbytes_transferred_ dl_limit_size_ dl_limit_start_]. rewrite Ew. cbn [mbind option_bind].
  rewrite (proj2 (Z.eqb_neq _ _) Hw). cbn [negb]. set (i := set_read (io_ s) true cb).
  destruct (ratelimit_spec dl_limit_rate_ ul_limit_rate_ now' i) as (a & b & c & d & Er & [[-> ->]|[-> ->]] & _);
    eexists; (split; [reflexivity|]); destruct (_ && _); rewrite ?Er; cbn; split_and!; auto.
Qed.

(** C18: the limit of the rate.  A wait for reading is granted at once exactly if the bytes since the last stamp took as
    long as they should at the limit, computed without overflow.  Otherwise it is put off by the milliseconds that are missing, and whatever the
    upload does meanwhile, when the timer expires the wait is handed to the socket: it is not put off again. *)
Theorem rate_limit_delay t now now' id yield s :
  unusable (conn_ s) = false → limits_ok t (io_ s) → (t <= now <= now')%Z → (0 < dl_limit_rate_ <= INT64_MAX)%Z →
  let size := (rbytes_transferred_ (io_ s) - dl_limit_size_ (io_ s))%Z in
  let minimum := (1000 * size / dl_limit_rate_)%Z in
  let actual := milliseconds (now - dl_limit_start_ (io_ s)) in
  (size < INT64_MAX / 1000)%Z →
  ∃ s', wait_read now now' (Some id) yield s = Some s' ∧ wait_read_callback_ (io_ s') = Some id ∧
    ((minimum <= actual)%Z → dl_limit_state_ (io_ s') = false ∧
       if yield then read_yield_timer_ (io_ s') = rearm (read_yield_timer_ (io_ s)) ∧ reads_of s' = reads_of s
       else reads_of s' = start (reads_of s)) ∧
    ((actual < minimum)%Z →
       dl_delay_timer (io_ s') = rearm (dl_delay_timer (io_ s)) ∧ reads_of s' = reads_of s ∧
       dl_deadline_ (io_ s') = (now' + (minimum - actual) * 1000000)%Z ∧
       ∀ es t1 s1 now1 now1', runs now' s' es t1 s1 → forallb of_upload es = true → queued (dl_delay_timer (io_ s1)) ≠ [] →
         (dl_deadline_ (io_ s') <= now1)%Z →
         ∃ s2, step now1 now1' s1 RunDlTimer = Some s2 ∧ wait_read_callback_ (io_ s2) = Some id ∧ reads_of s2 = start (reads_of s)).
Proof.
  intros Hu (L1 & L2 & L3 & _) Ht Hr size minimum actual Hs.
  assert (minimum_ms size dl_limit_rate_ = minimum) as Em by (unfold minimum_ms; by rewrite (proj2 (Z.ltb_lt _ _) Hs)).
  pose proof (pgrs_spec _ _ dl_limit_rate_ (dl_limit_start_ (io_ s)) now L1 L2 Hr ltac:(lia)) as Ew.
  fold size actual in Ew. rewrite Em in Ew.
  destruct (Z.le_gt_cases minimum actual) as [Hle|Hgt].
  - rewrite Z.max_l in Ew by lia. destruct (wait_read_granted now now' (Some id) yield s Hu Ew) as (s' & E & Ec & Es & Ey).
    exists s'. split_and!; [done|done|done|lia].
  - rewrite Z.max_r in Ew by lia.
    destruct (wait_read_postponed now now' (Some id) yield s (minimum - actual)%Z Hu ltac:(lia) ltac:(lia) Ew) as (s' & E & Ek & Ec & Es & Et & Ed & Eb & El).
    exists s'. assert (reads_of s' = reads_of s) as Erd by (unfold reads_of; by rewrite Ek).
    split_and!; [done|done|lia|]. intros _. split_and!; [done|done|done|].
    intros es t1 s1 now1 now1' R F Q Hd.
    pose proof (uploads_delayed _ _ _ _ _ R F Es) as (D1 & D2 & D3 & D4 & D5 & D6 & D7 & D8 & D9).
    cbn [Stream.step]. destruct (queued (dl_delay_timer (io_ s1))) as [|u q]; [done|]. cbn [head mbind option_bind].
    unfold on_dl_delay. rewrite <- D3 in Erd. rewrite <- Erd.
    match goal with |- context [Stream.wait_read _ _ _ _ ?cb _ ?s1'] =>
      destruct (wait_read_granted now1 now1' cb false s1') as (s2 & E2 & Ec2 & _ & Er2) end.
    + cbn. unfold unusable in *. by rewrite D1, D2, Ek.
    + cbn. rewrite D5, D6, D7, Eb. rewrite Ed in Hd.
      destruct El as [[-> ->]|[-> ->]].
      * rewrite pgrs_spec by (done || lia). f_equal. fold size. rewrite Em, Z.max_l; [done|].
        pose proof (milliseconds_mono (now - dl_limit_start_ (io_ s) + (minimum - actual) * 1000000) (now1 - dl_limit_start_ (io_ s)) ltac:(lia)) as Hm.
        rewrite milliseconds_add in Hm by lia. fold actual in Hm. lia.
      * rewrite pgrs_spec by lia. f_equal. rewrite Z.sub_diag. change (minimum_ms 0 dl_limit_rate_) with (0 / dl_limit_rate_)%Z.
        rewrite Z.div_0_l by lia. pose proof (milliseconds_mono 0 (now1 - now') ltac:(lia)). lia.
    + exists s2. split; [exact E2|]. split; [by rewrite Ec2; cbn; rewrite D4|exact Er2].
Qed.

End Delay.

(** ** The invariant *)

(** What is outstanding of the connecting. *)
Definition connecting (c : conn) : nat := out (resolver_ c) + out (connects (socket_ c)).

Definition good_result (r : list endpoint + error) : Prop := r ≠ inr operation_aborted ∧ r ≠ inl [].

(** [told] stands for a call of [close] before. *)
Record conn_inv (told : Prop) (c : conn) : Prop := {
  ci_resolver : Forall good_result (queued (resolver_ c));
  ci_connects : Forall (λ ec, ignored ec = false) (queued (connects (socket_ c)));
  ci_one : connecting c <= 1;
  ci_once : length (answers_ c) <= 1;
  ci_callback : user_connect_callback_ c = true → answers_ c = [] ∧ closed_ c = false ∧ connecting c = 1;
  ci_connected : connected_ c = true → user_connect_callback_ c = false ∧ connecting c = 0 ∧ closed_ c = false;
  ci_answered : answers_ c = [] → user_connect_callback_ c = true ∨ told;
  ci_success : None ∈ answers_ c → connected_ c = true ∨ told
}.

(** Trying the endpoints: afterwards either a connection is under way, or the attempt is over and the callback called. *)
Definition attempted (c c' : conn) : Prop :=
  connected_ c' = connected_ c ∧
  queued (reads (socket_ c')) = queued (reads (socket_ c)) ∧ queued (writes (socket_ c')) = queued (writes (socket_ c)) ∧
  waiting (reads (socket_ c')) <= waiting (reads (socket_ c)) ∧ waiting (writes (socket_ c')) <= waiting (writes (socket_ c)) ∧
  resolver_ c' = resolver_ c ∧ queued (connects (socket_ c')) = [] ∧
  (user_connect_callback_ c' = user_connect_callback_ c ∧ answers_ c' = answers_ c ∧ closed_ c' = closed_ c ∧ connecting c' = 1 ∨
   user_connect_callback_ c' = false ∧ closed_ c' = true ∧ connecting c' = 0 ∧
     ∃ ec, answers_ c' = answers_ c ++ (if user_connect_callback_ c then [Some ec] else [])).

Section Inv.
Context `{AddressLib}.
Variables (host_ips_ host_sni_ : text) (port_ connect_timeout dl_limit_rate_ ul_limit_rate_ : Z).

Lemma try_endpoints_spec open es : ∀ c, es ≠ [] → connecting c = 0 →
  ∃ c', try_endpoints connect_timeout open es c = Some c' ∧ attempted c c'.
Proof.
  induction es as [|e rest IH]; intros c Hne H0; [done|]. cbn [try_endpoints].
  assert (∀ c1 ec, connecting c1 = 0 → connected_ c1 = connected_ c → reads (socket_ c1) = reads (socket_ c) ∨ reads (socket_ c1) = cancel (reads (socket_ c)) →
    writes (socket_ c1) = writes (socket_ c) ∨ writes (socket_ c1) = cancel (writes (socket_ c)) → resolver_ c1 = resolver_ c →
    user_connect_callback_ c1 = user_connect_callback_ c → answers_ c1 = answers_ c → closed_ c1 = closed_ c →
    ∃ c', match rest with [] => Some (on_async_connect_callback (set_closed c1) (Some ec)) | _ => try_endpoints connect_timeout open rest c1 end
      = Some c' ∧ attempted c c') as Next.
  { intros c1 ec Z1 E1 Er Ew E2 E3 E4 E5.
    assert (queued (reads (socket_ c1)) = queued (reads (socket_ c)) ∧ waiting (reads (socket_ c1)) <= waiting (reads (socket_ c))) as [R1 R2]
      by (destruct Er as [-> | ->]; cbn; split; done || lia).
    assert (queued (writes (socket_ c1)) = queued (writes (socket_ c)) ∧ waiting (writes (socket_ c1)) <= waiting (writes (socket_ c))) as [W1 W2]
      by (destruct Ew as [-> | ->]; cbn; split; done || lia).
    destruct rest as [|e' rest'].
    - assert (queued (connects (socket_ c1)) = []) as Q by (apply length_zero_iff_nil; unfold connecting, out in Z1; lia).
      eexists. split; [reflexivity|]. unfold attempted, on_async_connect_callback. cbn [set_closed set_flags user_connect_callback_]. rewrite E3.
      destruct (user_connect_callback_ c) eqn:Ecb; cbn; rewrite E4; (split_and!; [done..|right; split_and!; [done || congruence|done|exact Z1|]]).
      + by exists ec.
      + exists ec. by rewrite app_nil_r.
    - destruct (IH c1 ltac:(done) Z1) as (c' & Ec' & F1 & F2 & F3 & F4 & F5 & F6 & F7 & F8). exists c'. split; [exact Ec'|]. unfold attempted.
      rewrite E1, R1, W1, E2, E3, E4, E5 in *. split_and!; try done; lia. }
  destruct (avoided e).
  { apply Next; auto. }
  assert (queued (connects (socket_ c)) = [] ∧ waiting (connects (socket_ c)) = 0 ∧ out (resolver_ c) = 0) as (Q & W & R).
  { split_and!; [apply length_zero_iff_nil|..]; unfold connecting, out in *; lia. }
  destruct (open (length rest)) as [ec|].
  - apply Next; cbn; destruct (is_open (socket_ c)); cbn; auto. unfold connecting, out in *. cbn. lia.
  - eexists. split; [reflexivity|]. unfold attempted. cbn. destruct (is_open (socket_ c)); cbn; (split_and!; [done..|lia|lia|done|done|left; split_and!; try done]);
      unfold connecting, out in *; cbn; rewrite Q, ?W; cbn; lia.
Qed.

(** The state in which the next endpoint is tried. *)
Record conn_pre (told : Prop) (c : conn) : Prop := {
  cp_none : connecting c = 0;
  cp_open : closed_ c = false;
  cp_connected : connected_ c = false;
  cp_once : length (answers_ c) <= 1;
  cp_callback : user_connect_callback_ c = true → answers_ c = [];
  cp_answered : answers_ c = [] → user_connect_callback_ c = true ∨ told;
  cp_success : None ∈ answers_ c → told
}.

(** What a step of connecting does to the waits for the socket. *)
Definition waits_kept (c c' : conn) : Prop :=
  queued (reads (socket_ c')) = queued (reads (socket_ c)) ∧ queued (writes (socket_ c')) = queued (writes (socket_ c)) ∧
  waiting (reads (socket_ c')) <= waiting (reads (socket_ c)) ∧ waiting (writes (socket_ c')) <= waiting (writes (socket_ c)).

Lemma waits_kept_eq c c' : reads (socket_ c') = reads (socket_ c) → writes (socket_ c') = writes (socket_ c) → waits_kept c c'.
Proof. unfold waits_kept. by intros -> ->. Qed.

Lemma no_results c : connecting c = 0 → queued (resolver_ c) = [] ∧ queued (connects (socket_ c)) = [].
Proof. unfold connecting, out. split; apply length_zero_iff_nil; lia. Qed.

Lemma attempted_inv told c c' : conn_pre told c → attempted c c' → conn_inv told c' ∧ waits_kept c c' ∧ connected_ c' = false.
Proof.
  intros [P1 P2 P3 P4 P5 P6 P7] (A1 & A2 & A3 & A4 & A5 & A6 & A7 & A8). destruct (no_results c P1) as [Q _].
  split; [|split; [done|congruence]]. split; rewrite ?A1, ?A6, ?A7, ?Q, ?P3; try done.
  - destruct A8 as [(_ & _ & _ & ->)|(_ & _ & -> & _)]; lia.
  - destruct A8 as [(_ & -> & _)|(_ & _ & _ & ec & ->)]; [done|]. rewrite length_app.
    destruct (user_connect_callback_ c); cbn; [rewrite P5 by done; cbn; lia|lia].
  - destruct A8 as [(-> & -> & -> & ->)|(-> & _)]; [auto|done].
  - destruct A8 as [(-> & -> & _)|(_ & _ & _ & ec & ->)]; [done|]. intros [E1 E2]%app_nil.
    destruct (P6 E1) as [Hc|Ht]; [|by right]. by rewrite Hc in E2.
  - intros Hin. right. destruct A8 as [(_ & E & _)|(_ & _ & _ & ec & E)]; rewrite E in Hin; [by apply P7|].
    apply elem_of_app in Hin as [Hin|Hin]; [by apply P7|]. destruct (user_connect_callback_ c); [|by inversion Hin].
    apply list_elem_of_singleton in Hin. done.
Qed.

(** The callback is called at the end of a handler. *)
Lemma answered_inv told c ec :
  conn_pre told c → ∀ b d, (ec = None → b = true) → (b = true → d = false) →
  conn_inv told (on_async_connect_callback (set_flags c b (eof_ c) d (user_connect_callback_ c)) ec).
Proof.
  intros [P1 P2 P3 P4 P5 P6 P7] b d Hb Hd. destruct (no_results c P1) as [Q1 Q2]. unfold on_async_connect_callback. cbn [set_flags user_connect_callback_].
  destruct (user_connect_callback_ c) eqn:Ecb.
  - specialize (P5 eq_refl). split; cbn; rewrite ?P5, ?Q1, ?Q2; unfold connecting in *; cbn in *; try done; try lia.
    + intros ->. split_and!; auto; lia.
    + intros E%list_elem_of_singleton. left. by apply Hb.
  - split; cbn; rewrite ?Q1, ?Q2, ?Ecb; unfold connecting in *; cbn in *; try done; try lia.
    + intros ->. split_and!; auto; lia.
    + intros Hin. right. by apply P7.
Qed.

Lemma on_async_connected_inv told open c ec :
  conn_pre told c →
  ∃ c', on_async_connected connect_timeout open c ec = Some c' ∧ conn_inv told c' ∧ waits_kept c c' ∧
    (connected_ c' = true → ec = None).
Proof.
  intros P. unfold on_async_connected. set (c0 := set_timer c (cancel (connect_timer_ c))).
  assert (conn_pre told c0) as P0 by (destruct P; by split).
  destruct ec as [err|].
  - destruct (endpoints_ c0) as [|e es] eqn:Ee.
    + eexists. split; [reflexivity|]. split; [|split].
      * pose proof (answered_inv told c0 (Some err) P0 false false ltac:(done) ltac:(done)) as Hi.
        assert (set_flags c0 false (eof_ c0) false (user_connect_callback_ c0) = c0) as E.
        { destruct P0 as [_ O C _ _ _ _]. clear -O C. destruct c0. cbn in *. by subst. }
        by rewrite E in Hi.
      * apply waits_kept_eq; unfold on_async_connect_callback; by destruct (user_connect_callback_ c0).
      * destruct P0 as [_ _ C _ _ _ _]. unfold on_async_connect_callback. destruct (user_connect_callback_ c0); cbn in *; congruence.
    + destruct (try_endpoints_spec open (endpoints_ c0) c0 ltac:(by rewrite Ee) (cp_none _ _ P0)) as (c' & E & A).
      destruct (attempted_inv told c0 c' P0 A) as (I & W & C). exists c'. split; [exact E|]. split_and!; [done|exact W|congruence].
  - eexists. split; [reflexivity|]. split; [|split; [|done]].
    + rewrite (cp_open _ _ P0). by apply answered_inv.
    + apply waits_kept_eq; unfold on_async_connect_callback; by destruct (user_connect_callback_ _).
Qed.

(** The handlers, once their result is off the queue. *)
Lemma on_connect_inv told open c ec :
  (closed_ c = false → conn_pre told c) → (closed_ c = true → conn_inv told c) → ignored ec = false →
  ∃ c', on_connect connect_timeout open c ec = Some c' ∧ conn_inv told c' ∧ waits_kept c c' ∧
    (connected_ c' = true → closed_ c = false → ec = None).
Proof.
  intros P I Hg. unfold on_connect. rewrite Hg. destruct (closed_ c).
  - exists c. split_and!; [done|by apply I|by apply waits_kept_eq|done].
  - destruct (on_async_connected_inv told open c ec (P eq_refl)) as (c' & E & I' & W & C). exists c'. auto.
Qed.

Lemma on_resolved_inv told open c r :
  (closed_ c = false → conn_pre told c) → (closed_ c = true → conn_inv told c) → good_result r →
  ∃ c', on_resolved connect_timeout open c r = Some c' ∧ conn_inv told c' ∧ waits_kept c c' ∧
    (connected_ c' = true → closed_ c = false → False).
Proof.
  intros P I [G1 G2]. unfold on_resolved.
  assert (∃ c', (if closed_ c then Some c else match r with
        | inr ec => on_async_connected connect_timeout open c (Some ec)
        | inl results => on_try_next_endpoint connect_timeout open (set_endpoint c (endpoint_ c) (endpoints_ c ++ results)) end) = Some c' ∧
      conn_inv told c' ∧ waits_kept c c' ∧ (connected_ c' = true → closed_ c = false → False)) as Hm.
  { destruct (closed_ c) eqn:Ecl; [exists c; split_and!; [done|by apply I|by apply waits_kept_eq|done]|]. destruct r as [rs|err].
    - set (c0 := set_endpoint c (endpoint_ c) (endpoints_ c ++ rs)).
      assert (conn_pre told c0) as P0 by (destruct (P eq_refl); by split).
      destruct (try_endpoints_spec open (endpoints_ c0) c0) as (c' & E & A); [|exact (cp_none _ _ P0)|].
      { cbn. intros [_ ->]%app_nil. done. }
      destruct (attempted_inv told c0 c' P0 A) as (I' & W & C). exists c'. split_and!; [exact E|done|exact W|congruence].
    - destruct (on_async_connected_inv told open c (Some err) (P eq_refl)) as (c' & E & I' & W & C).
      exists c'. split_and!; [done..|]. intros Hc _. by apply C in Hc. }
  destruct r as [rs|[]]; try exact Hm. done.
Qed.

Lemma on_expired_inv told c :
  conn_inv told c → conn_inv told (on_async_connect_expired c None) ∧ waits_kept c (on_async_connect_expired c None) ∧
  connected_ (on_async_connect_expired c None) = connected_ c ∧ closed_ (on_async_connect_expired c None) = closed_ c.
Proof.
  intros I. unfold on_async_connect_expired. destruct (connected_ c) eqn:Ec; [split_and!; [done|by apply waits_kept_eq|done|done]|].
  unfold on_async_connect_callback. cbn [set_flags user_connect_callback_]. destruct I as [I1 I2 I3 I4 I5 I6 I7 I8].
  destruct (user_connect_callback_ c) eqn:Ecb; cbn; (split; [|split; [by apply waits_kept_eq|by rewrite ?Ec]]).
  - destruct (I5 eq_refl) as (E & Ecl & E1). rewrite E. split; cbn; try done; try lia.
    + intros Hin%list_elem_of_singleton. done.
  - split; cbn; rewrite ?Ecb, ?Ec in *; done.
Qed.

(** *** The waits *)

Definition read_out (s : stream) : nat := out (dl_delay_timer (io_ s)) + out (read_yield_timer_ (io_ s)) + out (reads_of s).
Definition write_out (s : stream) : nat := out (ul_delay_timer (io_ s)) + out (writes_of s).

(** A wait for reading has one operation that ends it; the callbacks are called in order. *)
Definition reading (s : stream) : Prop :=
  let i := io_ s in
  read_out s = (if read_inprogress_ i then 1 else 0) ∧ read_inprogress_ i = bool_decide (is_Some (wait_read_callback_ i)) ∧
  reads_asked_ i = map fst (reads_called_ i) ++ option_list (wait_read_callback_ i).

(** A wait for writing has such an operation; it gives way to a later wait, and of all waits the last is called or
    is pending. *)
Definition writing (s : stream) : Prop :=
  let i := io_ s in
  (is_Some (wait_write_callback_ i) → 1 <= write_out s) ∧ (write_inprogress_ i = true → 1 <= out (writes_of s)) ∧
  sublist (map fst (writes_called_ i) ++ option_list (wait_write_callback_ i)) (writes_asked_ i) ∧
  list.last (map fst (writes_called_ i) ++ option_list (wait_write_callback_ i)) = list.last (writes_asked_ i).

Record io_inv (t : Z) (s : stream) : Prop := {
  ii_rbytes : (0 <= rbytes_transferred_ (io_ s) <= INT64_MAX)%Z;
  ii_wbytes : (0 <= wbytes_transferred_ (io_ s) <= INT64_MAX)%Z;
  ii_reads : Forall (λ ec, ignored ec = false) (queued (reads_of s));
  ii_writes : Forall (λ ec, ignored ec = false) (queued (writes_of s));
  ii_limits : connected_ (conn_ s) = true → limits_ok t (io_ s);
  ii_idle : connected_ (conn_ s) = false → closed_ (conn_ s) = false → read_out s = 0 ∧ write_out s = 0;
  ii_reading : closed_ (conn_ s) = false → reading s;
  ii_writing : closed_ (conn_ s) = false → writing s
}.

Definition same_read (s s' : stream) : Prop :=
  reads_of s' = reads_of s ∧ dl_delay_timer (io_ s') = dl_delay_timer (io_ s) ∧ read_yield_timer_ (io_ s') = read_yield_timer_ (io_ s) ∧
  read_inprogress_ (io_ s') = read_inprogress_ (io_ s) ∧ wait_read_callback_ (io_ s') = wait_read_callback_ (io_ s) ∧
  reads_asked_ (io_ s') = reads_asked_ (io_ s) ∧ reads_called_ (io_ s') = reads_called_ (io_ s).
Definition same_write (s s' : stream) : Prop :=
  writes_of s' = writes_of s ∧ ul_delay_timer (io_ s') = ul_delay_timer (io_ s) ∧
  write_inprogress_ (io_ s') = write_inprogress_ (io_ s) ∧ wait_write_callback_ (io_ s') = wait_write_callback_ (io_ s) ∧
  writes_asked_ (io_ s') = writes_asked_ (io_ s) ∧ writes_called_ (io_ s') = writes_called_ (io_ s).
Definition same_bytes (s s' : stream) : Prop :=
  rbytes_transferred_ (io_ s') = rbytes_transferred_ (io_ s) ∧ wbytes_transferred_ (io_ s') = wbytes_transferred_ (io_ s).

Lemma reading_same s s' : same_read s s' → reading s → reading s'.
Proof. intros (E1 & E2 & E3 & E4 & E5 & E6 & E7). unfold reading, read_out. by rewrite E1, E2, E3, E4, E5, E6, E7. Qed.

Lemma writing_same s s' : same_write s s' → writing s → writing s'.
Proof. intros (E1 & E2 & E3 & E4 & E5 & E6). unfold writing, write_out. by rewrite E1, E2, E3, E4, E5, E6. Qed.

Lemma limits_later t t' i : limits_ok t i → (t <= t')%Z → limits_ok t' i.
Proof. unfold limits_ok. lia. Qed.

Hypothesis dl_range : (0 <= dl_limit_rate_ <= INT64_MAX)%Z.
Hypothesis ul_range : (0 <= ul_limit_rate_ <= INT64_MAX)%Z.

(** The delay is computed without overflow. *)
Lemma delay_total rate cursize startsize start t now :
  (0 <= rate <= INT64_MAX)%Z → (0 <= startsize <= cursize)%Z → (cursize <= INT64_MAX)%Z → (start <= t)%Z → (t <= now)%Z →
  ∃ w, (if (rate =? 0)%Z then Some 0%Z else pgrsLimitWaitTime cursize startsize rate start now) = Some w.
Proof. intros. destruct (Z.eqb_spec rate 0); [by eexists|]. rewrite pgrs_spec by lia. by eexists. Qed.

Lemma wait_read_total t now now' cb yield s :
  unusable (conn_ s) = false → limits_ok t (io_ s) → (t <= now <= now')%Z → read_out s = 0 →
  ∃ s' o, wait_read dl_limit_rate_ ul_limit_rate_ now now' cb yield s = Some s' ∧
    conn_ s' = set_socket (conn_ s) (set_reads (socket_ (conn_ s)) o) ∧ queued o = queued (reads_of s) ∧
    limits_ok now' (io_ s') ∧ same_bytes s s' ∧ same_write s s' ∧ read_out s' = 1 ∧
    read_inprogress_ (io_ s') = true ∧ wait_read_callback_ (io_ s') = cb ∧
    reads_asked_ (io_ s') = reads_asked_ (io_ s) ∧ reads_called_ (io_ s') = reads_called_ (io_ s).
Proof.
  intros Hu L Ht H0. unfold wait_read. rewrite Hu. pose proof L as (L1 & L2 & L3 & _).
  destruct (delay_total dl_limit_rate_ (rbytes_transferred_ (io_ s)) (dl_limit_size_ (io_ s)) (dl_limit_start_ (io_ s)) t now) as [w Ew]; [lia..|].
  cbn [set_read rbytes_transferred_ dl_limit_size_ dl_limit_start_]. rewrite Ew. cbn [mbind option_bind].
  set (i := set_read (io_ s) true cb).
  assert (limits_ok t i) as Li by exact L.
  pose proof (ratelimit_limits dl_limit_rate_ ul_limit_rate_ now' t i Li ltac:(lia)) as Lr.
  destruct (ratelimit_spec dl_limit_rate_ ul_limit_rate_ now' i) as (a & b & c & d & Er & _).
  assert (limits_ok now' i) as Li' by (eapply limits_later; [exact Li|lia]).
  assert (waiting (reads_of s) = 0 ∧ waiting (read_yield_timer_ (io_ s)) = 0) as [W1 W2] by (unfold read_out, out in H0; lia).
  assert (conn_ s = set_socket (conn_ s) (set_reads (socket_ (conn_ s)) (reads_of s))) as Ec by (destruct s as [[] ?]; cbn; by destruct socket_0).
  destruct (negb (w =? 0)%Z).
  { destruct (negb (ul_limit_state_ i) && _); rewrite ?Er in *; eexists _, (reads_of s); (split; [reflexivity|]); (split; [exact Ec|]);
      (split_and!; try assumption; try done; unfold read_out, reads_of, out in *; cbn in *; lia). }
  destruct yield; eexists _, _; (split; [reflexivity|]); (split; [first [exact Ec|reflexivity]|]); (split; [reflexivity|]);
    destruct (dl_limit_state_ i && _); rewrite ?Er in *; (split_and!; try assumption; try done; unfold read_out, reads_of, out in *; cbn in *; lia).
Qed.

Lemma wait_write_total t now now' cb s :
  unusable (conn_ s) = false → limits_ok t (io_ s) → (t <= now <= now')%Z →
  ∃ s' o, wait_write dl_limit_rate_ ul_limit_rate_ now now' cb s = Some s' ∧
    conn_ s' = set_socket (conn_ s) (set_writes (socket_ (conn_ s)) o) ∧ queued o = queued (writes_of s) ∧
    limits_ok now' (io_ s') ∧ same_bytes s s' ∧ same_read s s' ∧ 1 <= write_out s' ∧
    (write_inprogress_ (io_ s') = true → write_inprogress_ (io_ s) = true ∧ out o = out (writes_of s) ∨ 1 <= out o) ∧
    wait_write_callback_ (io_ s') = cb ∧
    writes_asked_ (io_ s') = writes_asked_ (io_ s) ∧ writes_called_ (io_ s') = writes_called_ (io_ s).
Proof.
  intros Hu L Ht. unfold wait_write. rewrite Hu. pose proof L as (_ & _ & _ & L1 & L2 & L3).
  destruct (delay_total ul_limit_rate_ (wbytes_transferred_ (io_ s)) (ul_limit_size_ (io_ s)) (ul_limit_start_ (io_ s)) t now) as [w Ew]; [lia..|].
  rewrite Ew. cbn [mbind option_bind].
  assert (conn_ s = set_socket (conn_ s) (set_writes (socket_ (conn_ s)) (writes_of s))) as Ec by (destruct s as [[] ?]; cbn; by destruct socket_0).
  assert (∀ i, limits_ok t i → limits_ok now' i ∧ limits_ok now' (ratelimit dl_limit_rate_ ul_limit_rate_ now' i)) as Lr.
  { intros i Li. split; [eapply limits_later; [exact Li|lia]|apply (ratelimit_limits _ _ _ t); [done|lia]]. }
  destruct (negb (w =? 0)%Z).
  - destruct (ratelimit_spec dl_limit_rate_ ul_limit_rate_ now' (io_ s)) as (a & b & c & d & Er & _). destruct (Lr _ L) as [La Lb].
    destruct (negb _ && negb _); rewrite ?Er in *; eexists _, (writes_of s); (split; [reflexivity|]); (split; [exact Ec|]); (split; [done|]);
      (split_and!; try assumption; try done; unfold write_out, writes_of, out; cbn; auto; lia).
  - set (i := set_write (io_ s) true cb). destruct (ratelimit_spec dl_limit_rate_ ul_limit_rate_ now' i) as (a & b & c & d & Er & _).
    destruct (Lr i L) as [La Lb]. eexists _, _; (split; [reflexivity|]). split; [reflexivity|]. split; [reflexivity|].
    destruct (ul_limit_state_ i && _); rewrite ?Er in *;
      (split_and!; try assumption; try done; unfold write_out, writes_of, out; cbn; lia).
Qed.

(** *** The steps *)

Lemma conn_inv_reads told c o : conn_inv told c → conn_inv told (set_socket c (set_reads (socket_ c) o)).
Proof. intros []. by split. Qed.
Lemma conn_inv_writes told c o : conn_inv told c → conn_inv told (set_socket c (set_writes (socket_ c) o)).
Proof. intros []. by split. Qed.

Lemma io_frame t t' s c' :
  io_inv t s → (t <= t')%Z → connected_ c' = connected_ (conn_ s) → closed_ c' = closed_ (conn_ s) →
  reads (socket_ c') = reads_of s → writes (socket_ c') = writes_of s → io_inv t' (mkStream c' (io_ s)).
Proof.
  intros [] Ht E1 E2 E3 E4. split; cbn; unfold reads_of, writes_of in *; cbn; rewrite ?E1, ?E2, ?E3, ?E4; try done.
  - intros Hc. eapply limits_later; [by apply ii_limits0|done].
  - intros H1 H2. destruct (ii_idle0 H1 H2) as [R W]. unfold read_out, write_out, reads_of, writes_of in *. cbn. by rewrite E3, E4.
  - intros Hc. apply (reading_same s); [|by apply ii_reading0]. by unfold same_read, reads_of; cbn; rewrite E3.
  - intros Hc. apply (writing_same s); [|by apply ii_writing0]. by unfold same_write, writes_of; cbn; rewrite E4.
Qed.

Lemma io_later t t' s : io_inv t s → (t <= t')%Z → io_inv t' s.
Proof. intros I Ht. destruct s as [c i]. by apply (io_frame t t' (mkStream c i) c). Qed.

(** A step of connecting, on an open stream. *)
Lemma io_connect t now s c' i' :
  io_inv t s → (t <= now)%Z → connected_ (conn_ s) = false → closed_ (conn_ s) = false → waits_kept (conn_ s) c' →
  (connected_ c' = true → i' = start_limits dl_limit_rate_ ul_limit_rate_ now (io_ s)) →
  i' = io_ s ∨ i' = start_limits dl_limit_rate_ ul_limit_rate_ now (io_ s) → io_inv now (mkStream c' i').
Proof.
  intros [I1 I2 I3 I4 I5 I6 I7 I8] Ht Hc Hcl (K1 & K2 & K3 & K4) Hl Hi.
  destruct (I6 Hc Hcl) as [R0 W0]. specialize (I7 Hcl). specialize (I8 Hcl).
  destruct (ratelimit_spec dl_limit_rate_ ul_limit_rate_ now (set_states (set_ul (set_dl (io_ s) now 0) now 0) false false)) as (a & b & c & d & Er & Ea & Eb).
  assert (∃ i, i' = i ∧ (i = io_ s ∨ i = set_ul (set_dl (set_states (set_ul (set_dl (io_ s) now 0) now 0) false false) a b) c d)) as (i & -> & Hi')
    by (destruct Hi as [-> | ->]; eexists; split; [reflexivity|by left|reflexivity|right; exact Er]).
  assert (reads (socket_ c') = reads_of s ∧ writes (socket_ c') = writes_of s) as [E3 E4].
  { unfold read_out, write_out, reads_of, writes_of, out in *. destruct (reads (socket_ c')), (reads (socket_ (conn_ s))), (writes (socket_ c')), (writes (socket_ (conn_ s))).
    cbn in *. subst. split; f_equal; lia. }
  split; cbn; unfold reads_of, writes_of in *; cbn; rewrite ?E3, ?E4; try done.
  - by destruct Hi' as [-> | ->].
  - by destruct Hi' as [-> | ->].
  - intros Hn. rewrite (Hl Hn). unfold start_limits. rewrite Er. unfold limits_ok. cbn in *.
    destruct Ea as [[-> ->]|[-> ->]], Eb as [[-> ->]|[-> ->]]; cbn; lia.
  - intros _ _. unfold read_out, write_out, reads_of, writes_of in *. cbn. rewrite E3, E4. by destruct Hi' as [-> | ->].
  - intros _. apply (reading_same s); [|done]. unfold same_read, reads_of. cbn. rewrite E3. by destruct Hi' as [-> | ->].
  - intros _. apply (writing_same s); [|done]. unfold same_write, writes_of. cbn. rewrite E4. by destruct Hi' as [-> | ->].
Qed.

Definition inv (told : Prop) (t : Z) (s : stream) : Prop := conn_inv told (conn_ s) ∧ io_inv t s.

Local Abbreviation step := (step connect_timeout dl_limit_rate_ ul_limit_rate_).

Lemma dequeued_pre told c o1 o2 :
  conn_inv told c → out o1 + out o2 < connecting c → closed_ c = false →
  conn_pre told (set_socket (set_resolver c o1) (set_connects (socket_ c) o2)).
Proof.
  intros [I1 I2 I3 I4 I5 I6 I7 I8] Hlt Hcl.
  assert (connected_ c = false) as Hc by (destruct (connected_ c); [destruct (I6 eq_refl) as (_ & ? & _); lia|done]).
  split; cbn; try done.
  - unfold connecting; cbn. lia.
  - intros Hb. by destruct (I5 Hb).
  - intros Hin. destruct (I8 Hin); [congruence|done].
Qed.

Lemma step_resolve told t now now' s open :
  inv told t s → (t <= now <= now')%Z → allowed s (RunResolve open) →
  ∃ s', step now now' s (RunResolve open) = Some s' ∧ inv told now' s'.
Proof.
  intros [C I] Ht A. cbn [Stream.step allowed] in *. destruct (queued (resolver_ (conn_ s))) as [|r q] eqn:Eq; [done|].
  cbn [head mbind option_bind].
  set (c := set_resolver (conn_ s) (dequeue (resolver_ (conn_ s)))).
  pose proof (ci_resolver _ _ C) as G. rewrite Eq in G. inversion G as [|? ? G1 G2]; subst.
  destruct (on_resolved_inv told open c r) as (c' & E & C' & W & N); [..|exact G1|].
  - intros Hcl. assert (c = set_socket (set_resolver (conn_ s) (dequeue (resolver_ (conn_ s)))) (set_connects (socket_ (conn_ s)) (connects (socket_ (conn_ s))))) as ->.
    { unfold c. destruct (conn_ s) as [? ? ? ? ? ? k ? ? ? ?]. cbn. by destruct k. }
    apply dequeued_pre; [done| |done]. unfold connecting, out. cbn. rewrite Eq. cbn. lia.
  - intros Hcl. destruct C. split; cbn in *; try done; rewrite ?Eq in *; unfold connecting, out in *; cbn; rewrite ?Eq in *; cbn in *; try lia; try done.
    + intros Hu. destruct (ci_callback0 Hu) as (_ & ? & _). congruence.
    + intros Hn. destruct (ci_connected0 Hn) as (_ & _ & ?). congruence.
  - rewrite E. cbn [mbind option_bind]. eexists. split; [reflexivity|]. split; [exact C'|].
    destruct (closed_ (conn_ s)) eqn:Hcl.
    + unfold on_resolved in E. change (closed_ c) with (closed_ (conn_ s)) in E. rewrite Hcl in E.
      assert (c' = c) as -> by (destruct r as [?|[]]; congruence). by apply (io_frame t); [|lia|..].
    + destruct (connected_ (conn_ s)) eqn:Hn.
      { destruct (ci_connected _ _ C Hn) as (_ & H0 & _). unfold connecting, out in H0. rewrite Eq in H0. cbn in H0. lia. }
      assert (io_inv now (mkStream c' (io_ s))) as Hio.
      { apply (io_connect t now s); [done|lia|done|done|exact W| |by left]. intros Hc. by destruct (N Hc). }
      eapply io_later; [exact Hio|lia].
Qed.

Lemma step_connect told t now now' s open :
  inv told t s → (t <= now <= now')%Z → allowed s (RunConnect open) →
  ∃ s', step now now' s (RunConnect open) = Some s' ∧ inv told now' s'.
Proof.
  intros [C I] Ht A. cbn [Stream.step allowed] in *. set (k := socket_ (conn_ s)) in *.
  destruct (queued (connects k)) as [|ec q] eqn:Eq; [done|]. cbn [head mbind option_bind].
  set (c := set_socket (conn_ s) (set_connects k (dequeue (connects k)))).
  pose proof (ci_connects _ _ C) as G. fold k in G. rewrite Eq in G. inversion G as [|? ? G1 G2]; subst.
  destruct (on_connect_inv told open c ec) as (c' & E & C' & W & N); [..|exact G1|].
  - intros Hcl. assert (c = set_socket (set_resolver (conn_ s) (resolver_ (conn_ s))) (set_connects (socket_ (conn_ s)) (dequeue (connects k)))) as ->
      by by unfold c; destruct (conn_ s).
    apply dequeued_pre; [done| |done]. unfold connecting, out. cbn. fold k. rewrite Eq. cbn. lia.
  - intros Hcl. destruct C. subst k c. split; cbn in *; try done; rewrite ?Eq in *; unfold connecting, out in *; cbn; rewrite ?Eq in *; cbn in *; try lia; try done.
    + intros Hu. destruct (ci_callback0 Hu) as (_ & ? & _). congruence.
    + intros Hn. destruct (ci_connected0 Hn) as (_ & _ & ?). congruence.
  - rewrite E. cbn [mbind option_bind]. eexists. split; [reflexivity|]. split; [exact C'|].
    destruct (closed_ (conn_ s)) eqn:Hcl.
    + unfold on_connect in E. rewrite G1 in E. change (closed_ c) with (closed_ (conn_ s)) in E. rewrite Hcl in E.
      injection E as <-. rewrite andb_false_r. by apply (io_frame t); [|lia|..].
    + destruct (connected_ (conn_ s)) eqn:Hn.
      { destruct (ci_connected _ _ C Hn) as (_ & H0 & _). unfold connecting, out in H0. fold k in H0. rewrite Eq in H0. cbn in H0. lia. }
      rewrite andb_true_r.
      assert (io_inv now (mkStream c' (if bool_decide (ec = None) then start_limits dl_limit_rate_ ul_limit_rate_ now (io_ s) else io_ s))) as Hio.
      { apply (io_connect t now s); [done|lia|done|done|exact W| |].
        - intros Hc. specialize (N Hc Hcl). by rewrite bool_decide_true.
        - case_bool_decide; auto. }
      eapply io_later; [exact Hio|lia].
Qed.

Lemma unusable_false c : unusable c = false → connected_ c = true ∧ closed_ c = false.
Proof. unfold unusable. destruct (connected_ c), (closed_ c); done. Qed.

Lemma wait_read_inv told t now now' id yield s s0 :
  inv told t s → unusable (conn_ s) = false → (t <= now <= now')%Z →
  conn_ s0 = conn_ s → same_bytes s s0 → same_write s s0 → limits_ok t (io_ s0) → read_out s0 = 0 →
  reads_asked_ (io_ s0) = map fst (reads_called_ (io_ s0)) ++ [id] →
  ∃ s', wait_read dl_limit_rate_ ul_limit_rate_ now now' (Some id) yield s0 = Some s' ∧ inv told now' s'.
Proof.
  intros [C [I1 I2 I3 I4 I5 I6 I7 I8]] Hu Ht Ec [B1 B2] Sw L H0 Ha. destruct (unusable_false _ Hu) as [Hc Hcl].
  destruct (wait_read_total t now now' (Some id) yield s0) as (s' & o & E & E1 & E2 & L' & [B1' B2'] & Sw' & Ro & Ri & Rc & Ra & Rd); [by rewrite Ec|done..|].
  exists s'. split; [exact E|]. rewrite Ec in E1. split; [rewrite E1; by apply conn_inv_reads|].
  assert (reads_of s' = o ∧ writes_of s' = writes_of s) as [Er Ew] by (unfold reads_of, writes_of; by rewrite E1).
  split; rewrite ?Er, ?Ew, ?E1, ?B1', ?B2', ?B1, ?B2; cbn; try done.
  - rewrite E2. unfold reads_of in *. by rewrite Ec.
  - rewrite Hc. done.
  - intros _. split; [by rewrite Ro, Ri|]. split; [by rewrite Ri, Rc|]. by rewrite Ra, Rd, Rc, Ha.
  - intros _. apply (writing_same s0); [done|]. apply (writing_same s); [done|]. by apply I8.
Qed.

Lemma wait_write_inv told t now now' cb s s0 :
  inv told t s → unusable (conn_ s) = false → (t <= now <= now')%Z →
  conn_ s0 = conn_ s → same_bytes s s0 → same_read s s0 → limits_ok t (io_ s0) →
  (write_inprogress_ (io_ s0) = true → 1 <= out (writes_of s0)) →
  sublist (map fst (writes_called_ (io_ s0)) ++ option_list cb) (writes_asked_ (io_ s0)) →
  list.last (map fst (writes_called_ (io_ s0)) ++ option_list cb) = list.last (writes_asked_ (io_ s0)) →
  ∃ s', wait_write dl_limit_rate_ ul_limit_rate_ now now' cb s0 = Some s' ∧ inv told now' s'.
Proof.
  intros [C [I1 I2 I3 I4 I5 I6 I7 I8]] Hu Ht Ec [B1 B2] Sr L Hi Hs Hl. destruct (unusable_false _ Hu) as [Hc Hcl].
  destruct (wait_write_total t now now' cb s0) as (s' & o & E & E1 & E2 & L' & [B1' B2'] & Sr' & Wo & Wi & Wc & Wa & Wd); [by rewrite Ec|done..|].
  exists s'. split; [exact E|]. rewrite Ec in E1. split; [rewrite E1; by apply conn_inv_writes|].
  assert (reads_of s' = reads_of s ∧ writes_of s' = o) as [Er Ew] by (unfold reads_of, writes_of; by rewrite E1).
  split; rewrite ?Er, ?Ew, ?E1, ?B1', ?B2', ?B1, ?B2; cbn; try done.
  - rewrite E2. unfold writes_of in *. by rewrite Ec.
  - rewrite Hc. done.
  - intros _. apply (reading_same s0); [done|]. apply (reading_same s); [done|]. by apply I7.
  - intros _. split; [done|]. rewrite Ew, Wc, Wa, Wd. split; [|done]. intros [[Hp ->]|?]%Wi; [by apply Hi|done].
Qed.

Lemma ask_nil i : ask i [] [] = i.
Proof. destruct i. cbn. unfold ask. cbn. by rewrite !app_nil_r. Qed.

Lemma step_wait_read told t now now' s id yield :
  inv told t s → (t <= now <= now')%Z → allowed s (WaitRead id yield) →
  ∃ s', step now now' s (WaitRead id yield) = Some s' ∧ inv told now' s'.
Proof.
  intros Hi Ht A. cbn [Stream.step allowed] in *. destruct (unusable (conn_ s)) eqn:Hu.
  { unfold wait_read. cbn [with_io conn_ io_]. rewrite Hu, ask_nil. eexists. split; [reflexivity|]. destruct Hi as [C I].
    split; [done|]. destruct s. eapply io_later; [exact I|lia]. }
  destruct (unusable_false _ Hu) as [Hc Hcl]. pose proof Hi as [_ I]. destruct (ii_reading _ _ I Hcl) as (R1 & R2 & R3).
  apply (wait_read_inv told t _ _ _ _ s); try done.
  - unfold same_write. cbn. by rewrite app_nil_r.
  - exact (ii_limits _ _ I Hc).
  - unfold read_out in *. cbn. rewrite A in R1. exact R1.
  - cbn. rewrite A in R2. symmetry in R2. apply bool_decide_eq_false in R2. rewrite R3.
    destruct (wait_read_callback_ (io_ s)); [by destruct R2|]. cbn. by rewrite app_nil_r.
Qed.

Lemma step_wait_write told t now now' s id :
  inv told t s → (t <= now <= now')%Z → allowed s (WaitWrite id) →
  ∃ s', step now now' s (WaitWrite id) = Some s' ∧ inv told now' s'.
Proof.
  intros Hi Ht A. cbn [Stream.step allowed] in *. destruct (unusable (conn_ s)) eqn:Hu.
  { unfold wait_write. cbn [with_io conn_ io_]. rewrite Hu, ask_nil. eexists. split; [reflexivity|]. destruct Hi as [C I].
    split; [done|]. destruct s. eapply io_later; [exact I|lia]. }
  destruct (unusable_false _ Hu) as [Hc Hcl]. pose proof Hi as [_ I]. destruct (ii_writing _ _ I Hcl) as (W1 & W2 & W3 & W4).
  apply (wait_write_inv told t _ _ _ s); try done.
  - unfold same_read. cbn. by rewrite app_nil_r.
  - exact (ii_limits _ _ I Hc).
  - cbn. apply sublist_app; [|done]. etrans; [|exact W3]. by apply sublist_inserts_r.
  - trans (Some id); [|symmetry]; exact (last_snoc _ _).
Qed.

(** A timer that delayed a read, or yielded. *)
Lemma step_read_timer told t now now' s s0 callback :
  inv told t s → (t <= now <= now')%Z → closed_ (conn_ s) = true ∨ S (read_out s0) = read_out s →
  conn_ s0 = conn_ s → same_bytes s s0 → same_write s s0 → (limits_ok t (io_ s) → limits_ok t (io_ s0)) →
  reads_asked_ (io_ s0) = reads_asked_ (io_ s) → reads_called_ (io_ s0) = reads_called_ (io_ s) →
  wait_read_callback_ (io_ s) = callback →
  ∃ s', wait_read dl_limit_rate_ ul_limit_rate_ now now' callback false s0 = Some s' ∧ inv told now' s'.
Proof.
  intros Hi Ht Ho Ec B Sw L Ea Ed Ecb. pose proof Hi as [C I]. destruct (closed_ (conn_ s)) eqn:Hcl.
  - unfold wait_read. rewrite Ec. assert (unusable (conn_ s) = true) as -> by (unfold unusable; rewrite Hcl; apply orb_true_r).
    eexists. split; [reflexivity|]. split; [by rewrite Ec|]. destruct I as [I1 I2 I3 I4 I5 I6 I7 I8], B as [B1 B2].
    split; unfold reads_of, writes_of in *; rewrite ?Ec, ?B1, ?B2, ?Hcl; try done.
    intros Hc. apply limits_later with t; [by apply L, I5|lia].
  - destruct Ho as [?|Ho]; [done|]. destruct (ii_reading _ _ I Hcl) as (R1 & R2 & R3).
    destruct (connected_ (conn_ s)) eqn:Hc; [|destruct (ii_idle _ _ I Hc Hcl); lia].
    destruct (read_inprogress_ (io_ s)); [|lia]. symmetry in R2. apply bool_decide_eq_true in R2 as [id Hid].
    rewrite Hid in Ecb. subst callback. apply (wait_read_inv told t _ _ _ _ s); try done.
    + unfold unusable. by rewrite Hc, Hcl.
    + by apply L, ii_limits.
    + lia.
    + by rewrite Ea, Ed, R3, Hid.
Qed.

Lemma step_dl_timer told t now now' s :
  inv told t s → (t <= now <= now')%Z → allowed s RunDlTimer → ∃ s', step now now' s RunDlTimer = Some s' ∧ inv told now' s'.
Proof.
  intros Hi Ht A. cbn [Stream.step allowed] in *. pose proof (out_dequeue _ A) as Ho. destruct (queued _); [done|]. cbn [head mbind option_bind].
  unfold on_dl_delay. apply (step_read_timer told t _ _ s); try done. right. unfold read_out, reads_of, out in *. cbn in *. lia.
Qed.

Lemma step_yield_timer told t now now' s :
  inv told t s → (t <= now <= now')%Z → allowed s RunYieldTimer → ∃ s', step now now' s RunYieldTimer = Some s' ∧ inv told now' s'.
Proof.
  intros Hi Ht A. cbn [Stream.step allowed] in *. pose proof (out_dequeue _ A) as Ho. destruct (queued _); [done|]. cbn [head mbind option_bind].
  unfold on_read_yield. cbn [with_io conn_ io_].
  set (s0 := with_io _ _). set (cb := wait_read_callback_ _).
  destruct (step_read_timer told t now now' s s0 cb) as (s' & E & Hi'); try done.
  { right. unfold s0, read_out, reads_of, out in *. cbn in *. lia. }
  exists s'. split; [|done]. destruct (unusable (conn_ s)) eqn:Hu; [|exact E]. unfold wait_read in E. cbn [s0 with_io conn_] in E. by rewrite Hu in E.
Qed.

Lemma step_ul_timer told t now now' s :
  inv told t s → (t <= now <= now')%Z → allowed s RunUlTimer → ∃ s', step now now' s RunUlTimer = Some s' ∧ inv told now' s'.
Proof.
  intros Hi Ht A. cbn [Stream.step allowed] in *. pose proof (out_dequeue _ A) as Ho. destruct (queued _) eqn:Eq; [done|]. cbn [head mbind option_bind].
  unfold on_ul_delay. pose proof Hi as [C I]. destruct (unusable (conn_ s)) eqn:Hu.
  - unfold wait_write. cbn [with_io conn_]. rewrite Hu. eexists. split; [reflexivity|]. split; [exact C|].
    destruct I as [I1 I2 I3 I4 I5 I6 I7 I8]. split; cbn; try done.
    + intros Hc. apply limits_later with t; [by apply I5|lia].
    + intros H1 H2. destruct (I6 H1 H2) as [R W]. unfold write_out, out in *. cbn in *. lia.
    + intros Hcl. destruct (connected_ (conn_ s)) eqn:Hc; [by unfold unusable in Hu; rewrite Hc, Hcl in Hu|]. destruct (I6 eq_refl Hcl). unfold write_out, out in *. cbn in *. lia.
  - destruct (unusable_false _ Hu) as [Hc Hcl]. destruct (ii_writing _ _ I Hcl) as (W1 & W2 & W3 & W4).
    apply (wait_write_inv told t _ _ _ s); try done. exact (ii_limits _ _ I Hc).
Qed.

(** An operation of the waits that completes. *)
Lemma io_complete t t' s s' :
  io_inv t s → (t <= t')%Z → connected_ (conn_ s') = connected_ (conn_ s) → closed_ (conn_ s') = closed_ (conn_ s) →
  Forall (λ ec, ignored ec = false) (queued (reads_of s')) → Forall (λ ec, ignored ec = false) (queued (writes_of s')) →
  io_ s' = io_ s ∨ (∃ o d, io_ s' = set_dl_timer (io_ s) o d) ∨ (∃ o d, io_ s' = set_ul_timer (io_ s) o d) ∨ (∃ o, io_ s' = set_yield_timer (io_ s) o) →
  read_out s' = read_out s → write_out s' = write_out s → out (writes_of s') = out (writes_of s) → io_inv t' s'.
Proof.
  intros [I1 I2 I3 I4 I5 I6 I7 I8] Ht E1 E2 F1 F2 Ei Er Ew Eo.
  assert ((limits_ok t (io_ s) → limits_ok t (io_ s')) ∧ rbytes_transferred_ (io_ s') = rbytes_transferred_ (io_ s) ∧
    wbytes_transferred_ (io_ s') = wbytes_transferred_ (io_ s) ∧
    read_inprogress_ (io_ s') = read_inprogress_ (io_ s) ∧ wait_read_callback_ (io_ s') = wait_read_callback_ (io_ s) ∧
    reads_asked_ (io_ s') = reads_asked_ (io_ s) ∧ reads_called_ (io_ s') = reads_called_ (io_ s) ∧
    write_inprogress_ (io_ s') = write_inprogress_ (io_ s) ∧ wait_write_callback_ (io_ s') = wait_write_callback_ (io_ s) ∧
    writes_asked_ (io_ s') = writes_asked_ (io_ s) ∧ writes_called_ (io_ s') = writes_called_ (io_ s))
    as (G1 & G2 & G3 & G4 & G5 & G6 & G7 & G8 & G9 & G10 & G11).
  { by destruct Ei as [-> |[(? & ? & ->)|[(? & ? & ->)|(? & ->)]]]. }
  clear Ei. split; rewrite ?E1, ?E2, ?G2, ?G3, ?Er, ?Ew; try done.
  - intros Hc. apply limits_later with t; [|done]. by apply G1, I5.
  - intros Hcl. unfold reading. rewrite Er, G4, G5, G6, G7. by apply I7.
  - intros Hcl. unfold writing. rewrite Ew, Eo, G8, G9, G10, G11. by apply I8.
Qed.

Lemma Forall_snoc' {A} (P : A → Prop) l x : Forall P l → P x → Forall P (l ++ [x]).
Proof. intros. apply Forall_app. by rewrite Forall_singleton. Qed.

Lemma conn_complete told c o1 o2 o3 :
  conn_inv told c → Forall good_result (queued o1) → Forall (λ ec, ignored ec = false) (queued o2) →
  out o1 = out (resolver_ c) → out o2 = out (connects (socket_ c)) →
  conn_inv told (set_timer (set_socket (set_resolver c o1) (set_connects (socket_ c) o2)) o3).
Proof. intros [] F1 F2 E1 E2. unfold connecting in *. split; unfold connecting; cbn; rewrite ?E1, ?E2; done. Qed.

Lemma step_done told t now now' s e :
  inv told t s → (t <= now <= now')%Z → allowed s e →
  match e with ResolveDone _ | ConnectDone _ | ConnectTimerDone | DlTimerDone | UlTimerDone | YieldTimerDone | ReadDone _ | WriteDone _ => True | _ => False end →
  ∃ s', step now now' s e = Some s' ∧ inv told now' s'.
Proof.
  intros [C I] Ht A He. pose proof (ci_resolver _ _ C) as FR. pose proof (ci_connects _ _ C) as FC.
  pose proof (ii_reads _ _ I) as F1. pose proof (ii_writes _ _ I) as F2.
  destruct e; try done; cbn [Stream.step allowed] in *; eexists; (split; [reflexivity|]).
  1-3: split; [|by apply (io_frame t); [|lia|..]]; cbn [conn_].
  - destruct A as (A1 & A2).
    pose proof (conn_complete told _ (complete (resolver_ (conn_ s)) r) _ (connect_timer_ (conn_ s)) C (Forall_snoc' _ _ r FR A2) FC (out_complete _ r A1) eq_refl) as Hc.
    clear -Hc. destruct (conn_ s) as [? ? ? ? ? ? k ? ? ? ?]. by destruct k.
  - destruct A as (A1 & A2).
    pose proof (conn_complete told _ _ (complete (connects (socket_ (conn_ s))) ec) (connect_timer_ (conn_ s)) C FR (Forall_snoc' _ _ ec FC A2) eq_refl (out_complete _ ec A1)) as Hc.
    clear -Hc. destruct (conn_ s) as [? ? ? ? ? ? k ? ? ? ?]. by destruct k.
  - pose proof (conn_complete told _ _ _ (complete (connect_timer_ (conn_ s)) ()) C FR FC eq_refl eq_refl) as Hc.
    clear -Hc. destruct (conn_ s) as [? ? ? ? ? ? k ? ? ? ?]. by destruct k.
  - split; [exact C|]. pose proof (out_complete _ () A). apply (io_complete t _ s); try done; [lia|by eauto 9|unfold read_out, reads_of in *; cbn [with_io conn_ io_ set_dl_timer set_timers dl_delay_timer read_yield_timer_]; lia].
  - split; [exact C|]. pose proof (out_complete _ () A). apply (io_complete t _ s); try done; [lia|by eauto 9|unfold write_out, writes_of in *; cbn [with_io conn_ io_ set_ul_timer set_timers ul_delay_timer]; lia].
  - split; [exact C|]. pose proof (out_complete _ () A). apply (io_complete t _ s); try done; [lia|by eauto 9|unfold read_out, reads_of in *; cbn [with_io conn_ io_ set_yield_timer set_timers dl_delay_timer read_yield_timer_]; lia].
  - destruct A as (A1 & A2). split; [by apply conn_inv_reads|]. pose proof (out_complete _ ec A1) as Ho. apply (io_complete t _ s); try done; [lia|by apply Forall_snoc'|by left|].
    unfold read_out in *. change (reads_of (with_reads s (complete (reads_of s) ec))) with (complete (reads_of s) ec). cbn [with_reads io_]. lia.
  - destruct A as (A1 & A2). split; [by apply conn_inv_writes|]. pose proof (out_complete _ ec A1) as Ho. apply (io_complete t _ s); try done; [lia|by apply Forall_snoc'|by left|].
    unfold write_out in *. change (writes_of (with_writes s (complete (writes_of s) ec))) with (complete (writes_of s) ec). cbn [with_writes io_]. lia.
Qed.

Lemma step_expired told t now now' s :
  inv told t s → (t <= now <= now')%Z → allowed s RunConnectTimer →
  ∃ s', step now now' s RunConnectTimer = Some s' ∧ inv told now' s'.
Proof.
  intros [C I] Ht A. cbn [Stream.step allowed] in *. destruct (queued _) as [|? q]; [done|]. cbn [head mbind option_bind].
  set (c0 := set_timer _ _). assert (conn_inv told c0) as C0 by (destruct C; by split).
  destruct (on_expired_inv told c0 C0) as (C' & W & E1 & E2). eexists. split; [reflexivity|]. split; [exact C'|].
  apply (io_frame t); [done|lia|done|done|..]; cbn [conn_]; unfold on_async_connect_expired; destruct (connected_ c0); try done;
    unfold on_async_connect_callback; by destruct (user_connect_callback_ _).
Qed.

Lemma step_read told t now now' s :
  inv told t s → (t <= now <= now')%Z → allowed s RunRead → ∃ s', step now now' s RunRead = Some s' ∧ inv told now' s'.
Proof.
  intros [C [I1 I2 I3 I4 I5 I6 I7 I8]] Ht A. cbn [Stream.step allowed] in *. pose proof (out_dequeue _ A) as Ho.
  destruct (queued (reads_of s)) as [|ec q] eqn:Eq; [done|]. cbn [head mbind option_bind]. eexists. split; [reflexivity|].
  inversion I3 as [|? ? G1 G2]; subst. unfold on_wait_read. rewrite G1.
  set (s0 := with_io _ _). assert (conn_inv told (conn_ s0)) as C0 by (destruct C; by split).
  assert (read_out s = S (read_out s0)) as Ero by (unfold read_out, s0, out, reads_of in *; cbn in *; lia).
  assert (queued (reads_of s0) = q) as Eq0 by (cbn; unfold dequeue; cbn; by rewrite Eq).
  change (unusable (conn_ s0)) with (unusable (conn_ s)). destruct (unusable (conn_ s)) eqn:Hu.
  - split; [done|]. split; try done.
    + by rewrite Eq0.
    + intros Hc. apply limits_later with t; [by apply I5|lia].
    + intros Hc Hcl. destruct (I6 Hc Hcl). lia.
    + intros Hcl. cbn in Hcl. unfold unusable in Hu. rewrite Hcl in Hu. destruct (connected_ (conn_ s)) eqn:Hc; [done|].
      destruct (I6 eq_refl Hcl). lia.
  - destruct (unusable_false _ Hu) as [Hc Hcl]. destruct (I7 Hcl) as (R1 & R2 & R3). rewrite Ero in R1.
    destruct (read_inprogress_ (io_ s)) eqn:Er; [|lia]. symmetry in R2. apply bool_decide_eq_true in R2 as [id Hid].
    change (wait_read_callback_ (io_ (with_reads s (dequeue (reads_of s))))) with (wait_read_callback_ (io_ s)). rewrite Hid.
    split; [done|]. split; try done.
    + change (Forall (λ ec, ignored ec = false) (queued (reads_of s0))). by rewrite Eq0.
    + intros _. apply limits_later with t; [by apply I5|lia].
    + intros Hn. cbn in Hn. congruence.
    + intros _. split; [cbn; unfold read_out in *; cbn in *; lia|]. split; [done|]. cbn. rewrite R3, Hid, map_app. cbn. by rewrite app_nil_r.
Qed.

Lemma step_write told t now now' s :
  inv told t s → (t <= now <= now')%Z → allowed s RunWrite → ∃ s', step now now' s RunWrite = Some s' ∧ inv told now' s'.
Proof.
  intros [C [I1 I2 I3 I4 I5 I6 I7 I8]] Ht A. cbn [Stream.step allowed] in *. pose proof (out_dequeue _ A) as Ho.
  destruct (queued (writes_of s)) as [|ec q] eqn:Eq; [done|]. cbn [head mbind option_bind]. eexists. split; [reflexivity|].
  inversion I4 as [|? ? G1 G2]; subst. unfold on_wait_write. rewrite G1.
  set (s0 := with_io _ _). assert (conn_inv told (conn_ s0)) as C0 by (destruct C; by split).
  assert (write_out s = S (write_out s0)) as Ewo by (unfold write_out, s0, out, writes_of in *; cbn in *; lia).
  assert (queued (writes_of s0) = q) as Eq0 by (cbn; unfold dequeue; cbn; by rewrite Eq).
  change (unusable (conn_ s0)) with (unusable (conn_ s)). destruct (unusable (conn_ s)) eqn:Hu.
  - split; [done|]. split; try done.
    + by rewrite Eq0.
    + intros Hc. apply limits_later with t; [by apply I5|lia].
    + intros Hc Hcl. destruct (I6 Hc Hcl). lia.
    + intros Hcl. cbn in Hcl. unfold unusable in Hu. rewrite Hcl in Hu. destruct (connected_ (conn_ s)) eqn:Hc; [done|].
      destruct (I6 eq_refl Hcl). lia.
  - destruct (unusable_false _ Hu) as [Hc Hcl]. destruct (I8 Hcl) as (W1 & W2 & W3 & W4).
    change (wait_write_callback_ (io_ (with_writes s (dequeue (writes_of s))))) with (wait_write_callback_ (io_ s)).
    destruct (wait_write_callback_ (io_ s)) as [id|] eqn:Hid; (split; [done|]); (split; try done).
    1,5: change (Forall (λ ec, ignored ec = false) (queued (writes_of s0))); by rewrite Eq0.
    1,4: intros _; apply limits_later with t; [by apply I5|lia].
    1,3: intros Hn; cbn in Hn; congruence.
    + intros _. unfold writing. cbn. rewrite map_app, app_nil_r. split_and!; [by intros []|done|exact W3|exact W4].
    + intros _. unfold writing. cbn. rewrite app_nil_r in *. split_and!; [by intros []|done|exact W3|exact W4].
Qed.

Lemma wrap64_id z : (0 <= z <= INT64_MAX)%Z → wrap64 z = z.
Proof. destruct INT64_MAX_value as [E _]. intros. unfold wrap64. rewrite Z.mod_small; lia. Qed.

Lemma step_bytes told t now now' s e :
  inv told t s → (t <= now <= now')%Z → allowed s e → match e with ReadSome _ _ | WriteSome _ _ => True | _ => False end →
  ∃ s', step now now' s e = Some s' ∧ inv told now' s'.
Proof.
  intros [C [I1 I2 I3 I4 I5 I6 I7 I8]] Ht A He. destruct e; try done; cbn [Stream.step allowed] in *; eexists; (split; [reflexivity|]);
    (split; [exact C|]); (split; try done); cbn; rewrite ?wrap64_id by lia; try lia;
    intros Hc; specialize (I5 Hc); unfold limits_ok in *; cbn; rewrite ?wrap64_id by lia; lia.
Qed.

Lemma conn_inv_close (told : Prop) c : told → conn_inv told c → conn_inv told (close_conn c).
Proof.
  intros Ht I. unfold close_conn. destruct (closed_ c) eqn:Hcl; [done|]. destruct I as [I1 I2 I3 I4 I5 I6 I7 I8].
  split; cbn; auto; try done. unfold connecting, out in *. cbn. lia.
Qed.

Lemma step_close (told : Prop) t now now' s :
  told → inv told t s → (t <= now <= now')%Z → ∃ s', step now now' s Close = Some s' ∧ inv told now' s'.
Proof.
  intros Htold [C I] Ht. cbn [Stream.step]. eexists. split; [reflexivity|]. unfold close. destruct (closed_ (conn_ s)) eqn:Hcl.
  { split; [done|]. eapply io_later; [exact I|lia]. }
  split; [by apply conn_inv_close|]. destruct I as [I1 I2 I3 I4 I5 I6 I7 I8].
  split; unfold close_conn in *; cbn; unfold reads_of, writes_of in *; cbn; rewrite ?Hcl; cbn; done.
Qed.

Lemma conn_inv_told (told told' : Prop) c : (told → told') → conn_inv told c → conn_inv told' c.
Proof. intros Hi []. split; try done; intros Hx; [destruct (ci_answered0 Hx)|destruct (ci_success0 Hx)]; auto. Qed.

(** Every event that may happen is handled, and keeps the invariant. *)
Lemma step_inv told t now now' s e :
  inv told t s → (t <= now <= now')%Z → allowed s e → ∃ s', step now now' s e = Some s' ∧ inv (told ∨ e = Close) now' s'.
Proof.
  intros Hi Ht A. assert (inv (told ∨ e = Close) t s) as Hi' by (destruct Hi as [C I]; split; [by apply (conn_inv_told told); [left|]|done]).
  destruct e; first [by apply (step_close _ t); [right|..]|by apply (step_wait_read _ t)|by apply (step_wait_write _ t)|by apply (step_bytes _ t)
    |by apply (step_done _ t)|by apply (step_resolve _ t)|by apply (step_connect _ t)|by apply (step_expired _ t)|by apply (step_dl_timer _ t)
    |by apply (step_ul_timer _ t)|by apply (step_yield_timer _ t)|by apply (step_read _ t)|by apply (step_write _ t)].
Qed.

Lemma io_begin t c : waits_kept conn_init c → connected_ c = false → io_inv t (mkStream c io_init).
Proof.
  intros (K1 & K2 & K3 & K4) Hc. cbn in K1, K2, K3, K4.
  assert (out (reads (socket_ c)) = 0 ∧ out (writes (socket_ c)) = 0) as [R W] by (unfold out; rewrite K1, K2; cbn; lia).
  split; cbn; unfold reads_of, writes_of; cbn; rewrite ?K1, ?K2, ?Hc; try done; try (unfold INT64_MAX; lia).
  intros _. split; [by intros []|]. done.
Qed.

Lemma begin_inv t open init :
  ∃ s, begin host_ips_ host_sni_ port_ connect_timeout open init = Some s ∧ inv False t s.
Proof.
  unfold begin. set (c0 := set_flags conn_init false false false true).
  assert (∀ e es, conn_pre False (set_endpoint c0 e es)) as P by (intros; split; cbn; auto; by intros Hin%not_elem_of_nil).
  assert (∀ c, conn_inv False c → waits_kept conn_init c → connected_ c = false →
    ∃ s, (c ← Some c; Some (mkStream c io_init)) = Some s ∧ inv False t s) as Fin
    by (intros c C W N; eexists; split; [reflexivity|]; split; [exact C|by apply io_begin]).
  assert (∀ ec es, ∃ s, (c ← Some (on_async_connect_callback (set_closed (set_endpoint c0 endpoint_default es)) (Some ec)); Some (mkStream c io_init)) = Some s ∧ inv False t s) as Failed.
  { intros ec es. apply Fin; [|by apply waits_kept_eq|done]. exact (answered_inv False _ (Some ec) (P endpoint_default es) false true ltac:(done) ltac:(done)). }
  assert (∀ es, es ≠ [] → ∃ s, (c ← on_try_next_endpoint connect_timeout open (set_endpoint c0 endpoint_default es); Some (mkStream c io_init)) = Some s ∧ inv False t s) as Try.
  { intros es Hne. destruct (try_endpoints_spec open es (set_endpoint c0 endpoint_default es) Hne eq_refl) as (c' & E & A).
    destruct (attempted_inv False _ c' (P _ _) A) as (I & W & N). unfold on_try_next_endpoint. cbn [endpoints_ set_endpoint]. rewrite E. by apply Fin. }
  unfold async_connect. change (set_flags conn_init _ _ _ true) with c0.
  destruct (port_ =? 0)%Z; [exact (Failed _ [])|]. destruct (decide (host_ips_ ≠ [])).
  - cbn [set_endpoint endpoints_ c0 set_flags conn_init app endpoint_]. destruct (endpoints_of _ _) as [|e es] eqn:Ee; [exact (Failed _ [])|].
    exact (Try (e :: es) ltac:(done)).
  - destruct (make_address host_sni_) as [addr|]; [exact (Try [mkEndpoint addr port_] ltac:(done))|].
    destruct init as [ec|]; [exact (Failed _ [])|]. apply Fin; [|by apply waits_kept_eq|done].
    split; cbn; auto; try done. by intros Hin%not_elem_of_nil.
Qed.

Local Abbreviation runs := (runs connect_timeout dl_limit_rate_ ul_limit_rate_).

Lemma runs_inv t s es t' s' : inv False t s → runs t s es t' s' → inv (Close ∈ es) t' s'.
Proof.
  intros Hi. induction 1 as [t s|t s es t1 s1 now now' e s' R IH Ht A E].
  - destruct Hi as [C I]. split; [|done]. by apply (conn_inv_told False).
  - destruct (step_inv _ _ now now' _ _ (IH Hi) Ht A) as (s2 & E2 & [C I]). assert (s2 = s') as -> by congruence.
    split; [|done]. eapply conn_inv_told; [|exact C]. intros [Hin| ->]; apply elem_of_app; [by left|right; by apply list_elem_of_singleton].
Qed.

(** C15: the callback of [async_connect] is called once.  Whatever the host, however its addresses answer, whenever the timer runs out
    and the channel waits, reads, writes or closes: the arithmetic of the limit of the rate does not overflow and no [CHECK] fails, so that
    in a release build every event is handled; the callback is
    called at most once; unless the stream is closed before, it has been called when neither a resolution nor a connection is
    under way; and the stream is connected when it was called with success.  A debug build aborts at a wait for writing that the
    limit delays, where [wait_write] asserts the opposite of what it has just assigned. *)
Theorem connect_answered_once open init t es t' s' :
  ∃ s, begin host_ips_ host_sni_ port_ connect_timeout open init = Some s ∧
    (runs t s es t' s' →
      (∀ now now' e, (t' <= now <= now')%Z → allowed s' e → is_Some (step now now' s' e)) ∧
      length (answers_ (conn_ s')) <= 1 ∧
      (connecting (conn_ s') = 0 → Close ∉ es → ∃ ec, answers_ (conn_ s') = [ec] ∧ (ec = None → connected_ (conn_ s') = true)) ∧
      (closed_ (conn_ s') = true → user_connect_callback_ (conn_ s') = false)).
Proof.
  destruct (begin_inv t open init) as (s & E & Hi). exists s. split; [exact E|]. intros R.
  pose proof (runs_inv _ _ _ _ _ Hi R) as Hi'. pose proof Hi' as [[C1 C2 C3 C4 C5 C6 C7 C8] _]. split_and!.
  - intros now now' e Ht A. destruct (step_inv _ _ now now' _ _ Hi' Ht A) as (s2 & E2 & _). by eexists.
  - done.
  - intros H0 Hn. destruct (answers_ (conn_ s')) as [|ec [|? ?]]; [| |cbn in C4; lia].
    + destruct (C7 eq_refl) as [Hc|?]; [|done]. destruct (C5 Hc) as (_ & _ & ?). lia.
    + exists ec. split; [done|]. intros ->. destruct C8 as [?|?]; [by apply list_elem_of_singleton|done|done].
  - intros Hcl. destruct (user_connect_callback_ (conn_ s')); [|done]. destruct (C5 eq_refl) as (_ & ? & _). congruence.
Qed.

(** C17: no wait is lost, in a release build.  On a stream that is not closed, whatever limits of the rate delay the waits and whatever happens: the
    callbacks given to [wait_read] are called in order, each once, and the last is called or has exactly one operation that
    will end its wait; of those given to [wait_write] none is called twice, the last has been called or has an operation that
    will end its wait, and the stream does not claim to write when no wait for it is under way. *)
Theorem waits_not_lost open init t es t' s' :
  ∃ s, begin host_ips_ host_sni_ port_ connect_timeout open init = Some s ∧
    (runs t s es t' s' → closed_ (conn_ s') = false →
      let i := io_ s' in
      reads_asked_ i = map fst (reads_called_ i) ++ option_list (wait_read_callback_ i) ∧
      read_out s' = match wait_read_callback_ i with Some _ => 1 | None => 0 end ∧
      sublist (map fst (writes_called_ i) ++ option_list (wait_write_callback_ i)) (writes_asked_ i) ∧
      list.last (writes_asked_ i) = list.last (map fst (writes_called_ i) ++ option_list (wait_write_callback_ i)) ∧
      (is_Some (wait_write_callback_ i) → 1 <= write_out s') ∧ (write_inprogress_ i = true → 1 <= out (writes_of s'))).
Proof.
  destruct (begin_inv t open init) as (s & E & Hi). exists s. split; [exact E|]. intros R Hcl i.
  pose proof (runs_inv _ _ _ _ _ Hi R) as [_ I]. destruct (ii_reading _ _ I Hcl) as (R1 & R2 & R3).
  destruct (ii_writing _ _ I Hcl) as (W1 & W2 & W3 & W4). fold i in R1, R2, R3, W1, W2, W3, W4. split_and!; try done.
  rewrite R2 in R1. rewrite R1. by destruct (wait_read_callback_ i).
Qed.

End Inv.

(** ** The order of the attempts *)

Section Order.
Context `{AddressLib}.
Variables (host_ips_ host_sni_ : text) (port_ connect_timeout dl_limit_rate_ ul_limit_rate_ : Z).
(** What opening a socket and connecting to an endpoint answer. *)
Variables (open : nat → error_code) (reach : endpoint → error_code).

(** How it should come out: the answer, and the endpoints that a connection is started to. *)
Fixpoint outcome (es : list endpoint) : error_code * list endpoint :=
  match es with
  | [] => (None, [])
  | e :: rest =>
      let '(r, started) :=
        if avoided e then (Some network_unreachable, [])
        else match open (length rest) with Some ec => (Some ec, []) | None => (reach e, [e]) end in
      match r, rest with
      | None, _ | _, [] => (r, started)
      | _, _ => let '(r', later) := outcome rest in (r', started ++ later)
      end
  end.

Local Abbreviation runs := (runs connect_timeout dl_limit_rate_ ul_limit_rate_).
Local Abbreviation step := (step connect_timeout dl_limit_rate_ ul_limit_rate_).

(** The events of the attempts. *)
Definition attempt (e : endpoint) : list event := [ConnectDone (reach e); RunConnect open].

Lemma runs_app t s es t1 s1 es' t2 s2 : runs t s es t1 s1 → runs t1 s1 es' t2 s2 → runs t s (es ++ es') t2 s2.
Proof.
  intros R1 R2. induction R2 as [|? ? es' ? s2 ? ? e s3 R2 IH Ht A E]; [by rewrite app_nil_r|]. rewrite app_assoc. econstructor; eauto.
Qed.

Lemma runs_cons t s e s1 es s2 : allowed s e → step t t s e = Some s1 → runs t s1 es t s2 → runs t s (e :: es) t s2.
Proof. intros A E R. apply (runs_app t s [e] t s1); [|done]. apply (runs_snoc _ _ _ t s [] t s t t e s1); [constructor|lia|done|done]. Qed.

(** Nothing is under way, and the callback is to be called. *)
Definition ready (c : conn) : Prop :=
  connecting c = 0 ∧ closed_ c = false ∧ user_connect_callback_ c = true ∧ answers_ c = [].

(** One attempt, up to what [on_async_connected] makes of its result. *)
Lemma attempt_runs t c i ec c' :
  connects (socket_ c) = start idle → closed_ c = false → ignored ec = false →
  on_async_connected connect_timeout open (set_socket c (set_connects (socket_ c) idle)) ec = Some c' →
  runs t (mkStream c i) [ConnectDone ec; RunConnect open] t
    (mkStream c' (if bool_decide (ec = None) then start_limits dl_limit_rate_ ul_limit_rate_ t i else i)).
Proof.
  intros W Hcl Hg E. eapply runs_cons; [|cbn [Stream.step conn_]; reflexivity|eapply runs_cons; [..|constructor]].
  - cbn. rewrite W. cbn. split; [lia|done].
  - cbn. rewrite W. done.
  - cbn [Stream.step conn_ socket_ set_socket set_connects connects io_]. rewrite W. cbn [complete start idle queued waiting app head mbind option_bind].
    assert (on_connect connect_timeout open (set_socket c (set_connects (socket_ c) idle)) ec = Some c') as E'
      by (unfold on_connect; cbn [set_socket closed_]; by rewrite Hg, Hcl).
    change (set_socket (set_socket c _) (set_connects _ (dequeue _))) with (set_socket c (set_connects (socket_ c) idle)).
    rewrite E'. cbn [mbind option_bind closed_ set_socket]. rewrite Hcl, andb_true_r. done.
Qed.

Lemma try_endpoints_order t es : ∀ c i, es ≠ [] → ready c → (∀ e, e ∈ es → ignored (reach e) = false) →
  ∃ c' s', try_endpoints connect_timeout open es c = Some c' ∧ runs t (mkStream c' i) (concat (map attempt (outcome es).2)) t s' ∧
    answers_ (conn_ s') = [(outcome es).1] ∧ tried_ (conn_ s') = tried_ c ++ (outcome es).2 ∧
    ((outcome es).1 = None → connected_ (conn_ s') = true ∧ list.last (outcome es).2 = Some (endpoint_ (conn_ s'))).
Proof.
  induction es as [|e rest IH]; intros c i Hne (R1 & R2 & R3 & R4) Hg; [done|]. cbn [try_endpoints outcome].
  assert (∀ c1 ec, ready c1 → tried_ c1 = tried_ c → ∃ c' s',
    match rest with [] => Some (on_async_connect_callback (set_closed c1) (Some ec)) | _ => try_endpoints connect_timeout open rest c1 end = Some c' ∧
    let o := match rest with [] => (Some ec, []) | _ => let '(r', later) := outcome rest in (r', [] ++ later) end in
    runs t (mkStream c' i) (concat (map attempt o.2)) t s' ∧ answers_ (conn_ s') = [o.1] ∧ tried_ (conn_ s') = tried_ c ++ o.2 ∧
    (o.1 = None → connected_ (conn_ s') = true ∧ list.last o.2 = Some (endpoint_ (conn_ s')))) as Next.
  { intros c1 ec Hr Ht. destruct rest as [|e' rest'].
    - destruct Hr as (_ & _ & U & A). unfold on_async_connect_callback. cbn [set_closed set_flags user_connect_callback_]. rewrite U.
      eexists _, _. split; [reflexivity|]. cbn. split; [constructor|]. cbn. by rewrite A, Ht, app_nil_r.
    - destruct (IH c1 i) as (c' & s' & E & R & A & T & S); [done|done|intros; apply Hg; by right|]. exists c', s'. split; [exact E|].
      destruct (outcome (e' :: rest')) as [r' later]. cbn in *. rewrite <- Ht. done. }
  destruct (avoided e); [by apply Next|]. destruct (open (length rest)) as [ec|] eqn:Eo.
  { apply Next; [|by destruct (is_open _)]. destruct (is_open _); cbn; unfold ready, connecting, out in *; cbn; auto with lia. }
  assert (connects (socket_ c) = idle ∧ out (resolver_ c) = 0) as [K0 Rs].
  { revert R1. unfold connecting, out. destruct (connects (socket_ c)) as [w [|? q]]; cbn; intros R1; [|lia]. split; [unfold idle; f_equal; lia|lia]. }
  cbv zeta. match goal with |- context [Some (start_connect ?a ?x)] => set (c2 := start_connect a x) end.
  assert (connects (socket_ c2) = start idle ∧ closed_ c2 = false ∧ user_connect_callback_ c2 = true ∧ answers_ c2 = [] ∧ tried_ c2 = tried_ c ++ [e] ∧
    endpoints_ c2 = rest ∧ endpoint_ c2 = e ∧ out (resolver_ c2) = 0) as (D1 & D2 & D3 & D4 & D5 & D6 & D7 & D8)
    by (unfold c2; destruct (is_open _); cbn; rewrite K0; done).
  clearbody c2. exists c2. pose proof (attempt_runs t c2 i (reach e)) as At.
  assert (ignored (reach e) = false) as Hge by (apply Hg; by left).
  set (c3 := set_socket c2 (set_connects (socket_ c2) idle)) in *. unfold on_async_connected in At.
  set (c4 := set_timer c3 (cancel (connect_timer_ c3))) in *. change (endpoints_ c4) with (endpoints_ c2) in At. rewrite D6 in At.
  destruct (reach e) as [err|] eqn:Er.
  - destruct rest as [|e' rest'].
    + eexists. split; [reflexivity|]. cbn. rewrite Er. split; [by apply At|].
      unfold on_async_connect_callback. cbn [c4 set_timer user_connect_callback_ c3 set_socket]. rewrite D3. cbn. by rewrite D4, D5.
    + destruct (IH c4 i) as (c' & s' & E & R & A & T & S); [done| |intros; apply Hg; by right|].
      { unfold ready, connecting, c4, c3. cbn. split_and!; try done. lia. }
      exists s'. split; [reflexivity|]. destruct (outcome (e' :: rest')) as [r' later]. cbn [fst snd] in *.
      split; [|split; [done|]].
      * change (runs t (mkStream c2 i) (attempt e ++ concat (map attempt later)) t s'). apply (runs_app t _ _ t (mkStream c' i)); [|exact R].
        unfold attempt. rewrite Er. apply At; try done. unfold on_try_next_endpoint. change (endpoints_ c4) with (endpoints_ c2). by rewrite D6.
      * rewrite T. change (tried_ c4) with (tried_ c2). rewrite D5, <- app_assoc. split; [done|]. intros Hn. destruct (S Hn) as [S1 S2]. split; [done|].
        by destruct later.
  - eexists. split; [reflexivity|].
    cbn [fst snd map concat app]. unfold attempt. rewrite Er. split; [by apply At|].
    unfold on_async_connect_callback. cbn [c4 set_timer user_connect_callback_ c3 set_socket set_flags]. rewrite D3. cbn. by rewrite D4, D5, D7.
Qed.

(** The endpoints of a host, and the events until they are known: its addresses are configured, it is an address,
    or it is resolved. *)
Definition candidates (init : error_code) (es : list endpoint) (pre : list event) : Prop :=
  host_ips_ ≠ [] ∧ es = endpoints_of port_ (StrSplit host_ips_ x3b) ∧ pre = [] ∨
  host_ips_ = [] ∧ (∃ a, make_address host_sni_ = Some a ∧ es = [mkEndpoint a port_] ∧ pre = []) ∨
  host_ips_ = [] ∧ make_address host_sni_ = None ∧ init = None ∧ pre = [ResolveDone (inl es); RunResolve open].

(** C16: the endpoints of a host are tried in order, without those that are unspecified or multicast or for which no socket can be opened,
    until one is reached: the callback is called with success, and the stream is connected to that one; when none is, with the
    error of the last. *)
Theorem connect_first_reachable t init es pre :
  port_ ≠ 0%Z → es ≠ [] → candidates init es pre → (∀ e, e ∈ es → ignored (reach e) = false) →
  ∃ s s', begin host_ips_ host_sni_ port_ connect_timeout open init = Some s ∧
    runs t s (pre ++ concat (map attempt (outcome es).2)) t s' ∧
    answers_ (conn_ s') = [(outcome es).1] ∧ tried_ (conn_ s') = (outcome es).2 ∧
    ((outcome es).1 = None → connected_ (conn_ s') = true ∧ list.last (outcome es).2 = Some (endpoint_ (conn_ s'))).
Proof.
  intros Hp Hne Hc Hg. unfold begin, async_connect. rewrite (proj2 (Z.eqb_neq _ _) Hp). set (c0 := set_flags conn_init _ _ _ true).
  assert (∀ c, ready c → tried_ c = [] → endpoints_ c = es → ∃ c' s', on_try_next_endpoint connect_timeout open c = Some c' ∧
    runs t (mkStream c' io_init) (concat (map attempt (outcome es).2)) t s' ∧
    answers_ (conn_ s') = [(outcome es).1] ∧ tried_ (conn_ s') = (outcome es).2 ∧
    ((outcome es).1 = None → connected_ (conn_ s') = true ∧ list.last (outcome es).2 = Some (endpoint_ (conn_ s')))) as Go.
  { intros c Hr Ht He. destruct (try_endpoints_order t es c io_init Hne Hr Hg) as (c' & s' & E & R & A & T & S).
    exists c', s'. unfold on_try_next_endpoint. rewrite He. rewrite Ht in T. done. }
  destruct Hc as [(Hi & -> & ->)|[(Hi & a & Ea & -> & ->)|(Hi & Ea & -> & ->)]].
  - rewrite decide_True by done. cbn [set_endpoint endpoints_ endpoint_ c0 set_flags conn_init app].
    destruct (Go (set_endpoint c0 endpoint_default (endpoints_of port_ (StrSplit host_ips_ x3b)))) as (c' & s' & E & R); [done..|].
    exists (mkStream c' io_init), s'. destruct (endpoints_of _ _) as [|e es]; [done|]. rewrite E. done.
  - rewrite decide_False by tauto. rewrite Ea. destruct (Go (set_endpoint c0 endpoint_default [mkEndpoint a port_])) as (c' & s' & E & R); [done..|].
    exists (mkStream c' io_init), s'. cbn [set_endpoint endpoints_ endpoint_ c0 set_flags conn_init app]. rewrite E. done.
  - rewrite decide_False by tauto. rewrite Ea. eexists.
    destruct (Go (set_endpoint c0 endpoint_default es)) as (c' & s' & E & R & Q); [done..|]. exists s'. split; [reflexivity|]. split; [|exact Q].
    cbn [app]. eapply runs_cons; [|cbn [Stream.step]; reflexivity|]; [cbn; split_and!; [lia|done|congruence]|].
    eapply runs_cons; [done| |exact R].
    trans (c ← on_try_next_endpoint connect_timeout open (set_endpoint c0 endpoint_default es); Some (mkStream c io_init));
      [reflexivity|by rewrite E].
Qed.

End Order.

(** ** Witnesses *)

(** Of all texts only [127.0.0.1] is an address. *)
Definition example_lib : AddressLib := {|
  make_address := λ t, if decide (t = str "127.0.0.1") then Some (address_v4 [x7f; x00; x00; x01]) else None;
  is_unspecified := λ a, match a with address_v4 b | address_v6 b => forallb (Byte.eqb x00) b end;
  is_multicast := λ a, match a with
    | address_v4 (b :: _) => (224 <=? u8 b)%Z && (u8 b <? 240)%Z
    | address_v6 (b :: _) => (u8 b =? 255)%Z
    | _ => false
    end;
  StrSplit := λ t _, [t]
|}.

Definition always : nat → error_code := λ _, None.

(** A multicast address, one that refuses, and one that accepts. *)
Definition multicast_endpoint : endpoint := mkEndpoint (address_v4 [xe0; x00; x00; x01]) 443.
Definition refusing_endpoint : endpoint := mkEndpoint (address_v4 [x0a; x00; x00; x01]) 443.
Definition accepting_endpoint : endpoint := mkEndpoint (address_v4 [x0a; x00; x00; x02]) 443.
Definition example_reach (e : endpoint) : error_code :=
  match ep_address e with address_v4 [_; _; _; x02] => None | _ => Some (other_error 111) end.

Lemma connect_first_reachable_witness :
  ∃ s s', begin (H := example_lib) [] (str "example.net") 443 30 always None = Some s ∧
    runs (H := example_lib) 30 0 0 0 s [ResolveDone (inl [multicast_endpoint; refusing_endpoint; accepting_endpoint]); RunResolve always;
      ConnectDone (Some (other_error 111)); RunConnect always; ConnectDone None; RunConnect always] 0 s' ∧
    answers_ (conn_ s') = [None] ∧ tried_ (conn_ s') = [refusing_endpoint; accepting_endpoint] ∧ endpoint_ (conn_ s') = accepting_endpoint.
Proof.
  destruct (connect_first_reachable (H := example_lib) [] (str "example.net") 443 30 0 0 always example_reach 0 None
    [multicast_endpoint; refusing_endpoint; accepting_endpoint]
    [ResolveDone (inl [multicast_endpoint; refusing_endpoint; accepting_endpoint]); RunResolve always]) as (s & s' & E & R & A & T & S).
  - discriminate.
  - discriminate.
  - right. right. split_and!; reflexivity.
  - intros e He. repeat (apply elem_of_cons in He as [->|He]; [reflexivity|]). by apply not_elem_of_nil in He.
  - exists s, s'. split; [exact E|]. split; [exact R|]. split; [exact A|]. split; [exact T|].
    destruct (S eq_refl) as [_ S2]. injection S2. done.
Defined.

Definition example_host : option stream := begin (H := example_lib) [] (str "example.net") 443 30 always None.

(** The resolution fails. *)
Definition failing : list event := [ResolveDone (inr host_not_found); RunResolve always].

Definition failed : stream := default stream_init
  (s ← example_host; s1 ← step (H := example_lib) 30 1000 1000 0 0 s (ResolveDone (inr host_not_found));
   step (H := example_lib) 30 1000 1000 0 0 s1 (RunResolve always)).

Lemma connect_answered_once_witness :
  length (answers_ (conn_ failed)) <= 1 ∧ ∃ ec, answers_ (conn_ failed) = [ec].
Proof.
  destruct (connect_answered_once (H := example_lib) [] (str "example.net") 443 30 1000 1000 ltac:(unfold INT64_MAX; lia) ltac:(unfold INT64_MAX; lia)
    always None 0 failing 0 failed) as (s & E & Hr).
  destruct Hr as (_ & H1 & H2 & _).
  - injection E as <-. eapply runs_cons; [|reflexivity|eapply runs_cons; [|reflexivity|apply runs_nil]]; cbn.
    + split_and!; [lia|discriminate|discriminate].
    + discriminate.
  - split; [exact H1|]. destruct H2 as (ec & Ha & _); [reflexivity| |by exists ec].
    intros Hin. repeat (apply elem_of_cons in Hin as [Hin|Hin]; [discriminate|]). by apply not_elem_of_nil in Hin.
Defined.

(** A stream to an address that connects and is then waited for. *)
Definition reading_events : list event := [ConnectDone None; RunConnect always; WaitRead 7 true; YieldTimerDone; RunYieldTimer].

Definition example_step (s : stream) (e : event) : stream := default stream_init (step (H := example_lib) 0 1000 1000 0 0 s e).

Definition reading_0 : stream := Eval vm_compute in default stream_init (begin (H := example_lib) [] (str "127.0.0.1") 443 0 always None).
Definition reading_1 : stream := Eval vm_compute in example_step reading_0 (ConnectDone None).
Definition reading_2 : stream := Eval vm_compute in example_step reading_1 (RunConnect always).
Definition reading_3 : stream := Eval vm_compute in example_step reading_2 (WaitRead 7 true).
Definition reading_4 : stream := Eval vm_compute in example_step reading_3 YieldTimerDone.
Definition reading_5 : stream := Eval vm_compute in example_step reading_4 RunYieldTimer.

Lemma waits_not_lost_witness :
  reads_asked_ (io_ reading_5) = [7] ∧ wait_read_callback_ (io_ reading_5) = Some 7 ∧ read_out reading_5 = 1.
Proof.
  destruct (waits_not_lost (H := example_lib) [] (str "127.0.0.1") 443 0 1000 1000 ltac:(unfold INT64_MAX; lia) ltac:(unfold INT64_MAX; lia)
    always None 0 reading_events 0 reading_5) as (s & E & Hr).
  assert (Some s = Some reading_0) as Es by (rewrite <- E; vm_compute; reflexivity). injection Es as ->.
  destruct Hr as (H1 & H2 & _).
  - apply (runs_cons 0 1000 1000 0 reading_0 _ reading_1); [vm_compute; split; [lia|reflexivity]|vm_compute; reflexivity|].
    apply (runs_cons 0 1000 1000 0 reading_1 _ reading_2); [discriminate|vm_compute; reflexivity|].
    apply (runs_cons 0 1000 1000 0 reading_2 _ reading_3); [reflexivity|vm_compute; reflexivity|].
    apply (runs_cons 0 1000 1000 0 reading_3 _ reading_4); [vm_compute; lia|vm_compute; reflexivity|].
    apply (runs_cons 0 1000 1000 0 reading_4 _ reading_5); [discriminate|vm_compute; reflexivity|]. apply runs_nil.
  - reflexivity.
  - split; [reflexivity|]. split; [reflexivity|]. exact H2.
Defined.

(** Five thousand bytes in no time, with a limit of a thousand in a second. *)
Definition example_fast : stream := mkStream (set_flags conn_init true false false false) (set_bytes io_init 5000 0).

Lemma rate_limit_delay_witness :
  ∃ s', wait_read 1000 1000 0 0 (Some 3) false example_fast = Some s' ∧ dl_deadline_ (io_ s') = 5000000000%Z ∧
    ∃ s1 s2, step (H := example_lib) 0 1000 1000 0 0 s' DlTimerDone = Some s1 ∧
      step (H := example_lib) 0 1000 1000 5000000000 5000000000 s1 RunDlTimer = Some s2 ∧ waiting (reads_of s2) = 1.
Proof.
  destruct (rate_limit_delay (H := example_lib) 0 1000 1000 0 0 0 3 false example_fast) as (s' & E & _ & _ & Hd).
  - reflexivity.
  - unfold limits_ok, INT64_MAX. cbn. lia.
  - lia.
  - unfold INT64_MAX. lia.
  - reflexivity.
  - destruct (Hd eq_refl) as (_ & _ & Ed & Hrun). exists s'. split; [exact E|]. split; [exact Ed|].
    injection E as <-. destruct (Hrun [DlTimerDone] 0%Z (default stream_init (step (H := example_lib) 0 1000 1000 0 0
        (default stream_init (wait_read 1000 1000 0 0 (Some 3) false example_fast)) DlTimerDone)) 5000000000%Z 5000000000%Z) as (s2 & E2 & _ & E3).
    + eapply runs_cons; [|reflexivity|apply runs_nil]. cbn. lia.
    + reflexivity.
    + discriminate.
    + rewrite Ed. cbv. discriminate.
    + eexists _, s2. split; [reflexivity|]. split; [exact E2|]. rewrite E3. reflexivity.
Defined.

End Stream.
