(* ===== verification/SslSocket.v ===== *)
(** * TLS sockets

    [SSLSocket] of src/src/net/ssl_socket.cpp, the client's end of a TLS connection, and [SSLServerSocket] of
    src/src/net/ssl_server_socket.cpp, the server's: the handshake and its confirmation, the waits for the socket, reading,
    writing, shutting down and disconnecting; and the mapping of errors in src/src/net/openssl_util.cpp.  The two
    classes have most of their text in common, and here they are one record with a [side].

    BoringSSL is what its calls answer: every operation has the answers of the calls it makes as an argument.  The
    operations of asio are those of [Asio.op].  A callback may do anything, so what a handler does after one is an
    event of its own ([conts_], and [peeks_] for [DoPeek], which is posted as well).  The settings of the SSL object, the
    cache of sessions and what is logged are left out; [DCHECK] and [DLOG] are those of a release build. *)

From Stdlib Require Import ZArith Lia.
From stdpp Require Import base list numbers option.
From S2P Require Import Prelude ContentServer.

Module SslSocket.
Import Asio.

Abbreviation text := (list byte).
Abbreviation NextProto := ContentServer.NextProto.

(** ** Errors *)

Definition OK : Z := 0.
Definition ERR_IO_PENDING : Z := -1.
Definition ERR_FAILED : Z := -2.
Definition ERR_TIMED_OUT : Z := -7.
Definition ERR_UNEXPECTED : Z := -9.
Definition ERR_NOT_IMPLEMENTED : Z := -11.
Definition ERR_CONNECTION_CLOSED : Z := -100.
Definition ERR_SSL_PROTOCOL_ERROR : Z := -107.
Definition ERR_SSL_CLIENT_AUTH_CERT_NEEDED : Z := -110.
Definition ERR_SSL_VERSION_OR_CIPHER_MISMATCH : Z := -113.
Definition ERR_BAD_SSL_CLIENT_AUTH_CERT : Z := -117.
Definition ERR_SSL_DECOMPRESSION_FAILURE_ALERT : Z := -125.
Definition ERR_SSL_BAD_RECORD_MAC_ALERT : Z := -126.
Definition ERR_SSL_DECRYPT_ERROR_ALERT : Z := -153.
Definition ERR_SSL_SERVER_CERT_CHANGED : Z := -156.
Definition ERR_SSL_UNRECOGNIZED_NAME_ALERT : Z := -159.
Definition ERR_EARLY_DATA_REJECTED : Z := -178.
Definition ERR_WRONG_VERSION_ON_EARLY_DATA : Z := -179.
Definition ERR_TLS13_DOWNGRADE_DETECTED : Z := -180.
Definition ERR_SSL_KEY_USAGE_INCOMPATIBLE : Z := -181.
Definition ERR_ECH_NOT_NEGOTIATED : Z := -183.

Definition kSSLClientSocketNoPendingResult : Z := 1.

(** What [SSL_get_error] answers, and the errors in the queue of BoringSSL with their library and reason. *)
Inductive ssl_error :=
  | SSL_ERROR_NONE | SSL_ERROR_SSL | SSL_ERROR_WANT_READ | SSL_ERROR_WANT_WRITE | SSL_ERROR_WANT_X509_LOOKUP
  | SSL_ERROR_SYSCALL | SSL_ERROR_ZERO_RETURN | SSL_ERROR_WANT_RENEGOTIATE | SSL_ERROR_WANT_PRIVATE_KEY_OPERATION
  | SSL_ERROR_WANT_CERTIFICATE_VERIFY | SSL_ERROR_EARLY_DATA_REJECTED | SSL_ERROR_other (code : Z).

#[export] Instance ssl_error_eq_dec : EqDecision ssl_error.
Proof. solve_decision. Defined.

Inductive reason :=
  | SSL_R_READ_TIMEOUT_EXPIRED | SSL_R_UNKNOWN_CERTIFICATE_TYPE | SSL_R_UNKNOWN_CIPHER_TYPE | SSL_R_UNKNOWN_KEY_EXCHANGE_TYPE
  | SSL_R_UNKNOWN_SSL_VERSION | SSL_R_NO_CIPHER_MATCH | SSL_R_NO_SHARED_CIPHER | SSL_R_TLSV1_ALERT_INSUFFICIENT_SECURITY
  | SSL_R_TLSV1_ALERT_PROTOCOL_VERSION | SSL_R_UNSUPPORTED_PROTOCOL | SSL_R_SSLV3_ALERT_BAD_CERTIFICATE
  | SSL_R_SSLV3_ALERT_UNSUPPORTED_CERTIFICATE | SSL_R_SSLV3_ALERT_CERTIFICATE_REVOKED | SSL_R_SSLV3_ALERT_CERTIFICATE_EXPIRED
  | SSL_R_SSLV3_ALERT_CERTIFICATE_UNKNOWN | SSL_R_TLSV1_ALERT_ACCESS_DENIED | SSL_R_TLSV1_ALERT_CERTIFICATE_REQUIRED
  | SSL_R_TLSV1_ALERT_UNKNOWN_CA | SSL_R_SSLV3_ALERT_DECOMPRESSION_FAILURE | SSL_R_SSLV3_ALERT_BAD_RECORD_MAC
  | SSL_R_TLSV1_ALERT_DECRYPT_ERROR | SSL_R_TLSV1_UNRECOGNIZED_NAME | SSL_R_SERVER_CERT_CHANGED
  | SSL_R_WRONG_VERSION_ON_EARLY_DATA | SSL_R_TLS13_DOWNGRADE | SSL_R_ECH_REJECTED | SSL_R_SSLV3_ALERT_HANDSHAKE_FAILURE
  | SSL_R_HANDSHAKE_FAILURE_ON_CLIENT_HELLO | SSL_R_KEY_USAGE_BIT_INCORRECT | SSL_R_other (code : Z).

#[export] Instance reason_eq_dec : EqDecision reason.
Proof. solve_decision. Defined.

Inductive queued_error := lib_ssl (r : reason) | lib_net (code : Z) | lib_other.

#[export] Instance queued_error_eq_dec : EqDecision queued_error.
Proof. solve_decision. Defined.

(** [previous] is what [ERR_peek_error] answers. *)
Definition MapOpenSSLErrorSSL (r : reason) (previous : option queued_error) : Z :=
  match r with
  | SSL_R_READ_TIMEOUT_EXPIRED => ERR_TIMED_OUT
  | SSL_R_UNKNOWN_CERTIFICATE_TYPE | SSL_R_UNKNOWN_CIPHER_TYPE | SSL_R_UNKNOWN_KEY_EXCHANGE_TYPE | SSL_R_UNKNOWN_SSL_VERSION =>
      ERR_NOT_IMPLEMENTED
  | SSL_R_NO_CIPHER_MATCH | SSL_R_NO_SHARED_CIPHER | SSL_R_TLSV1_ALERT_INSUFFICIENT_SECURITY | SSL_R_TLSV1_ALERT_PROTOCOL_VERSION
  | SSL_R_UNSUPPORTED_PROTOCOL => ERR_SSL_VERSION_OR_CIPHER_MISMATCH
  | SSL_R_SSLV3_ALERT_BAD_CERTIFICATE | SSL_R_SSLV3_ALERT_UNSUPPORTED_CERTIFICATE | SSL_R_SSLV3_ALERT_CERTIFICATE_REVOKED
  | SSL_R_SSLV3_ALERT_CERTIFICATE_EXPIRED | SSL_R_SSLV3_ALERT_CERTIFICATE_UNKNOWN | SSL_R_TLSV1_ALERT_ACCESS_DENIED
  | SSL_R_TLSV1_ALERT_CERTIFICATE_REQUIRED | SSL_R_TLSV1_ALERT_UNKNOWN_CA => ERR_BAD_SSL_CLIENT_AUTH_CERT
  | SSL_R_SSLV3_ALERT_DECOMPRESSION_FAILURE => ERR_SSL_DECOMPRESSION_FAILURE_ALERT
  | SSL_R_SSLV3_ALERT_BAD_RECORD_MAC => ERR_SSL_BAD_RECORD_MAC_ALERT
  | SSL_R_TLSV1_ALERT_DECRYPT_ERROR => ERR_SSL_DECRYPT_ERROR_ALERT
  | SSL_R_TLSV1_UNRECOGNIZED_NAME => ERR_SSL_UNRECOGNIZED_NAME_ALERT
  | SSL_R_SERVER_CERT_CHANGED => ERR_SSL_SERVER_CERT_CHANGED
  | SSL_R_WRONG_VERSION_ON_EARLY_DATA => ERR_WRONG_VERSION_ON_EARLY_DATA
  | SSL_R_TLS13_DOWNGRADE => ERR_TLS13_DOWNGRADE_DETECTED
  | SSL_R_ECH_REJECTED => ERR_ECH_NOT_NEGOTIATED
  | SSL_R_SSLV3_ALERT_HANDSHAKE_FAILURE =>
      if decide (previous = Some (lib_ssl SSL_R_HANDSHAKE_FAILURE_ON_CLIENT_HELLO)) then ERR_SSL_VERSION_OR_CIPHER_MISMATCH
      else ERR_SSL_PROTOCOL_ERROR
  | SSL_R_KEY_USAGE_BIT_INCORRECT => ERR_SSL_KEY_USAGE_INCOMPATIBLE
  | _ => ERR_SSL_PROTOCOL_ERROR
  end.

(** The walk down the queue of errors. *)
Fixpoint map_queue (queue : list queued_error) : Z :=
  match queue with
  | [] => ERR_SSL_PROTOCOL_ERROR
  | lib_ssl r :: queue => MapOpenSSLErrorSSL r (head queue)
  | lib_net code :: _ => - code
  | lib_other :: queue => map_queue queue
  end.

Definition MapOpenSSLErrorWithDetails (err : ssl_error) (queue : list queued_error) : Z :=
  match err with
  | SSL_ERROR_WANT_READ | SSL_ERROR_WANT_WRITE => ERR_IO_PENDING
  | SSL_ERROR_EARLY_DATA_REJECTED => ERR_EARLY_DATA_REJECTED
  | SSL_ERROR_SYSCALL => ERR_FAILED
  | SSL_ERROR_SSL => map_queue queue
  | _ => ERR_SSL_PROTOCOL_ERROR
  end.

(** What a call of BoringSSL returns, with the error and the queue it leaves. *)
Record answer := mkAnswer { rv_ : Z; err_ : ssl_error; queue_ : list queued_error }.

Definition map_answer (a : answer) : Z := MapOpenSSLErrorWithDetails (err_ a) (queue_ a).

(** ** The socket *)

Inductive side := Client | Server.

Inductive State := STATE_NONE | STATE_HANDSHAKE | STATE_HANDSHAKE_COMPLETE.

#[export] Instance State_eq_dec : EqDecision State.
Proof. solve_decision. Defined.

(** asio's errors, as far as they are distinguished. *)
Inductive error := try_again | eof | connection_refused | connection_reset | bad_descriptor | operation_aborted | other_error (code : Z).

#[export] Instance error_eq_dec : EqDecision error.
Proof. solve_decision. Defined.

Abbreviation error_code := (option error).

(** The errors with which a wait ends when the socket was closed or the wait cancelled. *)
Definition aborted (ec : error_code) : bool := bool_decide (ec = Some bad_descriptor ∨ ec = Some operation_aborted).

Inductive direction := Reading | Writing.

(** The members of the handshake; [user_callback_] is [user_connect_callback_] or [user_handshake_callback_], and the callbacks are
    numbered.  [hs_reads_] and [hs_writes_] are the waits of the handshake, [peeks_] the calls of [DoPeek] to come; [asked_] are the
    callbacks that were given, [called_] those that were called, with what. *)
Record handshake := mkHs {
  disconnected_ : bool;
  next_handshake_state_ : State;
  completed_ : bool;
  in_confirm_handshake_ : bool;
  negotiated_protocol_ : NextProto;
  user_callback_ : option nat;
  hs_reads_ : op error_code;
  hs_writes_ : op error_code;
  peeks_ : nat;
  asked_ : list nat;
  called_ : list (nat * Z)
}.

Definition hs_init : handshake := mkHs false STATE_NONE false false ContentServer.kProtoUnknown None idle idle 0 [] [].

Definition set_state (h : handshake) (st : State) : handshake :=
  mkHs (disconnected_ h) st (completed_ h) (in_confirm_handshake_ h) (negotiated_protocol_ h) (user_callback_ h) (hs_reads_ h) (hs_writes_ h)
    (peeks_ h) (asked_ h) (called_ h).
Definition set_confirm (h : handshake) (b : bool) : handshake :=
  mkHs (disconnected_ h) (next_handshake_state_ h) (completed_ h) b (negotiated_protocol_ h) (user_callback_ h) (hs_reads_ h) (hs_writes_ h)
    (peeks_ h) (asked_ h) (called_ h).
Definition set_completed (h : handshake) : handshake :=
  mkHs (disconnected_ h) (next_handshake_state_ h) true (in_confirm_handshake_ h) (negotiated_protocol_ h) (user_callback_ h) (hs_reads_ h)
    (hs_writes_ h) (peeks_ h) (asked_ h) (called_ h).
Definition set_protocol (h : handshake) (alpn : text) : handshake :=
  mkHs (disconnected_ h) (next_handshake_state_ h) (completed_ h) (in_confirm_handshake_ h)
    (match alpn with [] => negotiated_protocol_ h | _ => ContentServer.NextProtoFromString alpn end)
    (user_callback_ h) (hs_reads_ h) (hs_writes_ h) (peeks_ h) (asked_ h) (called_ h).
Definition set_callback (h : handshake) (cb : option nat) : handshake :=
  mkHs (disconnected_ h) (next_handshake_state_ h) (completed_ h) (in_confirm_handshake_ h) (negotiated_protocol_ h) cb (hs_reads_ h) (hs_writes_ h)
    (peeks_ h) (asked_ h) (called_ h).
Definition set_hs_ops (h : handshake) (r w : op error_code) : handshake :=
  mkHs (disconnected_ h) (next_handshake_state_ h) (completed_ h) (in_confirm_handshake_ h) (negotiated_protocol_ h) (user_callback_ h) r w
    (peeks_ h) (asked_ h) (called_ h).
Definition set_peeks (h : handshake) (n : nat) : handshake :=
  mkHs (disconnected_ h) (next_handshake_state_ h) (completed_ h) (in_confirm_handshake_ h) (negotiated_protocol_ h) (user_callback_ h) (hs_reads_ h)
    (hs_writes_ h) n (asked_ h) (called_ h).
Definition ask (h : handshake) (id : nat) : handshake :=
  mkHs (disconnected_ h) (next_handshake_state_ h) (completed_ h) (in_confirm_handshake_ h) (negotiated_protocol_ h) (user_callback_ h) (hs_reads_ h)
    (hs_writes_ h) (peeks_ h) (asked_ h ++ [id]) (called_ h).
(** [callback(rv > OK ? OK : rv)]. *)
Definition call (h : handshake) (id : nat) (rv : Z) : handshake :=
  mkHs (disconnected_ h) (next_handshake_state_ h) (completed_ h) (in_confirm_handshake_ h) (negotiated_protocol_ h) (user_callback_ h) (hs_reads_ h)
    (hs_writes_ h) (peeks_ h) (asked_ h) (called_ h ++ [(id, if (OK <? rv)%Z then OK else rv)]).

(** *** The handshake *)

(** [DoHandshake] of the client, for the answer of [SSL_do_handshake]; with it the result of OpenSSL.  [send_client_cert_] has no value
    in the source, and is an argument. *)
Definition DoHandshake_client (send_client_cert : bool) (a : answer) (h : handshake) : Z * ssl_error * handshake :=
  if (0 <? rv_ a)%Z then (OK, SSL_ERROR_NONE, set_state h STATE_HANDSHAKE_COMPLETE)
  else if bool_decide (err_ a = SSL_ERROR_WANT_X509_LOOKUP) && negb send_client_cert then (ERR_SSL_CLIENT_AUTH_CERT_NEEDED, err_ a, h)
  else if decide (err_ a = SSL_ERROR_WANT_PRIVATE_KEY_OPERATION) then (ERR_IO_PENDING, err_ a, set_state h STATE_HANDSHAKE)
  else if decide (err_ a = SSL_ERROR_WANT_CERTIFICATE_VERIFY) then (ERR_IO_PENDING, err_ a, set_state h STATE_HANDSHAKE)
  else
    let net_error := map_answer a in
    if (net_error =? ERR_IO_PENDING)%Z then (ERR_IO_PENDING, err_ a, set_state h STATE_HANDSHAKE)
    else (net_error, err_ a, set_state h STATE_HANDSHAKE_COMPLETE).

(** [DoHandshake] of the server, with the protocol that is selected. *)
Definition DoHandshake_server (a : answer) (alpn : text) (h : handshake) : Z * ssl_error * handshake :=
  if (rv_ a =? 1)%Z then (OK, SSL_ERROR_NONE, set_completed (set_protocol h alpn))
  else if decide (err_ a = SSL_ERROR_WANT_PRIVATE_KEY_OPERATION) then (ERR_IO_PENDING, err_ a, set_state h STATE_HANDSHAKE)
  else
    let net_error := map_answer a in
    (net_error, err_ a, if (net_error =? ERR_IO_PENDING)%Z then set_state h STATE_HANDSHAKE else h).

Definition DoHandshake (sd : side) (send_client_cert : bool) (a : answer) (alpn : text) (h : handshake) : Z * ssl_error * handshake :=
  match sd with Client => DoHandshake_client send_client_cert a h | Server => DoHandshake_server a alpn h end.

(** [DoHandshakeComplete] of the client, which posts a [DoPeek]. *)
Definition DoHandshakeComplete (result : Z) (alpn : text) (h : handshake) : Z * handshake :=
  if (result <? 0)%Z then (result, h)
  else if in_confirm_handshake_ h then (OK, set_state h STATE_NONE)
  else (OK, set_peeks (set_state (set_completed (set_protocol h alpn)) STATE_NONE) (S (peeks_ h))).

(** The loop of [DoHandshakeLoop]. *)
Fixpoint handshake_loop (fuel : nat) (sd : side) (send_client_cert : bool) (a : answer) (alpn : text) (rv : Z) (sslerr : ssl_error)
    (h : handshake) : option (Z * ssl_error * handshake) :=
  match fuel with
  | O => None
  | S fuel =>
      let state := next_handshake_state_ h in
      let h := set_state h STATE_NONE in
      let '(rv, sslerr, h) :=
        match state with
        | STATE_HANDSHAKE => DoHandshake sd send_client_cert a alpn h
        | STATE_HANDSHAKE_COMPLETE => let '(rv, h) := DoHandshakeComplete rv alpn h in (rv, sslerr, h)
        | STATE_NONE => (ERR_UNEXPECTED, sslerr, h)
        end in
      if negb (rv =? ERR_IO_PENDING)%Z && bool_decide (next_handshake_state_ h ≠ STATE_NONE)
      then handshake_loop fuel sd send_client_cert a alpn rv sslerr h
      else Some (rv, sslerr, h)
  end.

(** Two rounds are enough ([handshake_loop_total]). *)
Definition DoHandshakeLoop (sd : side) (send_client_cert : bool) (a : answer) (alpn : text) (h : handshake) : option (Z * handshake) :=
  '(rv, sslerr, h) ← handshake_loop 2 sd send_client_cert a alpn OK SSL_ERROR_NONE h;
  Some (rv,
    if (rv =? ERR_IO_PENDING)%Z then
      match sslerr with
      | SSL_ERROR_WANT_READ => set_hs_ops h (start (hs_reads_ h)) (hs_writes_ h)
      | SSL_ERROR_WANT_WRITE => set_hs_ops h (hs_reads_ h) (start (hs_writes_ h))
      | _ => h
      end
    else h).

(** [Connect] of the client and [Handshake] of the server. *)
Definition Connect (sd : side) (scc : bool) (a : answer) (alpn : text) (id : nat) (h : handshake) : option handshake :=
  if disconnected_ h then None
  else
    '(rv, h) ← DoHandshakeLoop sd scc a alpn (set_state (ask h id) STATE_HANDSHAKE);
    Some (if (rv =? ERR_IO_PENDING)%Z then set_callback h (Some id) else call h id rv).

Definition ConfirmHandshake (scc : bool) (in_early_data : bool) (a : answer) (alpn : text) (id : nat) (h : handshake) : option handshake :=
  if negb (completed_ h) || in_confirm_handshake_ h then None
  else if negb in_early_data then Some (call (ask h id) id OK)
  else
    '(rv, h) ← DoHandshakeLoop Client scc a alpn (set_confirm (set_state (ask h id) STATE_HANDSHAKE) true);
    Some (if (rv =? ERR_IO_PENDING)%Z then set_callback h (Some id) else call (set_confirm h false) id rv).

(** [DoConnectCallback] and [DoHandshakeCallback]. *)
Definition do_callback (h : handshake) (rv : Z) : handshake :=
  match user_callback_ h with None => h | Some id => call (set_callback h None) id rv end.

Definition OnHandshakeIOComplete (sd : side) (scc : bool) (a : answer) (alpn : text) (h : handshake) : option handshake :=
  '(rv, h) ← DoHandshakeLoop sd scc a alpn h;
  Some (if (rv =? ERR_IO_PENDING)%Z then h else do_callback (set_confirm h false) rv).

(** [RetryAllOperations], which is [OnReadReady] and [OnWriteReady] of the client and ends with [DoPeek]. *)
Definition RetryAllOperations (scc : bool) (a : answer) (alpn : text) (h : handshake) : option handshake :=
  if disconnected_ h then Some h
  else
    h ← (if decide (next_handshake_state_ h = STATE_HANDSHAKE) then OnHandshakeIOComplete Client scc a alpn h else Some h);
    Some (set_peeks h (S (peeks_ h))).

(** [OnReadReady] and [OnWriteReady] of the server. *)
Definition OnReadReady_server (a : answer) (alpn : text) (h : handshake) : option handshake :=
  if disconnected_ h then Some h
  else if decide (next_handshake_state_ h = STATE_HANDSHAKE) then OnHandshakeIOComplete Server false a alpn h else Some h.

Definition on_ready (sd : side) (scc : bool) (a : answer) (alpn : text) (h : handshake) : option handshake :=
  match sd with Client => RetryAllOperations scc a alpn h | Server => OnReadReady_server a alpn h end.

(** *** The waits *)

(** [conts_] is what [OnWaitRead] and [OnWaitWrite] do after the callback of a shutdown. *)
Record waits := mkWaits {
  wait_read_callback_ : option nat;
  wait_write_callback_ : option nat;
  wait_shutdown_callback_ : option nat;
  reads_ : op error_code;
  writes_ : op error_code;
  conts_ : list (direction * error_code);
  reads_asked_ : list nat;
  reads_called_ : list (nat * error_code);
  writes_asked_ : list nat;
  writes_called_ : list (nat * error_code);
  shutdowns_called_ : list (nat * error_code)
}.

Definition waits_init : waits := mkWaits None None None idle idle [] [] [] [] [] [].

Definition set_waits (w : waits) (r wr sh : option nat) : waits :=
  mkWaits r wr sh (reads_ w) (writes_ w) (conts_ w) (reads_asked_ w) (reads_called_ w) (writes_asked_ w) (writes_called_ w) (shutdowns_called_ w).
Definition set_ops (w : waits) (r wr : op error_code) : waits :=
  mkWaits (wait_read_callback_ w) (wait_write_callback_ w) (wait_shutdown_callback_ w) r wr (conts_ w) (reads_asked_ w) (reads_called_ w)
    (writes_asked_ w) (writes_called_ w) (shutdowns_called_ w).
Definition set_conts (w : waits) (c : list (direction * error_code)) : waits :=
  mkWaits (wait_read_callback_ w) (wait_write_callback_ w) (wait_shutdown_callback_ w) (reads_ w) (writes_ w) c (reads_asked_ w) (reads_called_ w)
    (writes_asked_ w) (writes_called_ w) (shutdowns_called_ w).
Definition set_asked (w : waits) (r wr : list nat) : waits :=
  mkWaits (wait_read_callback_ w) (wait_write_callback_ w) (wait_shutdown_callback_ w) (reads_ w) (writes_ w) (conts_ w) r (reads_called_ w)
    wr (writes_called_ w) (shutdowns_called_ w).
Definition call_shutdown (w : waits) (id : nat) (ec : error_code) : waits :=
  mkWaits (wait_read_callback_ w) (wait_write_callback_ w) (wait_shutdown_callback_ w) (reads_ w) (writes_ w) (conts_ w) (reads_asked_ w)
    (reads_called_ w) (writes_asked_ w) (writes_called_ w) (shutdowns_called_ w ++ [(id, ec)]).
Definition call_read (w : waits) (id : nat) (ec : error_code) : waits :=
  mkWaits (wait_read_callback_ w) (wait_write_callback_ w) (wait_shutdown_callback_ w) (reads_ w) (writes_ w) (conts_ w) (reads_asked_ w)
    (reads_called_ w ++ [(id, ec)]) (writes_asked_ w) (writes_called_ w) (shutdowns_called_ w).
Definition call_write (w : waits) (id : nat) (ec : error_code) : waits :=
  mkWaits (wait_read_callback_ w) (wait_write_callback_ w) (wait_shutdown_callback_ w) (reads_ w) (writes_ w) (conts_ w) (reads_asked_ w)
    (reads_called_ w) (writes_asked_ w) (writes_called_ w ++ [(id, ec)]) (shutdowns_called_ w).

(** The loop of [Shutdown], for what [SSL_shutdown] answers first and then; it is left after two calls.  The error of the answer
    that counts is looked at, and [ERR_peek_error] is the head of its queue. *)
Definition shutdown_answer (a1 a2 : answer) : answer := if (rv_ a1 =? 0)%Z then a2 else a1.

(** [Shutdown]; with [force] the state of the SSL object is set before, which shows in the answers. *)
Definition Shutdown (in_init : bool) (a1 a2 : answer) (id : nat) (w : waits) : waits :=
  if in_init then call_shutdown w id None
  else
    let a := shutdown_answer a1 a2 in
    if (rv_ a =? 1)%Z then call_shutdown w id None
    else
      match err_ a with
      | SSL_ERROR_WANT_READ =>
          let w := set_waits w (wait_read_callback_ w) (wait_write_callback_ w) (Some id) in
          match wait_read_callback_ w with None => set_ops w (start (reads_ w)) (writes_ w) | Some _ => w end
      | SSL_ERROR_WANT_WRITE =>
          let w := set_waits w (wait_read_callback_ w) (wait_write_callback_ w) (Some id) in
          match wait_write_callback_ w with None => set_ops w (reads_ w) (start (writes_ w)) | Some _ => w end
      | SSL_ERROR_ZERO_RETURN => call_shutdown w id None
      | _ => match queue_ a with [] => call_shutdown w id None | _ => call_shutdown w id (Some connection_reset) end
      end.

Definition OnDoWaitShutdown (in_init : bool) (a1 a2 : answer) (ec : error_code) (id : nat) (w : waits) : waits :=
  let w := set_waits w (wait_read_callback_ w) (wait_write_callback_ w) None in
  match ec with Some _ => call_shutdown w id ec | None => Shutdown in_init a1 a2 id w end.

(** The ends of [OnWaitRead] and [OnWaitWrite]. *)
Definition deliver (d : direction) (ec : error_code) (w : waits) : waits :=
  match d with
  | Reading =>
      match wait_read_callback_ w with
      | None => w
      | Some id => call_read (set_waits w None (wait_write_callback_ w) (wait_shutdown_callback_ w)) id ec
      end
  | Writing =>
      match wait_write_callback_ w with
      | None => w
      | Some id => call_write (set_waits w (wait_read_callback_ w) None (wait_shutdown_callback_ w)) id ec
      end
  end.

(** [OnWaitRead] and [OnWaitWrite] on a socket that is not disconnected, with an error that is not of [aborted]. *)
Definition on_wait (d : direction) (in_init : bool) (a1 a2 : answer) (ec : error_code) (w : waits) : waits :=
  match wait_shutdown_callback_ w with
  | Some id => let w := OnDoWaitShutdown in_init a1 a2 ec id w in set_conts w (conts_ w ++ [(d, ec)])
  | None => deliver d ec w
  end.

(** [WaitRead] and [WaitWrite]. *)
Definition WaitRead (disconnected : bool) (pending_read_error : Z) (in_init : bool) (a1 a2 : answer) (id : nat) (w : waits) : waits :=
  let w := set_asked w (reads_asked_ w ++ [id]) (writes_asked_ w) in
  if disconnected then call_read w id (Some connection_refused)
  else
    let w := set_waits w (Some id) (wait_write_callback_ w) (wait_shutdown_callback_ w) in
    if negb (pending_read_error =? kSSLClientSocketNoPendingResult)%Z then on_wait Reading in_init a1 a2 None w
    else set_ops w (start (reads_ w)) (writes_ w).

Definition WaitWrite (disconnected : bool) (id : nat) (w : waits) : waits :=
  let w := set_asked w (reads_asked_ w) (writes_asked_ w ++ [id]) in
  if disconnected then call_write w id (Some connection_refused)
  else set_ops (set_waits w (wait_read_callback_ w) (Some id) (wait_shutdown_callback_ w)) (reads_ w) (start (writes_ w)).

(** *** Reading, writing and peeking *)

(** [cleared_] counts the calls of [ClearEarlyData]. *)
Record payload := mkPayload {
  pending_read_error_ : Z;
  handled_early_data_result_ : bool;
  peek_complete_ : bool;
  was_ever_used_ : bool;
  first_post_handshake_write_ : bool;
  early_data_received_ : bool;
  cleared_ : nat
}.

Definition payload_init : payload := mkPayload kSSLClientSocketNoPendingResult false false false true false 0.

Definition set_pending (p : payload) (e : Z) : payload :=
  mkPayload e (handled_early_data_result_ p) (peek_complete_ p) (was_ever_used_ p) (first_post_handshake_write_ p) (early_data_received_ p)
    (cleared_ p).

(** The loop of the client's [DoPayloadRead]: what [SSL_read] answers, call by call, and whether [SSL_renegotiate] succeeds.  The total,
    and the last return value and error. *)
Fixpoint read_loop (total : Z) (calls : list (answer * bool)) : option (Z * Z * ssl_error * list queued_error) :=
  match calls with
  | [] => None
  | (a, renegotiated) :: calls =>
      let '(total, ssl_err) :=
        if (0 <? rv_ a)%Z then ((total + rv_ a)%Z, err_ a)
        else if bool_decide (err_ a = SSL_ERROR_WANT_RENEGOTIATE) && negb renegotiated then (total, SSL_ERROR_SSL)
        else (total, err_ a) in
      if decide (ssl_err = SSL_ERROR_WANT_RENEGOTIATE) then read_loop total calls else Some (total, rv_ a, ssl_err, queue_ a)
  end.

(** The error that a read which failed leaves for the next. *)
Definition read_error (send_client_cert : bool) (ssl_err : ssl_error) (queue : list queued_error) : Z :=
  let e :=
    match ssl_err with
    | SSL_ERROR_ZERO_RETURN => 0
    | SSL_ERROR_WANT_X509_LOOKUP =>
        if negb send_client_cert then ERR_SSL_CLIENT_AUTH_CERT_NEEDED else MapOpenSSLErrorWithDetails ssl_err queue
    | SSL_ERROR_WANT_PRIVATE_KEY_OPERATION => ERR_IO_PENDING
    | _ => MapOpenSSLErrorWithDetails ssl_err queue
    end%Z in
  if (e =? ERR_CONNECTION_CLOSED)%Z then 0%Z else e.

Definition DoPayloadRead_client (send_client_cert : bool) (calls : list (answer * bool)) (p : payload) : option (Z * payload) :=
  if negb (pending_read_error_ p =? kSSLClientSocketNoPendingResult)%Z
  then Some (pending_read_error_ p, set_pending p kSSLClientSocketNoPendingResult)
  else
    '(total, ssl_ret, ssl_err, queue) ← read_loop 0 calls;
    let p := if (ssl_ret <=? 0)%Z then set_pending p (read_error send_client_cert ssl_err queue) else p in
    if (0 <? total)%Z
    then Some (total, if (pending_read_error_ p =? ERR_IO_PENDING)%Z then set_pending p kSSLClientSocketNoPendingResult else p)
    else Some (pending_read_error_ p, set_pending p kSSLClientSocketNoPendingResult).

Definition DoPayloadRead_server (in_early_data : bool) (a : answer) (p : payload) : Z * payload :=
  if (0 <=? rv_ a)%Z
  then (rv_ a, if in_early_data then mkPayload (pending_read_error_ p) (handled_early_data_result_ p) (peek_complete_ p) (was_ever_used_ p)
                                       (first_post_handshake_write_ p) true (cleared_ p) else p)
  else (map_answer a, p).

(** The end of [Read], and of [Write]. *)
Definition read_result (rv : Z) : Z * error_code :=
  if (rv =? ERR_IO_PENDING)%Z then (0%Z, Some try_again)
  else if (rv =? 0)%Z then (0%Z, Some eof)
  else if (rv <? 0)%Z then (0%Z, Some connection_refused)
  else (rv, None).

Definition Read_client (send_client_cert : bool) (calls : list (answer * bool)) (p : payload) : option (Z * error_code * payload) :=
  '(rv, p) ← DoPayloadRead_client send_client_cert calls p; Some (read_result rv, p).

Definition Read_server (in_early_data : bool) (a : answer) (p : payload) : Z * error_code * payload :=
  let '(rv, p) := DoPayloadRead_server in_early_data a p in (read_result rv, p).

Definition DoPayloadWrite_client (init_finished : bool) (a : answer) (p : payload) : Z * payload :=
  if (0 <=? rv_ a)%Z
  then (rv_ a, if first_post_handshake_write_ p && init_finished
               then mkPayload (pending_read_error_ p) (handled_early_data_result_ p) (peek_complete_ p) (was_ever_used_ p) false
                      (early_data_received_ p) (cleared_ p) else p)
  else if decide (err_ a = SSL_ERROR_WANT_PRIVATE_KEY_OPERATION) then (ERR_IO_PENDING, p)
  else (map_answer a, p).

Definition DoPayloadWrite_server (a : answer) (p : payload) : Z * payload :=
  if (0 <=? rv_ a)%Z then (rv_ a, p) else (map_answer a, p).

Definition Write (sd : side) (init_finished : bool) (a : answer) (p : payload) : Z * error_code * payload :=
  let '(rv, p) := match sd with Client => DoPayloadWrite_client init_finished a p | Server => DoPayloadWrite_server a p end in
  if (rv =? ERR_IO_PENDING)%Z then (0%Z, Some try_again, p)
  else
    let p := match sd with
             | Client => if (0 <? rv)%Z then mkPayload (pending_read_error_ p) (handled_early_data_result_ p) (peek_complete_ p) true
                                               (first_post_handshake_write_ p) (early_data_received_ p) (cleared_ p) else p
             | Server => p
             end in
    if (rv <? 0)%Z then (0%Z, Some connection_refused, p) else (rv, None, p).

(** [DoPeek], on a socket that is connected; [hs] and [peek] are what [SSL_do_handshake] and [SSL_peek] answer. *)
Definition DoPeek (early_data_enabled : bool) (hs peek : answer) (p : payload) : payload :=
  let peek_rest (p : payload) :=
    if peek_complete_ p then p
    else match err_ peek with
         | SSL_ERROR_WANT_READ | SSL_ERROR_WANT_WRITE => p
         | _ => mkPayload (pending_read_error_ p) (handled_early_data_result_ p) true (was_ever_used_ p) (first_post_handshake_write_ p)
                  (early_data_received_ p) (cleared_ p)
         end in
  if early_data_enabled && negb (handled_early_data_result_ p) then
    let err := if (0 <? rv_ hs)%Z then OK else map_answer hs in
    if (err =? ERR_IO_PENDING)%Z then p
    else
      let rejected := (err =? ERR_EARLY_DATA_REJECTED)%Z || (err =? ERR_WRONG_VERSION_ON_EARLY_DATA)%Z in
      let p := mkPayload (pending_read_error_ p) true (if (err =? OK)%Z then peek_complete_ p else true) (was_ever_used_ p)
                 (first_post_handshake_write_ p) (early_data_received_ p) (if rejected then S (cleared_ p) else cleared_ p) in
      if negb (err =? OK)%Z then p else peek_rest p
  else peek_rest p.

(** *** The whole *)

Record ssl_socket := mkSsl { hs_ : handshake; waits_ : waits; payload_ : payload }.

Definition ssl_init : ssl_socket := mkSsl hs_init waits_init payload_init.

(** [OnWaitRead] and [OnWaitWrite]. *)
Definition OnWait (d : direction) (in_init : bool) (a1 a2 : answer) (ec : error_code) (s : ssl_socket) : ssl_socket :=
  if disconnected_ (hs_ s) then s
  else if aborted ec then mkSsl (set_callback (hs_ s) None) (set_waits (waits_ s) None None None) (payload_ s)
  else mkSsl (hs_ s) (on_wait d in_init a1 a2 ec (waits_ s)) (payload_ s).

(** [Disconnect]: the socket is closed, and the operations on it end. *)
Definition Disconnect (s : ssl_socket) : ssl_socket :=
  let h := hs_ s in
  let w := waits_ s in
  mkSsl (mkHs true (next_handshake_state_ h) (completed_ h) (in_confirm_handshake_ h) (negotiated_protocol_ h) None (cancel (hs_reads_ h))
           (cancel (hs_writes_ h)) (peeks_ h) (asked_ h) (called_ h))
    (set_ops (set_waits w None None None) (cancel (reads_ w)) (cancel (writes_ w)))
    (payload_ s).

(** The calls of the user, the results of the operations of asio, and their handlers.  The answers of BoringSSL come with the event. *)
Inductive event :=
  | EConfirm (in_early_data : bool) (a : answer) (alpn : text) (id : nat)
  | EShutdown (in_init : bool) (a1 a2 : answer) (id : nat)
  | ERead (calls : list (answer * bool)) (in_early_data : bool)
  | EWrite (init_finished : bool) (a : answer)
  | EWaitRead (in_init : bool) (a1 a2 : answer) (id : nat)
  | EWaitWrite (id : nat)
  | EDisconnect
  | HsReadDone (ec : error_code) | HsWriteDone (ec : error_code)
  | ReadDone (ec : error_code) | WriteDone (ec : error_code)
  | RunHsRead (a : answer) (alpn : text) | RunHsWrite (a : answer) (alpn : text)
  | RunRead (in_init : bool) (a1 a2 : answer) | RunWrite (in_init : bool) (a1 a2 : answer)
  | RunCont
  | RunPeek (hs peek : answer).

Section Run.
Variables (sd : side) (send_client_cert early_data_enabled : bool).

Definition with_hs (s : ssl_socket) (h : handshake) : ssl_socket := mkSsl h (waits_ s) (payload_ s).
Definition with_waits (s : ssl_socket) (w : waits) : ssl_socket := mkSsl (hs_ s) w (payload_ s).
Definition with_payload (s : ssl_socket) (p : payload) : ssl_socket := mkSsl (hs_ s) (waits_ s) p.

Definition step (s : ssl_socket) (e : event) : option ssl_socket :=
  let h := hs_ s in
  let w := waits_ s in
  let p := payload_ s in
  match e with
  | EConfirm early a alpn id => h ← ConfirmHandshake send_client_cert early a alpn id h; Some (with_hs s h)
  | EShutdown in_init a1 a2 id => Some (with_waits s (Shutdown in_init a1 a2 id w))
  | ERead calls early =>
      match sd with
      | Client => '(_, p) ← Read_client send_client_cert calls p; Some (with_payload s p)
      | Server => '(a, _) ← head calls; Some (with_payload s (Read_server early a p).2)
      end
  | EWrite fin a => Some (with_payload s (Write sd fin a p).2)
  | EWaitRead in_init a1 a2 id => Some (with_waits s (WaitRead (disconnected_ h) (pending_read_error_ p) in_init a1 a2 id w))
  | EWaitWrite id => Some (with_waits s (WaitWrite (disconnected_ h) id w))
  | EDisconnect => Some (Disconnect s)
  | HsReadDone ec => Some (with_hs s (set_hs_ops h (complete (hs_reads_ h) ec) (hs_writes_ h)))
  | HsWriteDone ec => Some (with_hs s (set_hs_ops h (hs_reads_ h) (complete (hs_writes_ h) ec)))
  | ReadDone ec => Some (with_waits s (set_ops w (complete (reads_ w) ec) (writes_ w)))
  | WriteDone ec => Some (with_waits s (set_ops w (reads_ w) (complete (writes_ w) ec)))
  | RunHsRead a alpn =>
      ec ← head (queued (hs_reads_ h));
      let h := set_hs_ops h (dequeue (hs_reads_ h)) (hs_writes_ h) in
      if aborted ec then Some (with_hs s h) else h ← on_ready sd send_client_cert a alpn h; Some (with_hs s h)
  | RunHsWrite a alpn =>
      ec ← head (queued (hs_writes_ h));
      let h := set_hs_ops h (hs_reads_ h) (dequeue (hs_writes_ h)) in
      if aborted ec then Some (with_hs s h) else h ← on_ready sd send_client_cert a alpn h; Some (with_hs s h)
  | RunRead in_init a1 a2 =>
      ec ← head (queued (reads_ w));
      Some (OnWait Reading in_init a1 a2 ec (with_waits s (set_ops w (dequeue (reads_ w)) (writes_ w))))
  | RunWrite in_init a1 a2 =>
      ec ← head (queued (writes_ w));
      Some (OnWait Writing in_init a1 a2 ec (with_waits s (set_ops w (reads_ w) (dequeue (writes_ w)))))
  | RunCont => '(d, ec) ← head (conts_ w); Some (with_waits s (deliver d ec (set_conts w (tail (conts_ w)))))
  | RunPeek a peek =>
      match peeks_ h with
      | O => None
      | S n => Some (mkSsl (set_peeks h n) w (if disconnected_ h || negb (completed_ h) then p else DoPeek early_data_enabled a peek p))
      end
  end.

(** The program puts no error of its own into the queue ([OpenSSLPutNetError] is not called): none there stands for [OK] or
    [ERR_IO_PENDING]. *)
Definition queue_ok (a : answer) : Prop := ∀ code, lib_net code ∈ queue_ a → (1 < code)%Z.

(** [SSL_do_handshake] waits for an operation on a private key or a verification that the program has installed; it
    installs none.  No wait is started then. *)
Definition async (a : answer) : bool :=
  match sd with
  | Client => negb (0 <? rv_ a)%Z && bool_decide (err_ a = SSL_ERROR_WANT_PRIVATE_KEY_OPERATION ∨ err_ a = SSL_ERROR_WANT_CERTIFICATE_VERIFY)
  | Server => negb (rv_ a =? 1)%Z && bool_decide (err_ a = SSL_ERROR_WANT_PRIVATE_KEY_OPERATION)
  end.

(** What may happen: a call of [ConfirmHandshake] after the handshake, once at a time and on the client; one wait in either direction at
    a time; an operation completes while it is under way; a handler runs when it is queued; the calls of [SSL_read] come to an end, and those
    that return data have no error. *)
Definition allowed (s : ssl_socket) (e : event) : Prop :=
  let h := hs_ s in
  let w := waits_ s in
  match e with
  | EConfirm early a _ _ => sd = Client ∧ completed_ h = true ∧ in_confirm_handshake_ h = false ∧ disconnected_ h = false ∧ queue_ok a
  | EShutdown _ _ _ _ => wait_shutdown_callback_ w = None
  | ERead calls _ => is_Some (read_loop 0 calls) ∧ Forall (λ c, (0 < rv_ c.1)%Z → err_ c.1 = SSL_ERROR_NONE) calls
  | EWrite _ _ => True
  | EWaitRead _ _ _ _ => wait_read_callback_ w = None
  | EWaitWrite _ => wait_write_callback_ w = None
  | EDisconnect => True
  | HsReadDone _ => 0 < waiting (hs_reads_ h)
  | HsWriteDone _ => 0 < waiting (hs_writes_ h)
  | ReadDone _ => 0 < waiting (reads_ w)
  | WriteDone _ => 0 < waiting (writes_ w)
  | RunHsRead a _ => queued (hs_reads_ h) ≠ [] ∧ queue_ok a
  | RunHsWrite a _ => queued (hs_writes_ h) ≠ [] ∧ queue_ok a
  | RunRead _ _ _ => queued (reads_ w) ≠ []
  | RunWrite _ _ _ => queued (writes_ w) ≠ []
  | RunCont => conts_ w ≠ []
  | RunPeek _ _ => 0 < peeks_ h
  end.

(** Nothing but [Disconnect] closes the socket or cancels a wait on it, and the handshake waits for nothing but the socket. *)
Definition calm (s : ssl_socket) (e : event) : Prop :=
  match e with
  | EConfirm _ a _ _ => async a = false
  | RunHsRead a _ => async a = false ∧ Forall (λ ec, aborted ec = false) (queued (hs_reads_ (hs_ s)))
  | RunHsWrite a _ => async a = false ∧ Forall (λ ec, aborted ec = false) (queued (hs_writes_ (hs_ s)))
  | RunRead _ _ _ => Forall (λ ec, aborted ec = false) (queued (reads_ (waits_ s)))
  | RunWrite _ _ _ => Forall (λ ec, aborted ec = false) (queued (writes_ (waits_ s)))
  | _ => True
  end.

Definition begin (a : answer) (alpn : text) (id : nat) : option ssl_socket :=
  h ← Connect sd send_client_cert a alpn id hs_init; Some (with_hs ssl_init h).

(** A run of allowed events of which [ok] holds. *)
Inductive runs (ok : ssl_socket → event → Prop) : ssl_socket → list event → ssl_socket → Prop :=
  | runs_nil s : runs ok s [] s
  | runs_snoc s es s1 e s' : runs ok s es s1 → allowed s1 e → ok s1 e → step s1 e = Some s' → runs ok s (es ++ [e]) s'.

End Run.

(** ** The handshake *)

Lemma map_ssl_range r q : (MapOpenSSLErrorSSL r q < -1)%Z.
Proof. destruct r; cbn; try (vm_compute; reflexivity). case_decide; vm_compute; reflexivity. Qed.

Lemma map_queue_range q : (∀ code, lib_net code ∈ q → (1 < code)%Z) → (map_queue q < -1)%Z.
Proof.
  induction q as [|[r|code|] q IH]; intros Hq; cbn; [vm_compute; reflexivity|apply map_ssl_range| |].
  - specialize (Hq code ltac:(by left)). lia.
  - apply IH. intros code Hin. apply Hq. by right.
Qed.

Definition wants (e : ssl_error) : bool := match e with SSL_ERROR_WANT_READ | SSL_ERROR_WANT_WRITE => true | _ => false end.

(** An error is either that the socket is to be waited for, or fatal. *)
Lemma map_answer_range a : (∀ code, lib_net code ∈ queue_ a → (1 < code)%Z) →
  if wants (err_ a) then map_answer a = ERR_IO_PENDING else (map_answer a < -1)%Z.
Proof.
  intros Hq. unfold map_answer, MapOpenSSLErrorWithDetails. pose proof (map_queue_range _ Hq).
  destruct (err_ a); cbn; try done; try (vm_compute; reflexivity).
Qed.

Definition hs_out (h : handshake) : nat := out (hs_reads_ h) + out (hs_writes_ h).

(** What the loop leaves alone. *)
Definition loop_kept (h h' : handshake) : Prop :=
  disconnected_ h' = disconnected_ h ∧ in_confirm_handshake_ h' = in_confirm_handshake_ h ∧ user_callback_ h' = user_callback_ h ∧
  asked_ h' = asked_ h ∧ called_ h' = called_ h.

(** The loop ends after at most two rounds: either the handshake waits, for the socket or for an operation of its own, or it is over. *)
Lemma handshake_loop_total sd scc a alpn h :
  queue_ok a → next_handshake_state_ h = STATE_HANDSHAKE → (in_confirm_handshake_ h = true → completed_ h = true) →
  ∃ rv h', DoHandshakeLoop sd scc a alpn h = Some (rv, h') ∧ loop_kept h h' ∧
    (rv = ERR_IO_PENDING ∧ next_handshake_state_ h' = STATE_HANDSHAKE ∧ completed_ h' = completed_ h ∧
       hs_out h' = (if async sd a then hs_out h else S (hs_out h)) ∨
     rv ≠ ERR_IO_PENDING ∧ (rv <= 0)%Z ∧ next_handshake_state_ h' = STATE_NONE ∧ hs_out h' = hs_out h ∧
       (completed_ h = true ∨ rv = OK → completed_ h' = true)).
Proof.
  intros Hq Hst Hc. pose proof (map_answer_range a Hq) as Hm. unfold DoHandshakeLoop, handshake_loop. rewrite Hst. cbn [mbind option_bind].
  destruct sd; unfold DoHandshake, DoHandshake_client, DoHandshake_server, async; set (m := map_answer a) in *; clearbody m.
  - destruct (Z.ltb_spec 0 (rv_ a)) as [Hr|Hr]; cbn [negb andb].
    { cbn. unfold DoHandshakeComplete. cbn. destruct (in_confirm_handshake_ h) eqn:Ei; cbn; eexists _, _; (split; [reflexivity|]); (split; [done|]); right; cbn.
      - split_and!; [done|done|done|done|]. intros _. by apply Hc.
      - split_and!; done. }
    destruct (bool_decide (err_ a = SSL_ERROR_WANT_X509_LOOKUP) && negb scc) eqn:Ex.
    { cbn. eexists _, _. split; [reflexivity|]. split; [done|]. right. split_and!; try done. by intros [?|?]. }
    destruct (decide (err_ a = SSL_ERROR_WANT_PRIVATE_KEY_OPERATION)) as [Ep|Ep].
    { rewrite (bool_decide_true (err_ a = SSL_ERROR_WANT_PRIVATE_KEY_OPERATION ∨ err_ a = SSL_ERROR_WANT_CERTIFICATE_VERIFY)) by by left. cbn. rewrite Ep. cbn. eexists _, _. split; [reflexivity|]. split; [done|]. left. split_and!; done. }
    destruct (decide (err_ a = SSL_ERROR_WANT_CERTIFICATE_VERIFY)) as [Ev|Ev].
    { rewrite (bool_decide_true (err_ a = SSL_ERROR_WANT_PRIVATE_KEY_OPERATION ∨ err_ a = SSL_ERROR_WANT_CERTIFICATE_VERIFY)) by by right. cbn. rewrite Ev. cbn. eexists _, _. split; [reflexivity|]. split; [done|]. left. split_and!; done. }
    rewrite (bool_decide_false (err_ a = SSL_ERROR_WANT_PRIVATE_KEY_OPERATION ∨ err_ a = SSL_ERROR_WANT_CERTIFICATE_VERIFY)) by by intros [?|?]. destruct (wants (err_ a)) eqn:Ew.
    + rewrite Hm. cbn. destruct (err_ a) eqn:Ee; try done; eexists _, _; (split; [reflexivity|]); (split; [done|]); left; (split_and!; try done);
        unfold hs_out, out; cbn; lia.
    + unfold ERR_IO_PENDING in *. assert ((m =? -1)%Z = false) as Em by (apply Z.eqb_neq; lia). rewrite ?Em. cbn. rewrite ?Em. cbn.
      unfold DoHandshakeComplete. rewrite (proj2 (Z.ltb_lt _ _)) by lia. cbn. rewrite ?Em. cbn.
      rewrite (bool_decide_true (STATE_HANDSHAKE_COMPLETE ≠ STATE_NONE)), (bool_decide_false (STATE_NONE ≠ STATE_NONE)) by (discriminate || tauto).
      cbn [mbind option_bind]. rewrite Em. eexists _, _. split; [reflexivity|]. split; [done|]. right. unfold OK. split_and!; try done; try lia. cbn. intros [?|?]; [done|lia].
  - destruct (Z.eqb_spec (rv_ a) 1) as [Hr|Hr]; cbn [negb andb].
    { cbn. eexists _, _. split; [reflexivity|]. split; [done|]. right. split_and!; try done. }
    destruct (decide (err_ a = SSL_ERROR_WANT_PRIVATE_KEY_OPERATION)) as [Ep|Ep].
    { rewrite (bool_decide_true (err_ a = SSL_ERROR_WANT_PRIVATE_KEY_OPERATION)) by done. cbn. rewrite Ep. cbn. eexists _, _. split; [reflexivity|]. split; [done|]. left. split_and!; done. }
    rewrite (bool_decide_false (err_ a = SSL_ERROR_WANT_PRIVATE_KEY_OPERATION)) by done. destruct (wants (err_ a)) eqn:Ew.
    + rewrite Hm. cbn. destruct (err_ a) eqn:Ee; try done; eexists _, _; (split; [reflexivity|]); (split; [done|]); left; (split_and!; try done);
        unfold hs_out, out; cbn; lia.
    + unfold ERR_IO_PENDING in *. assert ((m =? -1)%Z = false) as Em by (apply Z.eqb_neq; lia). rewrite ?Em. cbn. rewrite ?Em. cbn.
      rewrite (bool_decide_false (STATE_NONE ≠ STATE_NONE)) by tauto. cbn [mbind option_bind]. rewrite Em.
      eexists _, _. split; [reflexivity|]. split; [done|]. right. unfold OK. split_and!; try done; try lia. cbn. intros [?|?]; [done|lia].
Qed.

(** *** The invariant of the handshake *)

(** [k] says that all has been [calm] so far. *)
Record hs_inv (k : bool) (h : handshake) : Prop := {
  hi_sub : sublist (map fst (called_ h) ++ option_list (user_callback_ h)) (asked_ h);
  hi_success : ∀ id, (id, OK) ∈ called_ h → completed_ h = true;
  hi_confirm : in_confirm_handshake_ h = true → completed_ h = true;
  hi_gone : disconnected_ h = true → user_callback_ h = None;
  hi_shaking : next_handshake_state_ h = STATE_HANDSHAKE → completed_ h = false ∨ in_confirm_handshake_ h = true;
  hi_callback : is_Some (user_callback_ h) → next_handshake_state_ h = STATE_HANDSHAKE;
  hi_open : k = true → disconnected_ h = false →
    asked_ h = map fst (called_ h) ++ option_list (user_callback_ h) ∧
    match user_callback_ h with
    | Some _ => next_handshake_state_ h = STATE_HANDSHAKE ∧ hs_out h = 1
    | None => next_handshake_state_ h = STATE_NONE ∧ hs_out h = 0 ∧ in_confirm_handshake_ h = false
    end
}.

Lemma sublist_prefix {A} (l m k : list A) : sublist (l ++ m) k → sublist l k.
Proof. intros H. transitivity (l ++ m); [by apply sublist_inserts_r|done]. Qed.

Lemma set_confirm_id h b : in_confirm_handshake_ h = b → set_confirm h b = h.
Proof. destruct h. cbn. by intros <-. Qed.

Lemma set_callback_id h cb : user_callback_ h = cb → set_callback h cb = h.
Proof. destruct h. cbn. by intros <-. Qed.

(** A handshake that goes on for the callback [cb], unless that was dropped. *)
Record shaking (k : bool) (cb : option nat) (h : handshake) : Prop := {
  sh_state : next_handshake_state_ h = STATE_HANDSHAKE;
  sh_open : disconnected_ h = false;
  sh_sub : sublist (map fst (called_ h) ++ option_list cb) (asked_ h);
  sh_success : ∀ id, (id, OK) ∈ called_ h → completed_ h = true;
  sh_confirm : in_confirm_handshake_ h = true → completed_ h = true;
  sh_going : completed_ h = false ∨ in_confirm_handshake_ h = true;
  sh_calm : k = true → is_Some cb ∧ asked_ h = map fst (called_ h) ++ option_list cb ∧ hs_out h = 0
}.

(** A round of the handshake. *)
Lemma loop_inv k sd scc a alpn cb h :
  queue_ok a → (k = true → async sd a = false) → shaking k cb h →
  ∃ rv h', DoHandshakeLoop sd scc a alpn h = Some (rv, h') ∧ loop_kept h h' ∧
    (rv = ERR_IO_PENDING ∧ hs_inv k (set_callback h' cb) ∨
     rv ≠ ERR_IO_PENDING ∧
       hs_inv k (match cb with
                 | Some id => call (set_callback (set_confirm h' false) None) id rv
                 | None => set_callback (set_confirm h' false) None
                 end)).
Proof.
  intros Hu Hy [Hst Hd Ha Hs Hc Hcc Hk]. destruct (handshake_loop_total sd scc a alpn h Hu Hst Hc) as (rv & h' & E & K & Hr).
  exists rv, h'. split; [exact E|]. split; [exact K|]. destruct K as (K1 & K2 & K3 & K4 & K5).
  destruct Hr as [(Erv & R1 & R2 & R3)|(Nrv & Hle & R1 & R2 & R3)]; [left|right]; (split; [done|]).
  - split; cbn; rewrite ?K1, ?K2, ?K4, ?K5, ?R2, ?Hd; try done.
    intros Ek _. destruct (Hk Ek) as ([id ->] & Ea & H0). rewrite (Hy Ek) in R3. split; [done|]. split; [done|]. unfold hs_out in *. cbn. lia.
  - assert (∀ id, (id, OK) ∈ called_ h → completed_ h' = true) as Hold by (intros id Hin; apply R3; left; by eapply Hs).
    destruct cb as [id|]; split; cbn; rewrite ?K1, ?K4, ?K5, ?R1, ?Hd, ?map_app, ?app_nil_r; try done; try (by intros []); try (by rewrite app_nil_r in Ha).
    + intros id' [Hin|Hin]%elem_of_app; [by apply (Hold id')|]. apply list_elem_of_singleton in Hin. apply R3. right.
      rewrite (proj2 (Z.ltb_ge _ _)) in Hin by (unfold OK; lia). by injection Hin.
    + intros Ek _. destruct (Hk Ek) as (_ & Ea & H0). split; [done|]. split_and!; [done|unfold hs_out in *; cbn; lia|done].
    + intros Ek _. by destruct (Hk Ek) as ([] & _).
Qed.

Lemma connect_inv k sd scc a alpn id :
  queue_ok a → (k = true → async sd a = false) → ∃ h, Connect sd scc a alpn id hs_init = Some h ∧ hs_inv k h.
Proof.
  intros Hu Hy. destruct (loop_inv k sd scc a alpn (Some id) (set_state (ask hs_init id) STATE_HANDSHAKE) Hu Hy) as (rv & h' & E & K & Hr).
  { split; cbn; try done; first [by left|by intros ? ?%not_elem_of_nil|intros _; split; [by eexists|done]]. }
  unfold Connect. cbn [disconnected_ hs_init]. rewrite E. cbn [mbind option_bind]. eexists. split; [reflexivity|].
  destruct K as (_ & K2 & K3 & _). destruct Hr as [[-> Hi]|[Hn Hi]]; [exact Hi|].
  rewrite (proj2 (Z.eqb_neq _ _) Hn). by rewrite set_confirm_id, set_callback_id in Hi.
Qed.

Lemma confirm_inv k scc early a alpn id h :
  hs_inv k h → queue_ok a → (k = true → async Client a = false) → completed_ h = true → in_confirm_handshake_ h = false → disconnected_ h = false →
  ∃ h', ConfirmHandshake scc early a alpn id h = Some h' ∧ hs_inv k h' ∧ disconnected_ h' = false.
Proof.
  intros [I1 I2 I3 I4 I5 I6 I7] Hu Hy Hc Hi Hd. unfold ConfirmHandshake. rewrite Hc, Hi. cbn [negb orb].
  destruct (user_callback_ h) as [id0|] eqn:Ecb; [destruct (I5 (I6 ltac:(by eexists))); congruence|]. cbn in I1. rewrite app_nil_r in I1.
  destruct early; cbn [negb].
  - destruct (loop_inv k Client scc a alpn (Some id) (set_confirm (set_state (ask h id) STATE_HANDSHAKE) true) Hu Hy) as (rv & h' & E & K & Hr).
    { split; cbn; try done; [by apply sublist_app|by right|]. intros Ek. split; [by eexists|]. destruct (I7 Ek Hd) as (-> & _ & H0 & _).
      split; [by rewrite app_nil_r|done]. }
    rewrite E. cbn [mbind option_bind]. eexists. split; [reflexivity|].
    destruct K as (K1 & K2 & K3 & _). cbn in K1, K3. destruct Hr as [[-> Hr]|[Hn Hr]]; [split; [exact Hr|cbn; congruence]|].
    rewrite (proj2 (Z.eqb_neq _ _) Hn). rewrite set_callback_id in Hr by (cbn; congruence). split; [exact Hr|cbn; congruence].
  - eexists. split; [reflexivity|]. split; [|done].
    split; cbn; rewrite ?map_app, ?Hc, ?Hd, ?Ecb, ?app_nil_r; try done; try (by intros []); try (by apply sublist_app); [rewrite Hc in I5; by auto|].
    intros Ek _. destruct (I7 Ek Hd) as (-> & Hst). cbn. by rewrite !app_nil_r.
Qed.

Lemma hs_inv_ops k h r w : hs_inv k h → (k = true → disconnected_ h = false → out r + out w = hs_out h) → hs_inv k (set_hs_ops h r w).
Proof.
  intros [I1 I2 I3 I4 I5 I6 I7] Ho. split; try done. cbn. intros Ek Hd. destruct (I7 Ek Hd) as [Ea Hst]. specialize (Ho Ek Hd). split; [done|].
  unfold hs_out in *. cbn. rewrite Ho. done.
Qed.

Lemma hs_inv_peeks k h n : hs_inv k h → hs_inv k (set_peeks h n).
Proof. intros []. by split. Qed.

(** A wait of the handshake is over. *)
Lemma on_ready_inv k sd scc a alpn h r w :
  hs_inv k h → S (out r + out w) = hs_out h → queue_ok a → (k = true → async sd a = false) →
  ∃ h', on_ready sd scc a alpn (set_hs_ops h r w) = Some h' ∧ hs_inv k h' ∧ disconnected_ h' = disconnected_ h.
Proof.
  intros Hi Ho Hu Hy. pose proof Hi as [I1 I2 I3 I4 I5 I6 I7]. set (h0 := set_hs_ops h r w).
  assert (disconnected_ h = true → hs_inv k h0) as Hgone by (intros Hd; apply hs_inv_ops; [done|congruence]).
  assert (k = true → disconnected_ h = false → is_Some (user_callback_ h) ∧ asked_ h = map fst (called_ h) ++ option_list (user_callback_ h) ∧ hs_out h0 = 0) as Hk.
  { intros Ek Hd. destruct (I7 Ek Hd) as [Ea Hst]. unfold hs_out in *. cbn. destruct (user_callback_ h) as [id|]; [|lia].
    split; [by eexists|]. split; [done|]. destruct Hst. lia. }
  assert (disconnected_ h = false → next_handshake_state_ h ≠ STATE_HANDSHAKE → hs_inv k h0) as Hidle.
  { intros Hd Hn. split; try done. intros Ek _. destruct (Hk Ek Hd) as (Hs & _). by destruct (Hn (I6 Hs)). }
  assert (disconnected_ h = false → next_handshake_state_ h = STATE_HANDSHAKE →
    ∀ scc, ∃ h', OnHandshakeIOComplete sd scc a alpn h0 = Some h' ∧ hs_inv k h' ∧ disconnected_ h' = false) as Hio.
  { intros Hd Hst scc'. unfold OnHandshakeIOComplete.
    destruct (loop_inv k sd scc' a alpn (user_callback_ h) h0 Hu Hy) as (rv & h' & E & K & Hr).
    { split; cbn; try done; [by apply I5|]. intros Ek. by apply Hk. }
    rewrite E. cbn [mbind option_bind]. destruct K as (K1 & K2 & K3 & _). cbn in K1, K3. eexists. split; [reflexivity|]. destruct Hr as [[-> Hr]|[Hn Hr]].
    - cbn. rewrite set_callback_id in Hr by done. split; [done|congruence].
    - rewrite (proj2 (Z.eqb_neq _ _) Hn). unfold do_callback. cbn. rewrite K3.
      destruct (user_callback_ h); [split; [exact Hr|cbn; congruence]|].
      rewrite set_callback_id in Hr by (cbn; congruence). split; [exact Hr|cbn; congruence]. }
  unfold on_ready, RetryAllOperations, OnReadReady_server. cbn [disconnected_ next_handshake_state_ set_hs_ops h0].
  destruct (disconnected_ h) eqn:Hd; [exists h0; by destruct sd; auto|].
  destruct (decide (next_handshake_state_ h = STATE_HANDSHAKE)) as [Hst|Hst].
  - destruct sd.
    + destruct (Hio eq_refl Hst scc) as (h' & -> & Hi' & Hd'). cbn [mbind option_bind]. eexists. split; [reflexivity|]. split; [by apply hs_inv_peeks|done].
    + destruct (Hio eq_refl Hst false) as (h' & E & Hi' & Hd'). exists h'. split_and!; [exact E|exact Hi'|exact Hd'].
  - destruct sd; cbn [mbind option_bind]; eexists; (split; [reflexivity|]); (split; [|done]); [apply hs_inv_peeks|]; by apply Hidle.
Qed.

(** *** The invariant of the waits *)

Definition cont_in (d : direction) (w : waits) : Prop := ∃ ec, (d, ec) ∈ conts_ w.

(** The callbacks of one direction: those asked for, called and pending. *)
Definition account (k dd : bool) (asked : list nat) (called : list (nat * error_code)) (cb : option nat) : Prop :=
  sublist (map fst called ++ option_list cb) asked ∧ (k = true → dd = false → asked = map fst called ++ option_list cb) ∧ (dd = true → cb = None).

Lemma account_asked k id asked called : account k false asked called None → account k false (asked ++ [id]) called (Some id).
Proof.
  intros (A1 & A2 & _). cbn in A1, A2. rewrite app_nil_r in A1, A2. split; [by apply sublist_app|]. split; [|done]. intros Ek _.
  by rewrite (A2 Ek eq_refl).
Qed.

Lemma account_called k dd id ec asked called : account k dd asked called (Some id) → account k dd asked (called ++ [(id, ec)]) None.
Proof. intros (A1 & A2 & A3). unfold account. cbn in *. rewrite map_app, app_nil_r. by split_and!. Qed.

Lemma account_refused k id ec asked called : account k true asked called None → account k true (asked ++ [id]) (called ++ [(id, ec)]) None.
Proof. intros (A1 & _). unfold account. cbn in *. rewrite map_app, !app_nil_r in *. split_and!; try done. by apply sublist_app. Qed.

Lemma account_dropped k dd asked called cb : account k dd asked called cb → k = false ∨ dd = true → account k dd asked called None.
Proof.
  intros (A1 & _ & _) Hk. split; [cbn; rewrite app_nil_r; by eapply sublist_prefix|]. split; [|done]. intros -> ->. by destruct Hk.
Qed.

Record waits_inv (k dd : bool) (w : waits) : Prop := {
  wi_reads : account k dd (reads_asked_ w) (reads_called_ w) (wait_read_callback_ w);
  wi_writes : account k dd (writes_asked_ w) (writes_called_ w) (wait_write_callback_ w);
  wi_read : is_Some (wait_read_callback_ w) → 1 <= out (reads_ w) ∨ cont_in Reading w;
  wi_write : is_Some (wait_write_callback_ w) → 1 <= out (writes_ w) ∨ cont_in Writing w
}.

(** What [Shutdown] does to the waits: it may start another one. *)
Lemma shutdown_waits in_init a1 a2 id w :
  let w' := Shutdown in_init a1 a2 id w in
  wait_read_callback_ w' = wait_read_callback_ w ∧ wait_write_callback_ w' = wait_write_callback_ w ∧
  conts_ w' = conts_ w ∧ out (reads_ w) <= out (reads_ w') ∧ out (writes_ w) <= out (writes_ w') ∧
  reads_asked_ w' = reads_asked_ w ∧ reads_called_ w' = reads_called_ w ∧ writes_asked_ w' = writes_asked_ w ∧ writes_called_ w' = writes_called_ w.
Proof.
  unfold Shutdown. destruct in_init; [done|]. destruct (rv_ _ =? 1)%Z; [done|].
  destruct (err_ _); try done; try (by destruct (queue_ _)); cbn; [destruct (wait_read_callback_ w)|destruct (wait_write_callback_ w)];
    cbn; split_and!; try done; unfold out; cbn; lia.
Qed.

Lemma waits_inv_shutdown k dd in_init a1 a2 id w : waits_inv k dd w → waits_inv k dd (Shutdown in_init a1 a2 id w).
Proof.
  intros [I1 I2 I3 I4]. pose proof (shutdown_waits in_init a1 a2 id w) as (E1 & E2 & E3 & E4 & E5 & E6 & E7 & E8 & E9). cbv zeta in *.
  split; unfold cont_in in *; rewrite ?E1, ?E2, ?E3, ?E6, ?E7, ?E8, ?E9; try done.
  - intros Hs. destruct (I3 Hs); [left; lia|by right].
  - intros Hs. destruct (I4 Hs); [left; lia|by right].
Qed.

(** What is called at the end of a wait. *)
Lemma deliver_inv k dd d ec w cs :
  account k dd (reads_asked_ w) (reads_called_ w) (wait_read_callback_ w) →
  account k dd (writes_asked_ w) (writes_called_ w) (wait_write_callback_ w) →
  (d ≠ Reading → is_Some (wait_read_callback_ w) → 1 <= out (reads_ w) ∨ ∃ ec, (Reading, ec) ∈ cs) →
  (d ≠ Writing → is_Some (wait_write_callback_ w) → 1 <= out (writes_ w) ∨ ∃ ec, (Writing, ec) ∈ cs) →
  waits_inv k dd (deliver d ec (set_conts w cs)).
Proof.
  intros I1 I2 I3 I4. unfold deliver, set_conts. cbn.
  destruct d; [destruct (wait_read_callback_ w) as [id|] eqn:Er|destruct (wait_write_callback_ w) as [id|] eqn:Er];
    split; unfold cont_in; cbn; rewrite ?Er; try done; try (by intros []); try (by apply account_called); auto.
Qed.

(** The handlers of the waits, once their result is off the queue. *)
Lemma on_wait_inv k d in_init a1 a2 ec w w0 :
  waits_inv k false w0 → wait_read_callback_ w = wait_read_callback_ w0 → wait_write_callback_ w = wait_write_callback_ w0 → conts_ w = conts_ w0 →
  reads_asked_ w = reads_asked_ w0 → reads_called_ w = reads_called_ w0 → writes_asked_ w = writes_asked_ w0 → writes_called_ w = writes_called_ w0 →
  (d ≠ Reading → out (reads_ w) = out (reads_ w0)) → (d ≠ Writing → out (writes_ w) = out (writes_ w0)) →
  waits_inv k false (on_wait d in_init a1 a2 ec w).
Proof.
  intros [I2 I3 I4 I5] E1 E2 E3 E4 E5 E6 E7 Er Ew. unfold on_wait. destruct (wait_shutdown_callback_ w) as [id|] eqn:Es.
  - set (w1 := OnDoWaitShutdown in_init a1 a2 ec id w).
    assert (wait_read_callback_ w1 = wait_read_callback_ w0 ∧ wait_write_callback_ w1 = wait_write_callback_ w0 ∧
      conts_ w1 = conts_ w0 ∧ out (reads_ w) <= out (reads_ w1) ∧ out (writes_ w) <= out (writes_ w1) ∧
      reads_asked_ w1 = reads_asked_ w0 ∧ reads_called_ w1 = reads_called_ w0 ∧ writes_asked_ w1 = writes_asked_ w0 ∧ writes_called_ w1 = writes_called_ w0)
      as (F1 & F2 & F3 & F4 & F5 & F6 & F7 & F8 & F9).
    { unfold w1, OnDoWaitShutdown. destruct ec; [by cbn|].
      pose proof (shutdown_waits in_init a1 a2 id (set_waits w (wait_read_callback_ w) (wait_write_callback_ w) None)) as (G1 & G2 & G3 & G4 & G5 & G6 & G7 & G8 & G9).
      cbn in *. split_and!; congruence || lia. }
    split; cbn; unfold cont_in; cbn; rewrite ?F1, ?F2, ?F3, ?F6, ?F7, ?F8, ?F9; try done; auto.
    + intros Hs. destruct d; [right; exists ec; apply elem_of_app; right; by left|].
      destruct (I4 Hs) as [?|(e & He)]; [left; specialize (Er ltac:(done)); lia|right; exists e; apply elem_of_app; by left].
    + intros Hs. destruct d; [|right; exists ec; apply elem_of_app; right; by left].
      destruct (I5 Hs) as [?|(e & He)]; [left; specialize (Ew ltac:(done)); lia|right; exists e; apply elem_of_app; by left].
  - assert (w = set_conts w (conts_ w)) as -> by by destruct w.
    apply deliver_inv; rewrite ?E1, ?E2, ?E4, ?E5, ?E6, ?E7, ?E3; auto; try done.
    + intros Hd Hs. rewrite (Er Hd). by apply I4.
    + intros Hd Hs. rewrite (Ew Hd). by apply I5.
Qed.

(** All callbacks are dropped. *)
Lemma waits_inv_dropped k dd w r wr :
  waits_inv k dd w → k = false ∨ dd = true → waits_inv k dd (set_ops (set_waits w None None None) r wr).
Proof. intros [I1 I2 _ _] Hk. split; cbn; try (by intros []); by eapply account_dropped. Qed.

(** *** Reading *)

Lemma read_loop_spec calls : ∀ total ssl_ret ssl_err queue,
  Forall (λ c, (0 < rv_ c.1)%Z → err_ c.1 = SSL_ERROR_NONE) calls → read_loop 0 calls = Some (total, ssl_ret, ssl_err, queue) →
  total = (if (0 <? ssl_ret)%Z then ssl_ret else 0)%Z.
Proof.
  induction calls as [|[a ok] calls IH]; intros total ssl_ret ssl_err queue F; [done|]. cbn [read_loop].
  inversion F as [|? ? F1 F2]; subst. cbn in F1. destruct (Z.ltb_spec 0 (rv_ a)) as [Hr|Hr].
  - rewrite (F1 Hr). rewrite decide_False by done. intros [= <- <- <- <-]. by rewrite (proj2 (Z.ltb_lt _ _) Hr).
  - set (e := if bool_decide _ && _ then _ else _).
    assert (e = (0%Z, e.2)) as -> by (unfold e; by destruct (_ && _)). destruct (decide _); [by apply IH|].
    intros [= <- <- <- <-]. by rewrite (proj2 (Z.ltb_ge _ _) Hr).
Qed.

(** The client's reads leave no error behind. *)
Lemma read_client_pending scc calls p :
  pending_read_error_ p = kSSLClientSocketNoPendingResult → is_Some (read_loop 0 calls) →
  Forall (λ c, (0 < rv_ c.1)%Z → err_ c.1 = SSL_ERROR_NONE) calls →
  ∃ r, Read_client scc calls p = Some (r, p).
Proof.
  intros Hp [[[[total ssl_ret] ssl_err] queue] E] F. pose proof (read_loop_spec _ _ _ _ _ F E) as Ht.
  assert (∀ e, set_pending (set_pending p e) kSSLClientSocketNoPendingResult = p ∧ set_pending p kSSLClientSocketNoPendingResult = p) as Hs
    by (intros e; destruct p; cbn in *; by subst).
  unfold Read_client, DoPayloadRead_client. rewrite Hp, E. cbn [negb Z.eqb Pos.eqb kSSLClientSocketNoPendingResult mbind option_bind].
  destruct (Z.ltb_spec 0 ssl_ret) as [Hr|Hr].
  - rewrite (proj2 (Z.leb_gt _ _) Hr). subst total. rewrite (proj2 (Z.ltb_lt _ _) Hr). rewrite Hp. cbn. by eexists.
  - rewrite (proj2 (Z.leb_le _ _) Hr). subst total. cbn. eexists. by rewrite (proj1 (Hs _)).
Qed.

Lemma DoPeek_pending early hs peek p : pending_read_error_ (DoPeek early hs peek p) = pending_read_error_ p.
Proof. unfold DoPeek. cbv zeta. repeat case_match; done. Qed.

Lemma Write_pending sd fin a p : pending_read_error_ (Write sd fin a p).2 = pending_read_error_ p.
Proof. unfold Write, DoPayloadWrite_client, DoPayloadWrite_server. repeat case_match; simplify_eq; done. Qed.

(** *** The steps *)

Section Inv.
Variables (sd : side) (send_client_cert early_data_enabled : bool).

Local Abbreviation step := (step sd send_client_cert early_data_enabled).
Local Abbreviation allowed := (allowed sd).
Local Abbreviation runs := (runs sd send_client_cert early_data_enabled).

Definition inv (k : bool) (s : ssl_socket) : Prop :=
  hs_inv k (hs_ s) ∧ waits_inv k (disconnected_ (hs_ s)) (waits_ s) ∧ pending_read_error_ (payload_ s) = kSSLClientSocketNoPendingResult.

Lemma hs_ready_step k s r w a alpn ec :
  inv k s → queue_ok a → (k = true → async sd a = false ∧ aborted ec = false) → S (out r + out w) = hs_out (hs_ s) →
  ∃ s', (if aborted ec then Some (with_hs s (set_hs_ops (hs_ s) r w))
         else h ← on_ready sd send_client_cert a alpn (set_hs_ops (hs_ s) r w); Some (with_hs s h)) = Some s' ∧ inv k s'.
Proof.
  intros (H & W & P) Hu Hk Ho. destruct (aborted ec) eqn:Ea.
  { eexists. split; [reflexivity|]. split; [|done]. apply hs_inv_ops; [done|]. intros Ek. by destruct (Hk Ek). }
  destruct (on_ready_inv k sd send_client_cert a alpn (hs_ s) r w H Ho Hu) as (h' & E & H' & Ed); [intros Ek; by apply Hk|].
  rewrite E. cbn [mbind option_bind]. eexists. split; [reflexivity|]. split; [exact H'|]. cbn. rewrite Ed. done.
Qed.

Lemma waits_inv_ops k dd w r wr :
  waits_inv k dd w → out r = out (reads_ w) → out wr = out (writes_ w) → waits_inv k dd (set_ops w r wr).
Proof. intros [] Er Ew. split; cbn; rewrite ?Er, ?Ew; done. Qed.

Lemma ssl_step_done k s e :
  inv k s → allowed s e → match e with HsReadDone _ | HsWriteDone _ | ReadDone _ | WriteDone _ => True | _ => False end →
  ∃ s', step s e = Some s' ∧ inv k s'.
Proof.
  intros (H & W & P) A He. destruct e; try done; cbn [SslSocket.step SslSocket.allowed] in *; eexists; (split; [reflexivity|]).
  - split; [|done]. apply hs_inv_ops; [done|]. intros _ _. by rewrite out_complete.
  - split; [|done]. apply hs_inv_ops; [done|]. intros _ _. by rewrite out_complete.
  - split; [done|]. split; [|done]. apply waits_inv_ops; [done|by apply out_complete|done].
  - split; [done|]. split; [|done]. apply waits_inv_ops; [done|done|by apply out_complete].
Qed.

(** The end of a wait of the user. *)
Lemma wait_step k s d in_init a1 a2 ec w :
  inv k s → (k = true → aborted ec = false) → w = set_ops (waits_ s) (reads_ w) (writes_ w) →
  (d ≠ Reading → out (reads_ w) = out (reads_ (waits_ s))) → (d ≠ Writing → out (writes_ w) = out (writes_ (waits_ s))) →
  inv k (OnWait d in_init a1 a2 ec (with_waits s w)).
Proof.
  intros (H & W & P) Hk Ew Er Ewr. unfold OnWait. cbn [hs_ waits_ payload_ with_waits]. destruct (disconnected_ (hs_ s)) eqn:Hd.
  - split; [done|]. split; [|done]. cbn. rewrite Hd, Ew. destruct W as [I1 I2 I3 I4].
    destruct I1 as (? & ? & G1), I2 as (? & ? & G2). rewrite (G1 eq_refl), (G2 eq_refl) in *. split; cbn; rewrite ?G1, ?G2; try done; by intros [].
  - destruct (aborted ec) eqn:Ea.
    + assert (k = false) as -> by (destruct k; [by specialize (Hk eq_refl)|done]). split; [|split; [|done]].
      * destruct H as [I1 I2 I3 I4 I5 I6 I7]. split; cbn; try done; try (by intros []). rewrite app_nil_r. by eapply sublist_prefix.
      * cbn. rewrite Hd, Ew. change (waits_inv false false (set_ops (set_waits (waits_ s) None None None) (reads_ w) (writes_ w))).
        apply waits_inv_dropped; [done|by left].
    + split; [done|]. split; [|done]. cbn. rewrite Hd. rewrite Ew in *. by eapply on_wait_inv.
Qed.

Lemma step_run k s e :
  inv k s → allowed s e → (k = true → calm sd s e) →
  match e with RunHsRead _ _ | RunHsWrite _ _ | RunRead _ _ _ | RunWrite _ _ _ | RunCont | RunPeek _ _ => True | _ => False end →
  ∃ s', step s e = Some s' ∧ inv k s'.
Proof.
  intros Hi A Hc He. pose proof Hi as (H & W & P). destruct e; try done; cbn [SslSocket.step SslSocket.allowed calm] in *.
  - destruct A as [A Hu]. pose proof (out_dequeue _ A) as Ho. destruct (queued _) as [|ec q] eqn:Eq; [done|]. cbn [head mbind option_bind].
    apply hs_ready_step; [done|done| |unfold hs_out; lia]. intros Ek. destruct (Hc Ek) as [? F]. by inversion F.
  - destruct A as [A Hu]. pose proof (out_dequeue _ A) as Ho. destruct (queued _) as [|ec q] eqn:Eq; [done|]. cbn [head mbind option_bind].
    apply hs_ready_step; [done|done| |unfold hs_out; lia]. intros Ek. destruct (Hc Ek) as [? F]. by inversion F.
  - destruct (queued _) as [|ec q] eqn:Eq; [done|]. cbn [head mbind option_bind]. eexists. split; [reflexivity|].
    apply wait_step; try done. intros Ek. specialize (Hc Ek). by inversion Hc.
  - destruct (queued _) as [|ec q] eqn:Eq; [done|]. cbn [head mbind option_bind]. eexists. split; [reflexivity|].
    apply wait_step; try done. intros Ek. specialize (Hc Ek). by inversion Hc.
  - destruct W as [W2 W3 W4 W5]. unfold cont_in in *. destruct (conts_ (waits_ s)) as [|[d ec] cs] eqn:Eq; [done|]. cbn [head mbind option_bind].
    eexists. split; [reflexivity|]. split; [done|]. split; [|done]. cbn. apply deliver_inv; try done.
    + intros Hd Hs. destruct (W4 Hs) as [?|(e & He')]; [by left|right]. exists e. apply elem_of_cons in He' as [He'|?]; [congruence|done].
    + intros Hd Hs. destruct (W5 Hs) as [?|(e & He')]; [by left|right]. exists e. apply elem_of_cons in He' as [He'|?]; [congruence|done].
  - destruct (peeks_ (hs_ s)) as [|n]; [lia|]. eexists. split; [reflexivity|]. split; [|split; [done|]].
    + by apply hs_inv_peeks.
    + cbn. destruct (_ || _); [done|]. by rewrite DoPeek_pending.
Qed.

Lemma step_user k s e :
  inv k s → allowed s e → (k = true → calm sd s e) →
  match e with EConfirm _ _ _ _ | EShutdown _ _ _ _ | ERead _ _ | EWrite _ _ | EWaitRead _ _ _ _ | EWaitWrite _ | EDisconnect => True | _ => False end →
  ∃ s', step s e = Some s' ∧ inv k s'.
Proof.
  intros Hi A Hc0 He. pose proof Hi as (H & W & P). destruct e; try done; cbn [SslSocket.step SslSocket.allowed] in *.
  - destruct A as (-> & Hc & Hn & Hd & Hu).
    destruct (confirm_inv k send_client_cert in_early_data a alpn id (hs_ s) H Hu Hc0 Hc Hn Hd) as (h' & E & H' & Hd').
    rewrite E. cbn [mbind option_bind]. eexists. split; [reflexivity|]. split; [exact H'|]. split; [|done]. cbn. by rewrite Hd', <- Hd.
  - eexists. split; [reflexivity|]. split; [done|]. split; [|done]. by apply waits_inv_shutdown.
  - destruct A as [A1 A2]. destruct sd.
    + destruct (read_client_pending send_client_cert calls (payload_ s) P A1 A2) as (r & ->). cbn [mbind option_bind]. eexists. split; [reflexivity|]. done.
    + destruct calls as [|[a ok] calls]; [by destruct A1|]. cbn [head mbind option_bind]. eexists. split; [reflexivity|]. split; [done|]. split; [done|].
      cbn. unfold Read_server, DoPayloadRead_server. destruct (0 <=? rv_ a)%Z; [|done]. by destruct in_early_data.
  - eexists. split; [reflexivity|]. split; [done|]. split; [done|]. cbn. by rewrite Write_pending.
  - eexists. split; [reflexivity|]. split; [done|]. split; [|done]. cbn. unfold WaitRead. rewrite P. cbn.
    destruct W as [W1 W2 W3 W4]. rewrite A in W1. destruct (disconnected_ (hs_ s)) eqn:Hd; split; cbn; rewrite ?A; try done; try (by intros []).
    + by apply account_refused.
    + by apply account_asked.
    + intros _. left. unfold out. cbn. lia.
  - eexists. split; [reflexivity|]. split; [done|]. split; [|done]. cbn. unfold WaitWrite.
    destruct W as [W1 W2 W3 W4]. rewrite A in W2. destruct (disconnected_ (hs_ s)) eqn:Hd; split; cbn; rewrite ?A; try done; try (by intros []).
    + by apply account_refused.
    + by apply account_asked.
    + intros _. left. unfold out. cbn. lia.
  - eexists. split; [reflexivity|]. split; [|split; [|done]].
    + destruct H as [I1 I2 I3 I4 I5 I6 I7]. split; cbn; try done; try (by intros []). rewrite app_nil_r. by eapply sublist_prefix.
    + cbn. destruct W as [(A1 & _) (A2 & _) _ _]. split; cbn; try (by intros []);
        (split; [cbn; rewrite app_nil_r; by eapply sublist_prefix|done]).
Qed.

Lemma ssl_step_inv k s e : inv k s → allowed s e → (k = true → calm sd s e) → ∃ s', step s e = Some s' ∧ inv k s'.
Proof. intros Hi A Hc. destruct e; first [by apply step_user|by apply ssl_step_done|by apply step_run]. Qed.

Lemma ssl_begin_inv k a alpn id :
  queue_ok a → (k = true → async sd a = false) → ∀ s, begin sd send_client_cert a alpn id = Some s → inv k s.
Proof.
  intros Hu Hy s. destruct (connect_inv k sd send_client_cert a alpn id Hu Hy) as (h & E & H). unfold begin. rewrite E. cbn [mbind option_bind].
  intros [= <-]. split; [exact H|]. split; [|done]. split; cbn; try (by intros []); by split_and!.
Qed.

Lemma ssl_begins a alpn id : queue_ok a → is_Some (begin sd send_client_cert a alpn id).
Proof.
  intros Hu. destruct (connect_inv false sd send_client_cert a alpn id Hu) as (h & E & _); [done|]. unfold begin. rewrite E. by eexists.
Qed.

Lemma ssl_runs_inv k ok s es s' : (∀ s e, k = true → ok s e → calm sd s e) → inv k s → runs ok s es s' → inv k s'.
Proof.
  intros Hok Hi. induction 1 as [|? ? s1 e s' R IH A O E]; [done|].
  destruct (ssl_step_inv k s1 e (IH Hi) A) as (s2 & E2 & Hi2); [intros Ek; by apply Hok|congruence].
Qed.

(** C19: the handshake of either side, and the confirmation of the client's early data, in a release build.  Whatever BoringSSL answers and the
    socket does, in whatever order the user reads, writes, waits, shuts down and disconnects, every event is handled; the
    callbacks given are called in order, each once at most; and a call with success comes after a completed handshake.  As long as the
    handshake waits for nothing but the socket and nobody else closes the socket or cancels a wait on it, every callback is called
    or pending on a socket that is not disconnected, and the one that is pending has exactly one wait for the socket that goes on with its handshake. *)
Theorem tls_handshake_once a alpn id es s' :
  queue_ok a →
  ∃ s, begin sd send_client_cert a alpn id = Some s ∧
    let h := hs_ s' in
    (runs (λ _ _, True) s es s' →
      (∀ e, allowed s' e → is_Some (step s' e)) ∧
      sublist (map fst (called_ h) ++ option_list (user_callback_ h)) (asked_ h) ∧
      (∀ id, (id, OK) ∈ called_ h → completed_ h = true)) ∧
    (async sd a = false → runs (calm sd) s es s' → disconnected_ h = false →
      asked_ h = map fst (called_ h) ++ option_list (user_callback_ h) ∧
      hs_out h = match user_callback_ h with Some _ => 1 | None => 0 end ∧
      (is_Some (user_callback_ h) ↔ next_handshake_state_ h = STATE_HANDSHAKE)).
Proof.
  intros Hu. destruct (ssl_begins a alpn id Hu) as [s E]. exists s. split; [exact E|]. intros h. split.
  - intros R. pose proof (ssl_begin_inv false a alpn id Hu ltac:(done) s E) as Hi.
    pose proof (ssl_runs_inv false (λ _ _, True) _ _ _ ltac:(done) Hi R) as Hi'. pose proof Hi' as ([H1 H2 _ _ _ _ _] & _ & _). split_and!; try done.
    intros e A. destruct (ssl_step_inv false _ _ Hi' A) as (s2 & E2 & _); [done|by eexists].
  - intros Hy R Hd. pose proof (ssl_begin_inv true a alpn id Hu ltac:(done) s E) as Hi.
    pose proof (ssl_runs_inv true (calm sd) _ _ _ ltac:(done) Hi R) as ([_ _ _ _ _ _ H7] & _ & _). destruct (H7 eq_refl Hd) as [Ea Hst]. fold h in Ea, Hst.
    split; [done|]. destruct (user_callback_ h); destruct Hst as (S1 & S2).
    + split; [done|]. split; [done|by eexists].
    + destruct S2 as [S2 _]. split; [done|]. split; [by intros []|congruence].
Qed.

(** C20: the waits of the user on a TLS socket of either side, in a release build.  The callbacks given to [WaitRead] and to [WaitWrite] are called in
    order, each once at most, and one that is pending has an operation on the socket that will call it, or is about to
    be called; after [Disconnect] none is left, and no read leaves an error for the next one.  As long as nobody else closes the socket or
    cancels a wait on it, every callback is called or pending on a socket that is not disconnected.  A wait that ends with the error of a
    closed socket or of a cancelled wait drops the callbacks of both directions uncalled. *)
Theorem tls_waits_not_lost a alpn id es s' :
  queue_ok a →
  ∃ s, begin sd send_client_cert a alpn id = Some s ∧
    let w := waits_ s' in
    (runs (λ _ _, True) s es s' →
      sublist (map fst (reads_called_ w) ++ option_list (wait_read_callback_ w)) (reads_asked_ w) ∧
      sublist (map fst (writes_called_ w) ++ option_list (wait_write_callback_ w)) (writes_asked_ w) ∧
      (is_Some (wait_read_callback_ w) → 1 <= out (reads_ w) ∨ cont_in Reading w) ∧
      (is_Some (wait_write_callback_ w) → 1 <= out (writes_ w) ∨ cont_in Writing w) ∧
      (disconnected_ (hs_ s') = true → wait_read_callback_ w = None ∧ wait_write_callback_ w = None) ∧
      pending_read_error_ (payload_ s') = kSSLClientSocketNoPendingResult ∧
      ∀ ec q b a1 a2, disconnected_ (hs_ s') = false → queued (reads_ w) = ec :: q → aborted ec = true →
        ∃ s2, step s' (RunRead b a1 a2) = Some s2 ∧ wait_read_callback_ (waits_ s2) = None ∧ wait_write_callback_ (waits_ s2) = None ∧
          reads_called_ (waits_ s2) = reads_called_ w ∧ writes_called_ (waits_ s2) = writes_called_ w) ∧
    (async sd a = false → runs (calm sd) s es s' → disconnected_ (hs_ s') = false →
      reads_asked_ w = map fst (reads_called_ w) ++ option_list (wait_read_callback_ w) ∧
      writes_asked_ w = map fst (writes_called_ w) ++ option_list (wait_write_callback_ w)).
Proof.
  intros Hu. destruct (ssl_begins a alpn id Hu) as [s E]. exists s. split; [exact E|]. intros w. split.
  - intros R. pose proof (ssl_begin_inv false a alpn id Hu ltac:(done) s E) as Hi.
    pose proof (ssl_runs_inv false (λ _ _, True) _ _ _ ltac:(done) Hi R) as (_ & [(A1 & _ & G1) (A2 & _ & G2) W3 W4] & P). split_and!; try done.
    + intros Hd. split; auto.
    + intros ec q b a1 a2 Hd Eq Hab. cbn [SslSocket.step]. fold w. rewrite Eq. cbn [head mbind option_bind]. unfold OnWait.
      cbn [hs_ with_waits]. rewrite Hd, Hab. by eexists.
  - intros Hy R Hd. pose proof (ssl_begin_inv true a alpn id Hu ltac:(done) s E) as Hi.
    pose proof (ssl_runs_inv true (calm sd) _ _ _ ltac:(done) Hi R) as (_ & [(_ & A1 & _) (_ & A2 & _) _ _] & _). split; auto.
Qed.

(** A shutdown that waits for the peer while a wait for reading is pending.  When the socket becomes readable and the peer's close_notify is
    still not there, the shutdown waits again without an operation of its own, and the wait for reading it relied on is called
    and over: nothing is under way that would end the shutdown, unless the user waits for reading once more. *)
Theorem tls_shutdown_lost s a1 a2 r id :
  disconnected_ (hs_ s) = false → wait_read_callback_ (waits_ s) = Some r → wait_shutdown_callback_ (waits_ s) = Some id →
  reads_ (waits_ s) = mkOp 0 [None] → writes_ (waits_ s) = idle → conts_ (waits_ s) = [] →
  rv_ (shutdown_answer a1 a2) ≠ 1%Z → err_ (shutdown_answer a1 a2) = SSL_ERROR_WANT_READ →
  ∃ s1 s2, step s (RunRead false a1 a2) = Some s1 ∧ step s1 RunCont = Some s2 ∧
    let w := waits_ s2 in
    wait_shutdown_callback_ w = Some id ∧ shutdowns_called_ w = shutdowns_called_ (waits_ s) ∧
    reads_called_ w = reads_called_ (waits_ s) ++ [(r, None)] ∧ wait_read_callback_ w = None ∧
    out (reads_ w) = 0 ∧ out (writes_ w) = 0 ∧ conts_ w = [].
Proof.
  intros Hd Hr Hs Er Ew Ec Hn Hw. cbn [SslSocket.step]. rewrite Er. cbn [queued head mbind option_bind].
  unfold OnWait. cbn [hs_ with_waits]. rewrite Hd. cbn [aborted].
  unfold on_wait, OnDoWaitShutdown, Shutdown. cbn. rewrite Hs. cbn. rewrite (proj2 (Z.eqb_neq _ _) Hn), Hw. cbn. rewrite Hr. cbn.
  eexists _, _. split; [reflexivity|]. cbn. rewrite Ec. cbn. split; [reflexivity|]. cbn. rewrite ?Hr, ?Ew. cbn. done.
Qed.

End Inv.

(** ** Reading at the two ends *)










(** ** Witnesses *)

Definition want_read : answer := mkAnswer (-1) SSL_ERROR_WANT_READ [].
Definition success : answer := mkAnswer 1 SSL_ERROR_NONE [].

Lemma queue_ok_nil rv err : queue_ok (mkAnswer rv err []).
Proof. by intros ? ?%not_elem_of_nil. Qed.

Definition example_step (s : ssl_socket) (e : event) : ssl_socket := default ssl_init (step Client false true s e).

(** A handshake that waits for the server once. *)
Definition shaking_0 : ssl_socket := Eval vm_compute in default ssl_init (begin Client false want_read [] 1).
Definition shaking_1 : ssl_socket := Eval vm_compute in example_step shaking_0 (HsReadDone None).
Definition shaking_2 : ssl_socket := Eval vm_compute in example_step shaking_1 (RunHsRead success (str "h2")).

Lemma runs_two sd scc early (ok : ssl_socket → event → Prop) s e1 s1 e2 s2 :
  allowed sd s e1 → ok s e1 → step sd scc early s e1 = Some s1 → allowed sd s1 e2 → ok s1 e2 → step sd scc early s1 e2 = Some s2 →
  runs sd scc early ok s [e1; e2] s2.
Proof. intros A1 O1 E1 A2 O2 E2. apply (runs_snoc _ _ _ _ s [e1] s1); [|done|done|done]. by apply (runs_snoc _ _ _ _ s [] s); [constructor|..]. Qed.

Lemma tls_handshake_once_witness :
  asked_ (hs_ shaking_2) = [1] ∧ called_ (hs_ shaking_2) = [(1, OK)] ∧ hs_out (hs_ shaking_2) = 0 ∧ completed_ (hs_ shaking_2) = true ∧
  negotiated_protocol_ (hs_ shaking_2) = ContentServer.kProtoHTTP2.
Proof.
  destruct (tls_handshake_once Client false true want_read [] 1 [HsReadDone None; RunHsRead success (str "h2")] shaking_2 (queue_ok_nil _ _))
    as (s & E & H1 & H2).
  assert (Some s = Some shaking_0) as Es by (rewrite <- E; vm_compute; reflexivity). injection Es as ->.
  destruct H1 as (_ & _ & H1).
  { apply (runs_two _ _ _ _ _ _ shaking_1); [cbn; lia|done|reflexivity|split; [discriminate|apply queue_ok_nil]|done|reflexivity]. }
  destruct H2 as (Ha & Ho & _); [reflexivity| |reflexivity|].
  { apply (runs_two _ _ _ _ _ _ shaking_1); [cbn; lia|done|reflexivity|split; [discriminate|apply queue_ok_nil]| |reflexivity].
    split; [reflexivity|]. cbn. repeat constructor. }
  split; [exact Ha|]. split; [reflexivity|]. split; [exact Ho|]. split; [|reflexivity]. apply (H1 1). left.
Defined.

(** A wait for reading, and then a shutdown that waits as well. *)
Definition waiting_0 : ssl_socket := Eval vm_compute in default ssl_init (begin Client false success [] 1).
Definition waiting_1 : ssl_socket := Eval vm_compute in example_step waiting_0 (EWaitRead false success success 5).
Definition waiting_2 : ssl_socket := Eval vm_compute in example_step waiting_1 (EShutdown false want_read want_read 6).
Definition waiting_3 : ssl_socket := Eval vm_compute in example_step waiting_2 (ReadDone None).

Lemma tls_waits_not_lost_witness :
  reads_asked_ (waits_ waiting_2) = [5] ∧ (1 <= out (reads_ (waits_ waiting_2)) ∨ cont_in Reading (waits_ waiting_2)).
Proof.
  destruct (tls_waits_not_lost Client false true success [] 1 [EWaitRead false success success 5; EShutdown false want_read want_read 6] waiting_2
    (queue_ok_nil _ _)) as (s & E & H1 & H2).
  assert (Some s = Some waiting_0) as Es by (rewrite <- E; vm_compute; reflexivity). injection Es as ->.
  destruct H2 as [Ha _]; [reflexivity|by apply (runs_two _ _ _ _ _ _ waiting_1)|reflexivity|]. split; [exact Ha|].
  destruct H1 as (_ & _ & H1 & _); [by apply (runs_two _ _ _ _ _ _ waiting_1)|]. apply H1. by eexists.
Defined.

Lemma tls_shutdown_lost_witness :
  ∃ s1 s2, step Client false true waiting_3 (RunRead false want_read want_read) = Some s1 ∧ step Client false true s1 RunCont = Some s2 ∧
    wait_shutdown_callback_ (waits_ s2) = Some 6 ∧ reads_called_ (waits_ s2) = [(5, None)] ∧
    out (reads_ (waits_ s2)) = 0 ∧ out (writes_ (waits_ s2)) = 0.
Proof.
  destruct (tls_shutdown_lost Client false true waiting_3 want_read want_read 5 6) as (s1 & s2 & E1 & E2 & H1 & _ & H3 & _ & H5 & H6 & _);
    try reflexivity; [discriminate|].
  exists s1, s2. split_and!; assumption.
Defined.



End SslSocket.
