(* ===== verification/SessionCache.v ===== *)
(** * The cache of TLS sessions

    [SSLClientSessionCache] of src/src/net/ssl_client_session_cache.cpp, in the build without TBB, and what [SSLSocket] of
    src/src/net/ssl_socket.cpp does with it.

    The cache is kept in a [base::LRUCache], which is a parameter: the class [LRUCache] with the laws [LRULaws] of its
    documentation, and an instance that is a list in the order of use.  A session of BoringSSL is a record of what the code asks
    of it, with a number of its own; where the code may look into a null session the model has no result. *)

From Stdlib Require Import ZArith Lia.
From stdpp Require Import base list numbers option.
From S2P Require Import Prelude Addr.

Module SessionCache.
Import Addr.

Abbreviation text := (list byte).

(** ** Sessions and entries *)

Record SSL_SESSION := mkSession {
  session_id : nat;
  session_time : Z;
  session_timeout : Z;
  should_be_single_use : bool;
  early_data : bool
}.

(** [SSL_SESSION_copy_without_early_data]. *)
Definition without_early_data (s : SSL_SESSION) : SSL_SESSION :=
  mkSession (session_id s) (session_time s) (session_timeout s) (should_be_single_use s) false.

Definition u64 (z : Z) : Z := z mod 2 ^ 64.

(** [IsExpired]; [now] is a [time_t]. *)
Definition expired (s : SSL_SESSION) (now : Z) : bool :=
  if (now <? 0)%Z then true
  else
    let now_u64 := u64 now in
    (now_u64 <? u64 (session_time s - 1))%Z || (u64 (session_time s + session_timeout s) <=? now_u64)%Z.

Definition IsExpired (session : option SSL_SESSION) (now : Z) : option bool :=
  if (now <? 0)%Z then Some true else s ← session; Some (expired s now).

(** [Entry]: [sessions[2]]. *)
Record Entry := mkEntry { sessions0 : option SSL_SESSION; sessions1 : option SSL_SESSION }.

Definition Push (e : Entry) (session : SSL_SESSION) : Entry :=
  mkEntry (Some session)
    (match sessions0 e with Some s => if should_be_single_use s then Some s else sessions1 e | None => sessions1 e end).

Definition Pop (e : Entry) : option SSL_SESSION * Entry :=
  match sessions0 e with
  | None => (None, e)
  | Some s => (Some s, if should_be_single_use s then mkEntry (sessions1 e) None else e)
  end.

Definition ExpireSessions (e : Entry) (now : Z) : bool * Entry :=
  match sessions0 e with
  | None => (true, e)
  | Some s =>
      if expired s now then (true, e)
      else (false, match sessions1 e with
                   | Some s1 => if expired s1 now then mkEntry (Some s) None else e
                   | None => e
                   end)
  end.

(** ** The container *)

(** [Key] and what identifies it. *)
Record Key := mkKey { server : text * Z; dest_ip_addr : option address }.

#[export] Instance address_eq_dec : EqDecision address.
Proof. solve_decision. Defined.
#[export] Instance Key_eq_dec : EqDecision Key.
Proof. solve_decision. Defined.

(** [base::LRUCache]: [lru_get] moves an element to the front, [lru_set] writes through an iterator, [lru_keys] are the keys in the
    order of an iteration. *)
Class LRUCache (K V : Type) := {
  cache : Type;
  lru_empty : cache;
  lru_lookup : K → cache → option V;
  lru_get : K → cache → cache;
  lru_put : K → V → cache → cache;
  lru_set : K → V → cache → cache;
  lru_erase : K → cache → cache;
  lru_keys : cache → list K
}.

Class LRULaws (K V : Type) `{!EqDecision K} (L : LRUCache K V) := {
  lookup_empty k : lru_lookup k lru_empty = None;
  lookup_get k j c : lru_lookup k (lru_get j c) = lru_lookup k c;
  (** What is put is there; another element may have gone for it. *)
  lookup_put_eq k v c : lru_lookup k (lru_put k v c) = Some v;
  lookup_put_ne k j v c : j ≠ k → lru_lookup j (lru_put k v c) = lru_lookup j c ∨ lru_lookup j (lru_put k v c) = None;
  lookup_set k j v c : is_Some (lru_lookup k c) → lru_lookup j (lru_set k v c) = if decide (j = k) then Some v else lru_lookup j c;
  lookup_erase k j c : lru_lookup j (lru_erase k c) = if decide (j = k) then None else lru_lookup j c;
  elem_of_keys k c : k ∈ lru_keys c ↔ is_Some (lru_lookup k c);
  keys_unique c : NoDup (lru_keys c)
}.

(** ** The cache *)

Section Cache.
Context `{L : !LRUCache Key Entry}.
Variable expiration_check_count : Z.

Record SSLClientSessionCache := mkCache { lookups_since_flush_ : Z; cache_ : cache }.

Definition cache_init : SSLClientSessionCache := mkCache 0 lru_empty.

(** A turn of the loop of [FlushExpiredSessions]. *)
Definition flush_key (now : Z) (c : cache) (k : Key) : cache :=
  match lru_lookup k c with
  | None => c
  | Some e => let '(dead, e) := ExpireSessions e now in if dead then lru_erase k c else lru_set k e c
  end.

Definition FlushExpiredSessions (now : Z) (c : cache) : cache := foldl (flush_key now) c (lru_keys c).

(** [Lookup]; [now] and [now'] are the times of the flush and of the lookup. *)
Definition Lookup (now now' : Z) (k : Key) (c : SSLClientSessionCache) : option (option SSL_SESSION * SSLClientSessionCache) :=
  let n := (lookups_since_flush_ c + 1)%Z in
  let '(n, m) := if (expiration_check_count <=? n)%Z then (0%Z, FlushExpiredSessions now (cache_ c)) else (n, cache_ c) in
  let m := lru_get k m in
  match lru_lookup k m with
  | None => Some (None, mkCache n m)
  | Some e =>
      let '(session, e) := Pop e in
      let '(dead, e) := ExpireSessions e now' in
      let m := if dead then lru_erase k m else lru_set k e m in
      b ← IsExpired session now';
      Some (if (b : bool) then None else session, mkCache n m)
  end.

Definition Insert (k : Key) (session : SSL_SESSION) (c : SSLClientSessionCache) : SSLClientSessionCache :=
  let m := lru_get k (cache_ c) in
  let '(e, m) := match lru_lookup k m with Some e => (e, m) | None => (mkEntry None None, lru_put k (mkEntry None None) m) end in
  mkCache (lookups_since_flush_ c) (lru_set k (Push e session) m).

Definition ClearEarlyData (k : Key) (c : SSLClientSessionCache) : SSLClientSessionCache :=
  let m := lru_get k (cache_ c) in
  mkCache (lookups_since_flush_ c)
    match lru_lookup k m with
    | None => m
    | Some e => lru_set k (mkEntry (without_early_data <$> sessions0 e) (without_early_data <$> sessions1 e)) m
    end.

Definition Flush (c : SSLClientSessionCache) : SSLClientSessionCache := mkCache (lookups_since_flush_ c) lru_empty.

(** ** Its users *)

(** [GetSessionCacheKey]. *)
Definition GetSessionCacheKey (host_and_port : text * Z) (dest_ip_addr : option address) : Key := mkKey host_and_port dest_ip_addr.

(** [NewSessionCallback], with a cache: whether the session was taken.  [rsa] is whether the key exchange was that of RSA, [remote] the
    address of the peer if it is known. *)
Definition NewSessionCallback (host_and_port : text * Z) (rsa : bool) (remote : option address) (session : SSL_SESSION)
    (c : SSLClientSessionCache) : bool * SSLClientSessionCache :=
  if rsa then
    match remote with
    | None => (false, c)
    | Some a => (true, Insert (GetSessionCacheKey host_and_port (Some a)) session c)
    end
  else (true, Insert (GetSessionCacheKey host_and_port None) session c).

(** The session that the constructor of [SSLSocket] takes. *)
Definition session_for (host_and_port : text * Z) (remote : option address) (t1 t2 t3 t4 : Z) (c : SSLClientSessionCache)
    : option (option SSL_SESSION * SSLClientSessionCache) :=
  '(session, c) ← Lookup t1 t2 (GetSessionCacheKey host_and_port None) c;
  match session, remote with
  | None, Some a => Lookup t3 t4 (GetSessionCacheKey host_and_port (Some a)) c
  | _, _ => Some (session, c)
  end.

(** ** Runs *)

Inductive event :=
  | ELookup (now now' : Z) (k : Key)
  | EInsert (k : Key) (session : SSL_SESSION)
  | EClearEarlyData (k : Key)
  | EFlush.

(** The cache, what was inserted, and what was given out, with the time. *)
Record world := mkWorld {
  the_cache : SSLClientSessionCache;
  inserted : list (Key * SSL_SESSION);
  given : list (Key * SSL_SESSION * Z)
}.

Definition step (w : world) (e : event) : option world :=
  match e with
  | ELookup now now' k =>
      '(session, c) ← Lookup now now' k (the_cache w);
      Some (mkWorld c (inserted w) (given w ++ match session with Some s => [(k, s, now')] | None => [] end))
  | EInsert k s => Some (mkWorld (Insert k s (the_cache w)) (inserted w ++ [(k, s)]) (given w))
  | EClearEarlyData k => Some (mkWorld (ClearEarlyData k (the_cache w)) (inserted w) (given w))
  | EFlush => Some (mkWorld (Flush (the_cache w)) (inserted w) (given w))
  end.

Definition run (es : list event) : option world := foldl (λ o e, w ← o; step w e) (Some (mkWorld cache_init [] [])) es.

(** The sessions that are inserted. *)
Definition insertions (es : list event) : list (Key * SSL_SESSION) :=
  omap (λ e, match e with EInsert k s => Some (k, s) | _ => None end) es.

(** ** The invariant *)

Context `{!LRULaws Key Entry L}.

(** A session as it was inserted, or without its early data. *)
Definition stems (s0 s : SSL_SESSION) : Prop := s = s0 ∨ s = without_early_data s0.

Lemma stems_fields s0 s : stems s0 s →
  session_id s = session_id s0 ∧ should_be_single_use s = should_be_single_use s0 ∧ ∀ now, expired s now = expired s0 now.
Proof. by intros [-> | ->]. Qed.

Definition held (e : Entry) : list SSL_SESSION := option_list (sessions0 e) ++ option_list (sessions1 e).

(** The ids of the sessions given out that are for a single use. *)
Definition spent (g : list (Key * SSL_SESSION * Z)) : list nat :=
  omap (λ x, if should_be_single_use x.1.2 then Some (session_id x.1.2) else None) g.

Definition entry_inv (ins : list (Key * SSL_SESSION)) (g : list (Key * SSL_SESSION * Z)) (k : Key) (e : Entry) : Prop :=
  is_Some (sessions0 e) ∧ NoDup (map session_id (held e)) ∧
  ∀ s, s ∈ held e → (∃ s0, (k, s0) ∈ ins ∧ stems s0 s) ∧ (should_be_single_use s = true → session_id s ∉ spent g).

Record inv (w : world) : Prop := {
  iv_entries : ∀ k e, lru_lookup k (cache_ (the_cache w)) = Some e → entry_inv (inserted w) (given w) k e;
  iv_given : ∀ k s t, (k, s, t) ∈ given w → (∃ s0, (k, s0) ∈ inserted w ∧ stems s0 s) ∧ expired s t = false;
  iv_spent : NoDup (spent (given w))
}.

(** An entry from which sessions have gone. *)
Definition shrunk (e e' : Entry) : Prop := sessions0 e' = sessions0 e ∧ (sessions1 e' = sessions1 e ∨ sessions1 e' = None).

Lemma entry_inv_shrunk ins g k e e' : entry_inv ins g k e → shrunk e e' → entry_inv ins g k e'.
Proof.
  intros (H1 & H2 & H3) [E0 E1]. assert (sublist (held e') (held e)) as Hs.
  { unfold held. rewrite E0. apply sublist_app; [done|]. destruct E1 as [-> | ->]; [done|apply sublist_nil_l]. }
  split; [by rewrite E0|]. split.
  - eapply sublist_NoDup; [exact H2|]. exact (fmap_sublist session_id _ _ Hs).
  - intros s Hin. apply H3. by eapply elem_of_sublist.
Qed.

Lemma ExpireSessions_shrunk e now dead e' : ExpireSessions e now = (dead, e') → dead = false → shrunk e e'.
Proof.
  unfold ExpireSessions. destruct (sessions0 e) as [s|] eqn:E0; [|by intros [= <- _]].
  destruct (expired s now); [by intros [= <- _]|]. destruct (sessions1 e) as [s1|] eqn:E1; [destruct (expired s1 now)|]; intros [= <- <-] _;
    unfold shrunk; cbn; rewrite ?E0, ?E1; auto.
Qed.

Lemma flush_key_lookup now c k j e' :
  lru_lookup j (flush_key now c k) = Some e' → ∃ e, lru_lookup j c = Some e ∧ shrunk e e'.
Proof.
  unfold flush_key. destruct (lru_lookup k c) as [e|] eqn:E; [|intros; exists e'; split; [done|split; auto]].
  destruct (ExpireSessions e now) as [[] e1] eqn:Ex.
  - rewrite lookup_erase. case_decide; [done|]. intros. exists e'. split; [done|split; auto].
  - rewrite lookup_set by by eexists. case_decide as Hd.
    + intros [= <-]. subst j. exists e. split; [done|]. by eapply ExpireSessions_shrunk.
    + intros. exists e'. split; [done|split; auto].
Qed.

Lemma shrunk_trans a b c : shrunk a b → shrunk b c → shrunk a c.
Proof. intros [E1 E2] [F1 F2]. split; [congruence|]. destruct F2 as [F2|F2]; rewrite F2; [|by right]. done. Qed.

Lemma flush_lookup now c j e' :
  lru_lookup j (FlushExpiredSessions now c) = Some e' → ∃ e, lru_lookup j c = Some e ∧ shrunk e e'.
Proof.
  unfold FlushExpiredSessions. generalize (lru_keys c). intros ks. revert c. induction ks as [|k ks IH]; intros c; cbn.
  - intros. exists e'. split; [done|split; auto].
  - intros (e1 & E1 & S1)%IH. destruct (flush_key_lookup _ _ _ _ _ E1) as (e & E & S). exists e. split; [done|]. by eapply shrunk_trans.
Qed.

(** A session that has not expired stays. *)
Lemma flush_keeps now c j e s :
  lru_lookup j c = Some e → sessions0 e = Some s → expired s now = false →
  ∃ e', lru_lookup j (FlushExpiredSessions now c) = Some e' ∧ shrunk e e'.
Proof.
  intros E E0 Hx. unfold FlushExpiredSessions. generalize (lru_keys c). intros ks. revert c e E E0.
  induction ks as [|k ks IH]; intros c e E E0; cbn; [exists e; split; [done|split; auto]|].
  assert (∃ e1, lru_lookup j (flush_key now c k) = Some e1 ∧ shrunk e e1) as (e1 & E1 & S1).
  { unfold flush_key. destruct (lru_lookup k c) as [ek|] eqn:Ek; [|exists e; split; [done|split; auto]].
    destruct (decide (j = k)) as [->|Hn].
    - assert (ek = e) as -> by congruence. destruct (ExpireSessions e now) as [dead e1] eqn:Ex.
      assert (dead = false) as -> by (unfold ExpireSessions in Ex; rewrite E0, Hx in Ex; by injection Ex).
      exists e1. rewrite lookup_set by by eexists. rewrite decide_True by done. split; [done|]. by eapply ExpireSessions_shrunk.
    - destruct (ExpireSessions ek now) as [[] e1]; exists e.
      + rewrite lookup_erase, decide_False by done. split; [done|split; auto].
      + rewrite lookup_set by by eexists. rewrite decide_False by done. split; [done|split; auto]. }
  destruct (IH (flush_key now c k) e1 E1) as (e2 & E2 & S2); [destruct S1; congruence|]. exists e2. split; [done|]. by eapply shrunk_trans.
Qed.

Lemma shrunk_refl e : shrunk e e.
Proof. split; auto. Qed.

(** ** Every step keeps the invariant *)

Definition ids (ins : list (Key * SSL_SESSION)) : list nat := map (λ x, session_id x.2) ins.

Lemma ids_unique ins k1 s1 k2 s2 :
  NoDup (ids ins) → (k1, s1) ∈ ins → (k2, s2) ∈ ins → session_id s1 = session_id s2 → k1 = k2.
Proof.
  intros Hd [i1 E1]%list_elem_of_lookup [i2 E2]%list_elem_of_lookup Hid.
  assert (ids ins !! i1 = Some (session_id s1)) as F1 by (unfold ids; by erewrite list_lookup_fmap, E1).
  assert (ids ins !! i2 = Some (session_id s1)) as F2 by (rewrite Hid; unfold ids; by erewrite list_lookup_fmap, E2).
  assert (i1 = i2) as -> by exact (NoDup_lookup _ _ _ _ Hd F1 F2).
  congruence.
Qed.

Lemma in_ids ins k s0 s : (k, s0) ∈ ins → stems s0 s → session_id s ∈ ids ins.
Proof. intros Hin (-> & _)%stems_fields. apply list_elem_of_fmap. by exists (k, s0). Qed.

Lemma elem_of_spent g i : i ∈ spent g ↔ ∃ k s t, (k, s, t) ∈ g ∧ should_be_single_use s = true ∧ session_id s = i.
Proof.
  unfold spent. rewrite list_elem_of_omap. split.
  - intros ([[k s] t] & Hin & E). cbn in E. destruct (should_be_single_use s) eqn:Eu; [|done]. injection E as <-. by exists k, s, t.
  - intros (k & s & t & Hin & Eu & <-). exists (k, s, t). cbn. by rewrite Eu.
Qed.

Lemma spent_in_ids w i : inv w → i ∈ spent (given w) → i ∈ ids (inserted w).
Proof. intros HI (k & s & t & Hin & _ & <-)%elem_of_spent. destruct (iv_given w HI _ _ _ Hin) as [(s0 & H0 & Hs) _]. by eapply in_ids. Qed.

(** What is in the cache may shrink. *)
Lemma inv_shrunk w c :
  inv w → (∀ k e, lru_lookup k (cache_ c) = Some e → ∃ e0, lru_lookup k (cache_ (the_cache w)) = Some e0 ∧ shrunk e0 e) →
  inv (mkWorld c (inserted w) (given w)).
Proof.
  intros [H1 H2 H3] Hc. split; cbn; [|done..]. intros k e (e0 & E0 & Hs)%Hc. eapply entry_inv_shrunk; [by apply H1|done].
Qed.

Lemma inv_clear w k : inv w → inv (mkWorld (ClearEarlyData k (the_cache w)) (inserted w) (given w)).
Proof.
  intros [H1 H2 H3]. split; cbn; [|done..]. intros j e. rewrite lookup_get.
  destruct (lru_lookup k (cache_ (the_cache w))) as [e0|] eqn:E; [|rewrite lookup_get; apply H1].
  rewrite lookup_set by (rewrite lookup_get; by eexists). case_decide as Hd; [|rewrite lookup_get; apply H1].
  intros [= <-]. subst j. destruct (H1 _ _ E) as (Hs & Hn & Hh).
  assert (held (mkEntry (without_early_data <$> sessions0 e0) (without_early_data <$> sessions1 e0)) = without_early_data <$> held e0) as Eh
    by (unfold held; cbn; by destruct (sessions0 e0), (sessions1 e0)).
  unfold entry_inv. rewrite Eh. split; [cbn; by apply fmap_is_Some|]. split.
  - assert (map session_id (without_early_data <$> held e0) = map session_id (held e0)) as -> by exact (map_map _ _ _). done.
  - intros s (s1 & -> & Hin)%list_elem_of_fmap. destruct (Hh _ Hin) as [(s0 & Hi & Hst) Hu]. split; [|done].
    exists s0. split; [done|]. right. by destruct Hst as [-> | ->].
Qed.

Lemma held_push e s x : x ∈ held (Push e s) → x = s ∨ x ∈ held e.
Proof.
  unfold held, Push. cbn. rewrite elem_of_cons. intros [-> | Hx]; [by left|right]. apply elem_of_app.
  destruct (sessions0 e) as [s0|]; [destruct (should_be_single_use s0)|]; cbn in *; auto.
Qed.

Lemma held_push_ids e s :
  NoDup (map session_id (held e)) → session_id s ∉ map session_id (held e) → NoDup (map session_id (held (Push e s))).
Proof.
  unfold held, Push. cbn. rewrite !map_app. intros (H1 & H2 & H3)%list.NoDup_app Hn. rewrite elem_of_app in Hn.
  apply list.NoDup_cons. destruct (sessions0 e) as [s0|]; [destruct (should_be_single_use s0)|]; cbn in *; tauto.
Qed.

Lemma inv_insert w k s :
  inv w → NoDup (ids (inserted w ++ [(k, s)])) → inv (mkWorld (Insert k s (the_cache w)) (inserted w ++ [(k, s)]) (given w)).
Proof.
  intros HI Hd. destruct (HI) as [H1 H2 H3]. unfold ids in Hd. rewrite map_app in Hd. apply list.NoDup_app in Hd as (_ & Hf & _).
  assert (session_id s ∉ ids (inserted w)) as Hnew by (intros Hx; apply (Hf _ Hx); cbn; by apply list_elem_of_singleton).
  assert (∀ j e, entry_inv (inserted w) (given w) j e → entry_inv (inserted w ++ [(k, s)]) (given w) j e) as Hmono.
  { intros j e (Ha & Hb & Hc). split; [done|]. split; [done|]. intros x Hx. destruct (Hc x Hx) as [(s0 & Hi & Hst) Hu].
    split; [|done]. exists s0. split; [|done]. apply elem_of_app. by left. }
  assert (∀ e, (held e = [] ∨ entry_inv (inserted w) (given w) k e) → entry_inv (inserted w ++ [(k, s)]) (given w) k (Push e s)) as Hpush.
  { intros e He. assert (∀ x, x ∈ held e → session_id x ∈ ids (inserted w)) as Hids.
    { intros x Hx. destruct He as [He|(_ & _ & Hc)]; [rewrite He in Hx; by apply elem_of_nil in Hx|].
      destruct (Hc x Hx) as [(s0 & Hi & Hst) _]. by eapply in_ids. }
    split; [by eexists|]. split.
    - apply held_push_ids; [destruct He as [He|(_ & Hb & _)]; [rewrite He; constructor|done]|].
      intros (x & Ex & Hx)%list_elem_of_fmap. apply Hnew. rewrite Ex. auto.
    - intros x [-> | Hx]%held_push.
      + split; [exists s; split; [apply elem_of_app; right; by apply list_elem_of_singleton|by left]|].
        intros _ Hs. apply Hnew. by apply spent_in_ids.
      + destruct He as [He|He]; [rewrite He in Hx; by apply elem_of_nil in Hx|]. by apply (Hmono k e He). }
  split; cbn; [|intros j x t Hx; destruct (H2 _ _ _ Hx) as [(s0 & Hi & Hst) Ht]; split; [exists s0; rewrite elem_of_app; auto|done]|done].
  intros j e. unfold Insert. destruct (lru_lookup k (lru_get k (cache_ (the_cache w)))) as [e0|] eqn:E; cbn;
    rewrite lookup_set by (rewrite ?lookup_put_eq; by eexists); case_decide as Hj.
  - intros [= <-]. subst j. apply Hpush. right. apply H1. by rewrite lookup_get in E.
  - rewrite lookup_get. intros Ej. apply Hmono. by apply H1.
  - intros [= <-]. subst j. apply Hpush. by left.
  - intros Ej. destruct (lookup_put_ne k j (mkEntry None None) (lru_get k (cache_ (the_cache w))) Hj) as [Eq|Eq]; rewrite Eq in Ej; [|done].
    rewrite lookup_get in Ej. apply Hmono. by apply H1.
Qed.

(** What [Lookup] does with the entry it finds. *)
Definition take (now' : Z) (k : Key) (m : cache) : option (option SSL_SESSION * cache) :=
  match lru_lookup k m with
  | None => Some (None, m)
  | Some e =>
      let '(session, e) := Pop e in
      let '(dead, e) := ExpireSessions e now' in
      b ← IsExpired session now';
      Some (if (b : bool) then None else session, if dead then lru_erase k m else lru_set k e m)
  end.

Lemma Lookup_take now now' k c :
  ∃ n m, (m = lru_get k (cache_ c) ∨ m = lru_get k (FlushExpiredSessions now (cache_ c))) ∧
    Lookup now now' k c = ('(session, m) ← take now' k m; Some (session, mkCache n m)).
Proof.
  unfold Lookup, take. destruct (expiration_check_count <=? lookups_since_flush_ c + 1)%Z;
    [exists 0%Z, (lru_get k (FlushExpiredSessions now (cache_ c)))|exists (lookups_since_flush_ c + 1)%Z, (lru_get k (cache_ c))];
    (split; [auto|]); destruct (lru_lookup k _) as [e|]; [|done| |done]; destruct (Pop e) as [session e1];
    destruct (ExpireSessions e1 now') as [dead e2]; by destruct (IsExpired session now').
Qed.

(** An entry after a session is taken from it, unless it is erased. *)
Definition popped (e e' : Entry) : Prop := ∃ e1, (Pop e).2 = e1 ∧ is_Some (sessions0 e1) ∧ shrunk e1 e'.

Lemma take_spec now' k m e s :
  lru_lookup k m = Some e → sessions0 e = Some s →
  ∃ m', take now' k m = Some (if expired s now' then None else Some s, m') ∧
    (∀ j, j ≠ k → lru_lookup j m' = lru_lookup j m) ∧ (∀ e', lru_lookup k m' = Some e' → popped e e').
Proof.
  intros E E0. unfold take. rewrite E. unfold Pop at 1. rewrite E0.
  destruct (ExpireSessions (if should_be_single_use s then mkEntry (sessions1 e) None else e) now') as [dead e2] eqn:Ex.
  assert (IsExpired (Some s) now' = Some (expired s now')) as -> by (unfold IsExpired, expired; cbn; by destruct (now' <? 0)%Z).
  eexists. split; [reflexivity|]. destruct dead.
  - split; [intros j Hj; by rewrite lookup_erase, decide_False|]. intros e'. by rewrite lookup_erase, decide_True.
  - split; [intros j Hj; rewrite lookup_set by (by eexists); by rewrite decide_False|].
    intros e'. rewrite lookup_set by by eexists. rewrite decide_True by done. intros [= <-].
    eexists. split; [reflexivity|]. unfold Pop. rewrite E0. cbn. split; [|by eapply ExpireSessions_shrunk].
    revert Ex. unfold ExpireSessions. destruct (if should_be_single_use s then _ else e) as [[s1|] o]; [by eexists|by intros [= ? ?]].
Qed.

(** Taking a session from an entry; a session for a single use is no longer held. *)
Lemma entry_inv_popped ins g k e e' s t :
  entry_inv ins g k e → sessions0 e = Some s → popped e e' → entry_inv ins (g ++ [(k, s, t)]) k e'.
Proof.
  intros (H1 & H2 & H3) E0 (e1 & Ep & Hs & Hsh). eapply entry_inv_shrunk; [|exact Hsh]. unfold Pop in Ep. rewrite E0 in Ep. cbn in Ep.
  assert (∀ x, spent (g ++ [(k, s, t)]) = spent g ++ (if should_be_single_use s then [session_id s] else []) ∧ (x ∈ held e1 → x ∈ held e)) as Hx.
  { intros x. split; [unfold spent; rewrite omap_app; cbn; by destruct (should_be_single_use s)|]. subst e1. unfold held. rewrite E0.
    destruct (should_be_single_use s); cbn; [|by rewrite E0]. rewrite app_nil_r. intros. by right. }
  assert (NoDup (map session_id (held e1)) ∧ (should_be_single_use s = true → ∀ x, x ∈ held e1 → session_id x ≠ session_id s)) as [Hn Hne].
  { subst e1. unfold held in H2. rewrite E0 in H2. cbn in H2. apply list.NoDup_cons in H2 as [Hs1 Hn1].
    destruct (should_be_single_use s) eqn:Eu; unfold held; cbn; [rewrite app_nil_r|rewrite E0; split; [by apply list.NoDup_cons|done]].
    split; [done|]. intros _ x Hin Eq. apply Hs1. rewrite <- Eq. by apply list_elem_of_fmap_2. }
  split; [done|]. split; [done|]. intros x Hin. destruct (Hx x) as [-> Hin']. destruct (H3 x (Hin' Hin)) as [Hst Hsp]. split; [done|].
  intros Hu. rewrite elem_of_app. intros [Hg|Hg]; [by apply Hsp|]. destruct (should_be_single_use s); [|by apply elem_of_nil in Hg].
  apply list_elem_of_singleton in Hg. by apply (Hne eq_refl x Hin).
Qed.

Lemma inv_give w k e s t m' n :
  inv w → NoDup (ids (inserted w)) → lru_lookup k (cache_ (the_cache w)) = Some e → sessions0 e = Some s → expired s t = false →
  (∀ j, j ≠ k → lru_lookup j m' = lru_lookup j (cache_ (the_cache w))) → (∀ e', lru_lookup k m' = Some e' → popped e e') →
  inv (mkWorld (mkCache n m') (inserted w) (given w ++ [(k, s, t)])).
Proof.
  intros [H1 H2 H3] Hd E E0 Hx Hj Hk. destruct (H1 _ _ E) as (_ & _ & Hh).
  assert (s ∈ held e) as Hin by (unfold held; rewrite E0; left). destruct (Hh s Hin) as [(s0 & Hi & Hst) Hu].
  split; cbn.
  - intros j e'. destruct (decide (j = k)) as [->|Hn]; [intros He; eapply entry_inv_popped; eauto|].
    rewrite Hj by done. intros Ej. destruct (H1 _ _ Ej) as (Ha & Hb & Hc). split; [done|]. split; [done|]. intros x Hxin.
    destruct (Hc x Hxin) as [(x0 & Hxi & Hxst) Hxu]. split; [by exists x0|]. intros Hsu. unfold spent. rewrite omap_app, elem_of_app.
    intros [Hg|Hg]; [by apply Hxu|]. cbn in Hg. destruct (should_be_single_use s); [|by apply elem_of_nil in Hg].
    apply list_elem_of_singleton in Hg. apply Hn. eapply ids_unique; [exact Hd|exact Hxi|exact Hi|].
    apply stems_fields in Hst as [<- _]. apply stems_fields in Hxst as [<- _]. done.
  - intros j x u [Hg|[= -> -> ->]%list_elem_of_singleton]%elem_of_app; [by apply H2|]. split; [by exists s0|done].
  - unfold spent. rewrite omap_app. cbn. destruct (should_be_single_use s) eqn:Eu; [|by rewrite app_nil_r].
    apply list.NoDup_app. split; [done|]. split; [|apply NoDup_singleton]. intros i Hg [= ->]%list_elem_of_singleton. by apply Hu.
Qed.

(** The entries that [Lookup] looks at are those of the cache, less what has expired. *)
Lemma got_shrunk now k c m j e :
  m = lru_get k (cache_ c) ∨ m = lru_get k (FlushExpiredSessions now (cache_ c)) →
  lru_lookup j m = Some e → ∃ e0, lru_lookup j (cache_ c) = Some e0 ∧ shrunk e0 e.
Proof.
  intros [-> | ->]; rewrite lookup_get; intros E; [exists e; split; [done|apply shrunk_refl]|by apply flush_lookup in E].
Qed.

Lemma inv_lookup w now now' k :
  inv w → NoDup (ids (inserted w)) → ∃ w', step w (ELookup now now' k) = Some w' ∧ inv w' ∧ inserted w' = inserted w.
Proof.
  intros HI Hd. cbn. destruct (Lookup_take now now' k (the_cache w)) as (n & m & Hm & ->).
  assert (inv (mkWorld (mkCache n m) (inserted w) (given w))) as HI'
    by (apply inv_shrunk; [done|]; cbn; intros j e Ej; by eapply got_shrunk).
  destruct (lru_lookup k m) as [e|] eqn:E; [|unfold take; rewrite E; cbn; eexists; split; [done|]; by rewrite app_nil_r].
  destruct (iv_entries _ HI' k e E) as ((s & E0) & _).
  destruct (take_spec now' k m e s E E0) as (m' & -> & Hj & Hk). cbn. eexists. split; [reflexivity|]. split; [|done].
  destruct (expired s now') eqn:Ex; [|by eapply (inv_give (mkWorld (mkCache n m) (inserted w) (given w)))].
  rewrite app_nil_r. pose proof (iv_entries _ HI') as H1. split; [|apply HI'..]. cbn. intros j e'.
  destruct (decide (j = k)) as [->|Hn]; [|rewrite Hj by done; apply H1]. intros He.
  destruct (entry_inv_popped _ _ _ _ _ s now' (H1 _ _ E) E0 (Hk _ He)) as (Ha & Hb & Hc). split; [done|]. split; [done|].
  intros x Hx. destruct (Hc x Hx) as [Hst Hu]. split; [done|]. intros Hsu Hg. apply (Hu Hsu). unfold spent. rewrite omap_app, elem_of_app.
  by left.
Qed.

(** The insertion of an event. *)
Definition inserts (e : event) : list (Key * SSL_SESSION) := match e with EInsert k s => [(k, s)] | _ => [] end.

Lemma inv_step w e :
  inv w → NoDup (ids (inserted w ++ inserts e)) → ∃ w', step w e = Some w' ∧ inv w' ∧ inserted w' = inserted w ++ inserts e.
Proof.
  intros HI Hd. destruct e as [now now' k|k s|k|]; cbn in Hd |- *; rewrite ?app_nil_r in Hd; rewrite ?app_nil_r.
  - by apply inv_lookup.
  - eexists. split; [done|]. split; [by apply inv_insert|done].
  - eexists. split; [done|]. split; [by apply inv_clear|done].
  - eexists. split; [done|]. split; [|done]. apply inv_shrunk; [done|]. cbn. intros k e. by rewrite lookup_empty.
Qed.

Lemma insertions_cons e es : insertions (e :: es) = inserts e ++ insertions es.
Proof. by destruct e. Qed.

Lemma run_from es w :
  inv w → NoDup (ids (inserted w ++ insertions es)) →
  ∃ w', foldl (λ o e, w ← o; step w e) (Some w) es = Some w' ∧ inv w' ∧ inserted w' = inserted w ++ insertions es.
Proof.
  revert w. induction es as [|e es IH]; intros w HI Hd; [exists w; cbn; by rewrite app_nil_r|].
  rewrite insertions_cons in *. rewrite (app_assoc (inserted w)) in *.
  destruct (inv_step w e HI) as (w1 & E1 & HI1 & Ei).
  { unfold ids in *. rewrite map_app in Hd. by apply list.NoDup_app in Hd as [? _]. }
  rewrite <- Ei in *. cbn -[step]. rewrite E1. by apply IH.
Qed.

Lemma inv_init : inv (mkWorld cache_init [] []).
Proof. split; cbn; [intros k e; by rewrite lookup_empty|intros k s t Hx; by apply elem_of_nil in Hx|constructor]. Qed.

(** ** What a lookup finds *)

(** What is left after a flush has not expired. *)
Definition fresh (now : Z) (j : Key) (c : cache) : Prop :=
  ∀ e, lru_lookup j c = Some e → ∃ s, sessions0 e = Some s ∧ expired s now = false.

Lemma flush_key_fresh now c k j : (j = k ∨ fresh now j c) → fresh now j (flush_key now c k).
Proof.
  intros H e' E'. destruct (flush_key_lookup _ _ _ _ _ E') as (e & E & [S0 _]). destruct H as [->|H].
  - revert E'. unfold flush_key. rewrite E. unfold ExpireSessions. rewrite S0.
    destruct (sessions0 e) as [s|]; [|by rewrite lookup_erase, decide_True]. destruct (expired s now) eqn:Ex; [|by exists s].
    by rewrite lookup_erase, decide_True.
  - destruct (H e E) as (s & E0 & Hx). exists s. by rewrite S0.
Qed.

Lemma flush_fresh now c j : fresh now j (FlushExpiredSessions now c).
Proof.
  unfold FlushExpiredSessions. assert (j ∈ lru_keys c ∨ fresh now j c) as H.
  { destruct (lru_lookup j c) as [e|] eqn:E; [left; apply elem_of_keys; by eexists|right; intros e; by rewrite E]. }
  revert H. generalize (lru_keys c). intros ks. revert c. induction ks as [|k ks IH]; intros c H; cbn.
  - destruct H as [H|H]; [by apply elem_of_nil in H|done].
  - apply IH. destruct H as [[->|H]%elem_of_cons|H]; [right|by left|right]; apply flush_key_fresh; auto.
Qed.

(** The session that is next to be taken. *)
Definition offers (k : Key) (s : SSL_SESSION) (c : SSLClientSessionCache) : Prop :=
  ∃ e, lru_lookup k (cache_ c) = Some e ∧ sessions0 e = Some s.

Lemma got_offers now k c m j s :
  m = lru_get k (cache_ c) ∨ m = lru_get k (FlushExpiredSessions now (cache_ c)) →
  offers j s c → expired s now = false → ∃ e, lru_lookup j m = Some e ∧ sessions0 e = Some s.
Proof.
  intros [-> | ->] (e & E & E0) Hx; rewrite lookup_get; [by exists e|].
  destruct (flush_keeps now (cache_ c) j e s E E0 Hx) as (e' & E' & [S0 _]). exists e'. by rewrite S0.
Qed.

Lemma lookup_hit now now' k s c :
  offers k s c → expired s now = false → expired s now' = false → ∃ c', Lookup now now' k c = Some (Some s, c').
Proof.
  intros Ho Hx Hx'. destruct (Lookup_take now now' k c) as (n & m & Hm & ->).
  destruct (got_offers _ _ _ _ _ _ Hm Ho Hx) as (e & E & E0). destruct (take_spec now' k m e s E E0) as (m' & -> & _).
  rewrite Hx'. by eexists.
Qed.

Lemma lookup_miss now now' k c :
  lru_lookup k (cache_ c) = None →
  ∃ c', Lookup now now' k c = Some (None, c') ∧
    (∀ j s, offers j s c → expired s now = false → offers j s c') ∧ (∀ j, lru_lookup j (cache_ c) = None → lru_lookup j (cache_ c') = None).
Proof.
  intros Hn. destruct (Lookup_take now now' k c) as (n & m & Hm & ->).
  assert (∀ j, lru_lookup j (cache_ c) = None → lru_lookup j m = None) as Hnone.
  { intros j Hj. destruct (lru_lookup j m) as [e|] eqn:E; [|done]. destruct (got_shrunk _ _ _ _ _ _ Hm E) as (e0 & E0 & _). congruence. }
  unfold take. rewrite (Hnone k Hn). cbn. eexists. split; [reflexivity|]. split; [|done]. intros j s Ho Hx. by eapply got_offers.
Qed.

Lemma Insert_offers k s c : offers k s (Insert k s c).
Proof.
  unfold offers, Insert. destruct (lru_lookup k (lru_get k (cache_ c))) as [e|] eqn:E; cbn; eexists;
    (rewrite lookup_set by (rewrite ?lookup_put_eq; by eexists)); by rewrite decide_True.
Qed.

Lemma Insert_none j k s c : j ≠ k → lru_lookup j (cache_ c) = None → lru_lookup j (cache_ (Insert k s c)) = None.
Proof.
  intros Hn Hj. unfold Insert. destruct (lru_lookup k (lru_get k (cache_ c))) as [e|] eqn:E; cbn;
    (rewrite lookup_set by (rewrite ?lookup_put_eq; by eexists)); rewrite decide_False by done; [by rewrite lookup_get|].
  destruct (lookup_put_ne k j (mkEntry None None) (lru_get k (cache_ c)) Hn) as [->| ->]; [by rewrite lookup_get|done].
Qed.

(** ** The theorems *)

(** C22: whatever is looked up, inserted, cleared and flushed, at any times and in any order, as long as no session is inserted twice, no null
    session is ever looked into; a session that is given out for a server was inserted for that server, perhaps with its early data taken
    away since, and has not expired; and a session that is for a single use is given out once at most. *)
Theorem session_cache_sound es :
  NoDup (ids (insertions es)) →
  ∃ w, run es = Some w ∧
    (∀ k s t, (k, s, t) ∈ given w → (∃ s0, (k, s0) ∈ insertions es ∧ stems s0 s) ∧ expired s t = false) ∧
    NoDup (spent (given w)).
Proof.
  intros Hd. destruct (run_from es _ inv_init Hd) as (w & Er & HI & Ei). exists w. split; [exact Er|].
  split; [|apply HI]. cbn in Ei. rewrite <- Ei. apply HI.
Qed.

(** C23: a session that a connection has brought is the one with which the next connection to that host and port is made, whatever else was in
    the cache, if it has not expired by then.  A session with the key exchange of RSA is kept under the address too: where no other session is
    kept for the host as such, it is the one for the next connection to the same address, and there is none at another
    address for which nothing is kept. *)
Theorem session_resumed hp rsa a s t1 t2 t3 t4 c :
  Forall (λ t, expired s t = false) [t1; t2; t3; t4] →
  ∃ c1, NewSessionCallback hp rsa (Some a) s c = (true, c1) ∧
    if rsa then
      lru_lookup (GetSessionCacheKey hp None) (cache_ c) = None →
      (∃ c2, session_for hp (Some a) t1 t2 t3 t4 c1 = Some (Some s, c2)) ∧
      ∀ b, b ≠ a → lru_lookup (GetSessionCacheKey hp (Some b)) (cache_ c) = None →
        ∃ c2, session_for hp (Some b) t1 t2 t3 t4 c1 = Some (None, c2)
    else ∀ b, ∃ c2, session_for hp b t1 t2 t3 t4 c1 = Some (Some s, c2).
Proof.
  intros [X1 [X2 [X3 [X4 _]%list.Forall_cons]%list.Forall_cons]%list.Forall_cons]%list.Forall_cons. unfold NewSessionCallback, session_for. destruct rsa; (eexists; split; [reflexivity|]).
  - intros Hn. destruct (lookup_miss t1 t2 (GetSessionCacheKey hp None) (Insert (GetSessionCacheKey hp (Some a)) s c)) as (c2 & -> & Ho & Hm);
      [by apply Insert_none|]. cbn. split.
    + apply lookup_hit; [|done..]. apply Ho; [apply Insert_offers|done].
    + intros b Hb Hnb. destruct (lookup_miss t3 t4 (GetSessionCacheKey hp (Some b)) c2) as (c3 & -> & _); [|by eexists].
      apply Hm. apply Insert_none; [by intros [= ->]|done].
  - intros b. destruct (lookup_hit t1 t2 (GetSessionCacheKey hp None) s (Insert (GetSessionCacheKey hp None) s c)) as (c2 & ->);
      [apply Insert_offers|done..|]. cbn. by eexists.
Qed.

End Cache.

(** ** A container that is a list *)

(** The elements in the order of use, [max_size] at most. *)
Section Listed.
Context {K V : Type} `{!EqDecision K}.
Variable max_size : nat.

Definition assoc (k : K) (c : list (K * V)) : option V := snd <$> List.find (λ x, bool_decide (x.1 = k)) c.
Definition others (k : K) (c : list (K * V)) : list (K * V) := filter (λ x, x.1 ≠ k) c.
Definition listed_cache : LRUCache K V := {|
  cache := list (K * V);
  lru_empty := [];
  lru_lookup := assoc;
  lru_get := λ k c, match assoc k c with Some v => (k, v) :: others k c | None => c end;
  lru_put := λ k v c, (k, v) :: List.firstn (max_size - 1) (others k c);
  lru_set := λ k v c, (λ x, if decide (x.1 = k) then (k, v) else x) <$> c;
  lru_erase := others;
  lru_keys := λ c, remove_dups c.*1
|}.

Lemma assoc_cons k x c : assoc k (x :: c) = if decide (x.1 = k) then Some x.2 else assoc k c.
Proof. unfold assoc. cbn. case_bool_decide; by case_decide. Qed.

Lemma assoc_others k j c : assoc j (others k c) = if decide (j = k) then None else assoc j c.
Proof.
  induction c as [|x c IH]; [by case_decide|]. unfold others in *. rewrite filter_cons.
  repeat case_decide; rewrite ?assoc_cons, ?IH; repeat case_decide; subst; naive_solver.
Qed.

Lemma assoc_set k v j c : is_Some (assoc k c) →
  assoc j ((λ x, if decide (x.1 = k) then (k, v) else x) <$> c) = if decide (j = k) then Some v else assoc j c.
Proof.
  induction c as [|x c IH]; [by intros [? ?]|]. rewrite fmap_cons, !assoc_cons. intros Hs.
  destruct (decide (x.1 = k)) as [Ex|Ex]; cbn; [rewrite Ex; destruct (decide (k = j)), (decide (j = k)); try congruence|].
  - clear Hs IH. induction c as [|y c IHc]; [done|]. rewrite fmap_cons, !assoc_cons, IHc. by destruct (decide (y.1 = k)) as [->|]; cbn; repeat case_decide.
  - rewrite IH by done. by repeat case_decide; subst.
Qed.

Lemma assoc_firstn k n c : assoc k (List.firstn n c) = assoc k c ∨ assoc k (List.firstn n c) = None.
Proof.
  revert n. induction c as [|x c IH]; intros [|n]; cbn [List.firstn]; auto. rewrite !assoc_cons. case_decide; auto.
Qed.

#[export] Instance listed_laws : LRULaws K V listed_cache.
Proof.
  split; cbn -[assoc others].
  - done.
  - intros k j c. destruct (assoc j c) as [v|] eqn:E; [|done]. rewrite assoc_cons, assoc_others. cbn. repeat case_decide; congruence.
  - intros k v c. rewrite assoc_cons. by case_decide.
  - intros k j v c Hn. rewrite assoc_cons. cbn. case_decide; [congruence|].
    destruct (assoc_firstn j (max_size - 1) (others k c)) as [->| ->]; [|by right]. rewrite assoc_others. case_decide; auto.
  - intros. by apply assoc_set.
  - intros. apply assoc_others.
  - intros k c. rewrite elem_of_remove_dups. induction c as [|x c IH]; cbn -[assoc].
    + split; [by intros ?%elem_of_nil|by intros [? ?]].
    + rewrite elem_of_cons, assoc_cons, IH. case_decide; naive_solver.
  - intros c. apply NoDup_remove_dups.
Qed.
End Listed.

(** ** Witnesses *)

Local Abbreviation sample := (listed_cache (K := Key) (V := Entry) 2).
Definition host1 : text * Z := ([Byte.x61; Byte.x2e; Byte.x62], 443%Z).
Definition session1 : SSL_SESSION := mkSession 1 1000 7200 true true.
Definition session2 : SSL_SESSION := mkSession 2 1000 7200 true false.
Definition session3 : SSL_SESSION := mkSession 3 1000 100 false false.

Definition events1 : list event :=
  let k := GetSessionCacheKey host1 None in
  [EInsert k session1; EInsert k session2; EClearEarlyData k; ELookup 1001 1001 k; ELookup 1002 1002 k; ELookup 1003 1003 k;
   EInsert k session3; ELookup 1004 1004 k; ELookup 1005 1005 k; ELookup 1100 1100 k].

(** Both sessions for a single use are given once, the last one first; the other one as often as it is asked for, until it expires. *)
Lemma session_cache_sound_witness :
  NoDup (ids (insertions events1)) ∧
  ∃ w, run (L := sample) 3 events1 = Some w ∧
    given w = [(GetSessionCacheKey host1 None, session2, 1001%Z);
               (GetSessionCacheKey host1 None, without_early_data session1, 1002%Z);
               (GetSessionCacheKey host1 None, session3, 1004%Z); (GetSessionCacheKey host1 None, session3, 1005%Z)] ∧
    NoDup (spent (given w)).
Proof.
  assert (NoDup (ids (insertions events1))) as Hd by (by apply (bool_decide_unpack _); vm_compute).
  split; [exact Hd|]. destruct (session_cache_sound (L := sample) 3 events1 Hd) as (w & Er & _ & Hs). exists w. split; [exact Er|].
  split; [|exact Hs]. assert (given <$> run (L := sample) 3 events1 = given <$> Some w) as Ew by by rewrite Er.
  vm_compute in Ew. injection Ew as Ew. exact (eq_sym Ew).
Defined.

Lemma session_resumed_witness :
  Forall (λ t, expired session1 t = false) [1001; 1001; 1002; 1002]%Z ∧
  ∃ c1, NewSessionCallback (L := sample) host1 true (Some (address_v4 [Byte.x01; Byte.x02; Byte.x03; Byte.x04])) session1 (cache_init (L := sample)) = (true, c1) ∧
    (∃ c2, session_for (L := sample) 3 host1 (Some (address_v4 [Byte.x01; Byte.x02; Byte.x03; Byte.x04])) 1001 1001 1002 1002 c1 = Some (Some session1, c2)) ∧
    (∃ c2, session_for (L := sample) 3 host1 (Some (address_v4 [Byte.x01; Byte.x02; Byte.x03; Byte.x05])) 1001 1001 1002 1002 c1 = Some (None, c2)).
Proof.
  assert (Forall (λ t, expired session1 t = false) [1001; 1001; 1002; 1002]%Z) as Hx by (repeat constructor).
  split; [exact Hx|].
  destruct (session_resumed (L := sample) 3 host1 true (address_v4 [Byte.x01; Byte.x02; Byte.x03; Byte.x04]) session1 1001 1001 1002 1002 cache_init Hx) as (c1 & E1 & H).
  exists c1. split; [exact E1|]. destruct (H eq_refl) as [H1 H2]. split; [exact H1|]. exact (H2 (address_v4 [Byte.x01; Byte.x02; Byte.x03; Byte.x05]) ltac:(done) eq_refl).
Defined.

End SessionCache.
