(* ===== verification/Utils.v ===== *)
(** * Utilities

    Functions of src/src/core/utils.cpp, in the build for POSIX systems: [Dirname], [Basename], [ExpandUser], the writing of files and the
    text of a number of bytes.

    What the system answers is an argument: the environment and the user database, and the results of [open], [write] and [close].
    Positions in a text are [nat], with [None] for [npos]. *)

From Stdlib Require Import ZArith Lia Strings.Byte.
From stdpp Require Import base list numbers option.
From S2P Require Import Prelude.

Module Utils.

Abbreviation text := (list byte).

(** ** Positions in a text *)

(** [find_last_of] and [find_last_not_of]: the last position below [n] whose character satisfies [p]. *)
Fixpoint rfind (p : byte → bool) (l : text) (n : nat) : option nat :=
  match n with
  | O => None
  | S n => match l !! n with Some c => if p c then Some n else rfind p l n | None => rfind p l n end
  end.

(** [find] and [find_first_not_of]: the first position from [n]. *)
Definition find_from (p : byte → bool) (l : text) (n : nat) : option nat :=
  x ← list_find (λ c, p c = true) (drop n l); Some (n + x.1).

(** [kSeparators]. *)
Definition is_sep (c : byte) : bool := bool_decide (c = x2f).
Definition not_sep (c : byte) : bool := negb (is_sep c).

(** ** Paths *)

Definition Dirname (path : text) : text :=
  match rfind not_sep path (length path) with
  | None => if decide (path = []) then str "/" else take 1 path
  | Some first_non_slash_at_end_pos =>
      match rfind is_sep path (S first_non_slash_at_end_pos) with
      | None => str "."
      | Some last_slash_pos =>
          match rfind not_sep path (S last_slash_pos) with
          | None => take 1 path
          | Some first_non_slash_at_end_pos => take (first_non_slash_at_end_pos + 1) path
          end
      end
  end.

Definition Basename (path : text) : text :=
  match rfind not_sep path (length path) with
  | None => if decide (path = []) then [] else take 1 path
  | Some first_non_slash_at_end_pos =>
      match rfind is_sep path (S first_non_slash_at_end_pos) with
      | None => take (first_non_slash_at_end_pos + 1) path
      | Some last_slash_pos => take (first_non_slash_at_end_pos - last_slash_pos) (drop (last_slash_pos + 1) path)
      end
  end.

(** A string as C sees it. *)
Fixpoint c_str (s : text) : text := match s with [] => [] | b :: s => if decide (b = x00) then [] else b :: c_str s end.

(** [ExpandUser]: [HOME], the home of the user who runs the program, and the homes of the users by name. *)
Definition ExpandUser (HOME getpwuid : option text) (getpwnam : text → option text) (file_path : text) : text :=
  match file_path with
  | x7e :: rest =>
      let home := default [] HOME in
      let home := if decide (home = []) then match getpwuid with Some dir => dir | None => str "/" end else home in
      match rest with
      | [] => home
      | c :: rest' =>
          if decide (c = x2f) then home ++ str "/" ++ rest'
          else
            let pos := find_from is_sep file_path 1 in
            let username := match pos with Some pos => take (pos - 1) (drop 1 file_path) | None => drop 1 file_path end in
            let pos := pos ← pos; find_from not_sep file_path pos in
            match getpwnam (c_str username) with
            | None => str "/"
            | Some dir => match pos with Some pos => dir ++ str "/" ++ c_str (drop pos file_path) | None => dir end
            end
      end
  | _ => file_path
  end.

(** ** Files *)

(** [WriteFileDescriptor]: [answers] are the results of [write]; what the file holds in the end.  No result where the loop is not
    over after them. *)
Fixpoint WriteFileDescriptor (file data : text) (answers : list Z) : option (bool * text) :=
  match data with
  | [] => Some (true, file)
  | _ =>
      match answers with
      | [] => None
      | n :: answers =>
          if (n <? 0)%Z then Some (false, file)
          else WriteFileDescriptor (file ++ take (Z.to_nat n) data) (drop (Z.to_nat n) data) answers
      end
  end.

(** [WriteFileWithBuffer]; [file] is the file before, if there is one. *)
Definition WriteFileWithBuffer (opens closes : bool) (answers : list Z) (file : option text) (buf : text) : option (Z * option text) :=
  if negb opens then Some (0%Z, file)
  else
    '(ok, file) ← WriteFileDescriptor [] buf answers;
    Some (if negb closes then (-1)%Z else if (ok : bool) then Z.of_nat (length buf) else (-1)%Z, Some file).

(** ** Numbers of bytes *)

Definition threshold : Z := 0xfffcccccccccccc.

(** The loop of [HumanReadableByteCountBinT], for the values of [i]. *)
Fixpoint scale (shifts : list Z) (bytes value : Z) (c : nat) : Z * nat :=
  match shifts with
  | [] => (value, c)
  | i :: shifts => if (Z.shiftr threshold i <? bytes)%Z then scale shifts bytes (Z.shiftr value 10) (S c) else (value, c)
  end.

Definition units : text := str "KMGTPE".

(** [value / 1024.0] in hundredths; the quotient is exact in a [double], and a tie goes to the even number. *)
Definition hundredths (value : Z) : Z :=
  let q := (100 * value / 1024)%Z in
  let r := (100 * value mod 1024)%Z in
  if (r <? 512)%Z then q else if (512 <? r)%Z then q + 1 else if Z.even q then q else q + 1.

Definition digit (d : Z) : byte := to_u8 (48 + d).

(** [std::fixed] and [std::setprecision(2)]. *)
Definition fixed2 (h : Z) : text := decimal (h / 100) ++ str "." ++ [digit (h / 10 mod 10); digit (h mod 10)].

Definition setw (n : nat) (t : text) : text := replicate (n - length t) x20 ++ t.

(** [HumanReadableByteCountBin]. *)
Definition HumanReadableByteCountBin (bytes : Z) : option text :=
  if (bytes <? 1024)%Z then Some (decimal bytes ++ str " B")
  else
    let '(value, c) := scale [40; 30; 20; 10; 0]%Z bytes bytes 0 in
    u ← units !! c;
    Some (setw 5 (fixed2 (hundredths value)) ++ str " " ++ [u]).

(** ** Lemmas on positions *)

Lemma rfind_app p l t n : n <= length l → rfind p (l ++ t) n = rfind p l n.
Proof. induction n as [|n IH]; intros H; cbn; [done|]. rewrite lookup_app_l by lia. rewrite IH by lia. done. Qed.

Lemma rfind_skip p l t : Forall (λ c, p c = false) t → rfind p (l ++ t) (length (l ++ t)) = rfind p l (length l).
Proof.
  induction t as [|c t IH] using rev_ind; intros H; [by rewrite app_nil_r|]. apply Forall_app in H as [Ht Hc].
  apply list.Forall_cons in Hc as [Hc _]. rewrite (app_assoc l t), length_app. cbn [length]. rewrite Nat.add_1_r. cbn [rfind].
  rewrite list_lookup_middle by done. rewrite Hc, rfind_app by done. by apply IH.
Qed.

Lemma rfind_none p t : Forall (λ c, p c = false) t → rfind p t (length t) = None.
Proof. intros H. by apply (rfind_skip p [] t). Qed.

Lemma rfind_last p l c : p c = true → rfind p (l ++ [c]) (length (l ++ [c])) = Some (length l).
Proof. intros H. rewrite length_app, Nat.add_1_r. cbn. rewrite list_lookup_middle by done. by rewrite H. Qed.

(** A text is cut where its end begins to satisfy [p]. *)
Lemma cut_end (p : byte → bool) l :
  ∃ a b, l = a ++ b ∧ Forall (λ c, p c = true) b ∧ (a = [] ∨ ∃ a' c, a = a' ++ [c] ∧ p c = false).
Proof.
  induction l as [|c l IH] using rev_ind; [by exists [], []; split; [|split; [|left]]|].
  destruct (p c) eqn:E; [|by exists (l ++ [c]), []; rewrite app_nil_r; split; [|split; [|right; exists l, c]]].
  destruct IH as (a & b & -> & Hb & Ha). exists a, (b ++ [c]). rewrite app_assoc. split; [done|]. split; [|done].
  apply Forall_app. split; [done|]. by constructor.
Qed.

(** ** What the parts of a path are *)

Abbreviation seps := (Forall (λ c, is_sep c = true)).
Abbreviation nonseps := (Forall (λ c, is_sep c = false)).

(** A path, its directory and its last name, as dirname(3) and basename(3) have them. *)
Inductive splits : text → text → text → Prop :=
  | splits_empty : splits [] (str ".") (str ".")
  | splits_root c t : seps (c :: t) → splits (c :: t) [c] [c]
  | splits_bare name t : name ≠ [] → nonseps name → seps t → splits (name ++ t) (str ".") name
  | splits_in_root c t name t' : seps (c :: t) → name ≠ [] → nonseps name → seps t' → splits ((c :: t) ++ name ++ t') [c] name
  | splits_in dir c t name t' :
      is_sep c = false → t ≠ [] → seps t → name ≠ [] → nonseps name → seps t' → splits ((dir ++ [c]) ++ t ++ name ++ t') (dir ++ [c]) name.

Lemma not_sep_seps t : seps t → Forall (λ c, not_sep c = false) t.
Proof. apply Forall_impl. unfold not_sep. by intros c ->. Qed.

(** The end of a path that has a last name. *)
Lemma rfind_name l name t :
  name ≠ [] → nonseps name → seps t →
  ∃ n, rfind not_sep (l ++ name ++ t) (length (l ++ name ++ t)) = Some n ∧ S n = length l + length name ∧
    rfind is_sep (l ++ name ++ t) (S n) = rfind is_sep l (length l).
Proof.
  intros Hne Hn Ht. destruct name as [|c name _] using rev_ind; [done|]. exists (length (l ++ name)).
  rewrite (app_assoc l), rfind_skip by by apply not_sep_seps. split; [|split].
  - rewrite app_assoc. apply rfind_last. apply Forall_app in Hn as [_ [Hc _]%list.Forall_cons]. unfold not_sep. by rewrite Hc.
  - rewrite !length_app. cbn. lia.
  - rewrite rfind_app by (rewrite !length_app; cbn; lia).
    replace (S (length (l ++ name))) with (length (l ++ name ++ [c])) by (rewrite !length_app; cbn; lia). by apply rfind_skip.
Qed.

Lemma splits_sound path d b : path ≠ [] → splits path d b → d = Dirname path ∧ b = Basename path.
Proof.
  intros Hpath. unfold Dirname, Basename. destruct 1 as [|c t Hs|name t Hne Hn Ht|c t name t' Hs Hne Hn Ht|dir c t name t' Hc Hte Hs Hne Hn Ht].
  - done.
  - rewrite rfind_none by by apply not_sep_seps. done.
  - destruct (rfind_name [] name t Hne Hn Ht) as (n & E1 & En & E2). cbn [app] in E1, E2. rewrite E1, E2. cbn. cbn in En.
    rewrite Nat.add_1_r, En. by rewrite take_app_length.
  - destruct (rfind_name (c :: t) name t' Hne Hn Ht) as (n & -> & En & ->).
    assert (c :: t ≠ []) as Hct by done. destruct (c :: t) as [|c' u _] eqn:Eu using rev_ind; [done|].
    pose proof Hs as [_ [Hc' _]%list.Forall_cons]%Forall_app. rewrite (rfind_last is_sep u c' Hc').
    rewrite length_app in En. cbn in En. rewrite <- (app_assoc u).
    replace (S (length u)) with (length (u ++ [c'])) by (rewrite length_app; cbn; lia). rewrite (app_assoc u), rfind_app by done.
    rewrite rfind_none by by apply not_sep_seps. split; [by rewrite <- Eu|].
    replace (length u + 1) with (length (u ++ [c'])) by by rewrite length_app. rewrite drop_app_length.
    replace (n - length u) with (length name) by lia. by rewrite take_app_length.
  - replace ((dir ++ [c]) ++ t ++ name ++ t') with (((dir ++ [c]) ++ t) ++ name ++ t') by by rewrite !app_assoc.
    destruct (rfind_name ((dir ++ [c]) ++ t) name t' Hne Hn Ht) as (n & -> & En & ->).
    destruct t as [|c' u _] using rev_ind; [done|]. pose proof Hs as [Hu [Hc' _]%list.Forall_cons]%Forall_app.
    rewrite (app_assoc (dir ++ [c])), (rfind_last is_sep _ c' Hc').
    replace (S (length ((dir ++ [c]) ++ u))) with (length (((dir ++ [c]) ++ u) ++ [c'])) by (rewrite length_app; cbn; lia).
    rewrite rfind_app by done. rewrite <- (app_assoc (dir ++ [c])), rfind_skip by by apply not_sep_seps.
    rewrite rfind_last by (unfold not_sep; by rewrite Hc). split.
    + rewrite <- app_assoc. replace (length dir + 1) with (length (dir ++ [c])) by by rewrite length_app. by rewrite take_app_length.
    + rewrite !length_app in En. cbn in En. rewrite (app_assoc (dir ++ [c])).
      replace (length ((dir ++ [c]) ++ u) + 1) with (length (((dir ++ [c]) ++ u) ++ [c'])) by by rewrite length_app.
      rewrite drop_app_length. replace (n - length ((dir ++ [c]) ++ u)) with (length name) by (rewrite !length_app; cbn; lia).
      by rewrite take_app_length.
Qed.

Lemma splits_total path : ∃ d b, splits path d b.
Proof.
  destruct (cut_end is_sep path) as (p1 & t' & -> & Ht' & [->|(n' & c & -> & Hc)]).
  { destruct t' as [|c t]; [by eexists _, _; constructor|]. eexists _, _. by apply splits_root. }
  destruct (cut_end not_sep (n' ++ [c])) as (p2 & name & E & Hn & Hp2).
  assert (nonseps name) as Hn' by (revert Hn; apply Forall_impl; intros x; unfold not_sep; by destruct (is_sep x)).
  assert (name ≠ []) as Hne.
  { intros ->. rewrite app_nil_r in E. subst p2. destruct Hp2 as [?%app_nil|(a & x & [_ [= <-]]%app_inj_2 & Hx)]; [naive_solver| |done].
    unfold not_sep in Hx. by rewrite Hc in Hx. }
  rewrite E. destruct Hp2 as [->|(p3 & x & -> & Hx)]; [eexists _, _; by apply splits_bare|].
  destruct (cut_end is_sep (p3 ++ [x])) as (p4 & t & E2 & Ht & Hp4). rewrite <- app_assoc, E2.
  assert (t ≠ []) as Hte.
  { intros ->. rewrite app_nil_r in E2. subst p4. destruct Hp4 as [?%app_nil|(a & y & [_ [= <-]]%app_inj_2 & Hy)]; [naive_solver| |done].
    unfold not_sep in Hx. by rewrite Hy in Hx. }
  destruct Hp4 as [->|(dir & y & -> & Hy)]; [|rewrite <- app_assoc; eexists _, _; by apply splits_in].
  destruct t as [|y t]; [done|]. eexists _, _. by apply splits_in_root.
Qed.

(** C39: for every path that is not empty [Dirname] and [Basename] give the directory and the last name of dirname(3) and basename(3): of a
    path of slashes alone, a name without a directory, a name in the root and a name in a directory, with any number of slashes
    between and after them. *)
Theorem path_parts path d b : path ≠ [] → splits path d b ↔ d = Dirname path ∧ b = Basename path.
Proof.
  intros Hp. split; [by apply splits_sound|]. intros [-> ->]. destruct (splits_total path) as (d & b & H).
  pose proof (splits_sound _ _ _ Hp H) as [<- <-]. done.
Qed.

(** For the empty path dirname(3) and basename(3) give a dot; the program gives the root directory and no name. *)
Theorem path_parts_empty : splits [] (str ".") (str ".") ∧ Dirname [] = str "/" ∧ Basename [] = [].
Proof. split; [constructor|done]. Qed.

(** ** Homes *)

Definition absolute (t : text) : Prop := head t = Some x2f.

Lemma absolute_app a b : absolute a → absolute (a ++ b).
Proof. by destruct a. Qed.

(** Where the homes that the system knows are absolute paths, so is what a path that begins with a tilde is expanded to, whether a
    user is named or not and whether he exists or not; other paths are left as they are. *)
Theorem expand_user_absolute HOME getpwuid getpwnam path :
  (∀ d, HOME = Some d → d = [] ∨ absolute d) → (∀ d, getpwuid = Some d → absolute d) → (∀ u d, getpwnam u = Some d → absolute d) →
  if decide (head path = Some x7e) then absolute (ExpandUser HOME getpwuid getpwnam path) else ExpandUser HOME getpwuid getpwnam path = path.
Proof.
  intros H1 H2 H3. destruct path as [|c rest]; [done|]. case_decide as Hc; [|by destruct c]. injection Hc as ->. unfold ExpandUser.
  set (home := if decide (default [] HOME = []) then _ else _). assert (absolute home) as Hh.
  { subst home. case_decide as Hd; [destruct getpwuid; [by apply H2|done]|]. destruct HOME as [d|]; [|done]. by destruct (H1 d eq_refl). }
  destruct rest as [|c rest]; [done|]. case_decide; [by apply absolute_app|].
  destruct (getpwnam _) as [dir|] eqn:E; [|done]. apply H3 in E. destruct (_ ≫= _); [by apply absolute_app|done].
Qed.

(** ** Writing a file *)

Lemma WriteFileDescriptor_spec file data answers :
  Forall (λ n, n ≠ 0%Z) answers → length data <= length answers →
  ∃ ok t, WriteFileDescriptor file data answers = Some (ok, file ++ t) ∧ t `prefix_of` data ∧ (ok = true → t = data) ∧
    (Forall (λ n, 0 < n)%Z answers → ok = true).
Proof.
  revert file data. induction answers as [|n answers IH]; intros file data Hn Hl.
  { destruct data; [|cbn in Hl; lia]. exists true, []. cbn. rewrite app_nil_r. done. }
  destruct data as [|b data]; [exists true, []; cbn; by rewrite app_nil_r|]. apply list.Forall_cons in Hn as [Hn0 Hn]. cbn [WriteFileDescriptor].
  destruct (Z.ltb_spec n 0) as [Hneg|Hpos].
  - exists false, []. rewrite app_nil_r. split; [done|]. split; [apply prefix_nil|]. split; [done|].
    intros [? _]%list.Forall_cons. lia.
  - destruct (IH (file ++ take (Z.to_nat n) (b :: data)) (drop (Z.to_nat n) (b :: data)) Hn) as (ok & t & E & Hp & Hok & Hall).
    { rewrite length_drop. cbn in Hl |- *. lia. }
    exists ok, (take (Z.to_nat n) (b :: data) ++ t). rewrite E, (app_assoc file). split; [done|].
    split; [destruct Hp as [k Ek]; exists k; by rewrite <- app_assoc, <- Ek, take_drop|]. split; [intros Ho; rewrite (Hok Ho); apply take_drop|].
    intros [_ Ha]%list.Forall_cons. by apply Hall.
Qed.

(** C40: where every [write] writes something or fails, writing a text to a file comes to an end after no more of them than the text
    has bytes.  If the number returned is the length of a text that is not empty, the file holds the text; it is returned if nothing
    fails; and otherwise the file is as it was if it could not be opened, and holds a first part of the text if it could. *)
Theorem write_file_result opens closes answers file buf :
  Forall (λ n, n ≠ 0%Z) answers → length buf <= length answers → buf ≠ [] →
  ∃ r file', WriteFileWithBuffer opens closes answers file buf = Some (r, file') ∧
    (r = Z.of_nat (length buf) → file' = Some buf) ∧
    (opens = true → closes = true → Forall (λ n, 0 < n)%Z answers → r = Z.of_nat (length buf)) ∧
    (if opens then ∃ t, file' = Some t ∧ t `prefix_of` buf else file' = file ∧ r = 0%Z).
Proof.
  intros Hn Hl Hne. unfold WriteFileWithBuffer. destruct opens; cbn [negb].
  - destruct (WriteFileDescriptor_spec [] buf answers Hn Hl) as (ok & t & -> & Hp & Hok & Hall). cbn.
    eexists _, _. split; [reflexivity|]. split; [|split; [|by exists t]].
    + destruct closes, ok; cbn; intros Hr; [by rewrite Hok|lia..].
    + intros _ -> Ha. by rewrite (Hall Ha).
  - exists 0%Z, file. split; [done|]. split; [|done]. destruct buf; [done|]. cbn. lia.
Qed.

(** ** Numbers of bytes *)

Lemma hundredths_near v : (2 * Z.abs (1024 * hundredths v - 100 * v) <= 1024)%Z.
Proof.
  unfold hundredths. pose proof (Z.div_mod (100 * v) 1024 ltac:(lia)). pose proof (Z.mod_pos_bound (100 * v) 1024 ltac:(lia)).
  destruct (Z.ltb_spec (100 * v mod 1024) 512), (Z.ltb_spec 512 (100 * v mod 1024)), (Z.even (100 * v / 1024)); lia.
Qed.

(** The bounds of a quotient by a unit. *)
Local Ltac unit_bounds u :=
  split; [lia|]; split; [by rewrite ?Z.div_1_r|];
  match goal with |- (_ <= _ / ?d <= _)%Z => change d with u end;
  split; [apply Z.div_le_lower_bound; lia|apply Z.lt_succ_r, Z.div_lt_upper_bound; lia].

(** The unit that is chosen, and what is left. *)
Lemma scale_spec bytes :
  (1024 <= bytes < 2 ^ 64)%Z →
  ∃ k, k <= 5 ∧ scale [40; 30; 20; 10; 0]%Z bytes bytes 0 = (bytes / 1024 ^ Z.of_nat k, k)%Z ∧
    (1023 <= bytes / 1024 ^ Z.of_nat k <= 1048524)%Z.
Proof.
  intros Hb. cbn [scale]. rewrite !Z.shiftr_shiftr by lia.
  change (Z.shiftr threshold 40) with 1048524%Z. change (Z.shiftr threshold 30) with 1073689395%Z.
  change (Z.shiftr threshold 20) with 1099457940684%Z. change (Z.shiftr threshold 10) with 1125844931261235%Z.
  change (Z.shiftr threshold 0) with 1152865209611504844%Z. cbn [Z.add Pos.add Pos.succ Pos.add_carry].
  rewrite !Z.shiftr_div_pow2 by lia.
  destruct (Z.ltb_spec 1048524 bytes); [|exists 0; unit_bounds 1%Z].
  destruct (Z.ltb_spec 1073689395 bytes); [|exists 1; unit_bounds (1024)%Z].
  destruct (Z.ltb_spec 1099457940684 bytes); [|exists 2; unit_bounds (1048576)%Z].
  destruct (Z.ltb_spec 1125844931261235 bytes); [|exists 3; unit_bounds (1073741824)%Z].
  destruct (Z.ltb_spec 1152865209611504844 bytes);
    [exists 5; unit_bounds (1125899906842624)%Z|
     exists 4; unit_bounds (1099511627776)%Z].
Qed.

(** For every 64-bit number of bytes from 1024 on, the text is a number with two decimals from 1.00 to 1023.95 and one of the units K, M, G, T, P
    and E: the table of units is not overrun, no number is shown as 0.99 or 1024.00 of a unit, and what is shown differs from the
    number of bytes by less than 0.006 of the unit. *)
Theorem human_readable_bounds bytes :
  (1024 <= bytes < 2 ^ 64)%Z →
  ∃ k u h, units !! k = Some u ∧ HumanReadableByteCountBin bytes = Some (setw 5 (fixed2 h) ++ str " " ++ [u]) ∧
    (100 <= h <= 102395)%Z ∧ (10 * Z.abs (h * 1024 ^ (Z.of_nat k + 1) - 100 * bytes) < 6 * 1024 ^ (Z.of_nat k + 1))%Z.
Proof.
  intros Hb. destruct (scale_spec bytes Hb) as (k & Hk & Es & Hv). destruct (units !! k) as [u|] eqn:Eu;
    [|apply lookup_ge_None in Eu; cbn in Eu; lia].
  set (v := (bytes / 1024 ^ Z.of_nat k)%Z) in *. pose proof (hundredths_near v) as Hh. exists k, u, (hundredths v). split; [done|]. split.
  { unfold HumanReadableByteCountBin. rewrite (proj2 (Z.ltb_ge _ _)) by lia. rewrite Es. cbn -[units str fixed2 setw]. by rewrite Eu. }
  split; [lia|]. assert (0 < 1024 ^ Z.of_nat k)%Z as HP by (apply Z.pow_pos_nonneg; lia).
  rewrite Z.pow_add_r, Z.pow_1_r by lia. pose proof (Z.div_mod bytes (1024 ^ Z.of_nat k) ltac:(lia)) as Ed.
  pose proof (Z.mod_pos_bound bytes (1024 ^ Z.of_nat k) HP) as Hm. fold v in Ed. set (P := (1024 ^ Z.of_nat k)%Z) in *.
  set (m := (bytes mod P)%Z) in *. clearbody m P. generalize dependent (hundredths v). intros h Hh.
  assert (2 * Z.abs (P * (1024 * h - 100 * v)) <= 1024 * P)%Z as Hmul by (rewrite Z.abs_mul, (Z.abs_eq P) by lia; nia).
  rewrite Ed. replace (h * (P * 1024) - 100 * (P * v + m))%Z with (P * (1024 * h - 100 * v) - 100 * m)%Z by ring. lia.
Qed.

(** ** Examples *)

Lemma path_parts_witness : splits (str "/a//b/") (str "/a") (str "b").
Proof. apply (path_parts (str "/a//b/") (str "/a") (str "b")); [done|]. split; reflexivity. Defined.

Lemma write_file_result_witness :
  Forall (λ n, n ≠ 0%Z) [2; -1; 1]%Z ∧
  ∃ r file', WriteFileWithBuffer true true [2; -1; 1]%Z (Some (str "old")) (str "new") = Some (r, file') ∧
    (r = 3%Z → file' = Some (str "new")) ∧ ∃ t, file' = Some t ∧ t `prefix_of` str "new".
Proof.
  assert (Forall (λ n, n ≠ 0%Z) [2; -1; 1]%Z) as Hn by (repeat constructor; lia). split; [exact Hn|].
  destruct (write_file_result true true [2; -1; 1]%Z (Some (str "old")) (str "new") Hn ltac:(vm_compute; lia) ltac:(done))
    as (r & file' & E & H1 & _ & H2).
  exists r, file'. split; [exact E|]. split; [exact H1|exact H2].
Defined.

Example human_1 : HumanReadableByteCountBin 1536 = Some (str " 1.50 K").
Proof. reflexivity. Qed.
Example human_2 : HumanReadableByteCountBin (2 ^ 64 - 1) = Some (str "16.00 E").
Proof. vm_compute. reflexivity. Qed.
Example base_1 : Basename (str "/dir//file.cc") = str "file.cc".
Proof. reflexivity. Qed.
Example dir_1 : Dirname (str "/dir//file.cc/") = str "/dir".
Proof. reflexivity. Qed.
Example expand_1 : ExpandUser None None (λ _, Some (str "/h/u")) (str "~u//x") = str "/h/u/x".
Proof. vm_compute. reflexivity. Qed.

End Utils.
